(* ===== verification/_CoqProject ===== *)
-Q . S2P
Prelude.v
Slice.v
BigEndian.v
RocksStatus.v
IOStatus.v
StatusCode.v
RocksDB.v
KindImpl.v
StoreImpl.v
StoreLemmas.v
KueueImpl.v
StoreSpec.v
MemDB.v
StoreProps.v
StoreMaintenance.v
StoreLifecycle.v
StoreDemo.v
KueueSpec.v
KueueRecovery.v
KueueConc.v
Bytes.v
KueueManager.v
KueueDemo.v
RocksException.v
KVStore.v
KVStoreSpec.v
ClientDemo.v
Logger.v
SmallEnumSet.v
IntervalSet.v
IntervalSpec.v
OptionsType.v
OptionsSpec.v
KueueLink.v
ObjectRegistry.v
RegistrySpec.v
Customizable.v
RegistryDemo.v
MultiScan.v
MultiScanSpec.v
WideColumns.v
WideColumnsSpec.v
WideDemo.v
Dispatch.v
FsFiles.v
FsFilesSpec.v
FileSystem.v
FileSystemSpec.v
EnvFiles.v
Env.v
EnvMirror.v
EnvMirrorSpec.v
Cleanable.v
Inner.v
Transaction.v
CompactionFilter.v
Db.v
DbSpec.v
EnvSpec.v
WriteBuffer.v
BatchHandler.v
EnvDemo.v
ObjectsDemo.v
Cache.v
CacheSpec.v
Compression.v
CompressionSpec.v
Statistics.v
RateLimiter.v
SystemClock.v
Comparator.v
MemTableRep.v
BackupEngine.v
Metadata.v
CBindings.v
TransactionDb.v
Batches.v
Extensions.v
Tools.v
CachesDemo.v
