(* ===== verification/Prelude.v ===== *)
(** * librocks: a verification of the library's own code

    librocks.dll wraps a RocksDB transaction database in a small C interface with a status cell
    per call, adds persistent queues on top of it, and comes with a C++ client.  This library
    models that code, definition by definition, and proves what it does.

    ** The program and the files that model it

    The names of the definitions are those of the code.  From the bottom up:

    - Values of RocksDB's headers the code passes around.  [Slice.v] (include/rocksdb/slice.h):
      pointers with lengths, their order and prefixes.  [RocksStatus.v] and [IOStatus.v]
      (status.h, io_status.h): codes, predicates, factories, copies and moves.
    - [StatusCode.v] (include/api/StatusCode.h, [assign] of include/impl/utils.h): the codes of the
      C interface and the cell a call reports through; a null cell is [None].
    - [RocksDB.v]: the engine itself, which is compiled elsewhere.  The class [External] lists the
      calls the code makes, on an abstract state of the world; [ExternalSpec] states what their
      documentation promises, over the history of the writes of each key.  [MemDB.v] is an
      in-memory database that keeps these promises and can be told to fail; the concrete runs and
      the witnesses of the theorems use it.
    - [KindImpl.v] (KindImpl.h, KindImpl.cpp): the objects that stand for column families.
    - [StoreImpl.v] (StoreImpl.h, StoreImpl.cpp): the store.  Its state is the record [proc]: the
      object's fields with its mutex, the kind objects, the arrays of [char] handed out, and the
      world.  One definition per method; undefined behaviour, a second lock of the mutex by its
      owner included, is the outcome [Undef] of the monad [M].
    - [BigEndian.v], [KueueImpl.v] (KueueImpl.h): the queue's keys, and its methods as one thread
      runs them, on top of the store's methods.  [KueueConc.v]: all of them between threads ([erase]
      and [clear] too), as steps at the grain of one access to a lock, the condition variable, the
      counter, a key or the store, with the keys and the counter at their widths.
    - [KueueManager.v] (KueueManagerImpl.h, librocks.cpp): opening, and the manager that keeps one
      queue per name.
    - [Bytes.v], [RocksException.v], [KVStore.v] (src/client, include/client): the client's byte
      strings over a memory of arrays and objects, its exception, and its store, whose calls either
      return or throw.
    - [Logger.v] (SimpleLogger.h, SimpleLogger.cpp, utils.cpp): the log, with what it asks of
      Windows as a class.
    - [SmallEnumSet.v], [IntervalSet.v] (include/rocksdb/data_structure.h): sets of enumerators as
      bits, owned pointers, and sets of intervals that merge, in both versions of the header.
    - [OptionsType.v] (include/rocksdb/utilities/options_type.h, [ConfigOptions] of convenience.h):
      the description of one option and the code that turns options into text and back.
    - [ObjectRegistry.v] (include/rocksdb/utilities/object_registry.h): patterns of names, libraries
      of factories, and the registry that makes objects by name and shares the ones it manages, over
      a store of objects and their owners.  [Customizable.v] (customizable_util.h): objects made and
      configured, through the registry.
    - [MultiScan.v] (include/rocksdb/multi_scan.h, [MultiScanArgs] of options.h): the iterators a
      range-based [for] over one or several scans runs on, with exceptions as values and what their
      destructors assert; the loops of the header's example.
    - [WideColumns.v] (include/rocksdb/wide_columns.h): objects whose columns are slices of their own
      value, over a memory of arrays with addresses, because a move compares them.
    - [Dispatch.v]: objects with virtual methods.  The methods of a class are the constructors of a
      type of calls, with the types of their answers; an object is what it does at each call, over
      its own state; a client is a program of calls; and a simulation between two objects is that no
      client tells them apart.  The interfaces that follow are modelled this way, with one
      definition for the object that overrides nothing and one for each wrapper.
    - [FsFiles.v], [FileSystem.v] (include/rocksdb/file_system.h): files, directories, file systems,
      the debug context of a request.  [EnvFiles.v], [Env.v] (env.h): the older interface, with its
      loggers.  [EnvMirror.v] (utilities/env_mirror.h): two environments that are to agree.
    - [Db.v] (db.h, utilities/stackable_db.h): the calls of a database, what it inherits, and the
      database stacked on another.  [Transaction.v] (utilities/transaction.h), [BatchHandler.v]
      (write_batch.h), [CompactionFilter.v] (compaction_filter.h), [WriteBuffer.v]
      (write_buffer_manager.h): what these base classes do themselves.
    - [Cleanable.v] (cleanable.h): the linked list of cleanups over a heap of nodes.  [Inner.v]
      (customizable.h): objects inside objects, looked through by name.
    - [TransactionDb.v] (utilities/transaction_db.h): the abstract class of the database the library's
      store stands on: its options, deadlocks, snapshots by timestamp, and what it changes of a stacked
      database, under the methods of a derived class, which are an argument.
      [Batches.v] (write_batch_base.h, write_batch.h, utilities/write_batch_with_index.h): the calls of
      a batch, with and without an index.
    - [Cache.v] (advanced_cache.h, secondary_cache.h), [Compression.v] (advanced_compression.h),
      [Statistics.v] (statistics.h), [RateLimiter.v], [SystemClock.v], [Comparator.v], [MemTableRep.v]
      (the headers of these names): the objects a database is put together from, as interfaces with
      what a class inherits and with their wrappers; the helpers of a cache are a store of objects
      with what their constructor asserts.  [Extensions.v]: the smaller interfaces that users of the
      library implement, from iterators to listeners, one Section each.
    - [BackupEngine.v] (utilities/backup_engine.h): the options of backups, how shared files are named,
      and the overloads of creating and restoring one.  [Metadata.v] (metadata.h): descriptions of
      files; a number that a constructor leaves unset is [None].
    - [CBindings.v] (c.h): the constants of the C bindings beside the enumerations they stand for.
      [Tools.v] (advanced_options.h, utilities/ldb_cmd_execute_result.h,
      utilities/table_properties_collectors.h): flags, results of commands, figures on tables; a
      [double] is one of the Standard Library's specification of floating-point numbers.

    ** What the theorems show

    - The store ([StoreLemmas.v], [StoreSpec.v], [StoreProps.v], [StoreMaintenance.v],
      [StoreLifecycle.v]): every call, alone and in sequences, refines an abstract store (a write is
      all or nothing, a read answers what the history of the key determines), finishes without
      undefined behaviour, frees the lock and leaks no transaction; what is refused and how; range
      removal, the ends of the key space, compaction, the rhythm of syncs; construction, kinds and
      closing, with the consequences of the order in which [close] does things.
    - The queue ([KueueSpec.v], [KueueRecovery.v]): the calls refine a first-in first-out queue,
      over whole runs and after a restart; between threads ([KueueConc.v]) it is first-in first-out
      for every interleaving of fewer than 2^63 puts, as long as clients erase only keys that values
      were put under, and its locks do not deadlock, whatever is erased; and the two models agree
      ([KueueLink.v]): a call is a run of one thread's steps of that call, with the same answer and
      the same queue left, and those steps have no other ends than the calls.
    - The manager: one object per name, and closing is final.
    - The client ([KVStoreSpec.v], [Bytes.v]): the same abstract store with errors as exceptions,
      results that own their memory, and no array deleted twice or lost by copies and moves.
    - The log writes one line per enabled statement.
    - The data structures: a [SmallEnumSet] is the set of its members, and an [IntervalSet]
      ([IntervalSpec.v]) covers the union of what was inserted, and the gap below an infinite
      interval.  Options ([OptionsSpec.v]) read back from the text they were written as, and parsing
      ends on every text.
    - Objects made by name ([RegistrySpec.v]): who owns what is made, on every branch; a managed
      object is shared, unless it was asked for by the name of its class; with a configuration, the
      status is the verdict on it.
    - Scans ([MultiScanSpec.v]) visit every range and every entry in order and end; failures at the
      start are thrown, and a failure later stops a program built with assertions.
    - Wide columns ([WideColumnsSpec.v]) always show bytes of the object's own value, however it came
      in and wherever a move puts it.
    - Wrappers ([FsFilesSpec.v], [FileSystemSpec.v], [EnvSpec.v], [DbSpec.v],
      [CacheSpec.v], [CompressionSpec.v], [SystemClock.v]): no
      client tells a wrapped object from the object, but for the calls that a wrapper forgets, which
      are listed; inherited methods of a database end.  A mirror ([EnvMirrorSpec.v]) of two copies is
      the first of them, one of any two environments answers what both confirm, and each gets its own
      locks back.
    - Files: what is preallocated has no gaps, a batch of reads is the reads, the attributes of a
      directory are the names and sizes, a copied debug context owns its request id.  A transaction's
      and a database's reads into slices and strings are the same reads.
    - What a class overrides is what its clients see: a transactional database that does
      not delete ranges in its own way refuses to, whoever asks; writes to no column family are writes
      to the null one; an indexed batch refuses without a trace; an older generation of an interface is
      asked its own way (collectors, filters, limiters, statistics, memtables), a comparator is its
      order, and a listener hears what it overrides.
    - Helpers of caches are well-formed whichever constructor made them; backups are created one way,
      and the naming scheme and its flags come apart again; the constants of the C bindings are
      compared with the enumerators, with the ones that disagree listed; figures on one file are zero or
      one, in double precision.
    - Cleanups are called once each and their nodes freed, whatever the list looks like; casts find the
      outermost object of a name; handlers and filters of old interfaces see what they can understand;
      memtables are flushed at seven eighths of their budget.
    - Where the code does something its author did not mean, a theorem shows the run: queues that
      strand a value, lost wake-ups, leaks, double deletes, an option read back as several.

    Concrete runs and the witnesses of the theorems are in the files named Demo, or at the end of
    the file of the theorem where that needs no database.

    ** Conventions, bounds and fuel

    Machine integers are [Z] with their wrap-around written out ([u64], [i64] below); the texts and
    values are lists of bytes; addresses are positive numbers and null is [None]; an assertion that
    fails is [Undef AssertFailed].  Some loops need fuel.  [clear_loop] of the queue gets one step more
    than its counter; [skip_loop] and [iterate] of [SmallEnumSet] get one step more than the
    pieces and the enumerators; the option parsers get two more than the characters of the text;
    the loops over scans get one more than the entries, and than the ranges; running cleanups gets one
    more than the nodes there are, a search through objects one more than the objects, and a call of an
    object one to three inherited methods ([virtual] of [Dispatch.v]; three for a database), which is
    as deep as the inherited methods call each other (the lemmas [.._settles]).  Each is proved to be enough: the theorems say that the call finishes, and running out of fuel is
    the outcome [Undef WaitsForever], which they exclude.

    ** Not modelled

    The compiled part of RocksDB and the headers that only declare it: the functions of c.h, which the
    program does not use, the structures of options (options.h, advanced_options.h, table.h, which have
    fields and no behaviour, but for the parts named above), experimental.h, env_encryption.h, the
    tool (ldb_cmd.h), and the rest of include/rocksdb; and what the modelled headers leave to it:
    opening a database, laying out and reading a batch, the caches and compressors themselves, ending
    a stall, opening the files of a mirror, copying files into a backup.  What the modelled headers
    only declare is a parameter, with its documented behaviour as laws: [NextToken], [Parse] and
    [Serialize] of options_type.h, [Matches] and the private lookups of object_registry.h, [MultiScanIterator::operator++] of multi_scan.h,
    the parsing of an entity in wide_columns.h.  The umbrella headers and abstract bases of
    include/api, which have no behaviour. *)
From Stdlib Require Export ZArith Lia.
From Corelib Require Export Init.Byte.
From Stdlib Require Strings.Byte.
From stdpp Require Export base gmap list strings fin_sets.

Declare Scope rocks_scope.
Delimit Scope rocks_scope with rocks.

(** ** Undefined behaviour and outcomes

    A C++ call either finishes with a value or runs into behaviour the language
    leaves undefined (or a lock that never comes).  The faults name which. *)

Variant fault :=
  | NullDeref | UseAfterFree | DoubleFree | OutOfBounds | SelfDeadlock | AssertFailed
  | UncaughtException | WaitsForever.

Inductive outcome (A : Type) :=
  | Done (a : A)
  | Undef (f : fault).
Arguments Done {A} _.
Arguments Undef {A} _.

#[export] Instance fault_eq_dec : EqDecision fault.
Proof. solve_decision. Defined.

#[export] Instance outcome_ret : MRet outcome := λ A a, Done a.
#[export] Instance outcome_bind : MBind outcome := λ A B k m,
  match m with Done a => k a | Undef f => Undef f end.
#[export] Instance outcome_fmap : FMap outcome := λ A B f m,
  match m with Done a => Done (f a) | Undef e => Undef e end.

Definition is_done {A} (m : outcome A) : bool :=
  match m with Done _ => true | Undef _ => false end.

(** [assert]: a failed assertion stops the program in a debug build. *)
Definition assert_that (b : bool) : outcome unit :=
  if b then Done tt else Undef AssertFailed.

(** ** A state monad with faults *)

Definition M (S A : Type) : Type := S → outcome (A * S).

#[export] Instance M_ret {S} : MRet (M S) := λ A a s, Done (a, s).
#[export] Instance M_bind {S} : MBind (M S) := λ A B k m s,
  match m s with
  | Done (a, s') => k a s'
  | Undef f => Undef f
  end.
#[export] Instance M_fmap {S} : FMap (M S) := λ A B f m s,
  match m s with
  | Done (a, s') => Done (f a, s')
  | Undef e => Undef e
  end.

Definition lift_outcome {S A} (m : outcome A) : M S A := λ s,
  match m with Done a => Done (a, s) | Undef f => Undef f end.
Definition undef {S A} (f : fault) : M S A := λ _, Undef f.
Definition gets {S A} (f : S → A) : M S A := λ s, Done (f s, s).
Definition modify {S} (f : S → S) : M S unit := λ s, Done (tt, f s).

(** Dereference of a pointer that may be null. *)
Definition deref {S A} (p : option A) : M S A :=
  match p with Some a => mret a | None => undef NullDeref end.

(** ** Weakest preconditions

    [wp m Q s]: from [s] the call [m] finishes, without undefined behaviour, and the
    value and state it ends with satisfy [Q]. *)

Definition wp {S A} (m : M S A) (Q : A → S → Prop) (s : S) : Prop :=
  match m s with
  | Done (a, s') => Q a s'
  | Undef _ => False
  end.

Section WP.
Context {S : Type}.
Implicit Types (s : S).

Lemma wp_ret {A} (a : A) Q s : Q a s → wp (mret a) Q s.
Proof. done. Qed.

Lemma wp_bind {A B} (m : M S A) (k : A → M S B) Q s :
  wp m (λ a, wp (k a) Q) s → wp (m ≫= k) Q s.
Proof. unfold wp, mbind, M_bind. by destruct (m s) as [[]|]. Qed.

Lemma wp_bind_inv {A B} (m : M S A) (k : A → M S B) Q s :
  wp (m ≫= k) Q s → wp m (λ a, wp (k a) Q) s.
Proof. unfold wp, mbind, M_bind. by destruct (m s) as [[]|]. Qed.

Lemma wp_gets {A} (f : S → A) Q s : Q (f s) s → wp (gets f) Q s.
Proof. done. Qed.

Lemma wp_modify (f : S → S) Q s : Q tt (f s) → wp (modify f) Q s.
Proof. done. Qed.

Lemma wp_deref {A} (p : option A) a Q s : p = Some a → Q a s → wp (deref p) Q s.
Proof. by intros ->. Qed.

Lemma wp_lift_outcome {A} (m : outcome A) a Q s :
  m = Done a → Q a s → wp (lift_outcome m) Q s.
Proof. by intros ->. Qed.

Lemma wp_mono {A} (m : M S A) (P Q : A → S → Prop) s :
  wp m P s → (∀ a s', P a s' → Q a s') → wp m Q s.
Proof. unfold wp. destruct (m s) as [[]|]; naive_solver. Qed.

Lemma wp_and {A} (m : M S A) (P Q : A → S → Prop) s :
  wp m P s → wp m Q s → wp m (λ a s', P a s' ∧ Q a s') s.
Proof. unfold wp. by destruct (m s) as [[]|]. Qed.

Lemma wp_done {A} (m : M S A) Q s a s' : m s = Done (a, s') → Q a s' → wp m Q s.
Proof. unfold wp. by intros ->. Qed.

Lemma wp_elim {A} (m : M S A) Q s : wp m Q s → ∃ a s', m s = Done (a, s') ∧ Q a s'.
Proof. unfold wp. destruct (m s) as [[a s']|]; [eauto|done]. Qed.

Lemma wp_eq {A} (m : M S A) a s s' : wp m (λ a' s'', a' = a ∧ s'' = s') s → m s = Done (a, s').
Proof. intros (a' & s'' & -> & -> & ->)%wp_elim. done. Qed.

Lemma bind_undef {A B} (m : M S A) (k : A → M S B) s f :
  m s = Undef f → (m ≫= k) s = Undef f.
Proof. unfold mbind, M_bind. by intros ->. Qed.

Lemma bind_done {A B} (m : M S A) (k : A → M S B) s a s' :
  m s = Done (a, s') → (m ≫= k) s = k a s'.
Proof. unfold mbind, M_bind. by intros ->. Qed.
End WP.

Create HintDb wp_db.
#[export] Hint Resolve wp_ret wp_gets wp_modify wp_bind : wp_db.

(** One symbolic step of a monadic call: binds, reads and writes of the state. *)
Ltac wp_step :=
  match goal with
  | |- wp (mbind _ _) _ _ => apply wp_bind
  | |- wp (mret _) _ _ => apply wp_ret
  | |- wp (gets _) _ _ => apply wp_gets
  | |- wp (modify _) _ _ => apply wp_modify
  | |- wp (deref (Some _)) _ _ => eapply wp_deref; [reflexivity|]
  end.
Ltac wp_steps := repeat (wp_step; cbn beta).

(** Use a specification of the call in front and carry on with what it promises. *)
Tactic Notation "wp_use" constr(H) "as" simple_intropattern(pat) :=
  eapply wp_mono; [apply H|intros pat].

(** ** Finite sets *)

Lemma union_absorb {A} `{Countable A} (X : gset A) t : t ∈ X → X ∪ {[ t ]} = X.
Proof. set_solver. Qed.
Lemma union_absorb_l {A} `{Countable A} (X : gset A) t : t ∈ X → {[ t ]} ∪ X = X.
Proof. set_solver. Qed.
Lemma union_empty {A} `{Countable A} (X : gset A) : X ∪ ∅ = X.
Proof. set_solver. Qed.
Lemma union_comm_single {A} `{Countable A} (X : gset A) t : {[ t ]} ∪ X = X ∪ {[ t ]}.
Proof. set_solver. Qed.
Lemma union_difference_fresh {A} `{Countable A} (X : gset A) t :
  t ∉ X → (X ∪ {[ t ]}) ∖ {[ t ]} = X.
Proof. set_solver. Qed.
Lemma in_union_single {A} `{Countable A} (X : gset A) t : t ∈ {[ t ]} ∪ X.
Proof. set_solver. Qed.
Lemma union_twice {A} `{Countable A} (X : gset A) t : X ∪ {[ t ]} ∪ {[ t ]} = X ∪ {[ t ]}.
Proof. set_solver. Qed.

Create HintDb sets_db.
#[export] Hint Resolve union_absorb union_absorb_l union_empty union_comm_single
  union_difference_fresh in_union_single union_twice : sets_db.

(** ** Machine integers *)

Local Open Scope Z_scope.

(** [unsigned __int64] and [size_t]: arithmetic modulo 2^64. *)
Definition u64 (z : Z) : Z := z mod 2 ^ 64.
(** [long long]: two's complement on 64 bits. *)
Definition i64 (z : Z) : Z := (z + 2 ^ 63) mod 2 ^ 64 - 2 ^ 63.

Lemma u64_bound z : 0 <= u64 z < 2 ^ 64.
Proof. apply Z.mod_pos_bound. lia. Qed.

Lemma u64_small z : 0 <= z < 2 ^ 64 → u64 z = z.
Proof. apply Z.mod_small. Qed.

Lemma i64_bound z : - 2 ^ 63 <= i64 z < 2 ^ 63.
Proof. unfold i64. pose proof (Z.mod_pos_bound (z + 2 ^ 63) (2 ^ 64) ltac:(lia)). lia. Qed.

Lemma i64_small z : - 2 ^ 63 <= z < 2 ^ 63 → i64 z = z.
Proof. intros H. unfold i64. rewrite Z.mod_small; lia. Qed.

Lemma u64_idemp_add_l a b : u64 (u64 a + b) = u64 (a + b).
Proof. unfold u64. apply Zplus_mod_idemp_l. Qed.

Create Rewrite HintDb ints.
#[export] Hint Rewrite u64_small i64_small using lia : ints.

(** ** Bytes *)

#[export] Instance byte_eq_dec : EqDecision byte := Byte.byte_eq_dec.
#[export] Program Instance byte_countable : Countable byte :=
  inj_countable Byte.to_N Byte.of_N _.
Next Obligation. intros b. apply Byte.of_to_N. Qed.

Definition byte_val (b : byte) : Z := Z.of_N (Byte.to_N b).
Definition byte_of_Z (z : Z) : byte :=
  default x00 (Byte.of_N (Z.to_N (z mod 256))).

Lemma byte_val_bound b : 0 <= byte_val b < 256.
Proof. unfold byte_val. pose proof (Byte.to_N_bounded b). lia. Qed.

Lemma byte_val_inj b1 b2 : byte_val b1 = byte_val b2 → b1 = b2.
Proof.
  unfold byte_val. intros H%N2Z.inj.
  pose proof (Byte.of_to_N b1) as E1. pose proof (Byte.of_to_N b2) as E2.
  rewrite H in E1. congruence.
Qed.

Lemma byte_val_of_Z z : byte_val (byte_of_Z z) = z mod 256.
Proof.
  unfold byte_val, byte_of_Z.
  pose proof (Z.mod_pos_bound z 256 ltac:(lia)) as Hb.
  destruct (Byte.of_N (Z.to_N (z mod 256))) as [b|] eqn:E; simpl.
  - apply Byte.to_of_N in E. rewrite E. lia.
  - apply Byte.of_N_None_iff in E. lia.
Qed.

Lemma byte_of_Z_val b : byte_of_Z (byte_val b) = b.
Proof.
  apply byte_val_inj. rewrite byte_val_of_Z.
  apply Z.mod_small, byte_val_bound.
Qed.

Create Rewrite HintDb bytes.
#[export] Hint Rewrite byte_val_of_Z byte_of_Z_val : bytes.

(** [std::string(const char* )]: the characters before the first NUL. *)
Fixpoint c_str (s : string) : string :=
  match s with
  | EmptyString => EmptyString
  | String c s' => if decide (c = Ascii.zero) then EmptyString else String c (c_str s')
  end.

Lemma c_str_idemp s : c_str (c_str s) = c_str s.
Proof.
  induction s as [|c s IH]; simpl; [done|].
  case_decide; simpl; [done|]. case_decide; [done|]. by rewrite IH.
Qed.
#[export] Hint Rewrite c_str_idemp : bytes.

(** A string literal as the bytes of a [std::string]. *)
Definition str (s : string) : list byte := String.list_byte_of_string s.
