(* ===== verification/Slice.v ===== *)
(** Slices of bytes (include/rocksdb/slice.h): the pointer-and-length pairs every key and
    value travels in, their bytewise order, prefix tests, optional and pinnable slices. *)
From stdpp Require Import sorting.
From S2P Require Import Prelude.

Local Open Scope Z_scope.

(** ** Memory reads *)

(** What a [const char*] points at: [None] is the null pointer, [Some b] a pointer from
    which exactly the bytes [b] may be read. *)
Abbreviation char_ptr := (option (list byte)).

(** Read [n] bytes.  Reading none is harmless whatever the pointer. *)
Definition read_mem (p : char_ptr) (n : Z) : outcome (list byte) :=
  if decide (n = 0) then Done []
  else match p with
       | None => Undef NullDeref
       | Some b => if decide (0 <= n <= Z.of_nat (length b)) then Done (take (Z.to_nat n) b)
                   else Undef OutOfBounds
       end.

(** [memcmp] on two arrays of the same length; C fixes only the sign of its result. *)
Fixpoint memcmp (a b : list byte) : Z :=
  match a, b with
  | x :: a', y :: b' =>
      match byte_val x ?= byte_val y with
      | Lt => -1
      | Gt => 1
      | Eq => memcmp a' b'
      end
  | _, _ => 0
  end.

(** The order of byte strings RocksDB's default comparator uses. *)
Fixpoint lex (a b : list byte) : comparison :=
  match a, b with
  | [], [] => Eq
  | [], _ :: _ => Lt
  | _ :: _, [] => Gt
  | x :: a', y :: b' =>
      match byte_val x ?= byte_val y with
      | Eq => lex a' b'
      | c => c
      end
  end.

Definition sign (c : comparison) : Z :=
  match c with Lt => -1 | Eq => 0 | Gt => 1 end.

(** ** [class Slice] *)

Record Slice := mkSlice {
  data_ : char_ptr;
  size_ : Z;
}.

Definition empty_slice : Slice := mkSlice (Some []) 0.
Definition Slice_of_string (s : list byte) : Slice := mkSlice (Some s) (Z.of_nat (length s)).

Definition data (s : Slice) : char_ptr := data_ s.
Definition size (s : Slice) : Z := size_ s.
Definition empty (s : Slice) : bool := bool_decide (size_ s = 0).

Definition slice_at (s : Slice) (n : Z) : outcome byte :=
  assert_that (bool_decide (n < size_ s)) ;;
  match data_ s with
  | None => Undef NullDeref
  | Some b => if decide (0 <= n) then
                match b !! Z.to_nat n with Some c => Done c | None => Undef OutOfBounds end
              else Undef OutOfBounds
  end.

Definition clear (_ : Slice) : Slice := empty_slice.

(** [data_ += n; size_ -= n] *)
Definition remove_prefix (n : Z) (s : Slice) : outcome Slice :=
  assert_that (bool_decide (n <= size_ s)) ;;
  if decide (n = 0) then Done s
  else match data_ s with
       | None => Undef NullDeref
       | Some b => Done (mkSlice (Some (drop (Z.to_nat n) b)) (u64 (size_ s - n)))
       end.

Definition remove_suffix (n : Z) (s : Slice) : outcome Slice :=
  assert_that (bool_decide (n <= size_ s)) ;;
  Done (mkSlice (data_ s) (u64 (size_ s - n))).

(** Bytes [off, off + n) behind the pointer. *)
Definition read_at (p : char_ptr) (off n : Z) : outcome (list byte) :=
  if decide (n = 0) then Done [] else read_mem (drop (Z.to_nat off) <$> p) n.

Definition slice_eq (x y : Slice) : outcome bool :=
  if decide (size_ x = size_ y) then
    bx ← read_mem (data_ x) (size_ x);
    by_ ← read_mem (data_ y) (size_ x);
    Done (bool_decide (memcmp bx by_ = 0))
  else Done false.

Definition slice_ne (x y : Slice) : outcome bool := negb <$> slice_eq x y.

Definition starts_with (s x : Slice) : outcome bool :=
  if decide (size_ x <= size_ s) then
    a ← read_mem (data_ s) (size_ x);
    b ← read_mem (data_ x) (size_ x);
    Done (bool_decide (memcmp a b = 0))
  else Done false.

Definition ends_with (s x : Slice) : outcome bool :=
  if decide (size_ x <= size_ s) then
    a ← read_at (data_ s) (size_ s - size_ x) (size_ x);
    b ← read_mem (data_ x) (size_ x);
    Done (bool_decide (memcmp a b = 0))
  else Done false.

Definition compare (s b : Slice) : outcome Z :=
  assert_that (bool_decide (data_ s ≠ None ∧ data_ b ≠ None)) ;;
  let min_len := if decide (size_ s < size_ b) then size_ s else size_ b in
  x ← read_mem (data_ s) min_len;
  y ← read_mem (data_ b) min_len;
  let r := memcmp x y in
  Done (if decide (r = 0) then
          if decide (size_ s < size_ b) then -1
          else if decide (size_ b < size_ s) then 1 else r
        else r).

(** The [for] loop of [difference_offset], [len - off] iterations left. *)
Fixpoint difference_loop (fuel : nat) (a b : list byte) (off : Z) : Z :=
  match fuel with
  | O => off
  | S fuel' =>
      match a, b with
      | x :: a', y :: b' =>
          if decide (x = y) then difference_loop fuel' a' b' (off + 1) else off
      | _, _ => off
      end
  end.

Definition difference_offset (s b : Slice) : outcome Z :=
  let len := if decide (size_ s < size_ b) then size_ s else size_ b in
  x ← read_mem (data_ s) len;
  y ← read_mem (data_ b) len;
  Done (difference_loop (Z.to_nat len) x y 0).

(** ** [class OptSlice] *)

Definition SIZE_MAX : Z := 2 ^ 64 - 1.

Record OptSlice := mkOptSlice { slice_ : Slice }.

Definition OptSlice_none : OptSlice := mkOptSlice (mkSlice None SIZE_MAX).
Definition OptSlice_of (s : Slice) : OptSlice := mkOptSlice s.
Definition has_value (o : OptSlice) : bool := bool_decide (size_ (slice_ o) ≠ SIZE_MAX).
Definition value (o : OptSlice) : outcome Slice :=
  assert_that (has_value o) ;; Done (slice_ o).
Definition AsPtr (o : OptSlice) : option Slice :=
  if has_value o then Some (slice_ o) else None.
Definition CopyFromPtr (p : option Slice) : OptSlice :=
  match p with Some s => OptSlice_of s | None => OptSlice_none end.

(** ** What a well-formed slice denotes *)

Definition slice_wf (s : Slice) : Prop :=
  0 <= size_ s < 2 ^ 64 ∧ ∃ b, data_ s = Some b ∧ size_ s <= Z.of_nat (length b).

Definition contents (s : Slice) : list byte :=
  take (Z.to_nat (size_ s)) (default [] (data_ s)).

(** ** Lemmas *)

Lemma lex_refl a : lex a a = Eq.
Proof. induction a as [|x a IH]; simpl; [done|]. by rewrite Z.compare_refl. Qed.

Lemma lex_eq a b : lex a b = Eq ↔ a = b.
Proof.
  split; [|intros ->; apply lex_refl].
  revert b. induction a as [|x a IH]; intros [|y b]; simpl; try done.
  destruct (Z.compare_spec (byte_val x) (byte_val y)) as [E| |]; try done.
  intros H. apply byte_val_inj in E. by rewrite E, (IH b).
Qed.

Lemma lex_antisym a b : lex b a = CompOpp (lex a b).
Proof.
  revert b. induction a as [|x a IH]; intros [|y b]; simpl; try done.
  rewrite (Z.compare_antisym (byte_val x) (byte_val y)).
  destruct (byte_val x ?= byte_val y); simpl; auto.
Qed.

Lemma lex_lt_trans a b c : lex a b = Lt → lex b c = Lt → lex a c = Lt.
Proof.
  revert b c. induction a as [|x a IH]; intros [|y b] [|z c]; simpl; try done.
  destruct (Z.compare_spec (byte_val x) (byte_val y)) as [E1|L1|G1]; try done;
  destruct (Z.compare_spec (byte_val y) (byte_val z)) as [E2|L2|G2]; try done;
  intros H1 H2; destruct (Z.compare_spec (byte_val x) (byte_val z)); try lia; eauto.
Qed.

(** Comparing a prefix of a list decides before its end is reached, or not at all. *)
Lemma memcmp_lex a b :
  length a = length b → memcmp a b = sign (lex a b).
Proof.
  revert b. induction a as [|x a IH]; intros [|y b]; simpl; try done.
  intros [= H]. destruct (byte_val x ?= byte_val y); simpl; auto.
Qed.

Lemma memcmp_eq a b : length a = length b → memcmp a b = 0 ↔ a = b.
Proof.
  intros Hl. rewrite (memcmp_lex a b Hl), <- lex_eq.
  destruct (lex a b); simpl; split; done || lia.
Qed.

Lemma bool_decide_memcmp a b :
  length a = length b → bool_decide (memcmp a b = 0) = bool_decide (a = b).
Proof. intros H. apply bool_decide_ext, memcmp_eq, H. Qed.

(** Lexicographic order by the common prefix, then by length: the code's way. *)
Lemma lex_take a b n :
  n = min (length a) (length b) →
  lex a b = match lex (take n a) (take n b) with
            | Eq => Nat.compare (length a) (length b)
            | c => c
            end.
Proof.
  revert b n. induction a as [|x a IH]; intros [|y b] n ->; simpl; try done.
  destruct (byte_val x ?= byte_val y); auto.
Qed.

Lemma read_mem_done p b n :
  p = Some b → 0 <= n <= Z.of_nat (length b) →
  read_mem p n = Done (take (Z.to_nat n) b).
Proof.
  intros -> Hn. unfold read_mem. case_decide as H0.
  - by rewrite H0.
  - by rewrite decide_True.
Qed.

Lemma read_at_done p b off n :
  p = Some b → 0 <= off → 0 <= n → off + n <= Z.of_nat (length b) →
  read_at p off n = Done (take (Z.to_nat n) (drop (Z.to_nat off) b)).
Proof.
  intros -> Ho Hn Hl. unfold read_at. case_decide as H0.
  - by rewrite H0.
  - apply read_mem_done; [done|]. rewrite length_drop. lia.
Qed.

Lemma contents_of_string s : contents (Slice_of_string s) = s.
Proof. unfold contents; simpl. rewrite Nat2Z.id. by apply firstn_all. Qed.

Lemma length_contents s : slice_wf s → Z.of_nat (length (contents s)) = size_ s.
Proof.
  intros (Hs & b & Hb & Hl). unfold contents. rewrite Hb; simpl.
  rewrite length_take. lia.
Qed.

Lemma read_contents s : slice_wf s → read_mem (data_ s) (size_ s) = Done (contents s).
Proof.
  intros (Hs & b & Hb & Hl). rewrite (read_mem_done _ b) by (done || lia).
  unfold contents. by rewrite Hb.
Qed.

(** Reading fewer bytes than the slice holds reads a prefix of its contents. *)
Lemma read_prefix s n :
  slice_wf s → 0 <= n <= size_ s →
  read_mem (data_ s) n = Done (take (Z.to_nat n) (contents s)).
Proof.
  intros (Hs & b & Hb & Hl) Hn. rewrite (read_mem_done _ b) by (done || lia).
  unfold contents. rewrite Hb; simpl. rewrite take_take. do 2 f_equal. lia.
Qed.

Create HintDb slice_db.
#[export] Hint Resolve length_contents read_contents read_prefix : slice_db.

Lemma size_contents s : slice_wf s → Z.to_nat (size_ s) = length (contents s).
Proof. intros H. rewrite <- (length_contents s H). lia. Qed.

Lemma slice_eq_contents x y :
  slice_wf x → slice_wf y →
  slice_eq x y = Done (bool_decide (contents x = contents y)).
Proof.
  intros Hx Hy. unfold slice_eq. case_decide as E.
  - rewrite (read_contents x Hx). simpl. rewrite E, (read_contents y Hy). simpl.
    rewrite bool_decide_memcmp; [done|].
    apply Nat2Z.inj. by rewrite !length_contents.
  - rewrite bool_decide_false; [done|]. intros Hc. apply E.
    by rewrite <- !length_contents, Hc.
Qed.

Lemma starts_with_contents s x :
  slice_wf s → slice_wf x →
  starts_with s x = Done (bool_decide (contents x `prefix_of` contents s)).
Proof.
  intros Hs Hx. unfold starts_with. case_decide as E.
  - rewrite (read_prefix s) by (destruct Hx; lia || done).
    rewrite read_contents by done. simpl.
    rewrite (size_contents x Hx). rewrite bool_decide_memcmp.
    2: { rewrite length_take. pose proof (length_contents s Hs).
         pose proof (length_contents x Hx). lia. }
    f_equal. apply bool_decide_ext. split.
    + intros <-. apply prefix_take.
    + intros [k Hk]. by rewrite Hk, take_app_length.
  - rewrite bool_decide_false; [done|]. intros Hp%prefix_length.
    pose proof (length_contents s Hs). pose proof (length_contents x Hx). lia.
Qed.

Lemma ends_with_contents s x :
  slice_wf s → slice_wf x →
  ends_with s x = Done (bool_decide (contents x `suffix_of` contents s)).
Proof.
  intros Hs Hx. unfold ends_with.
  pose proof (length_contents s Hs) as Ls. pose proof (length_contents x Hx) as Lx.
  case_decide as E.
  - destruct Hs as (Hs & b & Hb & Hl). rewrite (read_at_done _ b) by (done || lia).
    rewrite read_contents by done. simpl.
    assert (take (Z.to_nat (size_ x)) (drop (Z.to_nat (size_ s - size_ x)) b) =
            drop (length (contents s) - length (contents x)) (contents s)) as Heq.
    { assert (contents s = take (Z.to_nat (size_ s)) b) as Ec
        by (unfold contents; by rewrite Hb).
      rewrite Ec at 2. rewrite skipn_firstn_comm. f_equal; [lia|]. f_equal. lia. }
    rewrite Heq. rewrite bool_decide_memcmp by (rewrite length_drop; lia).
    f_equal. apply bool_decide_ext. split.
    + intros <-. apply suffix_drop.
    + intros [k Hk]. rewrite Hk at 2. rewrite drop_app_length'; [done|].
      rewrite Hk, length_app. lia.
  - rewrite bool_decide_false; [done|]. intros Hp%suffix_length. lia.
Qed.

Lemma difference_loop_spec n a b off :
  n = min (length a) (length b) →
  ∃ k, difference_loop n a b off = off + Z.of_nat k ∧ (k <= n)%nat ∧
       take k a = take k b ∧ ((k < n)%nat → a !! k ≠ b !! k).
Proof.
  revert n b off. induction a as [|x a IH]; intros n [|y b] off ->; simpl;
    try (exists 0%nat; split_and!; simpl; done || lia).
  case_decide as E.
  - destruct (IH _ b (off + 1) eq_refl) as (k & -> & Hk & Ht & Hne).
    exists (S k). split_and!; [lia|lia| |].
    + simpl. by rewrite E, Ht.
    + simpl. intros. apply Hne. lia.
  - exists 0%nat. split_and!; [lia|lia|done|]. simpl. congruence.
Qed.

Lemma remove_prefix_contents n s s' :
  slice_wf s → 0 <= n → remove_prefix n s = Done s' →
  slice_wf s' ∧ contents s' = drop (Z.to_nat n) (contents s).
Proof.
  intros (Hs & b & Hb & Hl) Hn. unfold remove_prefix, assert_that, mbind, outcome_bind.
  case_bool_decide as Hle; [|done]. case_decide as H0.
  - intros [= <-]. split; [|by rewrite H0]. split; [done|]. by exists b.
  - rewrite Hb. intros [= <-]. rewrite u64_small by lia. split.
    + split; simpl; [lia|]. exists (drop (Z.to_nat n) b). split; [done|].
      rewrite length_drop. lia.
    + unfold contents; simpl. rewrite Hb; simpl. rewrite skipn_firstn_comm.
      f_equal. lia.
Qed.

Lemma remove_suffix_contents n s s' :
  slice_wf s → 0 <= n → remove_suffix n s = Done s' →
  slice_wf s' ∧ contents s' = take (length (contents s) - Z.to_nat n) (contents s).
Proof.
  intros Hwf Hn. pose proof (length_contents s Hwf) as Lc.
  destruct Hwf as (Hs & b & Hb & Hl). unfold remove_suffix, assert_that, mbind, outcome_bind.
  case_bool_decide as Hle; [|done]. intros [= <-]. rewrite u64_small by lia. split.
  - split; simpl; [lia|]. exists b. split; [done|]. lia.
  - unfold contents at 1 3. simpl. rewrite Hb; simpl. rewrite take_take. f_equal. lia.
Qed.

(** ** [class Cleanable] and [class PinnableSlice]

    [RegisterCleanup] and [DelegateCleanupsTo] are compiled into the library; a cleanup is
    known here by its function and arguments, and running one is recorded in a log. *)

Section Pinnable.
Context {Cleanup : Type}.
Context (RegisterCleanup : Cleanup → list Cleanup → list Cleanup).
Context (DelegateCleanupsTo : list Cleanup → list Cleanup → list Cleanup * list Cleanup).

(** [cleanup_]: the registered cleanups, the inline head first; empty when the head's
    function is null. *)
Record PinnableSlice := mkPinnable {
  p_slice : Slice;
  cleanup_ : list Cleanup;
  buf_ : list byte;
  pinned_ : bool;
}.

Definition new_PinnableSlice : PinnableSlice := mkPinnable empty_slice [] [] false.

(** [Cleanable::DoCleanup] runs the head and then the list behind it, in order. *)
Definition DoCleanup (p : PinnableSlice) : list Cleanup := cleanup_ p.
Definition HasCleanups (p : PinnableSlice) : bool := bool_decide (cleanup_ p ≠ []).

Definition PinSlice_f (s : Slice) (c : Cleanup) (p : PinnableSlice) : outcome PinnableSlice :=
  assert_that (negb (pinned_ p)) ;;
  Done (mkPinnable s (RegisterCleanup c (cleanup_ p)) (buf_ p) true).

(** The cleanups of [cleanable] move over; the second component is what it keeps. *)
Definition PinSlice_c (s : Slice) (cleanable : option (list Cleanup)) (p : PinnableSlice) :
    outcome (PinnableSlice * option (list Cleanup)) :=
  assert_that (negb (pinned_ p)) ;;
  match cleanable with
  | Some cs =>
      let '(cs', mine) := DelegateCleanupsTo cs (cleanup_ p) in
      Done (mkPinnable s mine (buf_ p) true, Some cs')
  | None => Done (mkPinnable s (cleanup_ p) (buf_ p) true, None)
  end.

Definition PinSelf (p : PinnableSlice) : outcome PinnableSlice :=
  assert_that (negb (pinned_ p)) ;;
  Done (mkPinnable (Slice_of_string (buf_ p)) (cleanup_ p) (buf_ p) (pinned_ p)).

Definition PinSelf_slice (s : Slice) (p : PinnableSlice) : outcome PinnableSlice :=
  assert_that (negb (pinned_ p)) ;;
  b ← read_mem (data s) (size s);
  Done (mkPinnable (Slice_of_string b) (cleanup_ p) b (pinned_ p)).

(** [std::string::erase(pos, n)] throws past the end; the callers stay inside. *)
Definition erase (pos n : nat) (b : list byte) : list byte := take pos b ++ drop (pos + n) b.

Definition pin_remove_suffix (n : Z) (p : PinnableSlice) : outcome PinnableSlice :=
  assert_that (bool_decide (n <= size (p_slice p))) ;;
  if pinned_ p then
    Done (mkPinnable (mkSlice (data_ (p_slice p)) (u64 (size_ (p_slice p) - n)))
            (cleanup_ p) (buf_ p) (pinned_ p))
  else
    PinSelf (mkPinnable (p_slice p) (cleanup_ p)
               (erase (Z.to_nat (size (p_slice p) - n)) (Z.to_nat n) (buf_ p)) (pinned_ p)).

Definition pin_remove_prefix (n : Z) (p : PinnableSlice) : outcome PinnableSlice :=
  assert_that (bool_decide (n <= size (p_slice p))) ;;
  if pinned_ p then
    s ← remove_prefix n (p_slice p);
    Done (mkPinnable s (cleanup_ p) (buf_ p) (pinned_ p))
  else
    PinSelf (mkPinnable (p_slice p) (cleanup_ p) (erase 0 (Z.to_nat n) (buf_ p)) (pinned_ p)).

(** [Reset] runs the cleanups, which it returns in the order they ran. *)
Definition Reset (p : PinnableSlice) : PinnableSlice * list Cleanup :=
  (mkPinnable (mkSlice (data_ (p_slice p)) 0) [] (buf_ p) false, DoCleanup p).

Definition GetSelf (p : PinnableSlice) : list byte := buf_ p.
Definition IsPinned (p : PinnableSlice) : bool := pinned_ p.

(** A slice that is not pinned shows exactly its own buffer. *)
Definition pin_wf (p : PinnableSlice) : Prop :=
  slice_wf (p_slice p) ∧
  (pinned_ p = false → p_slice p = Slice_of_string (buf_ p)).

Lemma string_slice_wf b : Z.of_nat (length b) < 2 ^ 64 → slice_wf (Slice_of_string b).
Proof. intros H. split; simpl; [lia|]. exists b. split; [done|lia]. Qed.

Lemma length_string_contents p :
  pinned_ p = false → pin_wf p → contents (p_slice p) = buf_ p.
Proof. intros Hp [_ H]. by rewrite (H Hp), contents_of_string. Qed.

Lemma pin_remove_prefix_spec n p p' :
  pin_wf p → 0 <= n → pin_remove_prefix n p = Done p' →
  pin_wf p' ∧ contents (p_slice p') = drop (Z.to_nat n) (contents (p_slice p)).
Proof.
  intros Hwf Hn. pose proof (proj1 Hwf) as Hs.
  unfold pin_remove_prefix, assert_that, mbind, outcome_bind.
  case_bool_decide as Hle; [|done]. destruct (pinned_ p) eqn:Hp.
  - destruct (remove_prefix n (p_slice p)) as [s'|] eqn:E; [|done]. intros [= <-].
    destruct (remove_prefix_contents n _ s' Hs Hn E) as [Hw Hc].
    split; [split; [done|simpl; congruence]|done].
  - unfold PinSelf, assert_that, mbind, outcome_bind. simpl. intros [= <-]. simpl.
    rewrite contents_of_string, (length_string_contents p Hp Hwf).
    pose proof (length_contents _ Hs) as Hl. rewrite (length_string_contents p Hp Hwf) in Hl.
    unfold erase; simpl. split; [|done]. split; [|done].
    apply string_slice_wf. destruct Hs. rewrite length_drop. lia.
Qed.

Lemma pin_remove_suffix_spec n p p' :
  pin_wf p → 0 <= n → pin_remove_suffix n p = Done p' →
  pin_wf p' ∧
  contents (p_slice p') =
    take (length (contents (p_slice p)) - Z.to_nat n) (contents (p_slice p)).
Proof.
  intros Hwf Hn. pose proof (proj1 Hwf) as Hs.
  unfold pin_remove_suffix, assert_that, mbind, outcome_bind.
  case_bool_decide as Hle; [|done]. destruct (pinned_ p) eqn:Hp.
  - intros [= <-]. destruct (remove_suffix_contents n (p_slice p)
      (mkSlice (data_ (p_slice p)) (u64 (size_ (p_slice p) - n))) Hs Hn) as [Hw Hc].
    { unfold remove_suffix, assert_that. by rewrite bool_decide_true. }
    split; [split; [done|simpl; congruence]|done].
  - unfold PinSelf, assert_that, mbind, outcome_bind. simpl. intros [= <-]. simpl.
    rewrite contents_of_string, (length_string_contents p Hp Hwf).
    pose proof (length_contents _ Hs) as Hl. rewrite (length_string_contents p Hp Hwf) in Hl.
    unfold erase, size in *.
    rewrite (drop_ge (buf_ p)) by lia. rewrite app_nil_r.
    split; [split; [|done]|f_equal; lia].
    apply string_slice_wf. destruct Hs. rewrite length_take. lia.
Qed.
End Pinnable.

(** ** Properties *)

(** [Slice::compare] never reads outside its arguments and is the three-way
    lexicographic comparison of the bytes the two slices hold. *)
Theorem compare_is_lexicographic (a b : Slice) :
  slice_wf a → slice_wf b →
  compare a b = Done (sign (lex (contents a) (contents b))).
Proof.
  intros Ha Hb. unfold compare, assert_that, mbind, outcome_bind.
  rewrite bool_decide_true.
  2: { destruct Ha as (? & ? & -> & ?), Hb as (? & ? & -> & ?). done. }
  pose proof (length_contents a Ha) as La. pose proof (length_contents b Hb) as Lb.
  set (n := if decide (size_ a < size_ b) then size_ a else size_ b).
  assert (Z.to_nat n = min (length (contents a)) (length (contents b)) ∧
          0 <= n <= size_ a ∧ n <= size_ b) as (Hn & Hna & Hnb)
    by (unfold n; case_decide; lia).
  rewrite (read_prefix a n Ha) by lia. rewrite (read_prefix b n Hb) by lia.
  rewrite memcmp_lex by (rewrite !length_take; lia).
  rewrite (lex_take (contents a) (contents b) (Z.to_nat n) Hn).
  f_equal. destruct (lex (take _ _) (take _ _)); simpl; [|done|done].
  repeat case_decide; destruct (Nat.compare_spec (length (contents a)) (length (contents b)));
    simpl; lia.
Qed.

Definition slice_abc : Slice := mkSlice (Some [x61; x62; x63; x64]) 3.
Definition slice_abd : Slice := mkSlice (Some [x61; x62; x64]) 3.

Lemma slice_abc_wf : slice_wf slice_abc.
Proof. split; [simpl; lia|]. by eexists. Qed.
Lemma slice_abd_wf : slice_wf slice_abd.
Proof. split; [simpl; lia|]. by eexists. Qed.

Lemma compare_is_lexicographic_witness :
  slice_wf slice_abc ∧ slice_wf slice_abd ∧ compare slice_abc slice_abd = Done (-1).
Proof.
  split; [exact slice_abc_wf|]. split; [exact slice_abd_wf|].
  exact (compare_is_lexicographic slice_abc slice_abd slice_abc_wf slice_abd_wf).
Defined.

(** [difference_offset] is the length of the longest common prefix: the slices agree
    before it and, when it is inside both, differ at it. *)
Theorem difference_offset_common_prefix (a b : Slice) :
  slice_wf a → slice_wf b →
  ∃ k, difference_offset a b = Done (Z.of_nat k) ∧
       (k <= min (length (contents a)) (length (contents b)))%nat ∧
       take k (contents a) = take k (contents b) ∧
       ((k < min (length (contents a)) (length (contents b)))%nat →
        contents a !! k ≠ contents b !! k).
Proof.
  intros Ha Hb. unfold difference_offset, mbind, outcome_bind.
  pose proof (length_contents a Ha) as La. pose proof (length_contents b Hb) as Lb.
  set (n := if decide (size_ a < size_ b) then size_ a else size_ b).
  assert (Z.to_nat n = min (length (contents a)) (length (contents b)) ∧
          0 <= n <= size_ a ∧ n <= size_ b) as (Hn & Hna & Hnb)
    by (unfold n; case_decide; lia).
  rewrite (read_prefix a n Ha), (read_prefix b n Hb) by lia.
  destruct (difference_loop_spec (Z.to_nat n) (take (Z.to_nat n) (contents a))
              (take (Z.to_nat n) (contents b)) 0) as (k & -> & Hk & Ht & Hne).
  { rewrite !length_take. lia. }
  exists k. rewrite <- Hn. split_and!; [done|done| |].
  - rewrite !take_take in Ht. by rewrite Nat.min_l in Ht by lia.
  - intros Hlt. specialize (Hne Hlt). by rewrite !lookup_take_lt in Hne by done.
Qed.

Lemma difference_offset_common_prefix_witness :
  ∃ k, difference_offset slice_abc slice_abd = Done (Z.of_nat k) ∧ (k = 2)%nat.
Proof.
  destruct (difference_offset_common_prefix slice_abc slice_abd slice_abc_wf slice_abd_wf)
    as (k & H & _). exists k. split; [exact H|].
  assert (difference_offset slice_abc slice_abd = Done 2) as E by reflexivity.
  rewrite E in H. injection H as H. lia.
Defined.
