(* ===== verification/BigEndian.v ===== *)
(** The keys of a queue (include/impl/KueueImpl.h, [putU64BE] and [getU64BE]): a 64-bit number
    as eight bytes, most significant first, so that the order of the bytes is the order of the
    numbers. *)
From S2P Require Import Prelude Slice.

Local Open Scope Z_scope.

(** ** The definitions *)

(** The bytes of a number in memory: x64 keeps the least significant first. *)
Fixpoint le_split (n : nat) (x : Z) : list byte :=
  match n with
  | O => []
  | S n' => byte_of_Z x :: le_split n' (Z.shiftr x 8)
  end.

Fixpoint le_combine (bs : list byte) : Z :=
  match bs with
  | [] => 0
  | b :: bs' => Z.lor (byte_val b) (Z.shiftl (le_combine bs') 8)
  end.

(** [_byteswap_uint64]: the bytes in the other order. *)
Definition byteswap_uint64 (x : Z) : Z := le_combine (rev (le_split 8 x)).

Definition MIN_KEY : Z := 0.
Definition MAX_KEY : Z := 0xFFFFFFFFFFFFFFFF.

(** [putU64BE]: the eight bytes written to [dst]. *)
Definition putU64BE (x : Z) : list byte := le_split 8 (byteswap_uint64 x).

(** [getU64BE]: reads eight bytes, whatever [src] holds beyond them. *)
Definition getU64BE (src : char_ptr) : outcome Z :=
  bs ← read_mem src 8; Done (byteswap_uint64 (le_combine bs)).

(** ** Lemmas *)

Lemma le_split_length n x : length (le_split n x) = n.
Proof. revert x. induction n as [|n IH]; intros x; simpl; [done|by rewrite IH]. Qed.

Lemma lor_shiftl_add b x : 0 <= b < 256 → Z.lor b (Z.shiftl x 8) = b + 256 * x.
Proof.
  intros Hb. assert (Z.land b (Z.shiftl x 8) = 0) as Hl.
  { apply Z.bits_inj'. intros m Hm. rewrite Z.land_spec, Z.bits_0.
    destruct (Z.ltb_spec m 8).
    - by rewrite Z.shiftl_spec, (Z.testbit_neg_r x), andb_false_r by lia.
    - assert (Z.testbit b m = false) as ->; [|done].
      apply (Z.bits_above_log2); [lia|]. destruct (decide (b = 0)) as [->|]; [simpl; lia|].
      enough (Z.log2 b < 8) by lia. apply Z.log2_lt_pow2; lia. }
  rewrite <- Z.lxor_lor, <- Z.add_nocarry_lxor by done.
  rewrite Z.shiftl_mul_pow2 by lia. lia.
Qed.

Lemma le_combine_cons b bs : le_combine (b :: bs) = byte_val b + 256 * le_combine bs.
Proof. apply lor_shiftl_add, byte_val_bound. Qed.

Lemma le_combine_bound bs : 0 <= le_combine bs < 256 ^ Z.of_nat (length bs).
Proof.
  induction bs as [|b bs IH]; [simpl; lia|]. rewrite le_combine_cons, length_cons, Nat2Z.inj_succ.
  rewrite Z.pow_succ_r by lia. pose proof (byte_val_bound b). nia.
Qed.

Lemma le_combine_split n x : le_combine (le_split n x) = x mod 256 ^ Z.of_nat n.
Proof.
  revert x. induction n as [|n IH]; intros x; [by rewrite Z.mod_1_r|].
  cbn [le_split]. rewrite le_combine_cons, IH, byte_val_of_Z, Z.shiftr_div_pow2 by lia.
  rewrite Nat2Z.inj_succ, Z.pow_succ_r by lia. change (2 ^ 8) with 256.
  rewrite Z.rem_mul_r by lia. done.
Qed.

Lemma le_split_combine bs : le_split (length bs) (le_combine bs) = bs.
Proof.
  induction bs as [|b bs IH]; [done|]. cbn [length le_split]. rewrite le_combine_cons.
  pose proof (byte_val_bound b). f_equal.
  - apply byte_val_inj. rewrite byte_val_of_Z. rewrite Z.mul_comm, Z.mod_add by lia.
    by apply Z.mod_small.
  - rewrite Z.shiftr_div_pow2 by lia. change (2 ^ 8) with 256.
    rewrite Z.mul_comm, Z.div_add by lia. rewrite Z.div_small by lia. exact IH.
Qed.

Lemma putU64BE_rev x : putU64BE x = rev (le_split 8 x).
Proof.
  unfold putU64BE, byteswap_uint64.
  rewrite <- (le_split_combine (rev (le_split 8 x))) at 2.
  by rewrite length_rev, le_split_length.
Qed.

Lemma putU64BE_length x : length (putU64BE x) = 8%nat.
Proof. apply le_split_length. Qed.

Lemma byteswap_involutive x : byteswap_uint64 (byteswap_uint64 x) = u64 x.
Proof.
  unfold byteswap_uint64 at 1. change (le_split 8 (byteswap_uint64 x)) with (putU64BE x).
  rewrite putU64BE_rev, rev_involutive, le_combine_split. done.
Qed.

Lemma getU64BE_put x rest : getU64BE (Some (putU64BE x ++ rest)) = Done (u64 x).
Proof.
  unfold getU64BE. rewrite (read_mem_done _ (putU64BE x ++ rest)).
  - cbn [mbind outcome_bind]. f_equal.
    rewrite take_app_le by (rewrite putU64BE_length; lia).
    rewrite firstn_all2 by (rewrite putU64BE_length; lia).
    unfold putU64BE. rewrite le_combine_split. change (256 ^ Z.of_nat 8) with (2 ^ 64).
    rewrite Z.mod_small; [apply byteswap_involutive|].
    pose proof (le_combine_bound (rev (le_split 8 x))) as H.
    by rewrite length_rev, le_split_length in H.
  - done.
  - rewrite length_app, putU64BE_length. lia.
Qed.

Lemma putU64BE_get (bs : list byte) n :
  length bs = 8%nat → getU64BE (Some bs) = Done n → putU64BE n = bs.
Proof.
  intros Hl. unfold getU64BE. rewrite (read_mem_done _ bs) by (done || lia).
  cbn [mbind outcome_bind]. intros [= <-]. rewrite firstn_all2 by lia.
  unfold putU64BE. rewrite byteswap_involutive.
  pose proof (le_combine_bound bs) as Hb. rewrite Hl in Hb.
  rewrite u64_small by exact Hb. rewrite <- Hl at 1. apply le_split_combine.
Qed.

Lemma putU64BE_inj x y : 0 <= x < 2 ^ 64 → 0 <= y < 2 ^ 64 → putU64BE x = putU64BE y → x = y.
Proof.
  intros Hx Hy Heq. pose proof (getU64BE_put x []) as H1. rewrite Heq, getU64BE_put in H1.
  injection H1 as H1. by rewrite !u64_small in H1.
Qed.

Lemma lex_snoc a b x y :
  length a = length b →
  lex (a ++ [x]) (b ++ [y]) = match lex a b with Eq => byte_val x ?= byte_val y | c => c end.
Proof.
  revert b. induction a as [|z a IH]; intros [|w b]; simpl; try done.
  - by destruct (byte_val x ?= byte_val y).
  - intros [= Hl]. destruct (byte_val z ?= byte_val w); [by apply IH|done..].
Qed.

Lemma compare_div_mod x y :
  (x ?= y) = match x / 256 ?= y / 256 with Eq => x mod 256 ?= y mod 256 | c => c end.
Proof.
  pose proof (Z.div_mod x 256 ltac:(lia)). pose proof (Z.div_mod y 256 ltac:(lia)).
  pose proof (Z.mod_pos_bound x 256 ltac:(lia)). pose proof (Z.mod_pos_bound y 256 ltac:(lia)).
  destruct (Z.compare_spec (x / 256) (y / 256)); destruct (Z.compare_spec x y);
    destruct (Z.compare_spec (x mod 256) (y mod 256)); done || lia.
Qed.

Lemma lex_rev_le_split n x y :
  0 <= x < 256 ^ Z.of_nat n → 0 <= y < 256 ^ Z.of_nat n →
  lex (rev (le_split n x)) (rev (le_split n y)) = (x ?= y).
Proof.
  revert x y. induction n as [|n IH]; intros x y Hx Hy.
  - simpl in *. by replace x with y by lia; rewrite Z.compare_refl.
  - cbn [le_split rev]. rewrite lex_snoc by (rewrite !length_rev, !le_split_length; done).
    rewrite Nat2Z.inj_succ, Z.pow_succ_r in * by lia.
    rewrite IH by (rewrite Z.shiftr_div_pow2 by lia; change (2 ^ 8) with 256;
      split; [apply Z.div_pos; lia|apply Z.div_lt_upper_bound; lia]).
    rewrite !byte_val_of_Z, !Z.shiftr_div_pow2 by lia. symmetry. apply compare_div_mod.
Qed.

Lemma lex_putU64BE x y :
  0 <= x < 2 ^ 64 → 0 <= y < 2 ^ 64 → lex (putU64BE x) (putU64BE y) = (x ?= y).
Proof. intros Hx Hy. rewrite !putU64BE_rev. by apply lex_rev_le_split. Qed.

#[global] Arguments putU64BE : simpl never.

(** C14. Queue keys are a faithful, order-preserving code of the 64-bit numbers: what
    [putU64BE] wrote [getU64BE] reads back, whatever follows it in memory; every eight bytes
    are the code of the number they decode to; and RocksDB's order of two keys is the order
    of their numbers. *)
Theorem keys_round_trip_and_order (x y : Z) (bs rest : list byte) (n : Z) :
  0 <= x < 2 ^ 64 → 0 <= y < 2 ^ 64 → length bs = 8%nat → getU64BE (Some bs) = Done n →
  length (putU64BE x) = 8%nat ∧ getU64BE (Some (putU64BE x ++ rest)) = Done x ∧
  putU64BE n = bs ∧ lex (putU64BE x) (putU64BE y) = (x ?= y).
Proof.
  intros Hx Hy Hl Hn. split_and!; [apply putU64BE_length| |by apply putU64BE_get|by apply lex_putU64BE].
  by rewrite getU64BE_put, u64_small.
Qed.

Lemma keys_round_trip_and_order_witness :
  putU64BE 258 = [x00; x00; x00; x00; x00; x00; x01; x02] ∧
  lex (putU64BE 258) (putU64BE 513) = Lt.
Proof.
  split; [reflexivity|].
  exact (proj2 (proj2 (proj2 (keys_round_trip_and_order 258 513 (repeat x00 8) [] 0
    ltac:(lia) ltac:(lia) eq_refl eq_refl)))).
Defined.
