(* ===== verification/RocksStatus.v ===== *)
(** The status RocksDB calls return (include/rocksdb/status.h): its codes, factories,
    predicates, copies, moves and the [UpdateIfOk] accumulator.  The constructor that
    formats a message and [CopyState] are compiled into the library, so the former is an
    argument of the definitions that use it and the latter is the copy it is named after. *)
From S2P Require Import Prelude Slice.

Local Open Scope Z_scope.

Inductive Code :=
  | kOk | kNotFound | kCorruption | kNotSupported | kInvalidArgument | kIOError
  | kMergeInProgress | kIncomplete | kShutdownInProgress | kTimedOut | kAborted | kBusy
  | kExpired | kTryAgain | kCompactionTooLarge | kColumnFamilyDropped | kMaxCode.

Inductive SubCode :=
  | kNone | kMutexTimeout | kLockTimeout | kLockLimit | kNoSpace | kDeadlock | kStaleFile
  | kMemoryLimit | kSpaceLimit | kPathNotFound | KMergeOperandsInsufficientCapacity
  | kManualCompactionPaused | kOverwritten | kTxnNotPrepared | kIOFenced
  | kMergeOperatorFailed | kMergeOperandThresholdExceeded | kPrefetchLimitReached
  | kNotExpectedCodePath | kMaxSubCode.

Inductive Severity :=
  | kNoError | kSoftError | kHardError | kFatalError | kUnrecoverableError | kMaxSeverity.

#[export] Instance Code_eq_dec : EqDecision Code.
Proof. solve_decision. Defined.
#[export] Instance SubCode_eq_dec : EqDecision SubCode.
Proof. solve_decision. Defined.
#[export] Instance Severity_eq_dec : EqDecision Severity.
Proof. solve_decision. Defined.

(** The value of the enumerator, as [int]. *)
Definition code_val (c : Code) : Z :=
  match c with
  | kOk => 0 | kNotFound => 1 | kCorruption => 2 | kNotSupported => 3
  | kInvalidArgument => 4 | kIOError => 5 | kMergeInProgress => 6 | kIncomplete => 7
  | kShutdownInProgress => 8 | kTimedOut => 9 | kAborted => 10 | kBusy => 11
  | kExpired => 12 | kTryAgain => 13 | kCompactionTooLarge => 14
  | kColumnFamilyDropped => 15 | kMaxCode => 16
  end.

(** [state_] is the message, a null pointer when there is none. *)
Record Status := mkStatus {
  code_ : Code;
  subcode_ : SubCode;
  sev_ : Severity;
  retryable_ : bool;
  data_loss_ : bool;
  scope_ : Z;
  state_ : option (list byte);
}.

Definition default_Status : Status := mkStatus kOk kNone kNoError false false 0 None.
(** [Status(Code, SubCode)] *)
Definition Status_code (c : Code) (sc : SubCode) : Status :=
  mkStatus c sc kNoError false false 0 None.
(** [Status(Code, SubCode, bool, bool, unsigned char)] *)
Definition Status_io (c : Code) (sc : SubCode) (retryable data_loss : bool) (scope : Z) : Status :=
  mkStatus c sc kNoError retryable data_loss scope None.

Definition code (s : Status) : Code := code_ s.
Definition subcode (s : Status) : SubCode := subcode_ s.
Definition severity (s : Status) : Severity := sev_ s.
Definition getState (s : Status) : option (list byte) := state_ s.

(** ** Copies and moves *)

Definition Status_copy (s : Status) : Status :=
  mkStatus (code_ s) (subcode_ s) (sev_ s) (retryable_ s) (data_loss_ s) (scope_ s) (state_ s).
Definition Status_copy_sev (s : Status) (sev : Severity) : Status :=
  mkStatus (code_ s) (subcode_ s) sev (retryable_ s) (data_loss_ s) (scope_ s) (state_ s).

(** [a = b]: when both are the same object nothing happens. *)
Definition Status_assign (same : bool) (this s : Status) : Status :=
  if same then this else Status_copy s.

(** [a = std::move(b)]: the new value of [a] and what is left in [b]. *)
Definition Status_move_assign (same : bool) (this s : Status) : Status * Status :=
  if same then (this, s)
  else (mkStatus (code_ s) (subcode_ s) (sev_ s) (retryable_ s) (data_loss_ s) (scope_ s)
          (state_ s),
        mkStatus kOk kNone kNoError false false 0 None).
Definition Status_move (s : Status) : Status * Status :=
  Status_move_assign false default_Status s.

Definition Status_eqb (s rhs : Status) : bool := bool_decide (code_ s = code_ rhs).
Definition Status_neb (s rhs : Status) : bool := negb (Status_eqb s rhs).

(** [UpdateIfOk] on an rvalue: the updated status and what is left of the argument. *)
Definition UpdateIfOk (this s : Status) : Status * Status :=
  if decide (code this = kOk) then Status_move_assign false this s else (this, s).
(** On a constant reference it works on a copy. *)
Definition UpdateIfOk_copy (this s : Status) : Status := fst (UpdateIfOk this (Status_copy s)).

(** ** Factories *)

Definition OK : Status := default_Status.
Definition OkOverwritten : Status := Status_code kOk kOverwritten.
Definition OkMergeOperandThresholdExceeded : Status :=
  Status_code kOk kMergeOperandThresholdExceeded.

Definition NotFound (msg : SubCode) : Status := Status_code kNotFound msg.
Definition Corruption (msg : SubCode) : Status := Status_code kCorruption msg.
Definition NotSupported (msg : SubCode) : Status := Status_code kNotSupported msg.
Definition InvalidArgument (msg : SubCode) : Status := Status_code kInvalidArgument msg.
Definition IOError (msg : SubCode) : Status := Status_code kIOError msg.
Definition MergeInProgress (msg : SubCode) : Status := Status_code kMergeInProgress msg.
Definition Incomplete (msg : SubCode) : Status := Status_code kIncomplete msg.
Definition ShutdownInProgress (msg : SubCode) : Status := Status_code kShutdownInProgress msg.
Definition Aborted (msg : SubCode) : Status := Status_code kAborted msg.
Definition Busy (msg : SubCode) : Status := Status_code kBusy msg.
Definition TimedOut (msg : SubCode) : Status := Status_code kTimedOut msg.
Definition Expired (msg : SubCode) : Status := Status_code kExpired msg.
Definition TryAgain (msg : SubCode) : Status := Status_code kTryAgain msg.
Definition CompactionTooLarge (msg : SubCode) : Status := Status_code kCompactionTooLarge msg.
Definition ColumnFamilyDropped (msg : SubCode) : Status := Status_code kColumnFamilyDropped msg.
Definition NoSpace : Status := Status_code kIOError kNoSpace.
Definition MemoryLimit : Status := Status_code kAborted kMemoryLimit.
Definition SpaceLimit : Status := Status_code kIOError kSpaceLimit.
Definition PathNotFound : Status := Status_code kIOError kPathNotFound.
Definition TxnNotPrepared : Status := Status_code kInvalidArgument kTxnNotPrepared.
Definition LockLimit : Status := Status_code kAborted kLockLimit.
Definition PrefetchLimitReached : Status := Status_code kIncomplete kPrefetchLimitReached.

(** The factories that carry a message. *)
Section Messages.
Context (Status_msg : Code → SubCode → Slice → Slice → Severity → Status).

Definition Status_sev_msg (c : Code) (sc : SubCode) (sev : Severity) (msg : Slice) : Status :=
  Status_msg c sc msg empty_slice sev.
Definition Status_msg2 (c : Code) (msg msg2 : Slice) : Status :=
  Status_msg c kNone msg msg2 kNoError.

Definition NotFound_msg (msg msg2 : Slice) : Status := Status_msg2 kNotFound msg msg2.
Definition Corruption_msg (msg msg2 : Slice) : Status := Status_msg2 kCorruption msg msg2.
Definition NotSupported_msg (msg msg2 : Slice) : Status := Status_msg2 kNotSupported msg msg2.
Definition InvalidArgument_msg (msg msg2 : Slice) : Status := Status_msg2 kInvalidArgument msg msg2.
Definition IOError_msg (msg msg2 : Slice) : Status := Status_msg2 kIOError msg msg2.
Definition MergeInProgress_msg (msg msg2 : Slice) : Status := Status_msg2 kMergeInProgress msg msg2.
Definition Incomplete_msg (msg msg2 : Slice) : Status := Status_msg2 kIncomplete msg msg2.
Definition ShutdownInProgress_msg (msg msg2 : Slice) : Status := Status_msg2 kShutdownInProgress msg msg2.
Definition Aborted_msg (msg msg2 : Slice) : Status := Status_msg2 kAborted msg msg2.
Definition Busy_msg (msg msg2 : Slice) : Status := Status_msg2 kBusy msg msg2.
Definition TimedOut_msg (msg msg2 : Slice) : Status := Status_msg2 kTimedOut msg msg2.
Definition Expired_msg (msg msg2 : Slice) : Status := Status_msg2 kExpired msg msg2.
Definition TryAgain_msg (msg msg2 : Slice) : Status := Status_msg2 kTryAgain msg msg2.
Definition CompactionTooLarge_msg (msg msg2 : Slice) : Status := Status_msg2 kCompactionTooLarge msg msg2.
Definition ColumnFamilyDropped_msg (msg msg2 : Slice) : Status := Status_msg2 kColumnFamilyDropped msg msg2.
Definition NotFound_sc_msg (sc : SubCode) (msg msg2 : Slice) : Status :=
  Status_msg kNotFound sc msg msg2 kNoError.
Definition NoSpace_msg (msg msg2 : Slice) : Status :=
  Status_msg kIOError kNoSpace msg msg2 kNoError.
Definition MemoryLimit_msg (msg msg2 : Slice) : Status :=
  Status_msg kAborted kMemoryLimit msg msg2 kNoError.
Definition SpaceLimit_msg (msg msg2 : Slice) : Status :=
  Status_msg kIOError kSpaceLimit msg msg2 kNoError.
Definition PathNotFound_msg (msg msg2 : Slice) : Status :=
  Status_msg kIOError kPathNotFound msg msg2 kNoError.
Definition TxnNotPrepared_msg (msg msg2 : Slice) : Status :=
  Status_msg kInvalidArgument kTxnNotPrepared msg msg2 kNoError.
End Messages.

(** ** Predicates *)

Definition ok (s : Status) : bool := bool_decide (code s = kOk).
Definition AssertOK (s : Status) : outcome unit := assert_that (ok s).
Definition IsOkOverwritten (s : Status) : bool :=
  bool_decide (code s = kOk) && bool_decide (subcode s = kOverwritten).
Definition IsOkMergeOperandThresholdExceeded (s : Status) : bool :=
  bool_decide (code s = kOk) && bool_decide (subcode s = kMergeOperandThresholdExceeded).
Definition IsNotFound (s : Status) : bool := bool_decide (code s = kNotFound).
Definition IsCorruption (s : Status) : bool := bool_decide (code s = kCorruption).
Definition IsNotSupported (s : Status) : bool := bool_decide (code s = kNotSupported).
Definition IsInvalidArgument (s : Status) : bool := bool_decide (code s = kInvalidArgument).
Definition IsIOError (s : Status) : bool := bool_decide (code s = kIOError).
Definition IsMergeInProgress (s : Status) : bool := bool_decide (code s = kMergeInProgress).
Definition IsIncomplete (s : Status) : bool := bool_decide (code s = kIncomplete).
Definition IsShutdownInProgress (s : Status) : bool := bool_decide (code s = kShutdownInProgress).
Definition IsTimedOut (s : Status) : bool := bool_decide (code s = kTimedOut).
Definition IsAborted (s : Status) : bool := bool_decide (code s = kAborted).
Definition IsLockLimit (s : Status) : bool :=
  bool_decide (code s = kAborted) && bool_decide (subcode s = kLockLimit).
Definition IsBusy (s : Status) : bool := bool_decide (code s = kBusy).
Definition IsDeadlock (s : Status) : bool :=
  bool_decide (code s = kBusy) && bool_decide (subcode s = kDeadlock).
Definition IsExpired (s : Status) : bool := bool_decide (code s = kExpired).
Definition IsTryAgain (s : Status) : bool := bool_decide (code s = kTryAgain).
Definition IsCompactionTooLarge (s : Status) : bool := bool_decide (code s = kCompactionTooLarge).
Definition IsColumnFamilyDropped (s : Status) : bool := bool_decide (code s = kColumnFamilyDropped).
Definition IsNoSpace (s : Status) : bool :=
  bool_decide (code s = kIOError) && bool_decide (subcode s = kNoSpace).
Definition IsMemoryLimit (s : Status) : bool :=
  bool_decide (code s = kAborted) && bool_decide (subcode s = kMemoryLimit).
Definition IsPathNotFound (s : Status) : bool :=
  (bool_decide (code s = kIOError) || bool_decide (code s = kNotFound))
  && bool_decide (subcode s = kPathNotFound).
Definition IsManualCompactionPaused (s : Status) : bool :=
  bool_decide (code s = kIncomplete) && bool_decide (subcode s = kManualCompactionPaused).
Definition IsTxnNotPrepared (s : Status) : bool :=
  bool_decide (code s = kInvalidArgument) && bool_decide (subcode s = kTxnNotPrepared).
Definition IsIOFenced (s : Status) : bool :=
  bool_decide (code s = kIOError) && bool_decide (subcode s = kIOFenced).
Definition IsPrefetchLimitReached (s : Status) : bool :=
  bool_decide (code s = kIncomplete) && bool_decide (subcode s = kPrefetchLimitReached).

(** ** Lemmas *)

Lemma code_val_inj c1 c2 : code_val c1 = code_val c2 → c1 = c2.
Proof. by destruct c1, c2. Qed.

Lemma ok_code_val s : ok s = true ↔ code_val (code s) = 0.
Proof.
  unfold ok. rewrite bool_decide_eq_true. split; [by intros ->|].
  intros H. by apply code_val_inj.
Qed.

Lemma ok_false_code_val s : ok s = false ↔ code_val (code s) ≠ 0.
Proof. rewrite <- ok_code_val. by destruct (ok s). Qed.

Lemma code_val_bound c : 0 <= code_val c <= 16.
Proof. destruct c; simpl; lia. Qed.

Create HintDb status_db.
#[export] Hint Resolve code_val_inj code_val_bound : status_db.

Lemma Status_copy_id s : Status_copy s = s.
Proof. by destruct s. Qed.

Lemma UpdateIfOk_copy_ok this s : ok this = true → UpdateIfOk_copy this s = s.
Proof.
  unfold ok, UpdateIfOk_copy, UpdateIfOk. rewrite bool_decide_eq_true. intros ->. simpl.
  by destruct s.
Qed.

Lemma UpdateIfOk_copy_not_ok this s : ok this = false → UpdateIfOk_copy this s = this.
Proof.
  unfold ok, UpdateIfOk_copy, UpdateIfOk. rewrite bool_decide_eq_false. intros H.
  by rewrite decide_False.
Qed.

(** The first failure of a list of statuses. *)
Definition first_failure (l : list Status) : option Status := head (filter (λ s, ok s = false) l).

Lemma UpdateIfOk_fold_stuck s l : ok s = false → foldl UpdateIfOk_copy s l = s.
Proof.
  intros H. induction l as [|t l IH]; simpl; [done|].
  by rewrite UpdateIfOk_copy_not_ok.
Qed.

(** ** Properties *)

(** Accumulating statuses with [UpdateIfOk], from the left, gives the first failure
    among them, unchanged, and an ok status exactly when there is none. *)
Theorem UpdateIfOk_keeps_first_failure (s0 : Status) (l : list Status) :
  match first_failure (s0 :: l) with
  | Some s => foldl UpdateIfOk_copy s0 l = s
  | None => ok (foldl UpdateIfOk_copy s0 l) = true
  end.
Proof.
  unfold first_failure. revert s0. induction l as [|t l IH]; intros s0;
    destruct (ok s0) eqn:E.
  - rewrite filter_cons_False by congruence. done.
  - by rewrite filter_cons_True.
  - rewrite filter_cons_False by congruence. simpl foldl.
    rewrite (UpdateIfOk_copy_ok s0 t E). apply IH.
  - rewrite filter_cons_True by done. apply UpdateIfOk_fold_stuck, E.
Qed.

(** Moving a status out hands over every field and leaves the ok status behind;
    moving an object onto itself changes nothing. *)
Theorem Status_move_assign_spec (this s : Status) :
  Status_move_assign false this s = (s, OK) ∧
  Status_move_assign true this this = (this, this).
Proof. split; [|done]. by destruct s. Qed.
