(* ===== verification/IOStatus.v ===== *)
(** I/O statuses (include/rocksdb/io_status.h): a status with a retry flag, a data-loss flag
    and a scope, its message constructor and its own copies and moves.  An IOStatus is a
    [Status] object; the definitions here are the ones the subclass declares. *)
From S2P Require Import Prelude Slice RocksStatus.

Local Open Scope Z_scope.

Inductive IOErrorScope :=
  | kIOErrorScopeFileSystem | kIOErrorScopeFile | kIOErrorScopeRange | kIOErrorScopeMax.

Definition scope_val (s : IOErrorScope) : Z :=
  match s with
  | kIOErrorScopeFileSystem => 0 | kIOErrorScopeFile => 1 | kIOErrorScopeRange => 2
  | kIOErrorScopeMax => 3
  end.

(** [IOStatus(Code, SubCode)] *)
Definition IOStatus_code (c : Code) (sc : SubCode) : Status :=
  Status_io c sc false false (scope_val kIOErrorScopeFileSystem).
Definition default_IOStatus : Status := IOStatus_code kOk kNone.

(** The two messages joined by a colon and a blank; an empty second one adds nothing. *)
Definition join_messages (m1 m2 : list byte) : list byte :=
  m1 ++ (if decide (length m2 = 0%nat) then [] else [x3a; x20] ++ m2).

(** [IOStatus(Code, SubCode, msg, msg2)] *)
Definition IOStatus_msg (c : Code) (sc : SubCode) (msg msg2 : Slice) : outcome Status :=
  assert_that (bool_decide (c ≠ kOk)) ;;
  assert_that (bool_decide (sc ≠ kMaxSubCode)) ;;
  m1 ← read_mem (data msg) (size msg);
  m2 ← read_mem (data msg2) (size msg2);
  Done (mkStatus c sc kNoError false false (scope_val kIOErrorScopeFileSystem)
          (Some (join_messages m1 m2))).

Definition SetRetryable (b : bool) (s : Status) : Status :=
  mkStatus (code_ s) (subcode_ s) (sev_ s) b (data_loss_ s) (scope_ s) (state_ s).
Definition SetDataLoss (b : bool) (s : Status) : Status :=
  mkStatus (code_ s) (subcode_ s) (sev_ s) (retryable_ s) b (scope_ s) (state_ s).
Definition SetScope (sc : IOErrorScope) (s : Status) : Status :=
  mkStatus (code_ s) (subcode_ s) (sev_ s) (retryable_ s) (data_loss_ s) (scope_val sc) (state_ s).
Definition GetRetryable (s : Status) : bool := retryable_ s.
Definition GetDataLoss (s : Status) : bool := data_loss_ s.
Definition GetScope (s : Status) : Z := scope_ s.

Definition OK : Status := default_IOStatus.
Definition NotSupported (msg : SubCode) : Status := IOStatus_code kNotSupported msg.
Definition NotSupported_msg (msg msg2 : Slice) : outcome Status := IOStatus_msg kNotSupported kNone msg msg2.
Definition NotFound (msg : SubCode) : Status := IOStatus_code kNotFound msg.
Definition NotFound_msg (msg msg2 : Slice) : outcome Status := IOStatus_msg kNotFound kNone msg msg2.
Definition Corruption (msg : SubCode) : Status := IOStatus_code kCorruption msg.
Definition Corruption_msg (msg msg2 : Slice) : outcome Status := IOStatus_msg kCorruption kNone msg msg2.
Definition InvalidArgument (msg : SubCode) : Status := IOStatus_code kInvalidArgument msg.
Definition InvalidArgument_msg (msg msg2 : Slice) : outcome Status := IOStatus_msg kInvalidArgument kNone msg msg2.
Definition IOError (msg : SubCode) : Status := IOStatus_code kIOError msg.
Definition IOError_msg (msg msg2 : Slice) : outcome Status := IOStatus_msg kIOError kNone msg msg2.
Definition Busy (msg : SubCode) : Status := IOStatus_code kBusy msg.
Definition Busy_msg (msg msg2 : Slice) : outcome Status := IOStatus_msg kBusy kNone msg msg2.
Definition TimedOut (msg : SubCode) : Status := IOStatus_code kTimedOut msg.
Definition TimedOut_msg (msg msg2 : Slice) : outcome Status := IOStatus_msg kTimedOut kNone msg msg2.
Definition Aborted (msg : SubCode) : Status := IOStatus_code kAborted msg.
Definition Aborted_msg (msg msg2 : Slice) : outcome Status := IOStatus_msg kAborted kNone msg msg2.
Definition NoSpace : Status := IOStatus_code kIOError kNoSpace.
Definition NoSpace_msg (msg msg2 : Slice) : outcome Status :=
  IOStatus_msg kIOError kNoSpace msg msg2.
Definition PathNotFound : Status := IOStatus_code kIOError kPathNotFound.
Definition PathNotFound_msg (msg msg2 : Slice) : outcome Status :=
  IOStatus_msg kIOError kPathNotFound msg msg2.
Definition IOFenced : Status := IOStatus_code kIOError kIOFenced.
Definition IOFenced_msg (msg msg2 : Slice) : outcome Status :=
  IOStatus_msg kIOError kIOFenced msg msg2.

(** The copy constructor starts from [Status(code, subcode)], so the severity is not copied. *)
Definition IOStatus_copy (s : Status) : Status :=
  mkStatus (code_ s) (subcode_ s) kNoError (retryable_ s) (data_loss_ s) (scope_ s) (state_ s).
(** Copy assignment keeps the severity of the object assigned to. *)
Definition IOStatus_assign (same : bool) (this s : Status) : Status :=
  if same then this
  else mkStatus (code_ s) (subcode_ s) (sev_ this) (retryable_ s) (data_loss_ s) (scope_ s)
         (state_ s).
(** Move assignment: the new value and what is left of the source. *)
Definition IOStatus_move_assign (same : bool) (this s : Status) : Status * Status :=
  if same then (this, s)
  else (mkStatus (code_ s) (subcode_ s) (sev_ this) (retryable_ s) (data_loss_ s) (scope_ s)
          (state_ s),
        mkStatus kOk kNone (sev_ s) (retryable_ s) (data_loss_ s)
          (scope_val kIOErrorScopeFileSystem) None).
Definition IOStatus_move (s : Status) : Status * Status :=
  IOStatus_move_assign false default_IOStatus s.
Definition IOStatus_eqb (s rhs : Status) : bool := bool_decide (code_ s = code_ rhs).
Definition IOStatus_neb (s rhs : Status) : bool := negb (IOStatus_eqb s rhs).

(** [Status& s = io_s; s = std::move(status)]: the base class's move assignment. *)
Definition status_to_io_status (status : Status) : Status :=
  fst (Status_move_assign false default_IOStatus status).

(** ** Lemmas *)

Lemma status_to_io_status_keeps s : status_to_io_status s = s.
Proof. by destruct s. Qed.

Lemma join_messages_length m1 m2 :
  length (join_messages m1 m2) =
    (length m1 + (if decide (length m2 = 0) then 0 else 2 + length m2))%nat.
Proof. unfold join_messages. rewrite length_app. by case_decide. Qed.

(** ** Properties *)

(** Copying an I/O status keeps every field but the severity, which a copy resets and
    an assignment leaves as it was; turning a status into an I/O status keeps it too. *)
Theorem IOStatus_copies_drop_severity (s this : Status) :
  Status_copy_sev (IOStatus_copy s) (sev_ s) = s ∧ sev_ (IOStatus_copy s) = kNoError ∧
  IOStatus_assign false this s = Status_copy_sev s (sev_ this) ∧
  fst (IOStatus_move_assign false this s) = Status_copy_sev s (sev_ this) ∧
  status_to_io_status s = s.
Proof. destruct s, this. by split_and!. Qed.
