(* ===== verification/StatusCode.v ===== *)
(** The status codes of the C API (include/api/StatusCode.h) and the writer every call
    reports through ([assign], include/impl/utils.h). *)
From S2P Require Import Prelude RocksStatus.

Local Open Scope Z_scope.

Module Status.
Definition Invalid : Z := -5.
Definition NoIterator : Z := -4.
Definition AlreadyExists : Z := -3.
Definition NoTransaction : Z := -2.
Definition Closed : Z := -1.
Definition Ok : Z := 0.
Definition NotFound : Z := 1.
Definition Corruption : Z := 2.
Definition NotSupported : Z := 3.
Definition InvalidArgument : Z := 4.
Definition IOError : Z := 5.
Definition MergeInProgress : Z := 6.
Definition Incomplete : Z := 7.
Definition ShutdownInProgress : Z := 8.
Definition TimedOut : Z := 9.
Definition Aborted : Z := 10.
Definition Busy : Z := 11.
Definition Expired : Z := 12.
Definition TryAgain : Z := 13.
Definition CompactionTooLarge : Z := 14.
Definition ColumnFamilyDropped : Z := 15.
Definition Unknown : Z := 16.

(** The constants of the namespace. *)
Definition all : list Z :=
  [Invalid; NoIterator; AlreadyExists; NoTransaction; Closed; Ok; NotFound; Corruption;
   NotSupported; InvalidArgument; IOError; MergeInProgress; Incomplete;
   ShutdownInProgress; TimedOut; Aborted; Busy; Expired; TryAgain; CompactionTooLarge;
   ColumnFamilyDropped; Unknown].
End Status.

(** An [int* status] argument: [None] is the null pointer, [Some c] a cell holding [c].
    A call returns the cell as it leaves it. *)
Abbreviation status_ptr := (option Z).

(** [assign]: write the code unless the pointer is null. *)
Definition assign (code : Z) (status : status_ptr) : status_ptr :=
  match status with Some _ => Some code | None => None end.

(** [reports c st st']: a call given [st] leaves the code [c] in it. *)
Definition reports (c : Z) (st st' : status_ptr) : Prop := st' = assign c st.

Lemma assign_assign c1 c2 st : assign c1 (assign c2 st) = assign c1 st.
Proof. by destruct st. Qed.

Lemma assign_Some c v : assign c (Some v) = Some c.
Proof. done. Qed.

Create Rewrite HintDb status_rw.
#[export] Hint Rewrite assign_assign assign_Some : status_rw.

(** The code a RocksDB status is reported as ([assign(s.code(), status)]). *)
Definition report_code (s : RocksStatus.Status) : Z := code_val (code s).

Lemma report_code_in s : report_code s ∈ Status.all.
Proof.
  unfold report_code, Status.all. destruct (code s);
    repeat first [by apply list_elem_of_here | apply list_elem_of_further].
Qed.

Lemma report_code_ok s : ok s = true → report_code s = Status.Ok.
Proof. apply ok_code_val. Qed.

Lemma report_code_not_ok s : ok s = false → report_code s ≠ Status.Ok.
Proof. apply ok_false_code_val. Qed.
Lemma report_code_not_found s : report_code s = Status.NotFound ↔ IsNotFound s = true.
Proof.
  unfold IsNotFound. rewrite bool_decide_eq_true. split; [|by unfold report_code; intros ->].
  intros H. by apply code_val_inj.
Qed.

Lemma report_code_nonneg s : 0 <= report_code s.
Proof. unfold report_code. pose proof (code_val_bound (code s)). lia. Qed.

Lemma report_code_pos s : ok s = false → 0 < report_code s.
Proof.
  intros Hs%report_code_not_ok. pose proof (report_code_nonneg s). unfold Status.Ok in Hs. lia.
Qed.
Lemma positive_not_ok c : Status.Ok < c → c ≠ Status.Ok.
Proof. unfold Status.Ok. lia. Qed.
#[export] Hint Resolve report_code_ok report_code_not_ok report_code_in : status_db.

(** Every code RocksDB can return is one of the codes of the C API, with the same
    meaning; only the ok statuses are reported as [Ok], and none of the codes the library
    adds itself (the negative ones) is ever produced by RocksDB. *)
Theorem report_code_embeds (s : RocksStatus.Status) :
  report_code s ∈ Status.all ∧ (report_code s = Status.Ok ↔ ok s = true) ∧
  (report_code s = Status.NotFound ↔ IsNotFound s = true) ∧ Status.Closed < report_code s.
Proof.
  split_and!; [apply report_code_in|split; [|apply report_code_ok]|..].
  - apply ok_code_val.
  - apply report_code_not_found.
  - unfold Status.Closed. pose proof (report_code_nonneg s). lia.
Qed.
