(* ===== verification/RocksDB.v ===== *)
(** What the library calls and does not contain: the RocksDB engine, the steady clock and the
    iteration order of [std::unordered_map].  [External] lists the calls, with the state they
    act on left abstract; [ExternalSpec] states what their documentation promises
    (include/rocksdb/db.h, utilities/transaction.h, utilities/transaction_db.h,
    iterator_base.h), over the write history of each key. *)
From S2P Require Import Prelude Slice RocksStatus.

Local Open Scope Z_scope.

(** Addresses of objects RocksDB hands out. *)
Abbreviation ptr := positive.

(** ** Options, as far as the library sets them *)

Inductive InfoLogLevel := DEBUG_LEVEL | INFO_LEVEL | WARN_LEVEL | ERROR_LEVEL | FATAL_LEVEL.
Inductive TxnDBWritePolicy := WRITE_COMMITTED | WRITE_PREPARED | WRITE_UNPREPARED.

(** [db_rest] and [cf_rest] stand for the options the library leaves alone. *)
Record DBOptions (R : Type) := mkDBOptions {
  create_if_missing : bool;
  error_if_exists : bool;
  keep_log_file_num : Z;
  delete_obsolete_files_period_micros : Z;
  WAL_ttl_seconds : Z;
  WAL_size_limit_MB : Z;
  recycle_log_file_num : Z;
  info_log_level : InfoLogLevel;
  env : option ptr;
  sst_file_manager : option ptr;
  db_rest : R;
}.
Arguments mkDBOptions {R}.
Arguments env {R} _.
Arguments sst_file_manager {R} _.
Arguments db_rest {R} _.

Record BlockBasedTableOptions := mkTableOptions { block_size : Z; format_version : Z }.

Record ColumnFamilyOptions (R : Type) := mkCFOptions {
  periodic_compaction_seconds : Z;
  optimize_filters_for_hits : bool;
  table_factory : BlockBasedTableOptions;
  cf_rest : R;
}.
Arguments mkCFOptions {R}.
Arguments cf_rest {R} _.

(** ** The calls *)

Class External := {
  World : Type;
  DBRest : Type;
  CFRest : Type;
  WriteBatch : Type;
  (* the standard library *)
  umap_iter : ∀ {A : Type}, gmap string A → list (string * A);
  hardware_concurrency : Z;
  steady_clock_now : World → Z * World;
  (* options *)
  default_DBOptions : DBOptions DBRest;
  default_CFOptions : ColumnFamilyOptions CFRest;
  DB_OptimizeForSmallDb : DBOptions DBRest → DBOptions DBRest;
  IncreaseParallelism : Z → DBOptions DBRest → DBOptions DBRest;
  CF_OptimizeForSmallDb : ColumnFamilyOptions CFRest → ColumnFamilyOptions CFRest;
  OptimizeLevelStyleCompaction : Z → ColumnFamilyOptions CFRest → ColumnFamilyOptions CFRest;
  Env_Default : option ptr;
  NewSstFileManager : ptr → option ptr;
  GetRocksVersionAsString : string;
  GetRocksBuildProperties : gmap string string;
  log_info : string → World → World;
  (* opening and closing *)
  ListColumnFamilies : DBOptions DBRest → string → World → (Status * list string) * World;
  TransactionDB_Open : DBOptions DBRest → TxnDBWritePolicy → string →
    list (string * ColumnFamilyOptions CFRest) → World →
    (Status * list ptr * option ptr) * World;
  EnableFileDeletions : ptr → World → Status * World;
  CreateColumnFamily : ptr → ColumnFamilyOptions CFRest → string → World →
    (Status * option ptr) * World;
  delete_ColumnFamilyHandle : ptr → World → World;
  delete_TransactionDB : ptr → World → World;
  (* transactions *)
  BeginTransaction : ptr → option ptr → World → option ptr * World;
  Txn_Put : ptr → ptr → list byte → list byte → World → Status * World;
  Txn_Delete : ptr → ptr → list byte → World → Status * World;
  Txn_SingleDelete : ptr → ptr → list byte → World → Status * World;
  Txn_Commit : ptr → World → Status * World;
  delete_Transaction : ptr → World → World;
  (* batches *)
  WriteBatch_DeleteRange : ptr → list byte → list byte → World → (Status * WriteBatch) * World;
  DB_Write : ptr → bool → WriteBatch → World → Status * World;
  (* reads *)
  DB_Get : ptr → ptr → list byte → World → (Status * list byte) * World;
  NewIterator : ptr → ptr → World → option ptr * World;
  SeekToFirst : ptr → World → World;
  SeekToLast : ptr → World → World;
  Iterator_Valid : ptr → World → bool * World;
  Iterator_key : ptr → World → list byte * World;
  delete_Iterator : ptr → World → World;
  (* maintenance *)
  FlushWAL : ptr → bool → World → Status * World;
  DB_Flush : ptr → bool → World → Status * World;
  CompactRange : ptr → ptr → World → Status * World;
}.

(** ** Write histories

    RocksDB keeps, for each key, the writes made to it.  What a read returns is a function of
    that history except after a [SingleDelete] of a key that was overwritten or deleted in
    the ordinary way: db.h calls the result of that undefined. *)

Inductive wop :=
  | WPut (v : list byte)
  | WDelete
  | WSingleDelete.

#[export] Instance wop_eq_dec : EqDecision wop.
Proof. solve_decision. Defined.

(** A history, newest write first, in which every [SingleDelete] is used as documented: no
    ordinary delete, and at most one [Put] since the [SingleDelete] before. *)
Fixpoint clean_from (put_allowed : bool) (h : list wop) : bool :=
  match h with
  | [] => true
  | WPut _ :: h' => put_allowed && clean_from false h'
  | WDelete :: _ => false
  | WSingleDelete :: h' => clean_from true h'
  end.
Definition clean (h : list wop) : bool := clean_from true h.

(** What a read sees: [None] when undefined, [Some None] when the key is absent. *)
Definition resolve (h : list wop) : option (option (list byte)) :=
  match h with
  | [] => Some None
  | WPut v :: _ => Some (Some v)
  | WDelete :: _ => Some None
  | WSingleDelete :: h' => if clean h' then Some None else None
  end.

Abbreviation history := (gmap (ptr * list byte) (list wop)).

Definition hget (h : history) (cf : ptr) (k : list byte) : list wop := default [] (h !! (cf, k)).
Definition hpush (cf : ptr) (k : list byte) (o : wop) (h : history) : history :=
  <[(cf, k) := o :: hget h cf k]> h.
(** The writes of a transaction, oldest first. *)
Definition hpush_all (ops : list (ptr * list byte * wop)) (h : history) : history :=
  foldl (λ h '(cf, k, o), hpush cf k o h) h ops.

Definition visible (h : history) (cf : ptr) (k : list byte) : Prop :=
  ∃ v, resolve (hget h cf k) = Some (Some v).
Definition resolved (h : history) (cf : ptr) : Prop := ∀ k, is_Some (resolve (hget h cf k)).

(** [k] is the least (greatest) key of a column family. *)
Definition least_key (h : history) (cf : ptr) (k : list byte) : Prop :=
  visible h cf k ∧ ∀ k', visible h cf k' → lex k k' ≠ Gt.
Definition greatest_key (h : history) (cf : ptr) (k : list byte) : Prop :=
  visible h cf k ∧ ∀ k', visible h cf k' → lex k' k ≠ Gt.

Lemma hget_hpush h cf k o cf' k' :
  hget (hpush cf k o h) cf' k' =
    if decide ((cf, k) = (cf', k')) then o :: hget h cf k else hget h cf' k'.
Proof.
  unfold hpush, hget. rewrite lookup_insert. by case_decide.
Qed.

Lemma hget_hpush_eq h cf k o : hget (hpush cf k o h) cf k = o :: hget h cf k.
Proof. rewrite hget_hpush. by rewrite decide_True. Qed.

Lemma hget_hpush_ne h cf k o cf' k' :
  (cf, k) ≠ (cf', k') → hget (hpush cf k o h) cf' k' = hget h cf' k'.
Proof. intros. rewrite hget_hpush. by rewrite decide_False. Qed.

Create HintDb hist_db.
#[export] Hint Resolve hget_hpush_eq hget_hpush_ne : hist_db.

Lemma clean_from_weaken b h : clean_from b h = true → clean_from true h = true.
Proof. destruct b; [done|]. by destruct h as [|[]]. Qed.

(** ** What the documentation promises *)

Class ExternalSpec (E : External) := {
  (* what the promises speak of *)
  hist : World → history;
  live_txns : World → gset ptr;
  txn_batch : World → ptr → list (ptr * list byte * wop);
  batch_ranges : WriteBatch → list (ptr * list byte * list byte);
  it_cf : World → ptr → ptr;
  it_at : World → ptr → option (list byte);
  it_failed : World → ptr → Prop;
  clock : World → Z;
  (* nothing but reading: no write, no transaction opened or closed *)
  quiet (w w' : World) : Prop := hist w' = hist w ∧ live_txns w' = live_txns w;

  umap_iter_perm {A} (m : gmap string A) : umap_iter m ≡ₚ map_to_list m;
  log_spec l w : quiet w (log_info l w);
  now_spec w t w' : steady_clock_now w = (t, w') → quiet w w' ∧ t = clock w' ∧ clock w <= t;

  (* transaction_db.h: an old transaction object is reused instead of allocating *)
  begin_new db w t w' :
    BeginTransaction db None w = (Some t, w') →
    hist w' = hist w ∧ txn_batch w' t = [] ∧ (t ∉ live_txns w) ∧
    live_txns w' = {[ t ]} ∪ live_txns w;
  begin_reuse db o w t w' :
    BeginTransaction db (Some o) w = (Some t, w') →
    t = o ∧ quiet w w' ∧ txn_batch w' t = [];
  begin_none db o w w' : BeginTransaction db o w = (None, w') → quiet w w';

  (* writes are buffered until Commit, which applies all of them or reports an error *)
  put_spec t cf k v w s w' :
    Txn_Put t cf k v w = (s, w') →
    quiet w w' ∧ (ok s = true → txn_batch w' t = txn_batch w t ++ [(cf, k, WPut v)]);
  delete_spec t cf k w s w' :
    Txn_Delete t cf k w = (s, w') →
    quiet w w' ∧ (ok s = true → txn_batch w' t = txn_batch w t ++ [(cf, k, WDelete)]);
  single_delete_spec t cf k w s w' :
    Txn_SingleDelete t cf k w = (s, w') →
    quiet w w' ∧ (ok s = true → txn_batch w' t = txn_batch w t ++ [(cf, k, WSingleDelete)]);
  commit_spec t w s w' :
    Txn_Commit t w = (s, w') →
    live_txns w' = live_txns w ∧
    hist w' = (if ok s then hpush_all (txn_batch w t) (hist w) else hist w);
  delete_txn_spec t w :
    hist (delete_Transaction t w) = hist w ∧
    live_txns (delete_Transaction t w) = live_txns w ∖ {[ t ]};

  (* db.h, Get: OK with the value, NotFound when there is none, or some other error *)
  get_spec db cf k w s v w' :
    DB_Get db cf k w = ((s, v), w') →
    quiet w w' ∧
    (ok s = true → ∀ r, resolve (hget (hist w) cf k) = Some r → r = Some v) ∧
    (IsNotFound s = true → ∀ r, resolve (hget (hist w) cf k) = Some r → r = None);

  (* db.h, DeleteRange: the keys of [begin, end) are removed, the others untouched *)
  range_spec cf b e w s wb w' :
    WriteBatch_DeleteRange cf b e w = ((s, wb), w') →
    quiet w w' ∧ (ok s = true → batch_ranges wb = [(cf, b, e)]);
  write_spec db skip wb w s w' :
    DB_Write db skip wb w = (s, w') →
    live_txns w' = live_txns w ∧
    (ok s = false → hist w' = hist w) ∧
    (ok s = true → ∀ cf b e, batch_ranges wb = [(cf, b, e)] → ∀ cf' k,
       if decide (cf' = cf ∧ lex b k ≠ Gt ∧ lex k e = Lt)
       then resolve (hget (hist w') cf' k) = Some None
       else hget (hist w') cf' k = hget (hist w) cf' k);

  (* iterator_base.h: an iterator stands at a key or is not valid; not being valid means the
     end, or that the iterator failed *)
  new_iterator_some db cf w it w' :
    NewIterator db cf w = (Some it, w') → quiet w w' ∧ it_cf w' it = cf;
  new_iterator_none db cf w w' : NewIterator db cf w = (None, w') → quiet w w';
  seek_first_spec it w :
    quiet w (SeekToFirst it w) ∧
    (resolved (hist w) (it_cf w it) →
     match it_at (SeekToFirst it w) it with
     | Some k => least_key (hist w) (it_cf w it) k
     | None => it_failed (SeekToFirst it w) it ∨ ∀ k, ¬ visible (hist w) (it_cf w it) k
     end);
  seek_last_spec it w :
    quiet w (SeekToLast it w) ∧
    (resolved (hist w) (it_cf w it) →
     match it_at (SeekToLast it w) it with
     | Some k => greatest_key (hist w) (it_cf w it) k
     | None => it_failed (SeekToLast it w) it ∨ ∀ k, ¬ visible (hist w) (it_cf w it) k
     end);
  valid_spec it w b w' :
    Iterator_Valid it w = (b, w') →
    quiet w w' ∧ it_at w' it = it_at w it ∧ b = bool_decide (is_Some (it_at w it));
  key_spec it w k w' :
    Iterator_key it w = (k, w') → quiet w w' ∧ (∀ k0, it_at w it = Some k0 → k = k0);
  delete_iterator_spec it w : quiet w (delete_Iterator it w);

  (* flushing, syncing and compacting do not change what is stored *)
  flush_wal_spec db sync w s w' : FlushWAL db sync w = (s, w') → quiet w w';
  flush_spec db wait w s w' : DB_Flush db wait w = (s, w') → quiet w w';
  compact_spec db cf w s w' : CompactRange db cf w = (s, w') → quiet w w';

  (* column families; [nullptr] is left behind by a failed open (transaction_db.h) *)
  create_cf_spec db o name w s r w' :
    CreateColumnFamily db o name w = ((s, r), w') →
    quiet w w' ∧ (ok s = true → is_Some r ∧ ∀ h k, r = Some h → hget (hist w) h k = []);
  open_spec o p path descs w s hs db w' :
    TransactionDB_Open o p path descs w = ((s, hs, db), w') →
    (ok s = true → is_Some db ∧ length hs = length descs) ∧ (ok s = false → db = None);
}.
