(* ===== verification/KindImpl.v ===== *)
(** Kinds (include/api/Kind.h, include/api/RocksType.h, include/impl/SameType.h,
    src/impl/KindImpl.cpp): the library's name for a RocksDB column family. *)
From S2P Require Import Prelude Slice RocksStatus RocksDB.

Local Open Scope Z_scope.

Record KindImpl := mkKindImpl {
  name_ : string;
  handle_ : option ptr;
}.

(** An object behind a [const Kind&]: one of the library's own, or an object of another
    class that implements the interface. *)
Inductive Kind :=
  | AKindImpl (k : KindImpl)
  | OtherKind (name : string) (valid : bool).

(** [KindImpl()] and [KindImpl(const char*, ColumnFamilyHandle* )] *)
Definition new_KindImpl : KindImpl := mkKindImpl EmptyString None.
Definition KindImpl_of (name : string) (handle : option ptr) : KindImpl :=
  mkKindImpl (c_str name) handle.

(** [name_.c_str()], read as a C string. *)
Definition name (k : KindImpl) : string := c_str (name_ k).
Definition isValid (k : KindImpl) : bool := bool_decide (handle_ k ≠ None).
Definition toString (k : KindImpl) : string := name k.
Definition handle (k : KindImpl) : option ptr := handle_ k.

(** The virtual calls, on any object. *)
Definition kind_isValid (o : Kind) : bool :=
  match o with AKindImpl k => isValid k | OtherKind _ v => v end.
Definition kind_name (o : Kind) : string :=
  match o with AKindImpl k => name k | OtherKind n _ => c_str n end.

Definition string_bytes (s : string) : list byte := String.list_byte_of_string s.

(** [name_ < other.name()]: [std::string] compares as unsigned characters. *)
Definition kind_lt (k : KindImpl) (other : Kind) : bool :=
  bool_decide (lex (string_bytes (name_ k)) (string_bytes (kind_name other)) = Lt).

(** [SameType::isSameType]: not null and of the same class. *)
Definition isSameType (other : option Kind) : bool :=
  match other with Some (AKindImpl _) => true | _ => false end.

Definition equals (k : KindImpl) (other : option Kind) : bool :=
  if isSameType other then
    match other with
    | Some (AKindImpl k') => bool_decide (name_ k = name_ k')
    | _ => false
    end
  else false.

(** [operator==(const RocksType&)] *)
Definition kind_eq (k : KindImpl) (other : Kind) : bool := equals k (Some other).

Section Hash.
(** [std::hash<std::string>] *)
Context (std_hash : string → Z).
Definition hash (k : KindImpl) : Z := std_hash (name_ k).
End Hash.

Section Close.
Context `{External}.
(** [closeHandle]: deleting a null pointer does nothing. *)
Definition closeHandle (k : KindImpl) (w : World) : KindImpl * World :=
  (mkKindImpl (name_ k) None,
   match handle_ k with Some h => delete_ColumnFamilyHandle h w | None => w end).
End Close.

(** ** Lemmas *)

#[export] Instance KindImpl_eq_dec : EqDecision KindImpl.
Proof. solve_decision. Defined.

Lemma list_byte_of_string_inj s1 s2 : string_bytes s1 = string_bytes s2 → s1 = s2.
Proof.
  unfold string_bytes. intros H.
  rewrite <- (String.string_of_list_byte_of_string s1), <- (String.string_of_list_byte_of_string s2).
  by rewrite H.
Qed.

(** Kinds the library makes have no NUL in their name. *)
Definition kind_wf (k : KindImpl) : Prop := c_str (name_ k) = name_ k.

Lemma KindImpl_of_wf n h : kind_wf (KindImpl_of n h).
Proof. unfold kind_wf; simpl. apply c_str_idemp. Qed.

Lemma new_KindImpl_wf : kind_wf new_KindImpl.
Proof. done. Qed.

#[export] Hint Resolve KindImpl_of_wf new_KindImpl_wf : core.

Lemma name_wf k : kind_wf k → name k = name_ k.
Proof. done. Qed.

(** On the kinds the library makes, [operator<] is a strict total order up to
    [operator==]: irreflexive, transitive, and two kinds neither of which is smaller are
    equal and hash alike; [equals] is false for null and for objects of another class. *)
Theorem kind_order_is_strict_total (std_hash : string → Z) (a b c : KindImpl) :
  kind_wf a → kind_wf b → kind_wf c →
  kind_lt a (AKindImpl a) = false ∧
  (kind_lt a (AKindImpl b) = true → kind_lt b (AKindImpl c) = true →
   kind_lt a (AKindImpl c) = true) ∧
  (kind_eq a (AKindImpl b) = true ↔
   kind_lt a (AKindImpl b) = false ∧ kind_lt b (AKindImpl a) = false) ∧
  (kind_eq a (AKindImpl b) = true → hash std_hash a = hash std_hash b) ∧
  equals a None = false ∧ ∀ n v, equals a (Some (OtherKind n v)) = false.
Proof.
  intros Ha Hb Hc. unfold kind_lt, kind_eq, equals, hash; simpl.
  rewrite !name_wf by done. split_and!.
  - by rewrite lex_refl.
  - rewrite !bool_decide_eq_true. apply lex_lt_trans.
  - rewrite bool_decide_eq_true, !bool_decide_eq_false.
    rewrite (lex_antisym (string_bytes (name_ a)) (string_bytes (name_ b))).
    split.
    + intros ->. by rewrite lex_refl.
    + intros [H1 H2]. apply list_byte_of_string_inj, lex_eq.
      by destruct (lex (string_bytes (name_ a)) _).
  - rewrite bool_decide_eq_true. by intros ->.
  - done.
  - done.
Qed.

Lemma kind_order_is_strict_total_witness :
  kind_wf (KindImpl_of "a" None) ∧ kind_wf (KindImpl_of "b" None) ∧
  kind_lt (KindImpl_of "a" None) (AKindImpl (KindImpl_of "a" None)) = false.
Proof.
  split; [reflexivity|]. split; [reflexivity|].
  exact (proj1 (kind_order_is_strict_total (λ _, 0) (KindImpl_of "a" None)
    (KindImpl_of "b" None) (KindImpl_of "c" None) eq_refl eq_refl eq_refl)).
Defined.
