(* ===== verification/StoreImpl.v ===== *)
(** The store (include/impl/StoreImpl.h, src/impl/StoreImpl.cpp): one RocksDB transaction
    database behind a mutex, its kinds, and the operations of the C interface.  This file
    holds the state and one definition per method; StoreLemmas.v and StoreSpec.v prove what
    they do. *)
From S2P Require Import Prelude Slice RocksStatus StatusCode RocksDB KindImpl.

Local Open Scope Z_scope.

Section StoreImpl.
Context `{E : External}.

(** ** State *)

(** The option objects the constructor fills in. *)
Record StoreConfig := mkStoreConfig {
  options : DBOptions DBRest;
  txnDbOptions_write_policy : TxnDBWritePolicy;
  columnFamilyOptions : ColumnFamilyOptions CFRest;
  flushOptions : bool;          (* FlushOptions::wait *)
  flushOptionsNoWait : bool;
  sstFileManager : option ptr;
}.

(** [kinds] maps a name to the node that holds the kind; [monitor] is true while some call
    holds the mutex. *)
Record StoreImpl := mkStoreImpl {
  open : bool;
  monitor : bool;
  config : StoreConfig;
  txnDb : option ptr;
  reusableTx_ : option ptr;
  kinds : gmap string ptr;
  path : string;
  version : string;
  code : Z;
  totalSinceLastSync : Z;
  lastSync : Z;
}.

(** The process a store lives in: the outside world, the arrays of [char] allocated and not
    deleted, the [Kind] objects that exist, and the store itself. *)
Record proc := mkProc {
  world : World;
  chars : gmap ptr (list byte);
  kindobjs : gmap ptr Kind;
  this : StoreImpl;
}.

Definition FLUSH_BATCH_SIZE : Z := 16384 - 1.
Definition FLUSH_TIME_WINDOW_MILLIS : Z := 985.
Definition DefaultCF : string := "default".
Definition DEFAULT_COMPACTION_MEMTABLE_MEMORY_BUDGET : Z := 192 * 1024 * 1024.
(** The address of the static [EmptyKind]. *)
Definition EmptyKind : ptr := 1%positive.

Definition set_open b s := mkStoreImpl b (monitor s) (config s) (txnDb s) (reusableTx_ s)
  (kinds s) (path s) (version s) (code s) (totalSinceLastSync s) (lastSync s).
Definition set_monitor b s := mkStoreImpl (open s) b (config s) (txnDb s) (reusableTx_ s)
  (kinds s) (path s) (version s) (code s) (totalSinceLastSync s) (lastSync s).
Definition set_config c s := mkStoreImpl (open s) (monitor s) c (txnDb s) (reusableTx_ s)
  (kinds s) (path s) (version s) (code s) (totalSinceLastSync s) (lastSync s).
Definition set_txnDb d s := mkStoreImpl (open s) (monitor s) (config s) d (reusableTx_ s)
  (kinds s) (path s) (version s) (code s) (totalSinceLastSync s) (lastSync s).
Definition set_reusableTx t s := mkStoreImpl (open s) (monitor s) (config s) (txnDb s) t
  (kinds s) (path s) (version s) (code s) (totalSinceLastSync s) (lastSync s).
Definition set_kinds k s := mkStoreImpl (open s) (monitor s) (config s) (txnDb s)
  (reusableTx_ s) k (path s) (version s) (code s) (totalSinceLastSync s) (lastSync s).
Definition set_version v s := mkStoreImpl (open s) (monitor s) (config s) (txnDb s)
  (reusableTx_ s) (kinds s) (path s) v (code s) (totalSinceLastSync s) (lastSync s).
Definition set_code c s := mkStoreImpl (open s) (monitor s) (config s) (txnDb s)
  (reusableTx_ s) (kinds s) (path s) (version s) c (totalSinceLastSync s) (lastSync s).
Definition set_sync n t s := mkStoreImpl (open s) (monitor s) (config s) (txnDb s)
  (reusableTx_ s) (kinds s) (path s) (version s) (code s) n t.

Definition with_world (w : World) (p : proc) : proc :=
  mkProc w (chars p) (kindobjs p) (this p).
Definition with_chars (c : gmap ptr (list byte)) (p : proc) : proc :=
  mkProc (world p) c (kindobjs p) (this p).
Definition with_kindobjs (k : gmap ptr Kind) (p : proc) : proc :=
  mkProc (world p) (chars p) k (this p).
Definition with_this (f : StoreImpl → StoreImpl) (p : proc) : proc :=
  mkProc (world p) (chars p) (kindobjs p) (f (this p)).

Abbreviation MP := (M proc).

(** A call into RocksDB or the runtime. *)
Definition ext {A} (f : World → A * World) : MP A := λ p,
  let '(a, w) := f (world p) in Done (a, with_world w p).
Definition ext_ (f : World → World) : MP unit := λ p, Done (tt, with_world (f (world p)) p).

(** [new char[n]] filled by [memcpy]. *)
Definition new_chars (bs : list byte) : MP ptr := λ p,
  let l := fresh (dom (chars p)) in Done (l, with_chars (<[l := bs]> (chars p)) p).
(** [delete[]] of an array of [char]. *)
Definition delete_chars (q : option ptr) : MP unit := λ p,
  match q with
  | None => Done (tt, p)
  | Some l => match chars p !! l with
              | Some _ => Done (tt, with_chars (delete l (chars p)) p)
              | None => Undef DoubleFree
              end
  end.

(** Following a [const Kind&]. *)
Definition deref_kind (r : ptr) : MP Kind := λ p,
  match kindobjs p !! r with Some k => Done (k, p) | None => Undef UseAfterFree end.

(** ** Helpers of StoreImpl.cpp *)

(** [std::lock_guard] on [monitor]: a thread that already holds it never returns. *)
Definition synchronize {A} (m : MP A) : MP A :=
  locked ← gets (λ p, monitor (this p));
  if (locked : bool) then undef SelfDeadlock
  else
    modify (with_this (set_monitor true)) ;;
    a ← m;
    modify (with_this (set_monitor false)) ;;
    mret a.

(** [dynamic_cast<KindImpl*>]: the kind's address, or null with [InvalidArgument]. *)
Definition toKindImpl (r : ptr) (status : status_ptr) : MP (option KindImpl * status_ptr) :=
  o ← deref_kind r;
  match o with
  | AKindImpl k => mret (Some k, status)
  | OtherKind _ _ => mret (None, assign Status.InvalidArgument status)
  end.

Definition isOpen : MP bool := gets (λ p, open (this p)).
Definition getCode : MP Z := gets (λ p, code (this p)).

Definition validateOpen (status : status_ptr) : MP (bool * status_ptr) :=
  b ← isOpen;
  if (b : bool) then mret (true, assign Status.Ok status)
  else
    modify (with_this (set_code Status.Closed)) ;;
    mret (false, assign Status.Closed status).

Definition get_txnDb : MP ptr := d ← gets (λ p, txnDb (this p)); deref d.

Definition reusableTx : MP (option ptr) :=
  r ← gets (λ p, reusableTx_ (this p));
  match r with
  | Some _ => mret r
  | None =>
      db ← get_txnDb;
      t ← ext (BeginTransaction db None);
      modify (with_this (set_reusableTx t)) ;;
      mret t
  end.

Definition deleteIfNewTx (tx : option ptr) : MP unit :=
  r ← gets (λ p, reusableTx_ (this p));
  if decide (tx ≠ r) then
    match tx with Some t => ext_ (delete_Transaction t) | None => mret tt end
  else mret tt.

Definition syncWALNoLock : MP unit :=
  b ← isOpen;
  if (b : bool) then db ← get_txnDb; ext (FlushWAL db true) ;; mret tt else mret tt.

Definition flushNoLock (wait : bool) : MP unit :=
  b ← isOpen;
  if (b : bool) then db ← get_txnDb; ext (DB_Flush db wait) ;; mret tt else mret tt.

Definition syncAndReset : MP unit :=
  syncWALNoLock ;;
  now ← ext steady_clock_now;
  modify (with_this (λ s, set_sync (totalSinceLastSync s) now s)) ;;
  modify (with_this (λ s, set_sync 0 (lastSync s) s)).

(** [since] (include/impl/utils.h), in milliseconds from nanoseconds. *)
Definition since (start : Z) : MP Z :=
  now ← ext steady_clock_now; mret (Z.quot (now - start) 1000000).

Definition occasionalWalSync : MP unit :=
  modify (with_this (λ s, set_sync (u64 (totalSinceLastSync s + 1)) (lastSync s) s)) ;;
  last ← gets (λ p, lastSync (this p));
  elapsed ← since last;
  total ← gets (λ p, totalSinceLastSync (this p));
  if bool_decide (FLUSH_TIME_WINDOW_MILLIS <= elapsed)
     || bool_decide (Z.land total FLUSH_BATCH_SIZE = 0)
  then syncAndReset else mret tt.

(** ** Opening and closing *)

(** [kinds[name] = k]: assigns the node in place, or makes a new one. *)
Definition kinds_assign (n : string) (k : KindImpl) : MP ptr := λ p,
  match kinds (this p) !! n with
  | Some r => Done (r, with_kindobjs (<[r := AKindImpl k]> (kindobjs p)) p)
  | None =>
      let r := fresh (dom (kindobjs p)) in
      Done (r, with_this (λ s, set_kinds (<[n := r]> (kinds s)) s)
                 (with_kindobjs (<[r := AKindImpl k]> (kindobjs p)) p))
  end.

(** The loop of [openDatabase] over the column families, [cfHandles] read by index. *)
Fixpoint register_kinds (names : list string) (handles : list ptr) : MP unit :=
  match names with
  | [] => mret tt
  | n :: names' =>
      match handles with
      | [] => undef OutOfBounds
      | h :: handles' => kinds_assign n (KindImpl_of n (Some h)) ;; register_kinds names' handles'
      end
  end.

Definition openDatabase : MP RocksStatus.Status :=
  cfg ← gets (λ p, config (this p));
  dbpath ← gets (λ p, path (this p));
  '(s, families) ← ext (ListColumnFamilies (options cfg) dbpath);
  if ok s || IsPathNotFound s then
    let families := match families with [] => [DefaultCF] | _ => families end in
    let cfDescs := (λ n, (n, columnFamilyOptions cfg)) <$> families in
    '(s, cfHandles, db) ←
      ext (TransactionDB_Open (options cfg) (txnDbOptions_write_policy cfg) dbpath cfDescs);
    modify (with_this (set_txnDb db)) ;;
    (if ok s then register_kinds families cfHandles else mret tt) ;;
    d ← get_txnDb;
    ext (EnableFileDeletions d) ;;
    mret s
  else mret s.

(** The settings of [open_], in the order it makes them. *)
Definition open_config : StoreConfig :=
  let o := DB_OptimizeForSmallDb default_DBOptions in
  let o := mkDBOptions true false 2 3600000000 (4 * 3600) 64 10 (info_log_level _ o) (env o)
             (sst_file_manager o) (db_rest o) in
  let o := IncreaseParallelism (Z.max hardware_concurrency 2) o in
  let o := mkDBOptions (create_if_missing _ o) (error_if_exists _ o) (keep_log_file_num _ o)
             (delete_obsolete_files_period_micros _ o) (WAL_ttl_seconds _ o)
             (WAL_size_limit_MB _ o) (recycle_log_file_num _ o) WARN_LEVEL (env o)
             (sst_file_manager o) (db_rest o) in
  let e := match env o with Some e => Some e | None => Env_Default end in
  let m := match e with Some e => NewSstFileManager e | None => None end in
  let o := match m with
           | Some m => mkDBOptions (create_if_missing _ o) (error_if_exists _ o)
               (keep_log_file_num _ o) (delete_obsolete_files_period_micros _ o)
               (WAL_ttl_seconds _ o) (WAL_size_limit_MB _ o) (recycle_log_file_num _ o)
               (info_log_level _ o) (env o) (Some m) (db_rest o)
           | None => o
           end in
  let c := CF_OptimizeForSmallDb default_CFOptions in
  let c := mkCFOptions (1 * 24 * 60 * 60) true (table_factory _ c) (cf_rest c) in
  let c := OptimizeLevelStyleCompaction DEFAULT_COMPACTION_MEMTABLE_MEMORY_BUDGET c in
  let c := mkCFOptions (periodic_compaction_seconds _ c) (optimize_filters_for_hits _ c)
             (mkTableOptions (16 * 1024) 6) (cf_rest c) in
  mkStoreConfig o WRITE_COMMITTED c true false m.

(** [unordered_map::at]: throws when the key is absent. *)
Definition map_at (m : gmap string string) (k : string) : MP string :=
  match m !! k with Some v => mret v | None => undef UncaughtException end.

Definition open_ : MP unit :=
  modify (with_this (set_config open_config)) ;;
  s ← openDatabase;
  (if ok s then
    t ← reusableTx;
    modify (with_this (set_reusableTx t)) ;;
    sha ← map_at GetRocksBuildProperties "rocksdb_build_git_sha";
    date ← map_at GetRocksBuildProperties "rocksdb_build_date";
    modify (with_this (λ s, set_version
      (version s +:+ "RocksDB version: " +:+ GetRocksVersionAsString +:+
       ", Git sha: " +:+ sha +:+ ", Compiled: " +:+ date) s)) ;;
    v ← gets (λ p, version (this p));
    dbpath ← gets (λ p, path (this p));
    ext_ (log_info v) ;;
    ext_ (log_info ("Database opened at: " +:+ dbpath)) ;;
    modify (with_this (set_open true))
  else modify (with_this (set_code (report_code s)))) ;;
  now ← ext steady_clock_now;
  modify (with_this (λ s, set_sync (totalSinceLastSync s) now s)).

(** The object before the constructor's body runs. *)
Definition initial_StoreImpl (c0 : StoreConfig) (path_ : string) : StoreImpl :=
  mkStoreImpl false false c0 None None ∅ (c_str path_) EmptyString Status.Ok 0 0.

Definition StoreImpl_new (c0 : StoreConfig) (path_ : string) : MP unit :=
  modify (with_this (λ _, initial_StoreImpl c0 path_)) ;; open_.

(** [for (auto& it : kinds) it.second.closeHandle()] *)
Fixpoint close_handles (l : list (string * ptr)) : MP unit :=
  match l with
  | [] => mret tt
  | (_, r) :: l' =>
      o ← deref_kind r;
      (match o with
       | AKindImpl k => λ p,
           let '(k', w) := closeHandle k (world p) in
           Done (tt, with_kindobjs (<[r := AKindImpl k']> (kindobjs p)) (with_world w p))
       | OtherKind _ _ => mret tt
       end) ;;
      close_handles l'
  end.

(** [kinds.clear()]: the nodes are destroyed, and references to their kinds dangle. *)
Definition kinds_clear : MP unit :=
  modify (λ p, with_this (set_kinds ∅)
    (with_kindobjs (foldr (λ r m, delete r m) (kindobjs p) (map_to_list (kinds (this p))).*2) p)).

Definition close_body : MP unit :=
  b ← isOpen;
  if (b : bool) then
    modify (with_this (set_open false)) ;;
    syncWALNoLock ;;
    cfg ← gets (λ p, config (this p));
    flushNoLock (flushOptions cfg) ;;
    ks ← gets (λ p, kinds (this p));
    close_handles (umap_iter ks) ;;
    kinds_clear ;;
    d ← gets (λ p, txnDb (this p));
    (match d with Some db => ext_ (delete_TransactionDB db) | None => mret tt end) ;;
    modify (with_this (set_txnDb None))
  else mret tt.

Definition close : MP unit := synchronize close_body.

(** [~StoreImpl] *)
Definition StoreImpl_delete : MP unit :=
  b ← isOpen; if (b : bool) then close else mret tt.

(** ** Kinds *)

Definition getKindManager (status : status_ptr) : MP status_ptr :=
  '(_, status) ← validateOpen status; mret status.

(** The array of addresses, [None] for a null pointer, and [*resultLen]. *)
Definition getKinds (status : status_ptr) (resultLen : option Z) :
    MP (status_ptr * option Z * option (list ptr)) :=
  synchronize (
    '(b, status) ← validateOpen status;
    if (b : bool) then
      ks ← gets (λ p, kinds (this p));
      let ppK := (umap_iter ks).*2 in
      _ ← deref resultLen;
      mret (status, Some (Z.of_nat (length ppK)), Some ppK)
    else mret (assign Status.Closed status, resultLen, None)).

Definition getDefaultKind (status : status_ptr) : MP (status_ptr * ptr) :=
  synchronize (
    '(b, status) ← validateOpen status;
    if (b : bool) then
      ks ← gets (λ p, kinds (this p));
      match ks !! DefaultCF with
      | Some r => mret (status, r)
      | None => mret (assign Status.NotFound status, EmptyKind)
      end
    else mret (status, EmptyKind)).

Definition createKind (status : status_ptr) (kindName : string) : MP (status_ptr * ptr) :=
  let cfName := c_str kindName in
  db ← get_txnDb;
  cfg ← gets (λ p, config (this p));
  '(s, cfHandle) ← ext (CreateColumnFamily db (columnFamilyOptions cfg) cfName);
  if ok s then
    r ← kinds_assign cfName (KindImpl_of cfName cfHandle);
    mret (status, r)
  else mret (assign (report_code s) status, EmptyKind).

Definition getOrCreateKind (status : status_ptr) (kindName : string) : MP (status_ptr * ptr) :=
  synchronize (
    '(b, status) ← validateOpen status;
    if (b : bool) then
      ks ← gets (λ p, kinds (this p));
      match ks !! c_str kindName with
      | Some r => mret (status, r)
      | None => createKind status kindName
      end
    else mret (status, EmptyKind)).

(** ** Reads and writes *)

(** The text [put_], [remove_] and [singleRemove_] share after the cast: begin or reuse a
    transaction, make the one write [op], commit, and count the commit towards a sync. *)
Definition in_transaction (status : status_ptr) (k : KindImpl)
    (op : ptr → ptr → MP RocksStatus.Status) : MP status_ptr :=
  old ← reusableTx;
  db ← get_txnDb;
  tx ← ext (BeginTransaction db old);
  status ←
    match tx with
    | Some t =>
        h ← deref (handle k);
        s ← op t h;
        if ok s then
          s ← ext (Txn_Commit t);
          if ok s then occasionalWalSync ;; mret status
          else mret (assign (report_code s) status)
        else mret (assign (report_code s) status)
    | None => mret (assign Status.NoTransaction status)
    end;
  deleteIfNewTx tx ;;
  mret status.

Definition put_ (status : status_ptr) (r : ptr) (key : char_ptr) (keyLen : Z)
    (value : char_ptr) (valLen : Z) : MP status_ptr :=
  '(kind, status) ← toKindImpl r status;
  match kind with
  | None => mret status
  | Some k => in_transaction status k (λ t h,
      kb ← lift_outcome (read_mem key keyLen);
      vb ← lift_outcome (read_mem value valLen);
      ext (Txn_Put t h kb vb))
  end.

Definition remove_ (status : status_ptr) (r : ptr) (key : char_ptr) (keyLen : Z) :
    MP status_ptr :=
  '(kind, status) ← toKindImpl r status;
  match kind with
  | None => mret status
  | Some k => in_transaction status k (λ t h,
      kb ← lift_outcome (read_mem key keyLen); ext (Txn_Delete t h kb))
  end.

Definition singleRemove_ (status : status_ptr) (r : ptr) (key : char_ptr) (keyLen : Z) :
    MP status_ptr :=
  '(kind, status) ← toKindImpl r status;
  match kind with
  | None => mret status
  | Some k => in_transaction status k (λ t h,
      kb ← lift_outcome (read_mem key keyLen); ext (Txn_SingleDelete t h kb))
  end.

(** The new status, [*resultLen], and the array returned ([None] for a null pointer). *)
Definition get_ (status : status_ptr) (r : ptr) (resultLen : Z) (key : char_ptr) (keyLen : Z) :
    MP (status_ptr * Z * option ptr) :=
  '(kind, status) ← toKindImpl r status;
  match kind with
  | None => mret (status, resultLen, None)
  | Some k =>
      db ← get_txnDb;
      h ← deref (handle k);
      kb ← lift_outcome (read_mem key keyLen);
      '(s, val) ← ext (DB_Get db h kb);
      let pinnable := Slice_of_string val in
      if ok s then
        if negb (empty pinnable) then
          bs ← lift_outcome (read_mem (data pinnable) (size pinnable));
          l ← new_chars bs;
          mret (status, size pinnable, Some l)
        else mret (status, resultLen, None)
      else mret (assign (report_code s) status, resultLen, None)
  end.

(** [!p || !kind.isValid()]: the kind is only looked at when the pointer is not null. *)
Definition bad_argument (null : bool) (r : ptr) : MP bool :=
  if null then mret true else o ← deref_kind r; mret (negb (kind_isValid o)).

Definition is_null {A} (p : option A) : bool := match p with None => true | _ => false end.

Definition put (status : status_ptr) (r : ptr) (key : char_ptr) (keyLen : Z)
    (value : char_ptr) (valLen : Z) : MP status_ptr :=
  bad ← bad_argument (is_null key) r;
  if (bad : bool) then mret (assign Status.InvalidArgument status)
  else synchronize (
    '(b, status) ← validateOpen status;
    if (b : bool) then put_ status r key keyLen value valLen
    else mret (assign Status.Closed status)).

Definition remove (status : status_ptr) (r : ptr) (key : char_ptr) (keyLen : Z) :
    MP status_ptr :=
  bad ← bad_argument (is_null key) r;
  if (bad : bool) then mret (assign Status.InvalidArgument status)
  else synchronize (
    '(b, status) ← validateOpen status;
    if (b : bool) then remove_ status r key keyLen
    else mret (assign Status.Closed status)).

Definition singleRemove (status : status_ptr) (r : ptr) (key : char_ptr) (keyLen : Z) :
    MP status_ptr :=
  bad ← bad_argument (is_null key) r;
  if (bad : bool) then mret (assign Status.InvalidArgument status)
  else synchronize (
    '(b, status) ← validateOpen status;
    if (b : bool) then singleRemove_ status r key keyLen
    else mret (assign Status.Closed status)).

Definition removeRange (status : status_ptr) (r : ptr) (beginKeyInclusive : char_ptr)
    (beginKeyLen : Z) (endKeyExclusive : char_ptr) (endKeyLen : Z) : MP status_ptr :=
  bad ← bad_argument (is_null beginKeyInclusive || is_null endKeyExclusive) r;
  if (bad : bool) then mret (assign Status.InvalidArgument status)
  else synchronize (
    '(b, status) ← validateOpen status;
    if (b : bool) then
      '(kind, status) ← toKindImpl r status;
      match kind with
      | None => mret status
      | Some k =>
          h ← deref (handle k);
          bb ← lift_outcome (read_mem beginKeyInclusive beginKeyLen);
          eb ← lift_outcome (read_mem endKeyExclusive endKeyLen);
          '(s, wb) ← ext (WriteBatch_DeleteRange h bb eb);
          if ok s then
            db ← get_txnDb;
            s ← ext (DB_Write db true wb);
            if negb (ok s) then mret (assign (report_code s) status) else mret status
          else mret (assign (report_code s) status)
      end
    else mret (assign Status.Closed status)).

Definition get (status : status_ptr) (r : ptr) (resultLen : option Z) (key : char_ptr)
    (keyLen : Z) : MP (status_ptr * option Z * option ptr) :=
  bad ← bad_argument (is_null key || is_null resultLen) r;
  if (bad : bool) then mret (assign Status.InvalidArgument status, resultLen, None)
  else synchronize (
    '(b, status) ← validateOpen status;
    if (b : bool) then
      '(status, n, res) ← get_ status r 0 key keyLen;
      mret (status, Some n, res)
    else mret (assign Status.Closed status, Some 0, None)).

(** The text [updateIfPresent], [singleRemoveIfPresent] and [removeIfPresent] share: read
    the old value, then, when the read succeeded, make the write. *)
Definition if_present (status : status_ptr) (r : ptr) (resultLen : option Z) (key : char_ptr)
    (keyLen : Z) (act : status_ptr → MP status_ptr) :
    MP (status_ptr * option Z * option ptr) :=
  bad ← bad_argument (is_null key || is_null resultLen) r;
  if (bad : bool) then mret (assign Status.InvalidArgument status, resultLen, None)
  else synchronize (
    '(b, status) ← validateOpen status;
    if (b : bool) then
      '(state, n, oldVal) ← get_ (Some Status.Ok) r 0 key keyLen;
      state ← (if decide (state = Some Status.Ok) then act state else mret state);
      mret (assign (default Status.Ok state) status, Some n, oldVal)
    else mret (assign Status.Closed status, Some 0, None)).

Definition updateIfPresent (status : status_ptr) (r : ptr) (resultLen : option Z)
    (key : char_ptr) (keyLen : Z) (value : char_ptr) (valLen : Z) :
    MP (status_ptr * option Z * option ptr) :=
  if_present status r resultLen key keyLen (λ state, put_ state r key keyLen value valLen).

Definition singleRemoveIfPresent (status : status_ptr) (r : ptr) (resultLen : option Z)
    (key : char_ptr) (keyLen : Z) : MP (status_ptr * option Z * option ptr) :=
  if_present status r resultLen key keyLen (λ state, singleRemove_ state r key keyLen).

Definition removeIfPresent (status : status_ptr) (r : ptr) (resultLen : option Z)
    (key : char_ptr) (keyLen : Z) : MP (status_ptr * option Z * option ptr) :=
  if_present status r resultLen key keyLen (λ state, remove_ state r key keyLen).

(** The old value is read into an array that nothing deletes. *)
Definition putIfAbsent (status : status_ptr) (r : ptr) (key : char_ptr) (keyLen : Z)
    (value : char_ptr) (valLen : Z) : MP status_ptr :=
  bad ← bad_argument (is_null key) r;
  if (bad : bool) then mret (assign Status.InvalidArgument status)
  else synchronize (
    '(b, status) ← validateOpen status;
    if (b : bool) then
      '(state, _, _) ← get_ (Some Status.Ok) r 0 key keyLen;
      state ←
        (if decide (state = Some Status.NotFound) then
           put_ (Some Status.Ok) r key keyLen value valLen
         else if decide (state = Some Status.Ok) then mret (Some Status.AlreadyExists)
         else mret state);
      mret (assign (default Status.Ok state) status)
    else mret (assign Status.Closed status)).

Definition syncWAL : MP unit := synchronize syncWALNoLock.
Definition flush : MP unit :=
  synchronize (cfg ← gets (λ p, config (this p)); flushNoLock (flushOptions cfg)).
Definition flushNoWait : MP unit :=
  synchronize (cfg ← gets (λ p, config (this p)); flushNoLock (flushOptionsNoWait cfg)).

(** [findMinKey] and [findMaxKey] differ only in the seek. *)
Definition find_key (seek : ptr → World → World) (status : status_ptr) (r : ptr)
    (resultLen : option Z) : MP (status_ptr * option Z * option ptr) :=
  o ← deref_kind r;
  if negb (kind_isValid o) then mret (assign Status.InvalidArgument status, resultLen, None)
  else
    '(kind, status) ← toKindImpl r status;
    match kind with
    | None => mret (status, resultLen, None)
    | Some k =>
        _ ← deref resultLen;
        synchronize (
          '(b, status) ← validateOpen status;
          if (b : bool) then
            db ← get_txnDb;
            h ← deref (handle k);
            it ← ext (NewIterator db h);
            match it with
            | Some it =>
                ext_ (seek it) ;;
                valid ← ext (Iterator_Valid it);
                '(n, res) ←
                  (if (valid : bool) then
                     kb ← ext (Iterator_key it);
                     let key := Slice_of_string kb in
                     if negb (empty key) then
                       bs ← lift_outcome (read_mem (data key) (size key));
                       l ← new_chars bs;
                       mret (size key, Some l)
                     else mret (0, None)
                   else mret (0, None));
                ext_ (delete_Iterator it) ;;
                mret (status, Some n, res)
            | None => mret (assign Status.NoIterator status, Some 0, None)
            end
          else mret (assign Status.Closed status, Some 0, None))
    end.

Definition findMinKey : status_ptr → ptr → option Z → MP (status_ptr * option Z * option ptr) :=
  find_key SeekToFirst.
Definition findMaxKey : status_ptr → ptr → option Z → MP (status_ptr * option Z * option ptr) :=
  find_key SeekToLast.

(** ** Compaction *)

Definition compactKind (status : status_ptr) (r : ptr) : MP (bool * status_ptr) :=
  o ← deref_kind r;
  match o with
  | OtherKind _ _ => undef UncaughtException
  | AKindImpl k =>
      db ← get_txnDb;
      h ← deref (handle k);
      s ← ext (CompactRange db h);
      if ok s then mret (true, status) else mret (false, assign (report_code s) status)
  end.

Definition compact (status : status_ptr) (r : ptr) : MP status_ptr :=
  o ← deref_kind r;
  if negb (kind_isValid o) then mret (assign Status.InvalidArgument status)
  else
    '(kind, status) ← toKindImpl r status;
    match kind with
    | None => mret status
    | Some _ => synchronize (
        '(b, status) ← validateOpen status;
        if (b : bool) then '(_, status) ← compactKind status r; mret status
        else mret (assign Status.Closed status))
    end.

Fixpoint compact_loop (status : status_ptr) (l : list (string * ptr)) : MP status_ptr :=
  match l with
  | [] => mret status
  | (_, r) :: l' =>
      '(b, status) ← compactKind status r;
      if (b : bool) then compact_loop status l' else mret status
  end.

Definition compactAll (status : status_ptr) : MP status_ptr :=
  synchronize (
    '(b, status) ← validateOpen status;
    if (b : bool) then
      ks ← gets (λ p, kinds (this p));
      compact_loop status (umap_iter ks)
    else mret (assign Status.Closed status)).
End StoreImpl.

Arguments proc : clear implicits.
Arguments proc {E}.
Arguments StoreImpl : clear implicits.
Arguments StoreImpl {E}.
