(* ===== verification/StoreLemmas.v ===== *)
(** What the pieces of the store do: rules for the calls out of it, the invariant of a store
    between calls, and the specification of a transaction, of a read and of the lock. *)
From S2P Require Import Prelude Slice RocksStatus StatusCode RocksDB KindImpl StoreImpl.

Local Open Scope Z_scope.

Section Rules.
Context `{E : External}.
Implicit Types (p : proc).

Lemma wp_ext {A} (f : World → A * World) Q p :
  (∀ a w, f (world p) = (a, w) → Q a (with_world w p)) → wp (ext f) Q p.
Proof. unfold wp, ext. intros H. destruct (f (world p)) as [a w]. by apply H. Qed.

Lemma wp_ext_ (f : World → World) Q p : Q tt (with_world (f (world p)) p) → wp (ext_ f) Q p.
Proof. done. Qed.

Lemma wp_new_chars bs Q p :
  (∀ l, chars p !! l = None → Q l (with_chars (<[l := bs]> (chars p)) p)) →
  wp (new_chars bs) Q p.
Proof. intros H. apply H. apply not_elem_of_dom, is_fresh. Qed.

Lemma wp_deref_kind r o Q p : kindobjs p !! r = Some o → Q o p → wp (deref_kind r) Q p.
Proof. unfold wp, deref_kind. by intros ->. Qed.

Lemma wp_get_txnDb d Q p : txnDb (this p) = Some d → Q d p → wp get_txnDb Q p.
Proof. intros H HQ. unfold get_txnDb. wp_steps. rewrite H. by apply (wp_deref _ d). Qed.

Lemma wp_read_mem (b : list byte) n Q p :
  0 <= n <= Z.of_nat (length b) → Q (take (Z.to_nat n) b) p →
  wp (lift_outcome (read_mem (Some b) n)) Q p.
Proof. intros Hn HQ. eapply wp_lift_outcome; [by apply read_mem_done|done]. Qed.

(** The lock: entered free, it is held during the call and free again after it. *)
Lemma wp_synchronize {A} (m : M proc A) Q p :
  monitor (this p) = false →
  wp m (λ a p', Q a (with_this (set_monitor false) p')) (with_this (set_monitor true) p) →
  wp (synchronize m) Q p.
Proof.
  intros Hm H. unfold synchronize. wp_steps. rewrite Hm. wp_steps.
  eapply wp_mono; [exact H|]. intros a p' HQ. wp_steps. done.
Qed.

Lemma synchronize_held {A} (m : M proc A) p :
  monitor (this p) = true → synchronize m p = Undef SelfDeadlock.
Proof. intros Hm. unfold synchronize, mbind, M_bind, gets. by rewrite Hm. Qed.

Lemma wp_validateOpen_open status Q p :
  open (this p) = true → Q (true, assign Status.Ok status) p → wp (validateOpen status) Q p.
Proof. intros Ho HQ. unfold validateOpen, isOpen. wp_steps. rewrite Ho. by wp_steps. Qed.

Lemma wp_validateOpen_closed status Q p :
  open (this p) = false →
  Q (false, assign Status.Closed status) (with_this (set_code Status.Closed) p) →
  wp (validateOpen status) Q p.
Proof. intros Ho HQ. unfold validateOpen, isOpen. wp_steps. rewrite Ho. by wp_steps. Qed.

Lemma wp_toKindImpl r k status Q p :
  kindobjs p !! r = Some (AKindImpl k) → Q (Some k, status) p → wp (toKindImpl r status) Q p.
Proof. intros Hr HQ. unfold toKindImpl. wp_steps. eapply wp_deref_kind; [done|]. by wp_steps. Qed.

Lemma wp_toKindImpl_other r n v status Q p :
  kindobjs p !! r = Some (OtherKind n v) →
  Q (None, assign Status.InvalidArgument status) p → wp (toKindImpl r status) Q p.
Proof. intros Hr HQ. unfold toKindImpl. wp_steps. eapply wp_deref_kind; [done|]. by wp_steps. Qed.

Lemma wp_bad_argument null r o Q p :
  kindobjs p !! r = Some o → Q (null || negb (kind_isValid o)) p →
  wp (bad_argument null r) Q p.
Proof.
  intros Hr HQ. unfold bad_argument. destruct null; [by apply wp_ret|].
  wp_steps. eapply wp_deref_kind; [done|]. by wp_steps.
Qed.

Lemma wp_bad_argument_null r Q p : Q true p → wp (bad_argument true r) Q p.
Proof. intros. by apply wp_ret. Qed.
End Rules.

(** The bytes a pointer and a length denote. *)
Definition denotes (q : char_ptr) (n : Z) (bs : list byte) : Prop :=
  read_mem q n = Done bs ∧ is_Some q.

Lemma denotes_not_null q n bs : denotes q n bs → is_null q = false.
Proof. intros [_ [b ->]]. done. Qed.

Lemma denotes_all (b : list byte) : denotes (Some b) (Z.of_nat (length b)) b.
Proof.
  split; [|by eexists]. rewrite (read_mem_done _ b) by (done || lia).
  by rewrite Nat2Z.id, firstn_all.
Qed.

Section Store.
Context `{ES : ExternalSpec}.
Implicit Types (p : proc).

(** ** The invariant *)

(** The kinds of the store are live objects of the library's class, with a handle, under
    their own name, each under one name; the static empty kind exists and is not valid. *)
Definition kinds_ok p : Prop :=
  kindobjs p !! EmptyKind = Some (AKindImpl new_KindImpl) ∧
  (∀ n r, kinds (this p) !! n = Some r →
     ∃ h, kindobjs p !! r = Some (AKindImpl (mkKindImpl (c_str n) (Some h)))) ∧
  (∀ n1 n2 r, kinds (this p) !! n1 = Some r → kinds (this p) !! n2 = Some r → n1 = n2).

(** The reusable transaction is a live one. *)
Definition txn_ok p : Prop :=
  ∀ t, reusableTx_ (this p) = Some t → t ∈ live_txns (world p).

Definition core_ok p : Prop :=
  (open (this p) = true → is_Some (txnDb (this p))) ∧
  (open (this p) = false → kinds (this p) = ∅ ∧ txnDb (this p) = None) ∧
  0 <= totalSinceLastSync (this p) < FLUSH_BATCH_SIZE + 1 ∧
  kinds_ok p ∧ (open (this p) = true → txn_ok p).

(** Between two calls the lock is free. *)
Definition store_ok p : Prop := monitor (this p) = false ∧ core_ok p.

(** [r] is a kind of the library with handle [cf]. *)
Definition kind_at p (r cf : ptr) : Prop :=
  ∃ n, kindobjs p !! r = Some (AKindImpl (mkKindImpl n (Some cf))).

(** What a read or a write leaves alone: everything but the outside world, the counter and
    time of the last sync, and the reusable transaction. *)
Definition stable p p' : Prop :=
  chars p' = chars p ∧ kindobjs p' = kindobjs p ∧
  ∃ r n t, this p' = set_sync n t (set_reusableTx r (this p)).

(** No transaction object is left over. *)
Definition no_txn_leak p p' : Prop :=
  (∀ t, reusableTx_ (this p) = Some t → reusableTx_ (this p') = Some t) ∧
  live_txns (world p') = live_txns (world p) ∪ option_to_set (reusableTx_ (this p')).

Lemma stable_refl p : stable p p.
Proof.
  split_and!; [done..|]. exists (reusableTx_ (this p)), (totalSinceLastSync (this p)),
    (lastSync (this p)). by destruct (this p).
Qed.

Lemma stable_trans p1 p2 p3 : stable p1 p2 → stable p2 p3 → stable p1 p3.
Proof.
  intros (C1 & K1 & r1 & n1 & t1 & T1) (C2 & K2 & r2 & n2 & t2 & T2).
  split_and!; [congruence..|]. exists r2, n2, t2. by rewrite T2, T1.
Qed.

Lemma stable_world p w : stable p (with_world w p).
Proof. exact (stable_refl p). Qed.

Lemma quiet_refl (w : World) : quiet w w.
Proof. done. Qed.

Lemma quiet_trans (w1 w2 w3 : World) : quiet w1 w2 → quiet w2 w3 → quiet w1 w3.
Proof. unfold quiet. intros [] []. split; congruence. Qed.

(** What [stable] keeps. *)
Lemma stable_open p p' : stable p p' → open (this p') = open (this p).
Proof. by intros (_ & _ & ? & ? & ? & ->). Qed.
Lemma stable_monitor p p' : stable p p' → monitor (this p') = monitor (this p).
Proof. by intros (_ & _ & ? & ? & ? & ->). Qed.
Lemma stable_txnDb p p' : stable p p' → txnDb (this p') = txnDb (this p).
Proof. by intros (_ & _ & ? & ? & ? & ->). Qed.
Lemma stable_kinds p p' : stable p p' → kinds (this p') = kinds (this p).
Proof. by intros (_ & _ & ? & ? & ? & ->). Qed.
Lemma stable_kind_at p p' r cf : stable p p' → kind_at p r cf → kind_at p' r cf.
Proof. intros (_ & K & _) [n Hn]. exists n. by rewrite K. Qed.

(** ** Counting commits *)

Lemma syncWALNoLock_spec Q p :
  (open (this p) = true → is_Some (txnDb (this p))) →
  (∀ w, quiet (world p) w → Q tt (with_world w p)) → wp syncWALNoLock Q p.
Proof.
  intros Hd HQ. unfold syncWALNoLock, isOpen. wp_steps.
  destruct (open (this p)) eqn:Ho.
  - destruct (Hd eq_refl) as [d Ed]. wp_steps. eapply wp_get_txnDb; [done|].
    wp_steps. apply wp_ext. intros s w Hw. wp_steps. apply HQ. eauto using flush_wal_spec.
  - wp_steps. replace p with (with_world (world p) p) by (by destruct p).
    apply HQ, quiet_refl.
Qed.

Lemma flushNoLock_spec wait Q p :
  (open (this p) = true → is_Some (txnDb (this p))) →
  (∀ w, quiet (world p) w → Q tt (with_world w p)) → wp (flushNoLock wait) Q p.
Proof.
  intros Hd HQ. unfold flushNoLock, isOpen. wp_steps.
  destruct (open (this p)) eqn:Ho.
  - destruct (Hd eq_refl) as [d Ed]. wp_steps. eapply wp_get_txnDb; [done|].
    wp_steps. apply wp_ext. intros s w Hw. wp_steps. apply HQ. eauto using flush_spec.
  - wp_steps. replace p with (with_world (world p) p) by (by destruct p).
    apply HQ, quiet_refl.
Qed.

Definition counter p : Z := totalSinceLastSync (this p).

(** A batch size that is a power of two less one: the mask is the remainder. *)
Lemma land_batch n : Z.land n FLUSH_BATCH_SIZE = n mod 16384.
Proof. unfold FLUSH_BATCH_SIZE. change (16384 - 1) with (Z.ones 14). by rewrite Z.land_ones. Qed.

Lemma occasionalWalSync_spec Q p :
  0 <= counter p < 16384 →
  (open (this p) = true → is_Some (txnDb (this p))) →
  (∀ p', chars p' = chars p → kindobjs p' = kindobjs p →
         (∃ n t, this p' = set_sync n t (this p)) → quiet (world p) (world p') →
         (counter p' = 0 ∨ counter p' = counter p + 1) →
         0 <= counter p' < 16384 → Q tt p') →
  wp occasionalWalSync Q p.
Proof.
  unfold counter. intros Hc Hd HQ. unfold occasionalWalSync, since. wp_steps.
  apply wp_ext. intros now w Hnow. apply now_spec in Hnow as [Hq _]. wp_steps.
  simpl. assert (u64 (totalSinceLastSync (this p) + 1) = totalSinceLastSync (this p) + 1)
    as Hu by (apply u64_small; lia).
  rewrite Hu. destruct (_ || _) eqn:Hb.
  - unfold syncAndReset. wp_steps. apply syncWALNoLock_spec; [done|].
    intros w2 Hq2. wp_steps. apply wp_ext. intros now2 w3 Hnow2.
    apply now_spec in Hnow2 as [Hq3 _]. wp_steps. apply HQ;
      [done|done|by eexists 0, now2|simpl; eauto using quiet_trans|by left|simpl; lia].
  - wp_steps. apply orb_false_iff in Hb as [_ Hb].
    rewrite bool_decide_eq_false, land_batch in Hb.
    assert (totalSinceLastSync (this p) + 1 ≠ 16384) by (intros Heq; by rewrite Heq in Hb).
    apply HQ; simpl; rewrite ?Hu; [done|done| |done|by right|lia].
    by eexists _, (lastSync (this p)).
Qed.

(** ** Transactions *)

Lemma no_txn_leak_quiet p p' :
  quiet (world p) (world p') → reusableTx_ (this p') = reusableTx_ (this p) →
  txn_ok p → no_txn_leak p p'.
Proof.
  intros [_ Hl] Hr Ht. split; [by rewrite Hr|]. rewrite Hl, Hr.
  destruct (reusableTx_ (this p)) as [t|] eqn:Et; simpl; [specialize (Ht t Et)|];
    symmetry; auto with sets_db.
Qed.

Lemma reusableTx_spec p d :
  txnDb (this p) = Some d → txn_ok p →
  wp reusableTx (λ r p', r = reusableTx_ (this p') ∧ stable p p' ∧ txn_ok p' ∧
    no_txn_leak p p' ∧ hist (world p') = hist (world p) ∧ counter p' = counter p) p.
Proof.
  intros Hd Ht. unfold reusableTx. wp_steps.
  destruct (reusableTx_ (this p)) as [t0|] eqn:Er; wp_steps.
  - split_and!; try done.
    + apply stable_refl.
    + apply no_txn_leak_quiet; [apply quiet_refl|done|done].
  - eapply wp_get_txnDb; [done|]. wp_steps. apply wp_ext. intros r w Hb. wp_steps.
    assert (stable p (with_this (set_reusableTx r) (with_world w p))) as Hst.
    { split_and!; [done..|]. by exists r, (totalSinceLastSync (this p)), (lastSync (this p)). }
    destruct r as [t|].
    + apply begin_new in Hb as (Hh & _ & Hf & Hl). split_and!; try done.
      * intros t'; simpl; intros [= <-]. rewrite Hl. auto with sets_db.
      * split; simpl; [congruence|]. rewrite Hl. auto with sets_db.
    + apply begin_none in Hb as [Hh Hl]. split_and!; try done.
      split; simpl; [congruence|]. rewrite Hl. auto with sets_db.
Qed.

(** A write buffered in a transaction: only the world moves, nothing is stored yet. *)
Definition buffers (op : ptr → ptr → M proc RocksStatus.Status) (cf : ptr) (key : list byte)
    (o : wop) : Prop :=
  ∀ t p, wp (op t cf) (λ s p', p' = with_world (world p') p ∧ quiet (world p) (world p') ∧
    (ok s = true → txn_batch (world p') t = txn_batch (world p) t ++ [(cf, key, o)])) p.

(** What the transaction of one write does to what is stored, and what it reports. *)
Definition wrote (st : status_ptr) (cf : ptr) (key : list byte) (o : wop) (st' : status_ptr)
    p p' : Prop :=
  (st' = st ∧ hist (world p') = hpush cf key o (hist (world p))) ∨
  (∃ c, c ≠ Status.Ok ∧ st' = assign c st ∧ hist (world p') = hist (world p)).

(** The transaction in hand is the reusable one, or a fresh one that is still live. *)
Definition in_hand p0 p (tx : option ptr) : Prop :=
  live_txns (world p) = live_txns (world p0) ∪ option_to_set tx ∧
  (tx = reusableTx_ (this p0) ∨
   reusableTx_ (this p0) = None ∧ ∀ t, tx = Some t → (t ∉ live_txns (world p0))).

Lemma begin_spec db p :
  txn_ok p →
  wp (ext (BeginTransaction db (reusableTx_ (this p)))) (λ tx p',
    p' = with_world (world p') p ∧ hist (world p') = hist (world p) ∧
    (∀ t, tx = Some t → txn_batch (world p') t = []) ∧ (tx ≠ None → in_hand p p' tx) ∧
    (tx = None → live_txns (world p') = live_txns (world p))) p.
Proof.
  intros Ht. apply wp_ext. intros tx w Hb. destruct tx as [t|].
  - destruct (reusableTx_ (this p)) as [t0|] eqn:Er.
    + apply begin_reuse in Hb as (-> & [Hh Hl] & Hbt). split_and!; try done.
      * by intros t [= <-].
      * intros _. split; simpl; [|by left]. rewrite Hl. specialize (Ht t0 Er). symmetry. auto with sets_db.
    + apply begin_new in Hb as (Hh & Hbt & Hf & Hl). split_and!; try done.
      * by intros t' [= <-].
      * intros _. split; simpl; [rewrite Hl; auto with sets_db|]. right. split; [done|].
        by intros t' [= <-].
  - apply begin_none in Hb as [Hh Hl]. by split_and!.
Qed.

Lemma deleteIfNewTx_spec p0 p tx Q :
  reusableTx_ (this p) = reusableTx_ (this p0) → txn_ok p0 →
  (tx ≠ None → in_hand p0 p tx) →
  (tx = None → live_txns (world p) = live_txns (world p0)) →
  (∀ w, hist w = hist (world p) → live_txns w = live_txns (world p0) →
        Q tt (with_world w p)) →
  wp (deleteIfNewTx tx) Q p.
Proof.
  intros Hr Ht Hh Hn HQ. unfold deleteIfNewTx. wp_steps. rewrite Hr.
  destruct tx as [t|].
  - destruct (Hh ltac:(done)) as [Hl Hor]. case_decide as Hd.
    + apply wp_ext_. destruct (delete_txn_spec t (world p)) as [Hh' Hl'].
      apply HQ; [done|]. rewrite Hl', Hl. destruct Hor as [?|[_ Hf]]; [done|].
      specialize (Hf t eq_refl). simpl. auto with sets_db.
    + wp_steps. replace p with (with_world (world p) p) by (by destruct p).
      apply HQ; [done|]. rewrite Hl. destruct (reusableTx_ (this p0)) as [t0|] eqn:E0;
        [|discriminate Hd].
      injection Hd as ->.
      specialize (Ht t0 E0). simpl. auto with sets_db.
  - specialize (Hn eq_refl). replace p with (with_world (world p) p) by (by destruct p).
    case_decide; wp_steps; by apply HQ.
Qed.

Lemma core_ok_stable p p' :
  core_ok p → stable p p' → 0 <= counter p' < 16384 →
  (open (this p) = true → txn_ok p') → core_ok p'.
Proof.
  intros (Hd & Hc & _ & [He Hk] & _) Hst Hn Ht.
  assert (kindobjs p' = kindobjs p) as Ek by apply Hst.
  unfold core_ok, kinds_ok.
  rewrite (stable_open p p' Hst), (stable_txnDb p p' Hst), (stable_kinds p p' Hst), Ek.
  done.
Qed.

Lemma no_txn_leak_ok p p' : txn_ok p → no_txn_leak p p' → txn_ok p'.
Proof.
  intros Ht [_ Hl] t Hr. rewrite Hl, Hr. simpl. set_solver.
Qed.

(** What a call leaves: invariant, unrelated state, transactions. *)
Definition kept p p' : Prop := core_ok p' ∧ stable p p' ∧ no_txn_leak p p'.

(** The end of a transaction: the object is dropped unless it is the reusable one. *)
Lemma end_transaction_spec p0 p1 p tx Q :
  core_ok p0 → open (this p0) = true → stable p0 p1 → no_txn_leak p0 p1 → txn_ok p1 →
  stable p1 p → reusableTx_ (this p) = reusableTx_ (this p1) → 0 <= counter p < 16384 →
  (tx ≠ None → in_hand p1 p tx) →
  (tx = None → live_txns (world p) = live_txns (world p1)) →
  (∀ p', kept p0 p' → hist (world p') = hist (world p) → counter p' = counter p → Q tt p') →
  wp (deleteIfNewTx tx) Q p.
Proof.
  intros Hc Ho Hst1 [Hk1 Hl1] Ht1 Hst2 Hr Hn Hh Hnone HQ.
  eapply (deleteIfNewTx_spec p1); [done..|]. intros w Hw Hlw.
  assert (stable p0 (with_world w p)) as Hst by (eapply stable_trans; [exact Hst1|exact Hst2]).
  assert (no_txn_leak p0 (with_world w p)) as Hleak.
  { split; simpl; rewrite Hr; [done|]. by rewrite Hlw. }
  apply HQ; simpl; try done. split_and!; try done.
  eapply core_ok_stable; try done. intros _.
  eapply no_txn_leak_ok; [|done]. by apply Hc.
Qed.

(** What the middle of a transaction changes: the world, and the sync counter. *)
Definition midway p p' : Prop :=
  chars p' = chars p ∧ kindobjs p' = kindobjs p ∧
  (∃ n t, this p' = set_sync n t (this p)) ∧
  live_txns (world p') = live_txns (world p) ∧
  (counter p' = counter p ∨ counter p' = 0 ∨ counter p' = counter p + 1) ∧
  0 <= counter p' < 16384.

Lemma midway_world p w :
  0 <= counter p < 16384 → live_txns w = live_txns (world p) → midway p (with_world w p).
Proof.
  intros Hn Hl. split_and!; try done; [|by left|apply Hn|apply Hn].
  exists (totalSinceLastSync (this p)), (lastSync (this p)). simpl. by destruct (this p).
Qed.

Lemma midway_stable p p' : midway p p' → stable p p' ∧ reusableTx_ (this p') = reusableTx_ (this p).
Proof.
  intros (Hch & Hko & (n & t & Hth) & _). rewrite Hth. split; [|done].
  split_and!; [done|done|]. by exists (reusableTx_ (this p)), n, t.
Qed.

Lemma wrote_failed st cf key o c p p' :
  c ≠ Status.Ok → hist (world p') = hist (world p) → wrote st cf key o (assign c st) p p'.
Proof. right. by exists c. Qed.

(** Write, commit, count. *)
Lemma write_and_commit_spec p t st cf key o op :
  0 <= counter p < 16384 → is_Some (txnDb (this p)) → buffers op cf key o →
  txn_batch (world p) t = [] →
  wp (s ← op t cf;
      if ok s then
        s ← ext (Txn_Commit t);
        if ok s then occasionalWalSync ;; mret st else mret (assign (report_code s) st)
      else mret (assign (report_code s) st))
    (λ st' p', midway p p' ∧ wrote st cf key o st' p p') p.
Proof.
  intros Hn Hd Hop Hb. wp_steps. eapply wp_mono; [apply Hop|].
  intros s p3 (-> & [Hh3 Hl3] & Hb3). set (w3 := world p3) in *. clearbody w3. clear p3.
  destruct (ok s) eqn:Es.
  - wp_steps. apply wp_ext. intros s' w4 Hcm. apply commit_spec in Hcm as [Hl4 Hh4].
    simpl in *. rewrite Hb3, Hb in Hh4 by done. simpl in Hh4.
    destruct (ok s') eqn:Es'.
    + wp_steps. apply occasionalWalSync_spec; [done|done|].
      intros p5 Hch Hko (n & tm & Hth) [Hh5 Hl5] Hcnt Hbnd. wp_steps. simpl in *. split.
      * split_and!; [done|done|by exists n, tm|congruence|by right|apply Hbnd|apply Hbnd].
      * left. split; [done|]. congruence.
    + wp_steps. split; [exact (midway_world p w4 Hn ltac:(congruence))|].
      apply wrote_failed; [by apply report_code_not_ok|simpl; congruence].
  - wp_steps. split; [by apply midway_world|].
    apply wrote_failed; [by apply report_code_not_ok|done].
Qed.

Lemma in_transaction_spec p st k cf key o op :
  core_ok p → open (this p) = true → handle k = Some cf → buffers op cf key o →
  wp (in_transaction st k op)
    (λ st' p', kept p p' ∧ wrote st cf key o st' p p' ∧
       (counter p' = counter p ∨ counter p' = 0 ∨ counter p' = counter p + 1)) p.
Proof.
  intros Hc Ho Hk Hop. pose proof Hc as (Hd & _ & Hn & _ & Ht).
  destruct (Hd Ho) as [d Ed]. specialize (Ht Ho).
  unfold in_transaction. apply wp_bind.
  eapply wp_mono; [by apply (reusableTx_spec p d)|].
  intros old p1 (-> & Hst1 & Ht1 & Hl1 & Hh1 & Hn1). wp_steps.
  eapply wp_get_txnDb; [by rewrite (stable_txnDb p p1)|]. wp_steps.
  eapply wp_mono; [by apply begin_spec|].
  intros tx p2 (-> & Hh2 & Hb2 & Hin & Hnone). set (w2 := world p2) in *. clearbody w2. clear p2.
  assert (0 <= counter p1 < 16384) as Hn1' by (rewrite Hn1; exact Hn).
  (* both branches of the match end midway *)
  apply wp_bind. eapply (wp_mono _ (λ st' p3,
    midway (with_world w2 p1) p3 ∧ wrote st cf key o st' (with_world w2 p1) p3)).
  { destruct tx as [t|].
    - apply wp_bind. eapply wp_deref; [exact Hk|].
      apply write_and_commit_spec; [done| |done|by apply Hb2].
      simpl. rewrite (stable_txnDb p p1 Hst1). by rewrite Ed.
    - wp_steps. split; [exact (midway_world (with_world w2 p1) w2 Hn1' eq_refl)|by apply wrote_failed]. }
  intros st' p3 [Hmid Hwr]. destruct (midway_stable _ _ Hmid) as [Hst3 Hr3].
  destruct Hmid as (_ & _ & _ & Hl3 & Hc3 & Hb3). wp_steps. simpl in Hl3.
  eapply (end_transaction_spec p p1); try done.
  { intros Hne. destruct (Hin Hne) as [Hi1 Hi2]. split; [|done]. simpl in *. congruence. }
  { intros He. rewrite Hl3. by apply Hnone. }
  intros p' Hkept Hh' Hcnt'. wp_steps. split_and!; [done| |].
  - unfold wrote in *. simpl in *. rewrite Hh'.
    by replace (hist (world p)) with (hist w2) by congruence.
  - rewrite Hcnt', <- Hn1. exact Hc3.
Qed.
End Store.
