(* ===== verification/KueueImpl.v ===== *)
(** The persistent queue (include/impl/KueueImpl.h): values under consecutive 64-bit keys in a
    column family of a store, put at the largest key and taken from the smallest.  The methods
    here are the whole methods, run by one thread: the mutexes and the condition variable have
    no effect then, except that a wait nobody can end never returns.  KueueConc.v models what
    they do between threads. *)
From S2P Require Import Prelude Slice BigEndian RocksStatus StatusCode RocksDB KindImpl.
From S2P Require Import StoreImpl.

Local Open Scope Z_scope.

(** [count] is an atomic [long long], the keys and totals are unsigned 64-bit numbers. *)
Record KueueImpl := mkKueueImpl {
  totalPuts_ : Z;
  totalTakes_ : Z;
  count : Z;
  minKey : Z;
  maxKey : Z;
  queueKind : option ptr;
  isValid_ : bool;
}.

Definition set_totalPuts n k := mkKueueImpl n (totalTakes_ k) (count k) (minKey k) (maxKey k)
  (queueKind k) (isValid_ k).
Definition set_totalTakes n k := mkKueueImpl (totalPuts_ k) n (count k) (minKey k) (maxKey k)
  (queueKind k) (isValid_ k).
Definition set_count n k := mkKueueImpl (totalPuts_ k) (totalTakes_ k) n (minKey k) (maxKey k)
  (queueKind k) (isValid_ k).
Definition set_minKey n k := mkKueueImpl (totalPuts_ k) (totalTakes_ k) (count k) n (maxKey k)
  (queueKind k) (isValid_ k).
Definition set_maxKey n k := mkKueueImpl (totalPuts_ k) (totalTakes_ k) (count k) (minKey k) n
  (queueKind k) (isValid_ k).
Definition set_queueKind r k := mkKueueImpl (totalPuts_ k) (totalTakes_ k) (count k) (minKey k)
  (maxKey k) r (isValid_ k).
Definition set_isValid b k := mkKueueImpl (totalPuts_ k) (totalTakes_ k) (count k) (minKey k)
  (maxKey k) (queueKind k) b.

Section Kueue.
Context `{E : External}.

(** A queue and the process its store lives in. *)
Record kproc := mkKProc { kueue : KueueImpl; kp : proc }.

Abbreviation MK := (M kproc).

Definition in_store {A} (m : M proc A) : MK A := λ s,
  match m (kp s) with
  | Done (a, p) => Done (a, mkKProc (kueue s) p)
  | Undef f => Undef f
  end.

Definition with_kueue (f : KueueImpl → KueueImpl) (s : kproc) : kproc :=
  mkKProc (f (kueue s)) (kp s).

(** ** Construction *)

(** Reading through a [char* ] the store returned. *)
Definition deref_chars (l : ptr) : M proc (list byte) := λ p,
  match chars p !! l with Some bs => Done (bs, p) | None => Undef UseAfterFree end.

(** [key && length == sizeof(unsigned __int64)]: the key, when there is one. *)
Definition decode_key (res : option ptr) (length : Z) : M proc (option Z) :=
  match res with
  | Some l =>
      if bool_decide (length = 8) then
        bs ← deref_chars l; n ← lift_outcome (getU64BE (Some bs)); mret (Some n)
      else mret None
  | None => mret None
  end.

Definition new_KueueImpl : KueueImpl := mkKueueImpl 0 0 0 MIN_KEY MIN_KEY None false.

(** The array [findMinKey] and the one [findMaxKey] return are not deleted. *)
Definition KueueImpl_init (id : string) : M proc KueueImpl :=
  state ← getKindManager (Some Status.Ok);
  if decide (state = Some Status.Ok) then
    '(state, kind) ← getOrCreateKind state (c_str id);
    if decide (state = Some Status.Ok) then
      o ← deref_kind kind;
      if kind_isValid o then
        let k := set_queueKind (Some kind) new_KueueImpl in
        '(state, length, smallestKey) ← findMinKey state kind (Some 0);
        if decide (state = Some Status.Ok) then
          m ← decode_key smallestKey (default 0 length);
          let k := match m with Some n => set_minKey n k | None => k end in
          '(state, length, greatestKey) ← findMaxKey state kind length;
          if decide (state = Some Status.Ok) then
            g ← decode_key greatestKey (default 0 length);
            let lastMax := match g with Some n => n | None => maxKey k end in
            let k := match g with Some n => set_maxKey (u64 (n + 1)) k | None => k end in
            if bool_decide (minKey k <= lastMax) then
              let k := set_count (i64 (u64 (maxKey k - minKey k))) k in
              mret (set_isValid (bool_decide (0 <= count k)) k)
            else mret k
          else mret k
        else mret k
      else mret new_KueueImpl
    else mret new_KueueImpl
  else mret new_KueueImpl.

(** ** Operations *)

(** [getKindRef]: a reference to [*queueKind]. *)
Definition getKindRef : MK ptr := k ← gets (λ s, queueKind (kueue s)); deref k.

(** [int* state = status ? status : &r], and what the caller sees of it. *)
Definition state_of (status : status_ptr) : status_ptr := Some (default Status.Ok status).
Definition give_back (status state : status_ptr) : status_ptr :=
  assign (default Status.Ok state) status.

Definition put (status : status_ptr) (value : char_ptr) (valLen : Z) : MK status_ptr :=
  v ← gets (λ s, isValid_ (kueue s));
  if (v : bool) then
    n ← gets (λ s, maxKey (kueue s));
    r ← getKindRef;
    modify (with_kueue (λ k, set_maxKey (u64 (n + 1)) k)) ;;
    state ← in_store (StoreImpl.put (state_of status) r (Some (putU64BE n)) 8 value valLen);
    (if decide (state = Some Status.Ok) then
       modify (with_kueue (λ k, set_count (i64 (count k + 1)) k)) ;;
       modify (with_kueue (λ k, set_totalPuts (u64 (totalPuts_ k + 1)) k))
     else modify (with_kueue (λ k, set_maxKey (u64 (maxKey k - 1)) k))) ;;
    mret (give_back status state)
  else mret (assign Status.Invalid status).

(** [++minKey; count.fetch_sub(1); ++totalTakes_], after the front has been removed. *)
Definition pass_front : MK unit :=
  modify (with_kueue (λ k, set_minKey (u64 (minKey k + 1)) k)) ;;
  modify (with_kueue (λ k, set_count (i64 (count k - 1)) k)) ;;
  modify (with_kueue (λ k, set_totalTakes (u64 (totalTakes_ k + 1)) k)).

(** The text both [take]s share once there is something to take. *)
Definition take_front (status : status_ptr) (valLen : option Z) :
    MK (status_ptr * option Z * option ptr) :=
  n ← gets (λ s, minKey (kueue s));
  r ← getKindRef;
  '(state, len, value) ←
    in_store (singleRemoveIfPresent (state_of status) r valLen (Some (putU64BE n)) 8);
  (if decide (state = Some Status.Ok) then pass_front
   else mret tt) ;;
  mret (give_back status state, len, value).

(** [take(status, valLen)]: waits while [count] is 0. *)
Definition take (status : status_ptr) (valLen : option Z) :
    MK (status_ptr * option Z * option ptr) :=
  v ← gets (λ s, isValid_ (kueue s));
  if (v : bool) then
    c ← gets (λ s, count (kueue s));
    if bool_decide (c = 0) then undef WaitsForever else take_front status valLen
  else mret (assign Status.Invalid status, valLen, None).

(** The wait of the calls with a timeout: until [count] is positive, or time is up. *)
Definition await (timeout : Z) : MK bool :=
  c ← gets (λ s, count (kueue s));
  if bool_decide (0 < timeout) then mret (bool_decide (0 < c))
  else if bool_decide (0 < c) then mret true else undef WaitsForever.

Definition take_timeout (status : status_ptr) (valLen : option Z) (timeout : Z) :
    MK (status_ptr * option Z * option ptr) :=
  v ← gets (λ s, isValid_ (kueue s));
  if (v : bool) then
    success ← await timeout;
    if (success : bool) then take_front status valLen
    else mret (assign Status.TimedOut status, valLen, None)
  else mret (assign Status.Invalid status, valLen, None).

(** [pKey] is the cell the key is written to. *)
Definition readNext (status : status_ptr) (valLen : option Z) (pKey : option Z) (timeout : Z) :
    MK (status_ptr * option Z * option Z * option ptr) :=
  v ← gets (λ s, isValid_ (kueue s));
  if (v : bool) then
    success ← await timeout;
    if (success : bool) then
      n ← gets (λ s, minKey (kueue s));
      r ← getKindRef;
      '(state, len, value) ←
        in_store (get (state_of status) r valLen (Some (putU64BE n)) 8);
      let pKey := if decide (state = Some Status.Ok) then
                    match pKey with Some _ => Some n | None => None end
                  else pKey in
      mret (give_back status state, len, pKey, value)
    else mret (assign Status.TimedOut status, valLen, pKey, None)
  else mret (assign Status.Invalid status, valLen, pKey, None).

Definition erase (key : Z) : MK bool :=
  v ← gets (λ s, isValid_ (kueue s));
  n ← gets (λ s, minKey (kueue s));
  if (v : bool) && bool_decide (key = n) then
    n ← gets (λ s, minKey (kueue s));
    state ←
      (if bool_decide (key = n) then
         r ← getKindRef;
         state ← in_store (singleRemove (Some Status.Ok) r (Some (putU64BE key)) 8);
         (if decide (state = Some Status.Ok) then pass_front
          else mret tt) ;;
         mret state
       else mret (Some Status.Ok));
    mret (bool_decide (state = Some Status.Ok))
  else mret false.

(** The loop of [clear]; each round takes one off [count] or is the last. *)
Fixpoint clear_loop (fuel : nat) (state : status_ptr) (r : ptr) : MK status_ptr :=
  match fuel with
  | O => undef WaitsForever
  | S fuel' =>
      c ← gets (λ s, count (kueue s));
      if bool_decide (0 < c) then
        n ← gets (λ s, minKey (kueue s));
        state ← in_store (singleRemove state r (Some (putU64BE n)) 8);
        if decide (state = Some Status.Ok) then
          pass_front ;;
          clear_loop fuel' state r
        else mret state
      else mret state
  end.

Definition clear (status : status_ptr) : MK status_ptr :=
  v ← gets (λ s, isValid_ (kueue s));
  if (v : bool) then
    r ← getKindRef;
    c ← gets (λ s, count (kueue s));
    state ← clear_loop (S (Z.to_nat c)) (state_of status) r;
    mret (give_back status state)
  else mret (assign Status.Invalid status).

Definition size (k : KueueImpl) : Z := count k.
Definition isEmpty (k : KueueImpl) : bool := bool_decide (size k = 0).
Definition isValid (k : KueueImpl) : bool := isValid_ k.
Definition totalPuts (k : KueueImpl) : Z := totalPuts_ k.
Definition totalTakes (k : KueueImpl) : Z := totalTakes_ k.

(** [queueKind ? queueKind->name() : nullptr] *)
Definition identifier : MK (option string) :=
  k ← gets (λ s, queueKind (kueue s));
  match k with
  | Some r => o ← in_store (deref_kind r); mret (Some (kind_name o))
  | None => mret None
  end.
End Kueue.

Arguments kproc : clear implicits.
Arguments kproc {E}.
