(* ===== verification/StoreSpec.v ===== *)
(** What the store's operations promise: an abstract specification over the write histories
    of a column family, and the proof that the methods of StoreImpl.v refine it, whatever
    RocksDB answers. *)
From S2P Require Import Prelude Slice RocksStatus StatusCode RocksDB KindImpl StoreImpl.
From S2P Require Import StoreLemmas.

Local Open Scope Z_scope.

(** ** The abstract specification *)

Inductive call :=
  | CPut (key value : list byte)
  | CRemove (key : list byte)
  | CSingleRemove (key : list byte)
  | CGet (key : list byte)
  | CUpdateIfPresent (key value : list byte)
  | CRemoveIfPresent (key : list byte)
  | CSingleRemoveIfPresent (key : list byte)
  | CPutIfAbsent (key value : list byte).

Definition call_key (c : call) : list byte :=
  match c with
  | CPut k _ | CRemove k | CSingleRemove k | CGet k | CUpdateIfPresent k _
  | CRemoveIfPresent k | CSingleRemoveIfPresent k | CPutIfAbsent k _ => k
  end.

(** A read may answer [r]: it is what the history determines, when it determines anything. *)
Definition reads (h : history) (cf : ptr) (k : list byte) (r : option (list byte)) : Prop :=
  ∀ r', resolve (hget h cf k) = Some r' → r' = r.

(** What the caller receives for a value: an empty value comes back as a null pointer. *)
Definition answer (v : list byte) : option (list byte) :=
  match v with [] => None | _ => Some v end.

(** Reading a key: its code and the value.  RocksDB's error codes are positive. *)
Inductive read_spec (h : history) (cf : ptr) (k : list byte) : Z → option (list byte) → Prop :=
  | read_found v : reads h cf k (Some v) → read_spec h cf k Status.Ok (answer v)
  | read_failed c :
      Status.Ok < c → (c = Status.NotFound → reads h cf k None) → read_spec h cf k c None.

(** Writing a key: done and [Ok], or an error and nothing written. *)
Inductive writes_spec (h : history) (cf : ptr) (k : list byte) (o : wop) : Z → history → Prop :=
  | write_done : writes_spec h cf k o Status.Ok (hpush cf k o h)
  | write_failed c : c ≠ Status.Ok → writes_spec h cf k o c h.

(** Reading, then writing when the read succeeded. *)
Inductive read_write_spec (h : history) (cf : ptr) (k : list byte) (o : wop) :
    Z → option (list byte) → history → Prop :=
  | rw_read_failed c a :
      c ≠ Status.Ok → read_spec h cf k c a → read_write_spec h cf k o c a h
  | rw_written c a h' :
      read_spec h cf k Status.Ok a → writes_spec h cf k o c h' → read_write_spec h cf k o c a h'.

(** [spec cf h c (code, value) h']: from the histories [h], the call [c] on the column family
    [cf] may report [code], return [value] and leave [h']. *)
Inductive spec (cf : ptr) (h : history) : call → Z * option (list byte) → history → Prop :=
  | spec_put k v c h' : writes_spec h cf k (WPut v) c h' → spec cf h (CPut k v) (c, None) h'
  | spec_remove k c h' : writes_spec h cf k WDelete c h' → spec cf h (CRemove k) (c, None) h'
  | spec_single k c h' :
      writes_spec h cf k WSingleDelete c h' → spec cf h (CSingleRemove k) (c, None) h'
  | spec_get k c a : read_spec h cf k c a → spec cf h (CGet k) (c, a) h
  | spec_update k v c a h' :
      read_write_spec h cf k (WPut v) c a h' → spec cf h (CUpdateIfPresent k v) (c, a) h'
  | spec_remove_if k c a h' :
      read_write_spec h cf k WDelete c a h' → spec cf h (CRemoveIfPresent k) (c, a) h'
  | spec_single_if k c a h' :
      read_write_spec h cf k WSingleDelete c a h' → spec cf h (CSingleRemoveIfPresent k) (c, a) h'
  | spec_absent k v c h' :
      read_spec h cf k Status.NotFound None → writes_spec h cf k (WPut v) c h' →
      spec cf h (CPutIfAbsent k v) (c, None) h'
  | spec_exists k v a :
      read_spec h cf k Status.Ok a → spec cf h (CPutIfAbsent k v) (Status.AlreadyExists, None) h
  | spec_absent_failed k v c a :
      c ≠ Status.Ok → read_spec h cf k c a → spec cf h (CPutIfAbsent k v) (c, None) h.

(** Only the key of the call is ever written. *)
Lemma writes_spec_frame h cf k o c h' cf' k' :
  writes_spec h cf k o c h' → (cf, k) ≠ (cf', k') → hget h' cf' k' = hget h cf' k'.
Proof. intros [|] Hne; auto with hist_db. Qed.

Lemma read_write_spec_frame h cf k o c a h' cf' k' :
  read_write_spec h cf k o c a h' → (cf, k) ≠ (cf', k') → hget h' cf' k' = hget h cf' k'.
Proof. intros [| ? ? ? ? Hw] Hne; [done|]. by eapply writes_spec_frame. Qed.

Lemma spec_frame cf h c a h' cf' k' :
  spec cf h c a h' → (cf, call_key c) ≠ (cf', k') → hget h' cf' k' = hget h cf' k'.
Proof.
  destruct 1; simpl; intros Hne; eauto using writes_spec_frame, read_write_spec_frame.
Qed.

(** ** The methods, piece by piece *)

Section Refine.
Context `{ES : ExternalSpec}.
Implicit Types (p : proc).

(** Everything but the arrays of [char] is [stable]. *)
Definition stable_mod_chars p p' : Prop := stable p (with_chars (chars p) p').

(** A value handed to the caller: null when empty, otherwise a fresh array. *)
Definition handed p p' (v : list byte) (len : Z) (res : option ptr) : Prop :=
  len = Z.of_nat (length v) ∧
  match v with
  | [] => res = None ∧ chars p' = chars p
  | _ => ∃ l, res = Some l ∧ chars p !! l = None ∧ chars p' = <[l := v]> (chars p)
  end.

(** A call handed back what [a] stands for. *)
Definition gave p p' (a : option (list byte)) (len : Z) (res : option ptr) : Prop :=
  handed p p' (default [] a) len res.

Lemma answer_default v : default [] (answer v) = v.
Proof. by destruct v. Qed.

(** A call that went well leaves the status it was given. *)
Definition note (c : Z) (st : status_ptr) : status_ptr :=
  if decide (c = Status.Ok) then st else assign c st.

Lemma note_assign c st : note c (assign Status.Ok st) = assign c st.
Proof. unfold note. case_decide as Hc; [by rewrite Hc|apply assign_assign]. Qed.

Lemma get_read p st k r cf n0 key n kb :
  is_Some (txnDb (this p)) → kindobjs p !! r = Some (AKindImpl k) → handle k = Some cf →
  denotes key n kb →
  wp (get_ st r n0 key n) (λ '(st', n', res) p',
    quiet (world p) (world p') ∧ p' = with_chars (chars p') (with_world (world p') p) ∧
    ∃ c a, read_spec (hist (world p)) cf kb c a ∧
      st' = note c st ∧
      (n0 = 0 → gave p p' a n' res)) p.
Proof.
  intros [d Ed] Hr Hk [Hden Hnn]. unfold get_. wp_steps.
  eapply wp_toKindImpl; [done|]. wp_steps. eapply wp_get_txnDb; [done|]. wp_steps.
  eapply wp_deref; [exact Hk|]. wp_steps. eapply wp_lift_outcome; [exact Hden|]. wp_steps.
  apply wp_ext. intros [s v] w Hget. apply get_spec in Hget as (Hq & Hok & Hnf).
  destruct (ok s) eqn:Es.
  - assert (read_spec (hist (world p)) cf kb Status.Ok (answer v)) as Hrd.
    { constructor. intros r' Hr'. exact (Hok eq_refl r' Hr'). }
    destruct v as [|b v].
    + simpl. wp_steps. split_and!; [done|by destruct p|]. exists Status.Ok, None.
      split_and!; [exact Hrd|done|]. intros ->. split; done.
    + unfold empty, size, data. simpl length. rewrite bool_decide_false by (simpl; lia).
      simpl negb. cbn iota. wp_steps. apply wp_read_mem; [simpl; lia|]. wp_steps.
      apply wp_new_chars. intros l Hl. wp_steps. split_and!; [done|by destruct p|].
      exists Status.Ok, (Some (b :: v)). split_and!; [exact Hrd|done|]. intros _.
      split; [done|]. exists l. split; [done|]. split; [exact Hl|]. cbn [chars with_chars].
      unfold Slice_of_string. cbn [size_]. by rewrite (Nat2Z.id (length (b :: v))), firstn_all.
  - wp_steps. split_and!; [done|by destruct p|]. exists (report_code s), None.
    split_and!.
    + constructor; [by apply report_code_pos|]. intros Hc r'. apply Hnf.
      by apply report_code_not_found.
    + unfold note; by rewrite decide_False by by apply report_code_not_ok.
    + by intros ->.
Qed.

(** ** The lock *)

Definition lock p : proc := with_this (set_monitor true) p.
Definition unlock p : proc := with_this (set_monitor false) p.

(** What a call leaves, its arrays of [char] apart. *)
Definition carried p p' : Prop :=
  core_ok p' ∧ stable_mod_chars p p' ∧ no_txn_leak p p' ∧
  (counter p' = counter p ∨ counter p' = 0 ∨ counter p' = counter p + 1).

Lemma set_monitor_free s : monitor s = false → set_monitor false s = s.
Proof. destruct s; simpl. by intros ->. Qed.

Lemma carried_unlock p p' :
  monitor (this p) = false → carried (lock p) p' → carried p (unlock p') ∧ store_ok (unlock p').
Proof.
  intros Hm (Hc & (Hch & Hk & r & n & t & Ht) & Hl & Hn).
  split; [|by split]. split_and!; try done.
  split_and!; [done..|]. exists r, n, t. simpl in *. rewrite Ht. simpl.
  by rewrite <- (set_monitor_free (this p) Hm).
Qed.

Lemma no_txn_leak_trans p1 p2 p3 : no_txn_leak p1 p2 → no_txn_leak p2 p3 → no_txn_leak p1 p3.
Proof.
  intros [K1 L1] [K2 L2]. split; [by eauto|]. rewrite L2, L1.
  destruct (reusableTx_ (this p2)) as [t|] eqn:E2.
  - rewrite (K2 t eq_refl). simpl. auto with sets_db.
  - simpl. by rewrite union_empty.
Qed.

Lemma stable_mod_chars_trans p1 p2 p3 :
  stable_mod_chars p1 p2 → stable_mod_chars p2 p3 → stable_mod_chars p1 p3.
Proof.
  intros (_ & K1 & r1 & n1 & t1 & T1) (_ & K2 & r2 & n2 & t2 & T2).
  split_and!; [done|simpl in *; congruence|]. exists r2, n2, t2. simpl in *. by rewrite T2, T1.
Qed.

(** A read moves the world and adds arrays; a transaction may follow it. *)
Definition read_only p p' : Prop :=
  quiet (world p) (world p') ∧ p' = with_chars (chars p') (with_world (world p') p).

Lemma read_only_inv p p' :
  read_only p p' → ∃ c w, p' = with_chars c (with_world w p) ∧ quiet (world p) w.
Proof. intros [Hq Hp]. by exists (chars p'), (world p'). Qed.

Lemma read_only_carried p p' : core_ok p → open (this p) = true → read_only p p' → carried p p'.
Proof.
  intros Hc Ho Hr. apply read_only_inv in Hr as (c & w & -> & Hh & Hl).
  pose proof Hc as (Hd & Hcl & Hn & Hk & Ht).
  split_and!; [..|by left].
  - refine (conj Hd (conj Hcl (conj Hn (conj Hk _)))).
    intros _ t Et. simpl. rewrite Hl. by apply Ht.
  - exact (stable_refl p).
  - by apply no_txn_leak_quiet; [|done|apply Ht].
Qed.

Lemma kept_carried p p' :
  kept p p' → (counter p' = counter p ∨ counter p' = 0 ∨ counter p' = counter p + 1) →
  carried p p'.
Proof.
  intros (Hc & Hs & Hl) Hn. split_and!; try done.
  destruct Hs as (Hch & Hk & r & n & t & Ht). split_and!; [done..|]. by exists r, n, t.
Qed.

Lemma carried_trans_read p1 p2 p3 :
  core_ok p1 → open (this p1) = true → read_only p1 p2 → carried p2 p3 → carried p1 p3.
Proof.
  intros Hc Ho Hr (Hc3 & Hs & Hl & Hn).
  destruct (read_only_carried p1 p2 Hc Ho Hr) as (_ & Hs2 & Hl2 & _).
  split_and!; [done|by eapply stable_mod_chars_trans|by eapply no_txn_leak_trans|].
  apply read_only_inv in Hr as (c & w & -> & _). exact Hn.
Qed.

(** The shape of every public call: the arguments, the lock, the check that the store is
    open. *)
Lemma wp_public {A} null r o st (bad : A) (body closed : status_ptr → M proc A) Q p :
  kindobjs p !! r = Some o → null || negb (kind_isValid o) = false →
  store_ok p → open (this p) = true →
  wp (body (assign Status.Ok st)) (λ a p', Q a (unlock p')) (lock p) →
  wp (b ← bad_argument null r;
      if (b : bool) then mret bad
      else synchronize (
        '(b, status) ← validateOpen st;
        if (b : bool) then body status else closed status)) Q p.
Proof.
  intros Hr Hg [Hm Hc] Ho H. wp_steps. eapply wp_bad_argument; [exact Hr|]. rewrite Hg.
  apply wp_synchronize; [done|]. wp_steps. apply wp_validateOpen_open; [exact Ho|]. exact H.
Qed.

Lemma kind_at_valid p r cf :
  kind_at p r cf → ∃ k, kindobjs p !! r = Some (AKindImpl k) ∧ handle k = Some cf ∧
    false || negb (kind_isValid (AKindImpl k)) = false.
Proof. intros [n Hn]. by exists (mkKindImpl n (Some cf)). Qed.

(** ** Writes and reads of an open store *)

Lemma wrote_spec st cf k o st' p p' :
  wrote st cf k o st' p p' →
  ∃ c, writes_spec (hist (world p)) cf k o c (hist (world p')) ∧ st' = note c st.
Proof.
  intros [[-> ->]|(c & Hc & -> & ->)].
  - exists Status.Ok. split; [constructor|done].
  - exists c. split; [by constructor|]. unfold note. by rewrite decide_False.
Qed.

(** What [put_], [remove_] and [singleRemove_] promise of the one write [o]. *)
Definition writes_ok st cf kb o (m : M proc status_ptr) p : Prop :=
  wp m (λ st' p', carried p p' ∧ chars p' = chars p ∧
    ∃ c, writes_spec (hist (world p)) cf kb o c (hist (world p')) ∧ st' = note c st) p.

Lemma transaction_writes p st k cf kb o op :
  core_ok p → open (this p) = true → handle k = Some cf → buffers op cf kb o →
  writes_ok st cf kb o (in_transaction st k op) p.
Proof.
  intros Hc Ho Hk Hb. eapply wp_mono; [by apply in_transaction_spec|].
  intros st' p' (Hkept & Hw & Hn). split_and!.
  - by apply kept_carried.
  - apply Hkept.
  - by eapply wrote_spec.
Qed.

Ltac buffering H :=
  intros t p0; wp_steps; repeat (eapply wp_lift_outcome; [eassumption|]; wp_steps);
  apply wp_ext; intros s w Hw; apply H in Hw as [??]; done.

Lemma put_writes p st r cf key n kb value m vb :
  core_ok p → open (this p) = true → kind_at p r cf → denotes key n kb →
  read_mem value m = Done vb →
  writes_ok st cf kb (WPut vb) (put_ st r key n value m) p.
Proof.
  intros Hc Ho [nm Hr] [Hd _] Hv. unfold writes_ok, put_. wp_steps.
  eapply wp_toKindImpl; [done|]. apply transaction_writes; [done..|]. buffering put_spec.
Qed.

Lemma remove_writes p st r cf key n kb :
  core_ok p → open (this p) = true → kind_at p r cf → denotes key n kb →
  writes_ok st cf kb WDelete (remove_ st r key n) p.
Proof.
  intros Hc Ho [nm Hr] [Hd _]. unfold writes_ok, remove_. wp_steps.
  eapply wp_toKindImpl; [done|]. apply transaction_writes; [done..|]. buffering delete_spec.
Qed.

Lemma singleRemove_writes p st r cf key n kb :
  core_ok p → open (this p) = true → kind_at p r cf → denotes key n kb →
  writes_ok st cf kb WSingleDelete (singleRemove_ st r key n) p.
Proof.
  intros Hc Ho [nm Hr] [Hd _]. unfold writes_ok, singleRemove_. wp_steps.
  eapply wp_toKindImpl; [done|]. apply transaction_writes; [done..|].
  buffering single_delete_spec.
Qed.

Lemma get_reads p st r cf key n kb :
  core_ok p → open (this p) = true → kind_at p r cf → denotes key n kb →
  wp (get_ st r 0 key n) (λ '(st', n', res) p', read_only p p' ∧
    ∃ c a, read_spec (hist (world p)) cf kb c a ∧ st' = note c st ∧ gave p p' a n' res) p.
Proof.
  intros (Hd & _) Ho [nm Hr] Hk. eapply wp_mono; [by eapply get_read; eauto|].
  intros [[st' n'] res] p' (Hq & Hp & c & a & Hs & -> & Hg). split; [by split|].
  exists c, a. auto.
Qed.

(** ** The calls of the C interface *)

(** A caller passes exact buffers, a cell for the status and, where the call takes one, a cell
    for the length. *)
Definition len (bs : list byte) : Z := Z.of_nat (length bs).

Definition run_call (st : status_ptr) (r : ptr) (c : call) :
    M proc (status_ptr * option Z * option ptr) :=
  match c with
  | CPut k v => st ← put st r (Some k) (len k) (Some v) (len v); mret (st, None, None)
  | CRemove k => st ← remove st r (Some k) (len k); mret (st, None, None)
  | CSingleRemove k => st ← singleRemove st r (Some k) (len k); mret (st, None, None)
  | CGet k => get st r (Some 0) (Some k) (len k)
  | CUpdateIfPresent k v => updateIfPresent st r (Some 0) (Some k) (len k) (Some v) (len v)
  | CRemoveIfPresent k => removeIfPresent st r (Some 0) (Some k) (len k)
  | CSingleRemoveIfPresent k => singleRemoveIfPresent st r (Some 0) (Some k) (len k)
  | CPutIfAbsent k v =>
      st ← putIfAbsent st r (Some k) (len k) (Some v) (len v); mret (st, None, None)
  end.

(** The arrays of [char] after a call, and what it returned for the value [a]. *)
Definition returned (c : call) p p' (a : option (list byte)) (n : option Z) (res : option ptr) :
    Prop :=
  match c with
  | CPut _ _ | CRemove _ | CSingleRemove _ => n = None ∧ res = None ∧ chars p' = chars p
  | CPutIfAbsent _ _ => n = None ∧ res = None ∧ chars p ⊆ chars p'
  | _ => ∃ m, n = Some m ∧ gave p p' a m res
  end.

(** The call finished as the abstract specification allows, and left the store in order. *)
Definition refines (st : status_ptr) (cf : ptr) (c : call) p
    (out : status_ptr * option Z * option ptr) p' : Prop :=
  let '(st', n, res) := out in
  store_ok p' ∧ carried p p' ∧
  ∃ code a, spec cf (hist (world p)) c (code, a) (hist (world p')) ∧
    st' = assign code st ∧ returned c p p' a n res.

Lemma gave_incl p p' a n res : gave p p' a n res → chars p ⊆ chars p'.
Proof.
  intros [_ H]. destruct (default [] a) as [|b v].
  - destruct H as [_ ->]. done.
  - destruct H as (l & _ & Hl & ->). by apply insert_subseteq.
Qed.

Lemma run_write st cf c kb o r p (body closed : status_ptr → M proc status_ptr) :
  store_ok p → open (this p) = true → kind_at p r cf →
  (∀ st0, writes_ok st0 cf kb o (body st0) (lock p)) →
  (∀ code h', writes_spec (hist (world p)) cf kb o code h' →
     spec cf (hist (world p)) c (code, None) h' ∧
     ∀ p', chars p' = chars p → returned c p p' None None None) →
  wp (st ← (b ← bad_argument (is_null (Some kb)) r;
            if (b : bool) then mret (assign Status.InvalidArgument st)
            else synchronize (
              '(b, status) ← validateOpen st;
              if (b : bool) then body status else closed status));
      mret (st, None, None)) (refines st cf c p) p.
Proof.
  intros Hs Ho Hk Hb Hspec. destruct (kind_at_valid p r cf Hk) as (kk & Hr & _ & Hv).
  apply wp_bind. eapply (wp_public _ r _ st); [exact Hr|exact Hv|exact Hs|exact Ho|].
  eapply wp_mono; [apply Hb|]. intros st' p' (Hc & Hch & code & Hw & ->).
  destruct (Hspec code (hist (world p')) Hw) as [Hsp Hret].
  destruct (carried_unlock p p' (proj1 Hs) Hc) as [Hc' Hs']. wp_steps.
  split_and!; [done|done|]. exists code, None. rewrite note_assign. split_and!; [done|done|].
  by apply Hret.
Qed.

Lemma run_if_present st cf c kb o r p act :
  store_ok p → open (this p) = true → kind_at p r cf →
  (∀ st0 p1, core_ok p1 → open (this p1) = true → kind_at p1 r cf →
     writes_ok st0 cf kb o (act st0) p1) →
  (∀ code a h', read_write_spec (hist (world p)) cf kb o code a h' →
     spec cf (hist (world p)) c (code, a) h') →
  (∀ p' a n res, gave p p' a n res → returned c p p' a (Some n) res) →
  wp (if_present st r (Some 0) (Some kb) (len kb) act) (refines st cf c p) p.
Proof.
  intros Hs Ho Hk Ha Hspec Hret. destruct (kind_at_valid p r cf Hk) as (kk & Hr & _ & Hv).
  eapply (wp_public _ r _ st); [exact Hr|exact Hv|exact Hs|exact Ho|].
  apply wp_bind. eapply wp_mono; [apply (get_reads (lock p) _ r cf); [apply Hs|done..|apply denotes_all]|].
  intros [[st' n] res] p1 (Hro & code & a & Hrd & -> & Hg). cbn beta iota.
  pose proof (read_only_inv _ _ Hro) as (ch & w & -> & [Hh _]).
  destruct (decide (note code (Some Status.Ok) = Some Status.Ok)) as [Hok|Hok].
  - assert (code = Status.Ok) as ->.
    { unfold note in Hok. case_decide; [done|]. by injection Hok. }
    apply wp_bind. eapply wp_mono; [apply Ha; [|done|exact Hk]|].
    { by apply (read_only_carried (lock p)); [apply Hs| |]. }
    intros st' p2 (Hc2 & Hch & code & Hw & ->). wp_steps.
    destruct (carried_unlock p p2 (proj1 Hs)) as [Hc' Hs'].
    { eapply carried_trans_read; [apply Hs|exact Ho|exact Hro|exact Hc2]. }
    split_and!; [done|done|]. exists code, a. split_and!.
    + apply Hspec. simpl in Hw. rewrite Hh in Hw. by eapply rw_written.
    + rewrite assign_assign. f_equal. unfold note. by case_decide; simpl.
    + apply Hret. unfold gave, handed in *. simpl in *. by rewrite Hch.
  - wp_steps. destruct (carried_unlock p _ (proj1 Hs)
      (read_only_carried (lock p) _ (proj2 Hs) Ho Hro)) as [Hc' Hs'].
    assert (code ≠ Status.Ok) as Hne by (intros ->; by apply Hok).
    split_and!; [done|done|]. exists code, a. split_and!.
    + apply Hspec. simpl. rewrite Hh. by apply rw_read_failed.
    + rewrite assign_assign. f_equal. unfold note. by rewrite decide_False.
    + by apply Hret.
Qed.

Lemma run_putIfAbsent st cf kb vb r p :
  store_ok p → open (this p) = true → kind_at p r cf →
  wp (run_call st r (CPutIfAbsent kb vb)) (refines st cf (CPutIfAbsent kb vb) p) p.
Proof.
  intros Hs Ho Hk. destruct (kind_at_valid p r cf Hk) as (kk & Hr & _ & Hv).
  apply wp_bind. eapply (wp_public _ r _ st); [exact Hr|exact Hv|exact Hs|exact Ho|].
  apply wp_bind. eapply wp_mono; [apply (get_reads (lock p) _ r cf); [apply Hs|done..|apply denotes_all]|].
  intros [[st' n] res] p1 (Hro & code & a & Hrd & -> & Hg). cbn beta iota.
  pose proof (read_only_carried (lock p) p1 (proj2 Hs) Ho Hro) as Hc1.
  pose proof (gave_incl _ _ _ _ _ Hg) as Hincl.
  pose proof (read_only_inv _ _ Hro) as (ch & w & -> & [Hh _]).
  assert (note code (Some Status.Ok) = Some code) as -> by (unfold note; by case_decide as Hc; rewrite ?Hc).
  destruct (decide (Some code = Some Status.NotFound)) as [[= ->]|Hnf]; [|case_decide as Hok].
  - apply wp_bind. eapply wp_mono; [apply (put_writes _ _ r cf _ _ kb _ _ vb); [apply Hc1|done|exact Hk|apply denotes_all|]|].
    { by apply (denotes_all vb). }
    intros st' p2 (Hc2 & Hch & code & Hw & ->). wp_steps.
    destruct (carried_unlock p p2 (proj1 Hs)) as [Hc' Hs'].
    { eapply carried_trans_read; [apply Hs|exact Ho|exact Hro|exact Hc2]. }
    split_and!; [done|done|]. exists code, None. split; [|split; [|split; [done|split; [done|]]]].
    + simpl in Hw. rewrite Hh in Hw. apply spec_absent; [|done].
      inversion Hrd; subst. by constructor.
    + rewrite assign_assign. f_equal. unfold note. by case_decide as Hc; rewrite ?Hc.
    + simpl. rewrite Hch. exact Hincl.
  - injection Hok as ->. wp_steps. destruct (carried_unlock p _ (proj1 Hs) Hc1) as [Hc' Hs'].
    split_and!; [done|done|]. exists Status.AlreadyExists, None. rewrite assign_assign.
    split_and!; [|done|by split_and!]. simpl. rewrite Hh. by eapply spec_exists.
  - wp_steps. destruct (carried_unlock p _ (proj1 Hs) Hc1) as [Hc' Hs'].
    split_and!; [done|done|]. exists code, None. rewrite assign_assign.
    split_and!; [|done|by split_and!]. simpl. rewrite Hh. eapply spec_absent_failed; [|done].
    congruence.
Qed.

Ltac inv_spec H := inversion H; subst; clear H.

Lemma run_call_refines (p : proc) (st : status_ptr) (r cf : ptr) (c : call) :
  store_ok p → open (this p) = true → kind_at p r cf →
  wp (run_call st r c) (refines st cf c p) p.
Proof.
  intros Hs Ho Hk. assert (core_ok (lock p)) as Hc by apply Hs.
  destruct c as [k v|k|k|k|k v|k|k|k v].
  - apply (run_write st cf (CPut k v) k (WPut v)); [done..| |].
    + intros st0. apply put_writes; [done..|apply denotes_all|apply (denotes_all v)].
    + intros code h' Hw. split; [by constructor|done].
  - apply (run_write st cf (CRemove k) k WDelete); [done..| |].
    + intros st0. apply remove_writes; [done..|apply denotes_all].
    + intros code h' Hw. split; [by constructor|done].
  - apply (run_write st cf (CSingleRemove k) k WSingleDelete); [done..| |].
    + intros st0. apply singleRemove_writes; [done..|apply denotes_all].
    + intros code h' Hw. split; [by constructor|done].
  - destruct (kind_at_valid p r cf Hk) as (kk & Hr & _ & Hv).
    eapply (wp_public _ r _ st); [exact Hr|exact Hv|exact Hs|exact Ho|].
    apply wp_bind. eapply wp_mono; [apply (get_reads (lock p) _ r cf); [done..|apply denotes_all]|].
    intros [[st' n] res] p1 (Hro & code & a & Hrd & -> & Hg). wp_steps.
    destruct (carried_unlock p p1 (proj1 Hs) (read_only_carried (lock p) p1 Hc Ho Hro)) as [Hc' Hs'].
    split_and!; [done|done|]. exists code, a. rewrite note_assign. split_and!; [|done|by exists n].
    replace (hist (world (unlock p1))) with (hist (world p)) by (symmetry; apply Hro).
    by constructor.
  - apply (run_if_present st cf _ k (WPut v)); [done..| | |by eexists].
    + intros st0 p1 H1 H2 H3. apply put_writes; [done..|apply denotes_all|apply (denotes_all v)].
    + intros code a h' Hw. by constructor.
  - apply (run_if_present st cf _ k WDelete); [done..| | |by eexists].
    + intros st0 p1 H1 H2 H3. apply remove_writes; [done..|apply denotes_all].
    + intros code a h' Hw. by constructor.
  - apply (run_if_present st cf _ k WSingleDelete); [done..| | |by eexists].
    + intros st0 p1 H1 H2 H3. apply singleRemove_writes; [done..|apply denotes_all].
    + intros code a h' Hw. by constructor.
  - by apply run_putIfAbsent.
Qed.
End Refine.

(** C1. The calls of the C interface refine the abstract store: on an open store and a kind of
    it, a call finishes without undefined behaviour; the code it reports, the value it
    returns and what is stored afterwards are ones the abstract specification allows, that
    is, a write is all or nothing with [Ok] reported exactly when it was made, and a read
    answers what the history of the key determines; the store is left in order, with the lock
    free and the commit counter below 16384, no array of [char] is lost or overwritten, and
    no transaction object is live that was not before, the reusable one apart. *)
Theorem store_refines_spec `{ES : ExternalSpec} (p : proc) (st : status_ptr) (r cf : ptr)
    (c : call) :
  store_ok p → open (this p) = true → kind_at p r cf →
  wp (run_call st r c) (refines st cf c p) p.
Proof. apply run_call_refines. Qed.
