(* ===== verification/MemDB.v ===== *)
(** An in-memory database that keeps the promises of [ExternalSpec], with a script of the
    statuses its calls answer.  The library's theorems hold for any [ExternalSpec]; this
    instance shows there is one, and is what concrete runs are evaluated on. *)
From S2P Require Import Prelude Slice RocksStatus RocksDB.

Local Open Scope Z_scope.

(** The database: write histories, live transactions and what they have buffered, iterators,
    the clock, and the statuses the next calls answer ([OK] when the script is over). *)
Record mworld := mkMWorld {
  m_hist : history;
  m_live : gset ptr;
  m_batch : gmap ptr (list (ptr * list byte * wop));
  m_iters : gmap ptr (ptr * option (list byte));
  m_cfs : list (string * ptr);
  m_clock : Z;
  m_script : list Status;
  m_synced : nat;
  m_log : list string;
}.

Definition m_init : mworld := mkMWorld ∅ ∅ ∅ ∅ [] 0 [] 0 [].

Definition set_hist h w := mkMWorld h (m_live w) (m_batch w) (m_iters w) (m_cfs w) (m_clock w)
  (m_script w) (m_synced w) (m_log w).
Definition set_live l w := mkMWorld (m_hist w) l (m_batch w) (m_iters w) (m_cfs w) (m_clock w)
  (m_script w) (m_synced w) (m_log w).
Definition set_batch b w := mkMWorld (m_hist w) (m_live w) b (m_iters w) (m_cfs w) (m_clock w)
  (m_script w) (m_synced w) (m_log w).
Definition set_iters i w := mkMWorld (m_hist w) (m_live w) (m_batch w) i (m_cfs w) (m_clock w)
  (m_script w) (m_synced w) (m_log w).
Definition set_cfs c w := mkMWorld (m_hist w) (m_live w) (m_batch w) (m_iters w) c (m_clock w)
  (m_script w) (m_synced w) (m_log w).
Definition set_clock t w := mkMWorld (m_hist w) (m_live w) (m_batch w) (m_iters w) (m_cfs w) t
  (m_script w) (m_synced w) (m_log w).
Definition set_script s w := mkMWorld (m_hist w) (m_live w) (m_batch w) (m_iters w) (m_cfs w)
  (m_clock w) s (m_synced w) (m_log w).
Definition set_synced n w := mkMWorld (m_hist w) (m_live w) (m_batch w) (m_iters w) (m_cfs w)
  (m_clock w) (m_script w) n (m_log w).
Definition set_mlog l w := mkMWorld (m_hist w) (m_live w) (m_batch w) (m_iters w) (m_cfs w)
  (m_clock w) (m_script w) (m_synced w) l.

(** The next status of the script. *)
Definition pop (w : mworld) : Status * mworld :=
  match m_script w with [] => (OK, w) | s :: l => (s, set_script l w) end.

Lemma pop_keeps w s w' : pop w = (s, w') →
  m_hist w' = m_hist w ∧ m_live w' = m_live w ∧ m_batch w' = m_batch w ∧
  m_iters w' = m_iters w ∧ m_cfs w' = m_cfs w.
Proof. unfold pop. destruct (m_script w); intros [= <- <-]; done. Qed.

Definition m_batch_of (w : mworld) (t : ptr) := default [] (m_batch w !! t).

Definition m_begin (db : ptr) (old : option ptr) (w : mworld) : option ptr * mworld :=
  let '(s, w) := pop w in
  if ok s then
    match old with
    | Some t => (Some t, set_batch (<[t := []]> (m_batch w)) w)
    | None => let t := fresh (m_live w) in
              (Some t, set_batch (<[t := []]> (m_batch w)) (set_live ({[ t ]} ∪ m_live w) w))
    end
  else (None, w).

Definition m_buffer (o : wop) (t cf : ptr) (k : list byte) (w : mworld) : Status * mworld :=
  let '(s, w) := pop w in
  if ok s then (s, set_batch (<[t := m_batch_of w t ++ [(cf, k, o)]]> (m_batch w)) w)
  else (s, w).

Definition m_commit (t : ptr) (w : mworld) : Status * mworld :=
  let '(s, w) := pop w in
  if ok s then (s, set_hist (hpush_all (m_batch_of w t) (m_hist w)) w) else (s, w).

Definition m_delete_txn (t : ptr) (w : mworld) : mworld := set_live (m_live w ∖ {[ t ]}) w.

Definition m_get (db cf : ptr) (k : list byte) (w : mworld) : (Status * list byte) * mworld :=
  let '(s, w) := pop w in
  if ok s || IsNotFound s then
    match resolve (hget (m_hist w) cf k) with
    | Some (Some v) => ((OK, v), w)
    | _ => ((NotFound kNone, []), w)
    end
  else ((s, []), w).

Definition in_range (b e k : list byte) : bool :=
  bool_decide (lex b k ≠ Gt ∧ lex k e = Lt).

(** A range tombstone deletes every key of the range. *)
Definition m_apply_range (r : ptr * list byte * list byte) (h : history) : history :=
  let '(cf, b, e) := r in
  map_imap (λ ck l, Some (if bool_decide (ck.1 = cf) && in_range b e ck.2
                          then WDelete :: l else l)) h.

Definition m_write (db : ptr) (skip : bool) (wb : list (ptr * list byte * list byte))
    (w : mworld) : Status * mworld :=
  let '(s, w) := pop w in
  if ok s then (s, set_hist (foldl (λ h r, m_apply_range r h) (m_hist w) wb) w) else (s, w).

Definition m_delete_range (cf : ptr) (b e : list byte) (w : mworld) :
    (Status * list (ptr * list byte * list byte)) * mworld :=
  let '(s, w) := pop w in ((s, [(cf, b, e)]), w).

(** Iterators stand at the least or the greatest visible key. *)
Definition m_keys (h : history) (cf : ptr) : list (list byte) :=
  omap (λ '((cf', k), l), if decide (cf' = cf) then
          match resolve l with Some (Some _) => Some k | _ => None end else None)
    (map_to_list h).

Fixpoint extreme (better : comparison) (l : list (list byte)) : option (list byte) :=
  match l with
  | [] => None
  | k :: l' =>
      match extreme better l' with
      | None => Some k
      | Some k' => if decide (lex k k' = better) then Some k else Some k'
      end
  end.

Definition m_cf_of (w : mworld) (it : ptr) : ptr := from_option fst 1%positive (m_iters w !! it).

Definition m_new_iter (db cf : ptr) (w : mworld) : option ptr * mworld :=
  let '(s, w) := pop w in
  if ok s then
    let it := fresh (dom (m_iters w)) in (Some it, set_iters (<[it := (cf, None)]> (m_iters w)) w)
  else (None, w).

Definition m_seek (better : comparison) (it : ptr) (w : mworld) : mworld :=
  set_iters (<[it := (m_cf_of w it, extreme better (m_keys (m_hist w) (m_cf_of w it)))]>
    (m_iters w)) w.

Definition m_at (w : mworld) (it : ptr) : option (list byte) := m_iters w !! it ≫= snd.

Definition m_create_cf (db : ptr) (o : ColumnFamilyOptions unit) (n : string) (w : mworld) :
    (Status * option ptr) * mworld :=
  let '(s, w) := pop w in
  if ok s then
    let h := fresh (set_map fst (dom (m_hist w)) ∪ list_to_set (m_cfs w).*2 : gset ptr) in
    ((s, Some h), set_cfs (m_cfs w ++ [(n, h)]) w)
  else ((s, None), w).

(** Opening hands out a handle for each family asked for, known ones first. *)
Fixpoint m_handles (descs : list string) (cfs : list (string * ptr)) : list (string * ptr) :=
  match descs with
  | [] => cfs
  | n :: descs' =>
      match list_find (λ c, c.1 = n) cfs with
      | Some _ => m_handles descs' cfs
      | None => m_handles descs' (cfs ++ [(n, fresh (list_to_set cfs.*2 : gset ptr))])
      end
  end.

Definition m_open (o : DBOptions unit) (p : TxnDBWritePolicy) (path : string)
    (descs : list (string * ColumnFamilyOptions unit)) (w : mworld) :
    (Status * list ptr * option ptr) * mworld :=
  let '(s, w) := pop w in
  if ok s then
    let cfs := m_handles descs.*1 (m_cfs w) in
    let find n := from_option (λ c, c.2.2) 1%positive (list_find (λ c, c.1 = n) cfs) in
    ((s, find <$> descs.*1, Some 1%positive), set_cfs cfs w)
  else ((s, [], None), w).

Definition m_now (w : mworld) : Z * mworld :=
  (m_clock w + 1000, set_clock (m_clock w + 1000) w).

(** A batch is its range deletions; options the library leaves alone are not modelled. *)
#[export] Instance MemDB : External := {|
  World := mworld;
  DBRest := unit;
  CFRest := unit;
  WriteBatch := list (ptr * list byte * list byte);
  umap_iter := λ A m, map_to_list m;
  hardware_concurrency := 4;
  steady_clock_now := m_now;
  default_DBOptions := mkDBOptions false false 1000 0 0 0 0 INFO_LEVEL None None tt;
  default_CFOptions := mkCFOptions 0 false (mkTableOptions 4096 5) tt;
  DB_OptimizeForSmallDb := id;
  IncreaseParallelism := λ _, id;
  CF_OptimizeForSmallDb := id;
  OptimizeLevelStyleCompaction := λ _, id;
  Env_Default := Some 1%positive;
  NewSstFileManager := λ _, Some 2%positive;
  GetRocksVersionAsString := "9.0.0";
  GetRocksBuildProperties :=
    {[ "rocksdb_build_git_sha"%string := "abc"%string; "rocksdb_build_date"%string := "2024"%string ]};
  log_info := λ l w, set_mlog (m_log w ++ [l]) w;
  ListColumnFamilies := λ o p w, let '(s, w) := pop w in ((s, (m_cfs w).*1), w);
  TransactionDB_Open := m_open;
  EnableFileDeletions := λ d w, (OK, w);
  CreateColumnFamily := m_create_cf;
  delete_ColumnFamilyHandle := λ h w, w;
  delete_TransactionDB := λ h w, w;
  BeginTransaction := m_begin;
  Txn_Put := λ t cf k v, m_buffer (WPut v) t cf k;
  Txn_Delete := m_buffer WDelete;
  Txn_SingleDelete := m_buffer WSingleDelete;
  Txn_Commit := m_commit;
  delete_Transaction := m_delete_txn;
  WriteBatch_DeleteRange := m_delete_range;
  DB_Write := m_write;
  DB_Get := m_get;
  NewIterator := m_new_iter;
  SeekToFirst := m_seek Lt;
  SeekToLast := m_seek Gt;
  Iterator_Valid := λ it w, (bool_decide (is_Some (m_at w it)), w);
  Iterator_key := λ it w, (default [] (m_at w it), w);
  delete_Iterator := λ it w, set_iters (delete it (m_iters w)) w;
  FlushWAL := λ d b w, (OK, set_synced (S (m_synced w)) w);
  DB_Flush := λ d b w, (OK, w);
  CompactRange := λ d cf w, pop w;
|}.

(** ** The promises *)

Lemma elem_of_m_keys h cf k : k ∈ m_keys h cf ↔ visible h cf k.
Proof.
  unfold m_keys, visible, hget. rewrite list_elem_of_omap. split.
  - intros ([[cf' k'] l] & Hin & Hk). apply elem_of_map_to_list in Hin.
    case_decide; [subst|done]. destruct (resolve l) as [[v|]|] eqn:Hr; [|done..].
    injection Hk as ->. exists v. by rewrite Hin.
  - intros [v Hv]. destruct (h !! (cf, k)) as [l|] eqn:Hl; [|done].
    exists ((cf, k), l). split; [by apply elem_of_map_to_list|].
    rewrite decide_True by done. simpl in Hv. by rewrite Hv.
Qed.

Lemma extreme_None b l : extreme b l = None → l = [].
Proof. destruct l as [|k l]; [done|]. simpl. destruct (extreme b l); [case_decide|]; done. Qed.

Lemma lex_le_trans a b c : lex a b ≠ Gt → lex b c ≠ Gt → lex a c ≠ Gt.
Proof.
  intros H1 H2. destruct (lex a b) eqn:E1; [apply lex_eq in E1 as ->; done| |done].
  destruct (lex b c) eqn:E2; [apply lex_eq in E2 as ->; by rewrite E1| |done].
  by rewrite (lex_lt_trans a b c).
Qed.

Lemma lex_ge_trans a b c : lex a b ≠ Lt → lex b c ≠ Lt → lex a c ≠ Lt.
Proof.
  rewrite (lex_antisym b a), (lex_antisym c b), (lex_antisym c a). intros H1 H2 H3.
  apply (lex_le_trans c b a); [by destruct (lex c b)|by destruct (lex b a)|by destruct (lex c a)].
Qed.

(** Lt finds the least element, Gt the greatest. *)
Lemma extreme_spec b l k :
  b ≠ Eq → extreme b l = Some k → k ∈ l ∧ ∀ k', k' ∈ l → lex k k' ≠ CompOpp b.
Proof.
  intros Hb. revert k. induction l as [|x l IH]; intros k; simpl; [done|].
  destruct (extreme b l) as [y|] eqn:Hy.
  - destruct (IH y eq_refl) as [Hin Hle]. case_decide as Hxy; intros [= <-].
    + split; [by left|]. intros k' [->|Hk']%elem_of_cons; [by rewrite lex_refl; destruct b|].
      specialize (Hle k' Hk'). destruct b; simpl in *; [done|..].
      * by apply (lex_le_trans x y); [rewrite Hxy|].
      * by apply (lex_ge_trans x y); [rewrite Hxy|].
    + split; [by right|]. intros k' [->|Hk']%elem_of_cons; [|by apply Hle].
      rewrite lex_antisym. destruct (lex x y); by destruct b.
  - apply extreme_None in Hy as ->. intros [= <-]. split; [by left|].
    intros k' [->|Hk']%elem_of_cons; [by rewrite lex_refl; destruct b|by apply elem_of_nil in Hk'].
Qed.

Lemma m_at_seek b it w :
  m_at (m_seek b it w) it = extreme b (m_keys (m_hist w) (m_cf_of w it)).
Proof. unfold m_at, m_seek. simpl. by rewrite lookup_insert_eq. Qed.

Lemma m_seek_first it w :
  match m_at (m_seek Lt it w) it with
  | Some k => least_key (m_hist w) (m_cf_of w it) k
  | None => ∀ k, ¬ visible (m_hist w) (m_cf_of w it) k
  end.
Proof.
  rewrite m_at_seek. destruct (extreme _ _) as [k|] eqn:He.
  - apply extreme_spec in He as [Hin Hle]; [|done]. split; [by apply elem_of_m_keys|].
    intros k' Hk'. apply Hle. by apply elem_of_m_keys.
  - apply extreme_None in He. intros k Hk%elem_of_m_keys. rewrite He in Hk. by apply elem_of_nil in Hk.
Qed.

Lemma m_seek_last it w :
  match m_at (m_seek Gt it w) it with
  | Some k => greatest_key (m_hist w) (m_cf_of w it) k
  | None => ∀ k, ¬ visible (m_hist w) (m_cf_of w it) k
  end.
Proof.
  rewrite m_at_seek. destruct (extreme _ _) as [k|] eqn:He.
  - apply extreme_spec in He as [Hin Hle]; [|done]. split; [by apply elem_of_m_keys|].
    intros k' Hk'%elem_of_m_keys. specialize (Hle k' Hk'). rewrite lex_antisym.
    by destruct (lex k k').
  - apply extreme_None in He. intros k Hk%elem_of_m_keys. rewrite He in Hk. by apply elem_of_nil in Hk.
Qed.

Lemma m_apply_range_spec h cf b e cf' k :
  if decide (cf' = cf ∧ lex b k ≠ Gt ∧ lex k e = Lt)
  then resolve (hget (m_apply_range (cf, b, e) h) cf' k) = Some None
  else hget (m_apply_range (cf, b, e) h) cf' k = hget h cf' k.
Proof.
  unfold hget, m_apply_range, in_range. rewrite map_lookup_imap.
  destruct (h !! (cf', k)) as [l|]; simpl; [|by case_decide].
  case_decide as Hd.
  - destruct Hd as [-> Hd]. by rewrite !bool_decide_true.
  - destruct (bool_decide (cf' = cf)) eqn:E1; [|done]. apply bool_decide_eq_true in E1.
    rewrite bool_decide_false by tauto. done.
Qed.

Ltac popped := let w1 := fresh "w1" in
  match goal with
  | H : context [pop ?w] |- _ =>
      destruct (pop w) as [? w1] eqn:?Hp;
      match goal with Hp : pop w = _ |- _ =>
        apply pop_keeps in Hp as (?Hh & ?Hl & ?Hb & ?Hi & ?Hc) end
  end.

Lemma m_buffer_spec o t cf k w s w' :
  m_buffer o t cf k w = (s, w') →
  (m_hist w' = m_hist w ∧ m_live w' = m_live w) ∧
  (ok s = true → m_batch_of w' t = m_batch_of w t ++ [(cf, k, o)]).
Proof.
  unfold m_buffer. intros H. popped. destruct (ok _) eqn:Hok; injection H as <- <-.
  - split; [done|]. intros _. unfold m_batch_of. simpl. rewrite lookup_insert_eq. simpl. by rewrite Hb.
  - split; [done|]. by rewrite Hok.
Qed.

Lemma m_begin_new db w t w' :
  m_begin db None w = (Some t, w') →
  m_hist w' = m_hist w ∧ m_batch_of w' t = [] ∧ (t ∉ m_live w) ∧ m_live w' = {[ t ]} ∪ m_live w.
Proof.
  unfold m_begin. intros H. popped. destruct (ok _); [|done]. injection H as <- <-. simpl.
  rewrite Hl. split_and!; [done|unfold m_batch_of; simpl; by rewrite lookup_insert_eq| |done].
  apply is_fresh.
Qed.

Lemma m_begin_reuse db o w t w' :
  m_begin db (Some o) w = (Some t, w') →
  t = o ∧ (m_hist w' = m_hist w ∧ m_live w' = m_live w) ∧ m_batch_of w' t = [].
Proof.
  unfold m_begin. intros H. popped. destruct (ok _); [|done]. injection H as <- <-. simpl.
  split_and!; [done..|unfold m_batch_of; simpl; by rewrite lookup_insert_eq].
Qed.

Lemma m_get_spec db cf k w s v w' :
  m_get db cf k w = ((s, v), w') →
  (m_hist w' = m_hist w ∧ m_live w' = m_live w) ∧
  (ok s = true → ∀ r, resolve (hget (m_hist w) cf k) = Some r → r = Some v) ∧
  (IsNotFound s = true → ∀ r, resolve (hget (m_hist w) cf k) = Some r → r = None).
Proof.
  unfold m_get. intros H. popped. rewrite Hh in H. destruct (ok _) eqn:Hok; simpl in H.
  - destruct (resolve _) as [[v'|]|]; injection H as <- <- <-; (split; [done|]);
      split; try done; intros _ r; congruence.
  - destruct (IsNotFound _) eqn:Hnf.
    + destruct (resolve _) as [[v'|]|]; injection H as <- <- <-; (split; [done|]);
        split; try done; intros _ r; congruence.
    + injection H as <- <- <-. rewrite Hok, Hnf. done.
Qed.

Lemma m_write_spec db skip wb w s w' :
  m_write db skip wb w = (s, w') →
  m_live w' = m_live w ∧ (ok s = false → m_hist w' = m_hist w) ∧
  (ok s = true → m_hist w' = foldl (λ h r, m_apply_range r h) (m_hist w) wb).
Proof.
  unfold m_write. intros H. popped. destruct (ok _) eqn:Hok; injection H as <- <-; simpl;
    rewrite Hok, ?Hh; done.
Qed.

Lemma m_new_iter_some db cf w it w' :
  m_new_iter db cf w = (Some it, w') →
  (m_hist w' = m_hist w ∧ m_live w' = m_live w) ∧ m_cf_of w' it = cf.
Proof.
  unfold m_new_iter. intros H. popped. destruct (ok _); [|done]. injection H as <- <-.
  split; [done|]. unfold m_cf_of. simpl. by rewrite lookup_insert_eq.
Qed.

Lemma m_create_cf_spec db o n w s r w' :
  m_create_cf db o n w = ((s, r), w') →
  (m_hist w' = m_hist w ∧ m_live w' = m_live w) ∧
  (ok s = true → is_Some r ∧ ∀ h k, r = Some h → hget (m_hist w) h k = []).
Proof.
  unfold m_create_cf. intros H. popped. destruct (ok _) eqn:Hok; injection H as <- <- <-.
  2: { by rewrite Hok. }
  split; [done|]. intros _. split; [by eexists|]. intros h k [= <-].
  unfold hget. destruct (m_hist w !! _) eqn:Hl2; [|done]. exfalso.
  eapply (is_fresh (set_map fst (dom (m_hist w1)) ∪ list_to_set (m_cfs w1).*2 : gset ptr)).
  apply elem_of_union_l, elem_of_map. rewrite Hh. eexists. split; [|by eapply elem_of_dom_2].
  simpl. by rewrite Hh.
Qed.

Lemma m_open_spec o p path descs w s hs db w' :
  m_open o p path descs w = ((s, hs, db), w') →
  (ok s = true → is_Some db ∧ length hs = length descs) ∧ (ok s = false → db = None).
Proof.
  unfold m_open. intros H. popped. destruct (ok _) eqn:Hok; injection H as <- <- <- <-; rewrite Hok.
  - split; [|done]. intros _. split; [by eexists|]. by rewrite !length_fmap.
  - done.
Qed.

#[export] Program Instance MemDB_spec : ExternalSpec MemDB := {|
  hist := m_hist;
  live_txns := m_live;
  txn_batch := m_batch_of;
  batch_ranges := id;
  it_cf := m_cf_of;
  it_at := m_at;
  it_failed := λ _ _, False;
  clock := m_clock;
|}.
Next Obligation. done. Qed.
Next Obligation. done. Qed.
Next Obligation. intros w t w' [= <- <-]. split; [done|]. simpl. split; [done|lia]. Qed.
Next Obligation. exact m_begin_new. Qed.
Next Obligation. exact m_begin_reuse. Qed.
Next Obligation.
  intros db o w w'. simpl. unfold m_begin. intros H. popped.
  destruct (ok _); [by destruct o|]. by injection H as <-.
Qed.
Next Obligation. intros t cf k v w s w'. apply m_buffer_spec. Qed.
Next Obligation. intros t cf k w s w'. apply m_buffer_spec. Qed.
Next Obligation. intros t cf k w s w'. apply m_buffer_spec. Qed.
Next Obligation.
  intros t w s w'. simpl. unfold m_commit. intros H. popped.
  destruct (ok _) eqn:Hok; injection H as <- <-; simpl; rewrite Hok; [|done].
  split; [done|]. unfold m_batch_of. by rewrite Hb, Hh.
Qed.
Next Obligation. done. Qed.
Next Obligation. exact m_get_spec. Qed.
Next Obligation.
  intros cf b e w s wb w'. simpl. unfold m_delete_range. intros H. popped.
  by injection H as <- <- <-.
Qed.
Next Obligation.
  intros db skip wb w s w' (Hl & Hno & Hyes)%m_write_spec. split_and!; [done..|].
  intros Hok cf b e Hwb cf' k. simpl in *. unfold id in *. rewrite (Hyes Hok), Hwb. simpl.
  apply m_apply_range_spec.
Qed.
Next Obligation. exact m_new_iter_some. Qed.
Next Obligation.
  intros db cf w w'. simpl. unfold m_new_iter. intros H. popped.
  destruct (ok _); [done|]. by injection H as <-.
Qed.
Next Obligation.
  intros it w. split; [done|]. intros _. pose proof (m_seek_first it w) as H. simpl.
  destruct (m_at _ it); [done|by right].
Qed.
Next Obligation.
  intros it w. split; [done|]. intros _. pose proof (m_seek_last it w) as H. simpl.
  destruct (m_at _ it); [done|by right].
Qed.
Next Obligation. by intros it w b w' [= <- <-]. Qed.
Next Obligation. intros it w k w' [= <- <-]. split; [done|]. by intros k0 ->. Qed.
Next Obligation. done. Qed.
Next Obligation. by intros db b w s w' [= <- <-]. Qed.
Next Obligation. by intros db b w s w' [= <- <-]. Qed.
Next Obligation. intros db cf w s w' (? & ? & _)%pop_keeps. done. Qed.
Next Obligation. exact m_create_cf_spec. Qed.
Next Obligation. exact m_open_spec. Qed.
