(* ===== verification/StoreProps.v ===== *)
(** Properties of the store's calls that go beyond one call on an open store: sequences of
    calls, reading back what was written, arguments and states that are refused, the rhythm
    of syncs, ranges and the ends of the key space. *)
From S2P Require Import Prelude Slice RocksStatus StatusCode RocksDB KindImpl StoreImpl.
From S2P Require Import StoreLemmas StoreSpec.

Local Open Scope Z_scope.

Section Calls.
Context `{ES : ExternalSpec}.
Implicit Types (p : proc).

(** ** Sequences of calls *)

(** Each call names the kind it works on; the statuses come back in order. *)
Fixpoint run_calls (st : status_ptr) (l : list (ptr * call)) :
    M proc (list (status_ptr * option Z * option ptr)) :=
  match l with
  | [] => mret []
  | (r, c) :: l' => out ← run_call st r c; outs ← run_calls st l'; mret (out :: outs)
  end.

(** What the caller gets for the answer [a] of a call, and the arrays of [char] before and
    after it: no length and no pointer from a call
    that returns no value; else the length of the value and an array that was not there, with
    the value in it, or the length 0 and a null pointer. *)
Definition hands (c : call) (m m' : gmap ptr (list byte)) (a : option (list byte)) (n : option Z)
    (res : option ptr) : Prop :=
  match c with
  | CPut _ _ | CRemove _ | CSingleRemove _ => n = None ∧ res = None ∧ m' = m
  | CPutIfAbsent _ _ => n = None ∧ res = None ∧ m ⊆ m'
  | _ => let v := default [] a in n = Some (len v) ∧
      match v with
      | [] => res = None ∧ m' = m
      | _ => ∃ l, res = Some l ∧ m !! l = None ∧ m' = <[l := v]> m
      end
  end.

(** The abstract store doing the calls one after the other: each answer of a call is the code,
    the length and the pointer that the caller is given. *)
Inductive trace (st : status_ptr) : history → gmap ptr (list byte) →
    list (ptr * call) →
    list (status_ptr * option Z * option ptr) → history →
    gmap ptr (list byte) → Prop :=
  | trace_nil h m : trace st h m [] [] h m
  | trace_cons h1 h2 h3 m1 m2 m3 cf c l code a n res outs :
      spec cf h1 c (code, a) h2 → hands c m1 m2 a n res → trace st h2 m2 l outs h3 m3 →
      trace st h1 m1 ((cf, c) :: l) ((assign code st, n, res) :: outs) h3 m3.

Lemma returned_hands c p p' a n res :
  returned c p p' a n res → hands c (chars p) (chars p') a n res.
Proof. destruct c; simpl; try done; intros (m & -> & [-> Hv]); by split. Qed.

Lemma hands_grow c m m' a n res : hands c m m' a n res → m ⊆ m'.
Proof.
  destruct c; simpl; try (by intros (_ & _ & ->)); try (by intros (_ & _ & ?));
    intros [_ H]; destruct (default [] a) as [|b v]; try (by destruct H as [_ ->]);
    destruct H as (l & _ & Hl & ->); by apply insert_subseteq.
Qed.

Lemma hands_fresh c m m' a n l :
  hands c m m' a n (Some l) → m !! l = None ∧ m' !! l = Some (default [] a).
Proof.
  destruct c; simpl; try (by intros (_ & [=] & _)); intros [_ H];
    (destruct (default [] a) as [|b v]; [by destruct H|]);
    destruct H as (l' & [= <-] & Hl & ->); by rewrite lookup_insert_eq.
Qed.

Lemma trace_grow st h m l outs h' m' : trace st h m l outs h' m' → m ⊆ m'.
Proof. induction 1; [done|]. etrans; [by eapply hands_grow|done]. Qed.

(** The arrays handed out are all new and all different. *)
Lemma trace_fresh st h m l outs h' m' :
  trace st h m l outs h' m' →
  NoDup (omap snd outs) ∧ ∀ a, a ∈ omap snd outs → m !! a = None ∧ is_Some (m' !! a).
Proof.
  induction 1 as [|h1 h2 h3 m1 m2 m3 cf c l code a n res outs Hs Hh Ht [IHn IHf]].
  - simpl. split; [constructor|]. intros a Ha. by apply not_elem_of_nil in Ha.
  - pose proof (hands_grow _ _ _ _ _ _ Hh) as Hg.
    assert (∀ x, x ∈ omap snd outs → m1 !! x = None ∧ is_Some (m3 !! x)) as Hold.
    { intros x Hx. destruct (IHf x Hx) as [H2 H3]. split; [|done]. by eapply lookup_weaken_None. }
    destruct res as [x|]; simpl; [|by split].
    destruct (hands_fresh _ _ _ _ _ _ Hh) as [Hx1 Hx2]. split.
    + constructor; [|done]. intros Hin. destruct (IHf x Hin) as [Hnone _]. congruence.
    + intros y [->|Hy]%elem_of_cons; [|by apply Hold]. split; [done|].
      eexists. eapply lookup_weaken; [exact Hx2|]. by eapply trace_grow.
Qed.

Lemma carried_kind_at p p' r cf : carried p p' → kind_at p r cf → kind_at p' r cf.
Proof. intros (_ & (_ & Hk & _) & _) [n Hn]. exists n. simpl in Hk. by rewrite Hk. Qed.

Lemma carried_open p p' : carried p p' → open (this p') = open (this p).
Proof. intros (_ & (_ & _ & r & n & t & Ht) & _). simpl in Ht. by rewrite Ht. Qed.

Lemma carried_txns p p' :
  carried p p' → core_ok p → open (this p) = true →
  live_txns (world p') = live_txns (world p) ∪ option_to_set (reusableTx_ (this p')).
Proof. by intros (_ & _ & [_ Hl] & _). Qed.

Lemma run_calls_trace p st l cfs :
  store_ok p → open (this p) = true → Forall2 (λ rc cf, kind_at p rc.1 cf) l cfs →
  wp (run_calls st l) (λ outs p',
    trace st (hist (world p)) (chars p) (zip cfs l.*2) outs (hist (world p')) (chars p') ∧
    store_ok p' ∧ open (this p') = true ∧ no_txn_leak p p') p.
Proof.
  revert p cfs. induction l as [|[r c] l IH]; intros p cfs Hs Ho Hk; inversion Hk; subst.
  - apply wp_ret. split_and!; [constructor|by apply Hs..|done|].
    apply no_txn_leak_quiet; [apply quiet_refl|done|by apply Hs].
  - cbn [run_calls]. apply wp_bind. eapply wp_mono; [by eapply run_call_refines|].
    intros [[st' n] res] p1 (Hs1 & Hc1 & code & a & Hsp & -> & Hret). apply wp_bind.
    eapply wp_mono.
    + apply IH; [done|by rewrite (carried_open p p1)|].
      eapply Forall2_impl; [done|]. intros. by eapply carried_kind_at.
    + intros outs p2 (Ht & Hs2 & Ho2 & Hl2). wp_steps. split_and!; [|by apply Hs2..|done|].
      * eapply trace_cons; [done|by apply returned_hands|done].
      * eapply no_txn_leak_trans; [apply Hc1|done].
Qed.
End Calls.

(** C2. Any sequence of calls on an open store, on any of its kinds, does what the abstract
    store may do, call by call: the status each call gives back is the code of the abstract
    answer, and its length and pointer are those of the abstract value, which is null with
    length 0 when it is empty and otherwise stands in an array that was not there before. No
    array is overwritten or lost, the arrays handed out are new and all different, and
    afterwards the store is in order, still open, and no transaction object is live but those
    that were before and the store's reusable one. *)
Theorem store_refines_trace `{ES : ExternalSpec} (p : proc) (st : status_ptr)
    (l : list (ptr * call)) (cfs : list ptr) :
  store_ok p → open (this p) = true → Forall2 (λ rc cf, kind_at p rc.1 cf) l cfs →
  wp (run_calls st l) (λ outs p',
    trace st (hist (world p)) (chars p) (zip cfs l.*2) outs (hist (world p')) (chars p') ∧
    chars p ⊆ chars p' ∧ NoDup (omap snd outs) ∧ (∀ a, a ∈ omap snd outs → chars p !! a = None) ∧
    store_ok p' ∧ open (this p') = true ∧ no_txn_leak p p') p.
Proof.
  intros Hs Ho Hk. eapply wp_mono; [by apply run_calls_trace|].
  intros outs p' (Ht & Hrest). destruct (trace_fresh _ _ _ _ _ _ _ Ht) as [Hn Hf].
  refine (conj Ht (conj _ (conj Hn (conj _ Hrest)))); [by eapply trace_grow|intros a Ha; apply (Hf a Ha)].
Qed.

Section RoundTrip.
Context `{ES : ExternalSpec}.
Implicit Types (p : proc).

(** Nothing but the call's own key changes. *)
Lemma run_call_frame p st r cf c cf' k' :
  store_ok p → open (this p) = true → kind_at p r cf → (cf, call_key c) ≠ (cf', k') →
  wp (run_call st r c)
    (λ _ p', hget (hist (world p')) cf' k' = hget (hist (world p)) cf' k') p.
Proof.
  intros Hs Ho Hk Hne. eapply wp_mono; [by eapply run_call_refines|].
  intros [[st' n] res] p1 (_ & _ & code & a & Hsp & _). by eapply spec_frame.
Qed.

(** What a [get] may say about a key whose last write is known. *)
Lemma get_resolved p y r cf k v :
  store_ok p → open (this p) = true → kind_at p r cf →
  resolve (hget (hist (world p)) cf k) = Some v →
  wp (run_call (Some y) r (CGet k)) (λ '(s, n, res) p',
    match v with
    | Some v => s = Some Status.Ok ∧ n = Some (len v) ∧
        (v = [] → res = None) ∧ (v ≠ [] → ∃ l, res = Some l ∧ chars p' !! l = Some v)
    | None => s = Some Status.NotFound ∧ n = Some 0 ∧ res = None
    end ∨ ∃ c, s = Some c ∧ c ≠ Status.Ok ∧ c ≠ Status.NotFound) p.
Proof.
  intros Hs Ho Hk Hv. eapply wp_mono; [by eapply run_call_refines|].
  intros [[s n] res] p' (_ & _ & code & a & Hsp & -> & (m & -> & Hlen & Hg)).
  inversion Hsp as [| | |k0 code0 a0 Hrd| | | | | |]; subst. clear Hsp.
  inversion Hrd as [v0 Hr|c Hc Hr]; subst; clear Hrd; simpl.
  - left. specialize (Hr v Hv) as ->. rewrite answer_default in *.
    split_and!; [done|done|intros ->; apply Hg|]. intros Hne. destruct v0 as [|b v0]; [done|].
    destruct Hg as (l & -> & _ & ->). exists l. by rewrite lookup_insert_eq.
  - destruct (decide (code = Status.NotFound)) as [->|Hne].
    2: { right. exists code. split_and!; [done|by apply positive_not_ok|done]. }
    left. specialize (Hr eq_refl v Hv) as ->. destruct Hg as [-> _]. done.
Qed.
End RoundTrip.

(** C10. Reading back: when [put] reports [Ok], a following [get] of the key returns exactly
    that value (a null pointer and length 0 when it is empty) or reports an error of its own,
    never [NotFound]; when [remove] reports [Ok], the [get] finds nothing. *)
Theorem write_then_get `{ES : ExternalSpec} (p : proc) (x y : Z) (r cf : ptr)
    (k v : list byte) (c : call) :
  store_ok p → open (this p) = true → kind_at p r cf → c = CPut k v ∨ c = CRemove k →
  wp (out ← run_call (Some x) r c; out' ← run_call (Some y) r (CGet k); mret (out, out'))
    (λ '((s1, _, _), (s2, n, res)) p', s1 = Some Status.Ok →
      match c with
      | CPut _ _ => s2 = Some Status.Ok ∧ n = Some (len v) ∧
          (v = [] → res = None) ∧ (v ≠ [] → ∃ l, res = Some l ∧ chars p' !! l = Some v)
      | _ => s2 = Some Status.NotFound ∧ n = Some 0 ∧ res = None
      end ∨ ∃ e, s2 = Some e ∧ e ≠ Status.Ok ∧ e ≠ Status.NotFound) p.
Proof.
  intros Hs Ho Hk Hc. apply wp_bind. eapply wp_mono; [by eapply run_call_refines|].
  intros [[s1 n1] res1] p1 (Hs1 & Hc1 & code & a & Hsp & -> & _).
  assert (open (this p1) = true) as Ho1 by by rewrite (carried_open p p1).
  assert (kind_at p1 r cf) as Hk1 by by eapply carried_kind_at.
  destruct (decide (code = Status.Ok)) as [->|Hne].
  - assert (resolve (hget (hist (world p1)) cf k)
            = Some (match c with CPut _ _ => Some v | _ => None end)) as Hr.
    { destruct Hc as [-> | ->]; inversion Hsp as [? ? ? ? Hw|? ? ? Hw| | | | | | | |]; subst;
        inversion Hw; subst; try done; by rewrite hget_hpush_eq. }
    apply wp_bind. eapply wp_mono; [by eapply get_resolved|].
    intros [[s2 n] res] p2 H. wp_steps. intros _. by destruct Hc as [-> | ->].
  - apply wp_bind. eapply wp_mono; [by eapply run_call_refines|].
    intros [[s2 n] res] p2 _. wp_steps. simpl. intros [=]. by rewrite H0 in Hne.
Qed.

(** ** Refused calls *)

Section Refused.
Context `{E : External}.
Implicit Types (p : proc).

Lemma bad_argument_true null r o p :
  kindobjs p !! r = Some o → null = true ∨ kind_isValid o = false →
  bad_argument null r p = Done (true, p).
Proof.
  intros Hr. unfold bad_argument. destruct null; [done|]. intros [?|Hv]; [done|].
  unfold deref_kind, mbind, M_bind. by rewrite Hr, Hv.
Qed.

Lemma refuse {A} null r o (bad : A) (m : M proc A) p :
  kindobjs p !! r = Some o → null = true ∨ kind_isValid o = false →
  (b ← bad_argument null r; if (b : bool) then mret bad else m) p = Done (bad, p).
Proof. intros Hr Hb. by rewrite (bind_done _ _ p true p) by by eapply bad_argument_true. Qed.

(** [findMinKey], [findMaxKey] and [compact] refuse an invalid kind and a kind of another
    class before anything else; they do not look at the length. *)
Lemma find_key_refused seek st r o rl p :
  kindobjs p !! r = Some o → kind_isValid o = false ∨ (∀ k, o ≠ AKindImpl k) →
  find_key seek st r rl p = Done (assign Status.InvalidArgument st, rl, None, p).
Proof.
  intros Hr Hv. unfold find_key, toKindImpl, deref_kind, mbind, M_bind. rewrite Hr.
  destruct (kind_isValid o) eqn:Ev; simpl; [|done]. destruct o as [k|n v]; [naive_solver|].
  by rewrite Hr.
Qed.

Lemma compact_refused st r o p :
  kindobjs p !! r = Some o → kind_isValid o = false ∨ (∀ k, o ≠ AKindImpl k) →
  compact st r p = Done (assign Status.InvalidArgument st, p).
Proof.
  intros Hr Hv. unfold compact, toKindImpl, deref_kind, mbind, M_bind. rewrite Hr.
  destruct (kind_isValid o) eqn:Ev; simpl; [|done]. destruct o as [k|n v]; [naive_solver|].
  by rewrite Hr.
Qed.

Lemma find_key_null_length seek st r k p :
  kindobjs p !! r = Some (AKindImpl k) → kind_isValid (AKindImpl k) = true →
  find_key seek st r None p = Undef NullDeref.
Proof.
  intros Hr Hv. unfold find_key, toKindImpl, deref_kind, mbind, M_bind. rewrite Hr, Hv. simpl.
  by rewrite Hr.
Qed.

(** On a closed store the calls that take the lock only record the code. *)
Lemma closed_body {A} st (body : status_ptr → M proc A) (closed : status_ptr → A) p :
  monitor (this p) = false → open (this p) = false →
  synchronize (
    '(b, status) ← validateOpen st;
    if (b : bool) then body status else mret (closed status)) p =
  Done (closed (assign Status.Closed st), with_this (set_code Status.Closed) p).
Proof.
  intros Hm Ho.
  unfold synchronize, validateOpen, isOpen, gets, modify, mbind, M_bind, mret, M_ret.
  simpl. rewrite Hm. simpl. rewrite Ho. simpl. f_equal. f_equal.
  unfold with_this. simpl. f_equal. unfold set_monitor, set_code. simpl. by rewrite Hm.
Qed.

(** On a closed store the checked part of a call only records the code. *)
Lemma closed_call {A} null r o st (bad : A) (body : status_ptr → M proc A)
    (closed : status_ptr → A) p :
  kindobjs p !! r = Some o → null = false → kind_isValid o = true →
  monitor (this p) = false → open (this p) = false →
  (b ← bad_argument null r;
   if (b : bool) then mret bad
   else synchronize (
     '(b, status) ← validateOpen st;
     if (b : bool) then body status else mret (closed status))) p =
  Done (closed (assign Status.Closed st), with_this (set_code Status.Closed) p).
Proof.
  intros Hr -> Hv Hm Ho.
  rewrite (bind_done _ _ p false p)
    by by unfold bad_argument, deref_kind, mbind, M_bind; rewrite Hr, Hv.
  by apply closed_body.
Qed.

Lemma closed_find_key seek st r k l p :
  kindobjs p !! r = Some (AKindImpl k) → kind_isValid (AKindImpl k) = true →
  monitor (this p) = false → open (this p) = false →
  find_key seek st r (Some l) p =
  Done (assign Status.Closed st, Some 0, None, with_this (set_code Status.Closed) p).
Proof.
  intros Hr Hv Hm Ho. unfold find_key.
  rewrite (bind_done _ _ p (AKindImpl k) p) by by unfold deref_kind; rewrite Hr.
  rewrite Hv. cbn [negb].
  rewrite (bind_done _ _ p (Some k, st) p)
    by by unfold toKindImpl, deref_kind, mbind, M_bind; rewrite Hr.
  cbn iota. rewrite (bind_done _ _ p l p) by done.
  rewrite (closed_body st _ (λ s, (assign Status.Closed s, Some 0, None))) by done.
  by rewrite assign_assign.
Qed.

Lemma closed_compact st r k p :
  kindobjs p !! r = Some (AKindImpl k) → kind_isValid (AKindImpl k) = true →
  monitor (this p) = false → open (this p) = false →
  compact st r p = Done (assign Status.Closed st, with_this (set_code Status.Closed) p).
Proof.
  intros Hr Hv Hm Ho. unfold compact.
  rewrite (bind_done _ _ p (AKindImpl k) p) by by unfold deref_kind; rewrite Hr.
  rewrite Hv. cbn [negb].
  rewrite (bind_done _ _ p (Some k, st) p)
    by by unfold toKindImpl, deref_kind, mbind, M_bind; rewrite Hr.
  cbn iota. rewrite (closed_body st _ (assign Status.Closed)) by done. by rewrite assign_assign.
Qed.

Lemma closed_compactAll st p :
  monitor (this p) = false → open (this p) = false →
  compactAll st p = Done (assign Status.Closed st, with_this (set_code Status.Closed) p).
Proof.
  intros Hm Ho. unfold compactAll. rewrite (closed_body st _ (assign Status.Closed)) by done.
  by rewrite assign_assign.
Qed.
End Refused.

(** C15. Arguments are checked before anything is touched: with a null key, an invalid kind or,
    for the four calls that return the value of a key, a null length, the calls that write or
    read a key and [removeRange] report [InvalidArgument], return a null pointer, leave the
    length as it was and the process exactly as it was, lock and open flag included.
    [findMinKey], [findMaxKey] and [compact] take no key and look at the kind only: they answer
    so for an invalid kind and for a valid kind of another class; on a valid kind of this
    library's class the first two follow a null length. *)
Theorem bad_arguments_are_refused `{E : External} (p : proc) (st : status_ptr) (r : ptr)
    (o : Kind) (key value : char_ptr) (n m : Z) (rl : option Z) (key2 : char_ptr) :
  kindobjs p !! r = Some o →
  let bad := assign Status.InvalidArgument st in
  (key = None ∨ kind_isValid o = false →
   put st r key n value m p = Done (bad, p) ∧ remove st r key n p = Done (bad, p) ∧
   singleRemove st r key n p = Done (bad, p) ∧
   putIfAbsent st r key n value m p = Done (bad, p)) ∧
  (key = None ∨ rl = None ∨ kind_isValid o = false →
   get st r rl key n p = Done (bad, rl, None, p) ∧
   updateIfPresent st r rl key n value m p = Done (bad, rl, None, p) ∧
   removeIfPresent st r rl key n p = Done (bad, rl, None, p) ∧
   singleRemoveIfPresent st r rl key n p = Done (bad, rl, None, p)) ∧
  (key = None ∨ key2 = None ∨ kind_isValid o = false →
   removeRange st r key n key2 m p = Done (bad, p)) ∧
  (kind_isValid o = false ∨ (∀ k, o ≠ AKindImpl k) →
   findMinKey st r rl p = Done (bad, rl, None, p) ∧
   findMaxKey st r rl p = Done (bad, rl, None, p) ∧ compact st r p = Done (bad, p)) ∧
  (∀ k, o = AKindImpl k → kind_isValid o = true →
   findMinKey st r None p = Undef NullDeref ∧ findMaxKey st r None p = Undef NullDeref).
Proof.
  intros Hr bad. split_and!.
  - intros Hb. assert (is_null key = true ∨ kind_isValid o = false) as Hb' by naive_solver.
    split_and!; by eapply refuse.
  - intros Hb. assert (is_null key || is_null rl = true ∨ kind_isValid o = false) as Hb'.
    { rewrite orb_true_iff. naive_solver. }
    split_and!; by eapply (refuse _ _ _ (bad, rl, None)).
  - intros Hb. assert (is_null key || is_null key2 = true ∨ kind_isValid o = false) as Hb'.
    { rewrite orb_true_iff. naive_solver. }
    by eapply refuse.
  - intros Hv. split_and!; [by eapply find_key_refused..|by eapply compact_refused].
  - intros k -> Hv. by split; eapply find_key_null_length.
Qed.

(** C16. On a closed store every call on a live, valid kind, with a key and, where it takes
    one, a cell for the length, reports [Closed], returns a null pointer with length 0, calls
    nothing of RocksDB and changes nothing but the store's own code; so does [compactAll], and
    so do [findMinKey], [findMaxKey] and [compact] on a kind of this library's class. A kind of
    another class those three refuse with [InvalidArgument] before they look at the open flag,
    and they change nothing then. *)
Theorem closed_store_answers_Closed `{E : External} (p : proc) (st : status_ptr) (r : ptr)
    (o : Kind) (k value : list byte) (n m : Z) (value' : char_ptr) (l : Z) :
  kindobjs p !! r = Some o → kind_isValid o = true →
  monitor (this p) = false → open (this p) = false →
  let c := assign Status.Closed st in let p' := with_this (set_code Status.Closed) p in
  put st r (Some k) n value' m p = Done (c, p') ∧ remove st r (Some k) n p = Done (c, p') ∧
  singleRemove st r (Some k) n p = Done (c, p') ∧
  putIfAbsent st r (Some k) n value' m p = Done (c, p') ∧
  removeRange st r (Some k) n (Some value) m p = Done (c, p') ∧
  get st r (Some l) (Some k) n p = Done (c, Some 0, None, p') ∧
  updateIfPresent st r (Some l) (Some k) n value' m p = Done (c, Some 0, None, p') ∧
  removeIfPresent st r (Some l) (Some k) n p = Done (c, Some 0, None, p') ∧
  singleRemoveIfPresent st r (Some l) (Some k) n p = Done (c, Some 0, None, p') ∧
  compactAll st p = Done (c, p') ∧
  (∀ i, o = AKindImpl i →
   findMinKey st r (Some l) p = Done (c, Some 0, None, p') ∧
   findMaxKey st r (Some l) p = Done (c, Some 0, None, p') ∧ compact st r p = Done (c, p')) ∧
  (∀ name v, o = OtherKind name v → let bad := assign Status.InvalidArgument st in
   findMinKey st r (Some l) p = Done (bad, Some l, None, p) ∧
   findMaxKey st r (Some l) p = Done (bad, Some l, None, p) ∧ compact st r p = Done (bad, p)).
Proof.
  intros Hr Hv Hm Ho c p'.
  assert (c = assign Status.Closed (assign Status.Closed st)) as Hc by by rewrite assign_assign.
  split_and!; [rewrite Hc.. |by apply closed_compactAll| |]; first
    [ by apply (closed_call _ r o st _ _ (λ s, assign Status.Closed s))
    | by apply (closed_call _ r o st _ _ (λ s, (assign Status.Closed s, Some 0, None)))
    | intros i ->; split_and!; [by eapply closed_find_key..|by eapply closed_compact]
    | intros name v -> bad; split_and!;
      [by eapply find_key_refused; eauto..|by eapply compact_refused; eauto] ].
Qed.
