(* ===== verification/StoreMaintenance.v ===== *)
(** Calls on an open store that are not reads or writes of one key: range deletion, the ends
    of the key space, the rhythm of WAL syncs, and compaction of every kind. *)
From S2P Require Import Prelude Slice RocksStatus StatusCode RocksDB KindImpl StoreImpl.
From S2P Require Import StoreLemmas StoreSpec StoreProps.

Local Open Scope Z_scope.

(** C13. The rhythm of syncs: counting a commit syncs the write-ahead log exactly when 985 ms
    or more have passed since the last sync or the commit is the 16384th since; the counter is
    then 0 and the time of the last sync is now.  Otherwise the counter grows by one, stays
    below 16384 and RocksDB is not called. *)
Theorem occasionalWalSync_rhythm `{E : External} (p : proc) (d : ptr) (now : Z) (w : World) :
  open (this p) = true → txnDb (this p) = Some d →
  0 <= totalSinceLastSync (this p) < 16384 → steady_clock_now (world p) = (now, w) →
  occasionalWalSync p =
    if bool_decide (985 <= Z.quot (now - lastSync (this p)) 1000000)
       || bool_decide (totalSinceLastSync (this p) + 1 = 16384)
    then
      let '(_, w2) := FlushWAL d true w in
      let '(now2, w3) := steady_clock_now w2 in
      Done (tt, with_this (set_sync 0 now2) (with_world w3 p))
    else Done (tt, with_this (set_sync (totalSinceLastSync (this p) + 1) (lastSync (this p)))
                     (with_world w p)).
Proof.
  intros Ho Hd Hc Hnow.
  unfold occasionalWalSync, since, syncAndReset, syncWALNoLock, isOpen, get_txnDb, ext,
    modify, gets, mbind, M_bind, mret, M_ret.
  assert (u64 (totalSinceLastSync (this p) + 1) = totalSinceLastSync (this p) + 1) as Hu
    by (apply u64_small; lia).
  cbn. rewrite Hnow. cbn. rewrite Hu, land_batch.
  assert (bool_decide ((totalSinceLastSync (this p) + 1) mod 16384 = 0)
          = bool_decide (totalSinceLastSync (this p) + 1 = 16384)) as Hb.
  { apply bool_decide_ext. split; [|by intros ->]. intros Hm.
    destruct (decide (totalSinceLastSync (this p) + 1 = 16384)); [done|].
    rewrite Z.mod_small in Hm; lia. }
  rewrite Hb. unfold FLUSH_TIME_WINDOW_MILLIS.
  destruct (_ || _); [|unfold with_this, set_sync; cbn; by rewrite Hu].
  cbn. rewrite Ho. cbn. rewrite Hd. cbn.
  destruct (FlushWAL d true w) as [s w2]. cbn.
  by destruct (steady_clock_now w2) as [now2 w3].
Qed.

Section Open.
Context `{ES : ExternalSpec}.
Implicit Types (p : proc).

(** A call that only moves the world, seen from outside the lock. *)
Lemma world_only_unlock p w :
  store_ok p → open (this p) = true → live_txns w = live_txns (world p) →
  store_ok (unlock (with_world w (lock p))) ∧ unlock (with_world w (lock p)) = with_world w p.
Proof.
  intros [Hm Hc] Ho Hl.
  assert (unlock (with_world w (lock p)) = with_world w p) as Heq.
  { unfold unlock, lock, with_this, with_world. simpl. f_equal. rewrite <- Hm at 1.
    by destruct (this p). }
  rewrite Heq. split; [|done]. split; [done|]. pose proof Hc as (H1 & H2 & H3 & H4 & H5).
  refine (conj H1 (conj H2 (conj H3 (conj H4 _)))).
  intros _ t Et. simpl. rewrite Hl. by apply H5.
Qed.

(** The range [b, e) of a family, as [removeRange] leaves it. *)
Definition range_removed (h h' : history) (cf : ptr) (b e : list byte) : Prop :=
  ∀ cf' k, if decide (cf' = cf ∧ lex b k ≠ Gt ∧ lex k e = Lt)
           then resolve (hget h' cf' k) = Some None
           else hget h' cf' k = hget h cf' k.
End Open.

(** C9. [removeRange] reports [Ok] only when every key from the first (inclusive) to the last
    (exclusive) is gone from the kind and every other key of every kind is as it was; any
    other report means that nothing was removed. *)
Theorem removeRange_removes_the_range `{ES : ExternalSpec} (p : proc) (st : status_ptr)
    (r cf : ptr) (b e : list byte) :
  store_ok p → open (this p) = true → kind_at p r cf →
  wp (removeRange st r (Some b) (len b) (Some e) (len e)) (λ st' p',
    (∃ w, p' = with_world w p) ∧ store_ok p' ∧
    ∃ c, st' = assign c st ∧
      (c = Status.Ok → range_removed (hist (world p)) (hist (world p')) cf b e) ∧
      (c ≠ Status.Ok → hist (world p') = hist (world p))) p.
Proof.
  intros Hs Ho Hk. pose proof Hk as [n Hr].
  destruct (proj1 (proj2 Hs) Ho) as [d Hd].
  eapply (wp_public _ r _ st); [exact Hr|done|done|done|]. wp_steps.
  eapply wp_toKindImpl; [exact Hr|]. wp_steps. eapply wp_deref; [done|]. wp_steps.
  eapply wp_lift_outcome; [apply (denotes_all b)|]. wp_steps.
  eapply wp_lift_outcome; [apply (denotes_all e)|]. wp_steps.
  apply wp_ext. intros [s wb] w Hrange. apply range_spec in Hrange as [[Hh Hl] Hok].
  simpl in Hh, Hl.
  assert (∀ c st'' w', st'' = assign c st → live_txns w' = live_txns (world p) →
    (c = Status.Ok → range_removed (hist (world p)) (hist w') cf b e) →
    (c ≠ Status.Ok → hist w' = hist (world p)) →
    (∃ w, unlock (with_world w' (lock p)) = with_world w p) ∧
    store_ok (unlock (with_world w' (lock p))) ∧
    ∃ c', st'' = assign c' st ∧
      (c' = Status.Ok → range_removed (hist (world p)) (hist w') cf b e) ∧
      (c' ≠ Status.Ok → hist w' = hist (world p))) as Hfin.
  { intros c st'' w' -> Hl' H1 H2. destruct (world_only_unlock p w' Hs Ho Hl') as [Hs' Heq].
    split; [by exists w'|]. split; [done|]. by exists c. }
  destruct (ok s) eqn:Es.
  - wp_steps. eapply wp_get_txnDb; [exact Hd|]. wp_steps. apply wp_ext.
    intros s' w' Hw. apply write_spec in Hw as (Hl' & Hno & Hyes). simpl in Hl', Hno, Hyes.
    destruct (ok s') eqn:Es'; simpl negb; cbn iota; wp_steps.
    + apply (Hfin Status.Ok _ w'); [done|congruence| |done]. intros _ cf' k.
      specialize (Hyes eq_refl cf b e (Hok eq_refl) cf' k). by rewrite Hh in Hyes.
    + apply (Hfin (report_code s') _ w'); [apply assign_assign|congruence| |].
      * by intros ?%report_code_not_ok.
      * intros _. by rewrite Hno.
  - wp_steps. apply (Hfin (report_code s) _ w); [apply assign_assign|congruence| |done].
    by intros ?%report_code_not_ok.
Qed.

Section Ends.
Context `{ES : ExternalSpec}.
Implicit Types (p : proc).

(** What a search for an end of the key space answered: [found] is the key, and when there is
    none the iterator made for the search had failed or the kind holds no key. *)
Definition end_found (seek : ptr → World → World) (is_end : history → ptr → list byte → Prop)
    p (d cf : ptr) (found : option (list byte)) : Prop :=
  ∃ it w, NewIterator d cf (world p) = (Some it, w) ∧
  (resolved (hist (world p)) cf →
   match found with
   | Some k => is_end (hist (world p)) cf k
   | None => it_failed (seek it w) it ∨ ∀ k, ¬ visible (hist (world p)) cf k
   end).

(** The law of a seek, as [ExternalSpec] states it for both ends. *)
Definition seeks (seek : ptr → World → World) (is_end : history → ptr → list byte → Prop) : Prop :=
  ∀ it w, quiet w (seek it w) ∧
  (resolved (hist w) (it_cf w it) →
   match it_at (seek it w) it with
   | Some k => is_end (hist w) (it_cf w it) k
   | None => it_failed (seek it w) it ∨ ∀ k, ¬ visible (hist w) (it_cf w it) k
   end).

Definition find_post (seek : ptr → World → World)
    (is_end : history → ptr → list byte → Prop) p (d cf : ptr) (st : status_ptr)
    (out : status_ptr * option Z * option ptr) p' : Prop :=
  let '(st', n, res) := out in
  store_ok p' ∧ read_only p p' ∧
  (((∃ w, NewIterator d cf (world p) = (None, w)) ∧
    st' = assign Status.NoIterator st ∧ n = Some 0 ∧ res = None ∧ chars p' = chars p) ∨
   (st' = assign Status.Ok st ∧ ∃ found m,
      n = Some m ∧ gave p p' found m res ∧ end_found seek is_end p d cf found)).

(** The key is copied out, null when it is empty. *)
Lemma copy_out_spec kb Q p :
  (∀ ch n res, gave p (with_chars ch p) (Some kb) n res → Q (n, res) (with_chars ch p)) →
  wp (if negb (empty (Slice_of_string kb)) then
        bs ← lift_outcome (read_mem (data (Slice_of_string kb)) (size (Slice_of_string kb)));
        l ← new_chars bs;
        mret (size (Slice_of_string kb), Some l)
      else mret (0, None)) Q p.
Proof.
  intros HQ. destruct kb as [|b kb].
  - apply wp_ret. replace p with (with_chars (chars p) p) by (by destruct p).
    apply HQ. by split.
  - unfold empty, size, data. simpl length. rewrite bool_decide_false by (simpl; lia).
    simpl negb. cbn iota. wp_steps. apply wp_read_mem; [simpl; lia|]. wp_steps.
    apply wp_new_chars. intros l Hl. wp_steps.
    unfold Slice_of_string. cbn [size_].
    rewrite (Nat2Z.id (length (b :: kb))), firstn_all. apply HQ.
    split; [done|]. by exists l.
Qed.

Lemma quiet_store_ok p w ch :
  store_ok p → open (this p) = true → quiet (world p) w →
  store_ok (unlock (with_chars ch (with_world w (lock p)))).
Proof.
  intros Hs Ho [_ Hl]. destruct (world_only_unlock p w Hs Ho Hl) as [H _].
  destruct Hs as [_ (H1 & H2 & H3 & H4 & H5)]. exact H.
Qed.

Lemma unlock_read_only p w ch :
  store_ok p → quiet (world p) w → read_only p (unlock (with_chars ch (with_world w (lock p)))).
Proof.
  intros [Hm _] Hq. split; [exact Hq|].
  unfold unlock, lock, with_this, with_world, with_chars. simpl. f_equal.
  rewrite <- Hm at 1. by destruct (this p).
Qed.

Lemma find_key_spec seek is_end p st r cf d l :
  seeks seek is_end → store_ok p → open (this p) = true → kind_at p r cf →
  txnDb (this p) = Some d →
  wp (find_key seek st r (Some l)) (find_post seek is_end p d cf st) p.
Proof.
  intros Hseek Hs Ho [n Hr] Hd. unfold find_key. wp_steps.
  eapply wp_deref_kind; [exact Hr|]. simpl negb. cbn iota. wp_steps.
  eapply wp_toKindImpl; [exact Hr|]. wp_steps.
  apply wp_synchronize; [apply Hs|]. wp_steps. apply wp_validateOpen_open; [exact Ho|]. wp_steps.
  eapply wp_get_txnDb; [exact Hd|]. wp_steps. eapply wp_deref; [done|]. wp_steps.
  apply wp_ext. intros it w Hit. destruct it as [it|].
  2: { pose proof Hit as Hnone. apply new_iterator_none in Hit. wp_steps.
    split; [by apply (quiet_store_ok p w (chars p))|].
    split; [by apply (unlock_read_only p w (chars p))|].
    left. split; [by exists w|]. by rewrite assign_assign. }
  pose proof Hit as [Hq1 Hcf]%new_iterator_some. simpl in Hq1. wp_steps.
  apply wp_ext_. destruct (Hseek it w) as [Hq2 Hend]. wp_steps. apply wp_ext.
  intros b w2 (Hq3 & Hat & ->)%valid_spec. simpl in *. wp_steps.
  assert (∀ found m res ch w3, quiet (world p) w3 →
    gave p (with_chars ch p) found m res → end_found seek is_end p d cf found →
    find_post seek is_end p d cf st (assign Status.Ok st, Some m, res)
      (with_this (set_monitor false) (with_chars ch (with_world w3 (lock p))))) as Hfin.
  { intros found m res ch w3 Hq Hg He.
    split; [by apply quiet_store_ok|]. split; [by apply unlock_read_only|]. right. split; [done|].
    by exists found, m. }
  assert (quiet (world p) w2) as Hq12 by eauto using quiet_trans.
  rewrite Hcf in Hend. destruct Hq1 as [Hh1 Hl1]. rewrite Hh1 in Hend.
  destruct (it_at (seek it w) it) as [k0|] eqn:Ek.
  - rewrite bool_decide_true by by eexists. wp_steps. apply wp_ext.
    intros kb w3 [Hq4 Hkb]%key_spec. simpl in *. specialize (Hkb k0 Hat) as ->. wp_steps.
    apply copy_out_spec. intros ch m res Hg. wp_steps. apply wp_ext_. wp_steps.
    apply (Hfin (Some k0)); [|exact Hg|by exists it, w].
    eapply quiet_trans; [|apply delete_iterator_spec]. eauto using quiet_trans.
  - rewrite bool_decide_false by (intros [? ?]; done). wp_steps. apply wp_ext_. wp_steps.
    apply (Hfin None _ _ (chars p)); [|by split|by exists it, w].
    eapply quiet_trans; [|apply delete_iterator_spec]. eauto using quiet_trans.
Qed.
End Ends.

(** C29. [findMinKey] ([findMaxKey]) on an open store reports [Ok] and answers with the least
    (greatest) key of the kind in byte order, copied into a fresh array, wherever the write
    histories determine which keys are there: a null pointer means that the kind is empty, that
    its least (greatest) key is the empty one, or that RocksDB's iterator failed, which the
    report does not tell apart. When RocksDB makes no iterator it reports [NoIterator], with a
    null pointer and the length 0. Nothing stored changes, and the store is left in order. *)
Theorem find_key_finds_the_end `{ES : ExternalSpec} (p : proc) (st : status_ptr) (r cf d : ptr)
    (l : Z) :
  store_ok p → open (this p) = true → kind_at p r cf → txnDb (this p) = Some d →
  wp (findMinKey st r (Some l)) (find_post SeekToFirst least_key p d cf st) p ∧
  wp (findMaxKey st r (Some l)) (find_post SeekToLast greatest_key p d cf st) p.
Proof.
  intros Hs Ho Hk Hd. split; apply find_key_spec; try done; intros it w.
  - apply seek_first_spec.
  - apply seek_last_spec.
Qed.

Section Compaction.
Context `{ES : ExternalSpec}.
Implicit Types (p : proc).

(** The kinds of [l] compacted one after the other, all with success. *)
Inductive compacted (d : ptr) p : list (string * ptr) → World → World → Prop :=
  | compacted_nil w : compacted d p [] w w
  | compacted_cons n r cf l s w1 w2 w3 :
      kind_at p r cf → CompactRange d cf w1 = (s, w2) → ok s = true →
      compacted d p l w2 w3 → compacted d p ((n, r) :: l) w1 w3.

(** How a run over [l] ended: all compacted, or stopped at the first failure. *)
Definition compaction_end (d : ptr) p (l : list (string * ptr)) (st st' : status_ptr)
    (w w' : World) : Prop :=
  ∃ l1 l2 w1, l = l1 ++ l2 ∧ compacted d p l1 w w1 ∧
    ((l2 = [] ∧ st' = st ∧ w' = w1) ∨
     ∃ n r cf s l3, l2 = (n, r) :: l3 ∧ kind_at p r cf ∧ CompactRange d cf w1 = (s, w') ∧
       ok s = false ∧ st' = assign (report_code s) st).

Lemma compact_loop_spec d p0 l st p :
  txnDb (this p) = Some d → kindobjs p = kindobjs p0 → Forall (λ nr, ∃ cf, kind_at p0 nr.2 cf) l →
  wp (compact_loop st l) (λ st' p', p' = with_world (world p') p ∧
    quiet (world p) (world p') ∧ compaction_end d p0 l st st' (world p) (world p')) p.
Proof.
  revert st p. induction l as [|[n r] l IH]; intros st p Hd Hko Hl; cbn [compact_loop].
  - apply wp_ret. split; [by destruct p|]. split; [apply quiet_refl|].
    exists [], [], (world p). split_and!; [done|constructor|by left].
  - inversion_clear Hl as [|? ? [cf [m Hr]] Hl']. simpl in Hr.
    unfold compactKind. wp_steps. eapply wp_deref_kind; [by rewrite Hko|]. cbn beta iota.
    wp_steps. eapply wp_get_txnDb; [exact Hd|]. wp_steps.
    eapply wp_deref; [done|]. wp_steps. apply wp_ext. intros s w Hcr.
    pose proof (compact_spec _ _ _ _ _ Hcr) as Hq. destruct (ok s) eqn:Es; wp_steps.
    + eapply wp_mono; [by apply IH|]. intros st' p' (Hp & Hq' & l1 & l2 & w1 & -> & Hc & Hend).
      split; [by rewrite Hp|]. split; [by eapply quiet_trans|].
      exists ((n, r) :: l1), l2, w1. split; [done|]. split; [|exact Hend].
      eapply (compacted_cons d p0 n r cf); [by exists m|exact Hcr|exact Es|exact Hc].
    + split; [done|]. split; [done|]. exists [], ((n, r) :: l), (world p).
      split_and!; [done|constructor|]. right. exists n, r, cf, s, l. split; [done|].
      split; [by exists m|done].
Qed.

Lemma kinds_kind_at p : kinds_ok p → Forall (λ nr, ∃ cf, kind_at p nr.2 cf) (umap_iter (kinds (this p))).
Proof.
  intros (_ & Hk & _). rewrite umap_iter_perm. apply Forall_forall. intros [n r] Hin.
  apply elem_of_map_to_list in Hin. destruct (Hk n r Hin) as [h Hh]. by exists h, (c_str n).
Qed.
End Compaction.

(** [compactAll] on an open store compacts the kinds in the order the map iterates over
    them and stops at the first one RocksDB fails to compact, whose code it reports; it
    reports [Ok] only when every kind was compacted.  What is stored does not change. *)
Theorem compactAll_stops_at_first_failure `{ES : ExternalSpec} (p : proc) (st : status_ptr)
    (d : ptr) :
  store_ok p → open (this p) = true → txnDb (this p) = Some d →
  wp (compactAll st) (λ st' p', p' = with_world (world p') p ∧ store_ok p' ∧
    quiet (world p) (world p') ∧
    compaction_end d p (umap_iter (kinds (this p))) (assign Status.Ok st) st'
      (world p) (world p')) p.
Proof.
  intros Hs Ho Hd. apply wp_synchronize; [apply Hs|]. wp_steps.
  apply wp_validateOpen_open; [exact Ho|]. wp_steps.
  eapply wp_mono; [apply (compact_loop_spec d p); [exact Hd|reflexivity|simpl; apply (kinds_kind_at p); apply Hs]|].
  intros st' p' (Hp & Hq & Hend). rewrite Hp.
  destruct (world_only_unlock p (world p') Hs Ho (proj2 Hq)) as [Hs' Heq].
  unfold unlock, lock in Heq. change (with_this (set_monitor false)
    (with_world (world p') (lock p)) = with_world (world p') p) in Heq.
  split; [exact Heq|]. split; [exact Hs'|]. split; [exact Hq|exact Hend].
Qed.
