(* ===== verification/StoreLifecycle.v ===== *)
(** The life of a store: what the constructor leaves, the kinds it keeps, and what [close]
    does; with the consequences of the order in which these calls do things. *)
From S2P Require Import Prelude Slice RocksStatus StatusCode RocksDB KindImpl StoreImpl.
From S2P Require Import StoreLemmas StoreSpec StoreProps.

Local Open Scope Z_scope.

Section Kinds.
Context `{ES : ExternalSpec}.
Implicit Types (p : proc).

Lemma kinds_assign_new n k p :
  kinds (this p) !! n = None →
  ∃ r, kindobjs p !! r = None ∧ kinds_assign n k p =
    Done (r, with_this (λ s, set_kinds (<[n := r]> (kinds s)) s)
               (with_kindobjs (<[r := AKindImpl k]> (kindobjs p)) p)).
Proof.
  intros Hn. unfold kinds_assign. rewrite Hn.
  exists (fresh (dom (kindobjs p))). split; [|done]. apply not_elem_of_dom, is_fresh.
Qed.

(** Registering a kind keeps the table in order. *)
Lemma kinds_ok_insert p n h r :
  kinds_ok p → kindobjs p !! r = None → kinds (this p) !! n = None →
  kinds_ok (with_this (λ s, set_kinds (<[n := r]> (kinds s)) s)
    (with_kindobjs (<[r := AKindImpl (KindImpl_of n (Some h))]> (kindobjs p)) p)).
Proof.
  intros (He & Hk & Hi) Hr Hn. split_and!; simpl.
  - rewrite lookup_insert_ne; [done|]. intros ->. by rewrite Hr in He.
  - intros n' r' [[<- <-]|[Hne Hl]]%lookup_insert_Some.
    + exists h. by rewrite lookup_insert_eq.
    + destruct (Hk n' r' Hl) as [h' Hh']. exists h'.
      rewrite lookup_insert_ne; [done|]. intros ->. by rewrite Hr in Hh'.
  - intros n1 n2 r' [[<- <-]|[Hne1 Hl1]]%lookup_insert_Some
      [[<- Hr2]|[Hne2 Hl2]]%lookup_insert_Some; [done| | |by eapply Hi].
    + destruct (Hk n2 r Hl2) as [h' Hh']. by rewrite Hr in Hh'.
    + subst. destruct (Hk n1 r' Hl1) as [h' Hh']. by rewrite Hr in Hh'.
Qed.

(** The answer of [getOrCreateKind]: a kind registered under the name, new or known. *)
Definition kind_answer p (name : string) (st : status_ptr) (out : status_ptr * ptr) p' : Prop :=
  let '(st', r) := out in
  store_ok p' ∧ open (this p') = true ∧ quiet (world p) (world p') ∧
  (∀ n, n ≠ c_str name → kinds (this p') !! n = kinds (this p) !! n) ∧
  (∀ r' cf, kind_at p r' cf → kind_at p' r' cf) ∧
  ((st' = assign Status.Ok st ∧ kinds (this p') !! c_str name = Some r ∧
    ∃ cf, kind_at p' r cf ∧
      (kinds (this p) !! c_str name = None → ∀ k, hget (hist (world p')) cf k = [])) ∨
   (∃ c, c ≠ Status.Ok ∧ st' = assign c st ∧ r = EmptyKind ∧
      kinds (this p) !! c_str name = None ∧ kinds (this p') = kinds (this p))).

Lemma kinds_ok_kind_at p n r :
  kinds_ok p → kinds (this p) !! n = Some r → ∃ cf, kind_at p r cf.
Proof. intros (_ & Hk & _) Hn. destruct (Hk n r Hn) as [h Hh]. by exists h, (c_str n). Qed.

Lemma getOrCreateKind_known p st name r :
  store_ok p → open (this p) = true → kinds (this p) !! c_str name = Some r →
  getOrCreateKind st name p = Done ((assign Status.Ok st, r), p).
Proof.
  intros [Hm _] Ho Hn.
  unfold getOrCreateKind, synchronize, validateOpen, isOpen, gets, modify, mbind, M_bind,
    mret, M_ret.
  rewrite Hm. simpl. rewrite Ho. simpl. rewrite Hn. f_equal. f_equal.
  unfold with_this. simpl. destruct p as [w c k s]; simpl in *. f_equal.
  exact (set_monitor_free s Hm).
Qed.

Lemma getOrCreateKind_spec p st name :
  store_ok p → open (this p) = true →
  wp (getOrCreateKind st name) (kind_answer p name st) p.
Proof.
  intros Hs Ho. destruct (kinds (this p) !! c_str name) as [r|] eqn:Hn.
  { eapply wp_done; [by apply getOrCreateKind_known|].
    refine (conj Hs (conj Ho (conj _ (conj _ (conj _ (or_introl _)))))); [done|done|done|].
    split; [done|]. split; [done|].
    destruct (kinds_ok_kind_at p (c_str name) r) as [cf Hcf]; [apply Hs|done|].
    exists cf. split; [done|]. by rewrite Hn. }
  apply wp_synchronize; [apply Hs|]. wp_steps.
  apply wp_validateOpen_open; [exact Ho|]. wp_steps. simpl. rewrite Hn.
  unfold createKind. destruct (proj1 (proj2 Hs) Ho) as [d Hd].
  wp_steps. eapply wp_get_txnDb; [exact Hd|]. wp_steps. apply wp_ext.
  intros [s h] w Hcf. apply create_cf_spec in Hcf as [Hq Hok]. simpl in Hq, Hok.
  assert (store_ok (with_world w p)) as Hsw.
  { destruct Hs as [Hm (H1 & H2 & H3 & H4 & H5)]. split; [done|].
    refine (conj H1 (conj H2 (conj H3 (conj H4 _)))). intros _ t Et. simpl.
    rewrite (proj2 Hq). by apply H5. }
  destruct (ok s) eqn:Es; wp_steps.
  - destruct (Hok eq_refl) as [[h' ->] Hempty].
    edestruct (kinds_assign_new (c_str name) (KindImpl_of (c_str name) (Some h'))
      (with_world w (with_this (set_monitor true) p))) as (r & Hr & Heq); [exact Hn|].
    eapply wp_done; [exact Heq|]. wp_steps.
    refine (conj _ (conj Ho (conj Hq (conj _ (conj _ (or_introl _)))))).
    + destruct Hsw as [_ (H1 & H2 & H3 & H4 & H5)]. split; [done|].
      refine (conj H1 (conj _ (conj H3 (conj _ H5)))).
      * simpl. by rewrite Ho.
      * exact (kinds_ok_insert p (c_str name) h' r (proj1 (proj2 (proj2 (proj2 (proj2 Hs))))) Hr Hn).
    + intros n Hne. simpl. by rewrite lookup_insert_ne.
    + intros r' cf [m Hm]. exists m. simpl. rewrite lookup_insert_ne; [done|].
      intros ->. simpl in Hr. by rewrite Hr in Hm.
    + split; [done|]. split; [simpl; by rewrite lookup_insert_eq|]. exists h'.
      split; [exists (c_str (c_str name)); simpl; by rewrite lookup_insert_eq|].
      intros _ k. simpl. rewrite (proj1 Hq). by apply Hempty.
  - refine (conj _ (conj Ho (conj Hq (conj _ (conj _ (or_intror _)))))); [|done|done|].
    + destruct Hsw as [_ Hc]. split; [done|exact Hc].
    + exists (report_code s). rewrite assign_assign. split; [by apply report_code_not_ok|done].
Qed.
End Kinds.

(** C25. [getOrCreateKind] on an open store: a name that is known gives the registered kind
    and changes nothing; a new one makes an empty column family and registers it under that name, or reports the
    error with the invalid empty kind and registers nothing.  Kinds handed out before stay
    good, other names are untouched, and asking again for a name that was given out returns
    the same kind and changes nothing. *)
Theorem getOrCreateKind_idempotent `{ES : ExternalSpec} (p : proc) (st st2 : status_ptr)
    (name : string) :
  store_ok p → open (this p) = true →
  wp (getOrCreateKind st name) (λ out p', kind_answer p name st out p' ∧
    (kinds (this p') !! c_str name = Some out.2 →
     getOrCreateKind st2 name p' = Done ((assign Status.Ok st2, out.2), p'))) p ∧
  ∀ r, kinds (this p) !! c_str name = Some r →
    getOrCreateKind st name p = Done ((assign Status.Ok st, r), p).
Proof.
  intros Hs Ho. split; [|intros; by apply getOrCreateKind_known].
  eapply wp_mono; [by apply getOrCreateKind_spec|].
  intros [st' r] p' Ha. split; [done|]. intros Hr. destruct Ha as (Hs' & Ho' & _).
  by apply getOrCreateKind_known.
Qed.

(** ** Opening *)

Section Opening.
Context `{ES : ExternalSpec}.
Implicit Types (p : proc).

(** Registering changes only the table and the kinds behind it. *)
Definition registered (ns : list string) p p' : Prop :=
  world p' = world p ∧ chars p' = chars p ∧ kinds_ok p' ∧
  this p' = set_kinds (kinds (this p')) (this p) ∧
  (∀ n, n ∈ ns ∨ is_Some (kinds (this p) !! n) → is_Some (kinds (this p') !! n)).

Lemma kinds_assign_spec n h Q p :
  kinds_ok p → (∀ r p', registered [n] p p' → Q r p') →
  wp (kinds_assign n (KindImpl_of n (Some h))) Q p.
Proof.
  intros Hk HQ. destruct (kinds (this p) !! n) as [r|] eqn:Hn.
  - unfold wp, kinds_assign. rewrite Hn. apply HQ.
    pose proof Hk as (He & Hl & Hi). destruct (Hl n r Hn) as [h0 Hr].
    split_and!; [done|done| |simpl; by destruct (this p)|].
    + split_and!; simpl; [| |done].
      * rewrite lookup_insert_ne; [done|]. intros ->. by rewrite Hr in He.
      * intros n' r' Hn'. destruct (decide (r = r')) as [<-|Hne].
        -- rewrite (Hi n' n r Hn' Hn), lookup_insert_eq. by exists h.
        -- rewrite lookup_insert_ne by done. by apply Hl.
    + intros n' [->%list_elem_of_singleton|Hin]; [by eexists|done].
  - destruct (kinds_assign_new n (KindImpl_of n (Some h)) p Hn) as (r & Hr & Heq).
    eapply wp_done; [exact Heq|]. apply HQ. split_and!; [done|done| |done|].
    + by apply kinds_ok_insert.
    + intros n' [->%list_elem_of_singleton|Hin]; simpl.
      * rewrite lookup_insert_eq. by eexists.
      * rewrite lookup_insert. case_decide; [by eexists|done].
Qed.

Lemma register_kinds_spec ns hs Q p :
  kinds_ok p → length hs = length ns → (∀ p', registered ns p p' → Q tt p') →
  wp (register_kinds ns hs) Q p.
Proof.
  revert hs p. induction ns as [|n ns IH]; intros hs p Hk Hlen HQ; cbn [register_kinds].
  - apply wp_ret, HQ. split_and!; try done; [by destruct (this p)|].
    intros n [Hn|Hn]; [by apply elem_of_nil in Hn|done].
  - destruct hs as [|h hs]; [done|]. apply wp_bind. apply kinds_assign_spec; [done|].
    intros r p1 (Hw1 & Hc1 & Hk1 & Ht1 & Hn1). apply IH; [done|by injection Hlen|].
    intros p2 (Hw2 & Hc2 & Hk2 & Ht2 & Hn2). apply HQ. split_and!; [congruence|congruence|done| |].
    + rewrite Ht2 at 1. by rewrite Ht1.
    + intros n' Hn'. apply Hn2.
      rewrite elem_of_cons in Hn'. destruct Hn' as [[->|Hin]|Hin]; [right|by left|right];
        apply Hn1; [by left; apply list_elem_of_singleton|by right].
Qed.

(** The families of the database: the default one when there are none yet. *)
Definition families_of (fams : list string) : list string :=
  match fams with [] => [DefaultCF] | _ => fams end.

Definition descriptors (fams : list string) : list (string * ColumnFamilyOptions CFRest) :=
  (λ n, (n, columnFamilyOptions open_config)) <$> families_of fams.

(** Both properties [open_] asks the RocksDB build for are there. *)
Definition build_known : Prop :=
  is_Some (GetRocksBuildProperties !! "rocksdb_build_git_sha"%string) ∧
  is_Some (GetRocksBuildProperties !! "rocksdb_build_date"%string).

(** [ListColumnFamilies], as the constructor calls it. *)
Definition listed (path : string) p (s0 : RocksStatus.Status) (fams : list string) (w : World) : Prop :=
  ListColumnFamilies (options open_config) (c_str path) (world p) = ((s0, fams), w).
(** [TransactionDB::Open], as the constructor calls it after that. *)
Definition opened (path : string) (fams : list string) (w : World) (s : RocksStatus.Status)
    (hs : list ptr) (db : option ptr) (w' : World) : Prop :=
  TransactionDB_Open (options open_config) WRITE_COMMITTED (c_str path) (descriptors fams) w
    = ((s, hs, db), w').

Lemma wp_map_at m k Q p : is_Some (m !! k) → (∀ v, Q v p) → wp (map_at m k) Q p.
Proof. intros [v Hv] HQ. unfold map_at. rewrite Hv. apply wp_ret, HQ. Qed.

Lemma openDatabase_spec path s0 fams w1 s hs db w2 p :
  config (this p) = open_config → StoreImpl.path (this p) = c_str path → kinds_ok p →
  listed path p s0 fams w1 → ok s0 || IsPathNotFound s0 = true →
  opened path fams w1 s hs db w2 → ok s = true →
  wp openDatabase (λ s' p', s' = s ∧ chars p' = chars p ∧ kinds_ok p' ∧
    (∃ ks, this p' = set_kinds ks (set_txnDb db (this p))) ∧ is_Some db ∧
    (∀ n, n ∈ families_of fams → is_Some (kinds (this p') !! n))) p.
Proof.
  intros Hcfg Hpath Hk Hl Hs0 Ho Hs. unfold openDatabase. wp_steps. rewrite Hcfg, Hpath.
  apply wp_ext. intros [s0' fams'] w1' Hl'. rewrite Hl in Hl'. injection Hl' as <- <- <-.
  rewrite Hs0. wp_steps. apply wp_ext. intros [[s' hs'] db'] w2' Ho'.
  change (opened path fams w1 s' hs' db' w2') in Ho'. unfold opened in *.
  rewrite Ho in Ho'. injection Ho' as <- <- <- <-.
  destruct (open_spec _ _ _ _ _ _ _ _ _ Ho) as [Hok _].
  destruct (Hok Hs) as [[d Hd] Hlen]. wp_steps. rewrite Hs.
  apply register_kinds_spec; [exact Hk| |].
  { rewrite Hlen. unfold descriptors. by rewrite length_fmap. }
  intros p3 (Hw3 & Hc3 & Hk3 & Ht3 & Hn3). wp_steps.
  eapply wp_get_txnDb; [rewrite Ht3; exact Hd|]. wp_steps. apply wp_ext.
  intros se w4 _. wp_steps. split_and!; [done|exact Hc3|exact Hk3| |by eexists|].
  - exists (kinds (this p3)). exact Ht3.
  - intros n Hn. apply Hn3. by left.
Qed.
End Opening.

Lemma constructor_spec `{ES : ExternalSpec} (p : proc) (c0 : StoreConfig) (path : string)
    s0 fams w1 s hs db w2 :
  kindobjs p !! EmptyKind = Some (AKindImpl new_KindImpl) → build_known →
  listed path p s0 fams w1 → ok s0 || IsPathNotFound s0 = true →
  opened path fams w1 s hs db w2 → ok s = true →
  wp (StoreImpl_new c0 path) (λ _ p', store_ok p' ∧ open (this p') = true ∧
    txnDb (this p') = db ∧ totalSinceLastSync (this p') = 0 ∧ chars p' = chars p ∧
    ∀ n, n ∈ families_of fams → is_Some (kinds (this p') !! n)) p.
Proof.
  intros He [Hb1 Hb2] Hl Hs0 Ho Hs. unfold StoreImpl_new, open_. wp_steps.
  eapply wp_mono; [eapply openDatabase_spec; try done|].
  intros s' p3 (-> & Hc3 & Hk3 & (ks & Ht3) & [d Hd] & Hn3). rewrite Hs. wp_steps.
  eapply wp_mono; [apply (reusableTx_spec p3 d)|].
  { by rewrite Ht3. } { intros t. by rewrite Ht3. }
  intros r p4 (-> & (Hc4 & Hk4 & r4 & n4 & t4 & Ht4) & Hr4 & _ & _ & Hn4). wp_steps.
  apply wp_map_at; [done|]. intros v1. wp_steps. apply wp_map_at; [done|]. intros v2. wp_steps.
  apply wp_ext_. wp_steps. apply wp_ext_. wp_steps. apply wp_ext. intros now w5 Hnow.
  apply now_spec in Hnow as [Hq5 _]. wp_steps. simpl in *.
  unfold counter in Hn4.
  assert (live_txns w5 = live_txns (world p4)) as Hlive.
  { rewrite (proj2 Hq5), !(proj2 (log_spec _ _)). done. }
  assert (totalSinceLastSync (this p4) = 0) as Hz by by rewrite Hn4, Ht3.
  assert (txnDb (this p4) = db) as Hdb by by rewrite Ht4, Ht3.
  assert (kinds (this p4) = kinds (this p3)) as Hkinds by by rewrite Ht4.
  split; [|split_and!; [done|done|done|by rewrite Hc4|by rewrite Hkinds]].
  split; [simpl; by rewrite Ht4, Ht3|].
  refine (conj _ (conj _ (conj _ (conj _ _)))); simpl.
  - rewrite Hdb, Hd. by eexists.
  - done.
  - rewrite Hz. done.
  - destruct Hk3 as (H1 & H2 & H3). split_and!; simpl; rewrite ?Hk4, ?Hkinds; done.
  - intros _ t Et. simpl. rewrite Hlive. by apply Hr4.
Qed.

(** C12. When RocksDB lists the families (or there is no database yet) and opens them, the
    constructor leaves an open store in order: the lock free, a database, a kind for every
    family listed (for the default family when there is none), no commit counted yet, and no
    array of [char] allocated. *)
Theorem constructor_opens `{ES : ExternalSpec} (p : proc) (c0 : StoreConfig) (path : string)
    s0 fams w1 s hs db w2 :
  kindobjs p !! EmptyKind = Some (AKindImpl new_KindImpl) → build_known →
  listed path p s0 fams w1 → ok s0 || IsPathNotFound s0 = true →
  opened path fams w1 s hs db w2 → ok s = true →
  wp (StoreImpl_new c0 path) (λ _ p', store_ok p' ∧ open (this p') = true ∧
    txnDb (this p') = db ∧ totalSinceLastSync (this p') = 0 ∧ chars p' = chars p ∧
    ∀ n, n ∈ families_of fams → is_Some (kinds (this p') !! n)) p.
Proof. apply constructor_spec. Qed.

(** When [TransactionDB::Open] fails the constructor does not report the error: it calls
    [EnableFileDeletions] through the database pointer, which a failed open has left null.
    Only a failure to list the families is reported, as the code of a closed store. *)
Theorem open_failure_dereferences_null `{ES : ExternalSpec} (p : proc) (c0 : StoreConfig)
    (path : string) s0 fams w1 :
  listed path p s0 fams w1 →
  (ok s0 || IsPathNotFound s0 = true → ∀ s hs db w2, opened path fams w1 s hs db w2 →
   ok s = false → StoreImpl_new c0 path p = Undef NullDeref) ∧
  (ok s0 || IsPathNotFound s0 = false →
   wp (StoreImpl_new c0 path) (λ _ p', open (this p') = false ∧ code (this p') = report_code s0 ∧
     code (this p') ≠ Status.Ok ∧ txnDb (this p') = None ∧ monitor (this p') = false) p).
Proof.
  intros Hl. split.
  - intros Hs0 s hs db w2 Ho Hs. destruct (open_spec _ _ _ _ _ _ _ _ _ Ho) as [_ Hnone].
    specialize (Hnone Hs) as ->. unfold listed in Hl. unfold opened, descriptors, families_of in Ho.
    unfold StoreImpl_new, open_, openDatabase, ext, gets, modify, mbind, M_bind, mret, M_ret.
    cbn -[options columnFamilyOptions open_config]. rewrite Hl, Hs0.
    cbn -[options columnFamilyOptions open_config].
    change (txnDbOptions_write_policy open_config) with WRITE_COMMITTED. rewrite Ho.
    cbn -[options columnFamilyOptions open_config]. by rewrite Hs.
  - intros Hs0. unfold StoreImpl_new, open_, openDatabase. wp_steps. apply wp_ext.
    intros [s0' fams'] w1' Hl'. rewrite Hl in Hl'. injection Hl' as <- <- <-.
    rewrite Hs0. wp_steps. apply orb_false_iff in Hs0 as [Hs0 _]. rewrite Hs0. wp_steps.
    apply wp_ext. intros now w3 _. wp_steps. split_and!; try done.
    by apply report_code_not_ok.
Qed.

(** ** Closing *)

Section Closing.
Context `{ES : ExternalSpec}.
Implicit Types (p : proc).

(** The handles behind a list of table entries. *)
Definition handle_of p (r : ptr) : option ptr :=
  match kindobjs p !! r with Some (AKindImpl k) => handle_ k | _ => None end.

Lemma handles_frame p q (rs : list ptr) r :
  r ∉ rs → (∀ r', r' ≠ r → kindobjs q !! r' = kindobjs p !! r') →
  omap (handle_of q) rs = omap (handle_of p) rs.
Proof.
  intros Hr Hq. induction rs as [|r' rs IH]; [done|].
  apply not_elem_of_cons in Hr as [Hne Hrs]. cbn. rewrite IH by done.
  unfold handle_of. by rewrite Hq.
Qed.

(** The world after destroying them, in order. *)
Definition destroyed (hs : list ptr) (w : World) : World :=
  foldl (λ w h, delete_ColumnFamilyHandle h w) w hs.

Definition kinds_live (ko : gmap ptr Kind) (l : list (string * ptr)) : Prop :=
  Forall (λ nr, ∃ n h, ko !! nr.2 = Some (AKindImpl (mkKindImpl n (Some h)))) l.

Lemma close_handles_spec l Q p :
  NoDup l.*2 → kinds_live (kindobjs p) l →
  (∀ ko, (∀ r, r ∉ l.*2 → ko !! r = kindobjs p !! r) →
     Q tt (with_kindobjs ko (with_world (destroyed (omap (handle_of p) l.*2) (world p)) p))) →
  wp (close_handles l) Q p.
Proof.
  revert p. induction l as [|[n r] l IH]; intros p Hnd Hl HQ; cbn [close_handles].
  - apply wp_ret. replace p with (with_kindobjs (kindobjs p) (with_world (world p) p))
      by (by destruct p). by apply (HQ (kindobjs p)).
  - inversion_clear Hnd as [|? ? Hr Hnd']. inversion_clear Hl as [|? ? (m & h & Hm) Hl'].
    simpl in Hm, Hr. apply wp_bind. eapply wp_deref_kind; [exact Hm|]. cbn beta iota.
    apply wp_bind. eapply wp_done; [reflexivity|]. cbn beta iota.
    assert (∀ r', r' ≠ r → <[r:=AKindImpl (mkKindImpl m None)]> (kindobjs p) !! r' = kindobjs p !! r')
      as Hko by (intros r' Hne; by rewrite lookup_insert_ne).
    apply IH; [done| |].
    + apply Forall_forall. intros [n' r'] Hin. unfold kinds_live in Hl'.
      rewrite Forall_forall in Hl'.
      destruct (Hl' _ Hin) as (m' & h' & H'). exists m', h'. simpl in *.
      rewrite Hko; [done|]. intros ->. apply Hr. apply list_elem_of_fmap. by exists (n', r).
    + intros ko Hk. simpl in Hk.
      replace (omap (handle_of p) ((n, r) :: l).*2)
        with (h :: omap (handle_of p) l.*2) in HQ
        by (simpl; unfold handle_of at 2; by rewrite Hm).
      replace (omap (handle_of _) l.*2) with (omap (handle_of p) l.*2).
      * apply (HQ ko). intros r' Hr'. simpl in Hr'. apply not_elem_of_cons in Hr' as [Hne Hr'].
        rewrite Hk by done. by apply Hko.
      * symmetry. by apply (handles_frame _ _ _ r).
Qed.

Lemma umap_values_nodup p : kinds_ok p → NoDup (umap_iter (kinds (this p))).*2.
Proof.
  intros (_ & _ & Hi). rewrite umap_iter_perm. apply NoDup_fmap_2_strong; [|apply NoDup_map_to_list].
  intros [n1 r1] [n2 r2] H1%elem_of_map_to_list H2%elem_of_map_to_list. simpl. intros <-.
  by rewrite (Hi n1 n2 r1 H1 H2).
Qed.

Lemma kinds_all_live p : kinds_ok p → kinds_live (kindobjs p) (umap_iter (kinds (this p))).
Proof.
  intros (_ & Hk & _). unfold kinds_live. rewrite umap_iter_perm. apply Forall_forall.
  intros [n r] Hin%elem_of_map_to_list. destruct (Hk n r Hin) as [h Hh]. by exists (c_str n), h.
Qed.

Lemma handles_all p (rs : list ptr) :
  Forall (λ r, ∃ n h, kindobjs p !! r = Some (AKindImpl (mkKindImpl n (Some h)))) rs →
  length (omap (handle_of p) rs : list ptr) = length rs.
Proof.
  induction 1 as [|r rs (n & h & Hr) _ IH]; [done|]. cbn. unfold handle_of at 1.
  rewrite Hr. simpl. by rewrite IH.
Qed.

Lemma lookup_foldr_delete {A} (m : gmap ptr A) (rs : list ptr) r :
  foldr (λ r m, delete r m) m rs !! r = if decide (r ∈ rs) then None else m !! r.
Proof.
  induction rs as [|r' rs IH]; cbn [foldr].
  - case_decide as Hc; [by apply elem_of_nil in Hc|done].
  - destruct (decide (r = r')) as [->|Hne].
    + rewrite lookup_delete_eq, decide_True; [done|]. apply list_elem_of_here.
    + rewrite lookup_delete_ne by done. rewrite IH. clear IH.
      destruct (decide (r ∈ rs)) as [Hin|Hin]; case_decide as Hc; try done.
      * destruct Hc. by apply list_elem_of_further.
      * apply elem_of_cons in Hc. tauto.
Qed.

Lemma EmptyKind_not_registered p :
  kinds_ok p → EmptyKind ∉ (map_to_list (kinds (this p))).*2.
Proof.
  intros (He & Hk & _) ([n r] & Heq & Hin%elem_of_map_to_list)%list_elem_of_fmap.
  destruct (Hk n _ Hin) as [h Hh]. simpl in *. rewrite <- Heq, He in Hh. done.
Qed.

(** Table, kinds and database dropped: what is left is a store in order, closed. *)
Lemma closed_store_ok p p' :
  store_ok p → monitor (this p') = false → open (this p') = false → kinds (this p') = ∅ →
  txnDb (this p') = None → counter p' = counter p →
  kindobjs p' !! EmptyKind = Some (AKindImpl new_KindImpl) → store_ok p'.
Proof.
  intros [_ (_ & _ & Hn & _)] Hm Ho Hk Hd Hc He. split; [done|].
  unfold counter in Hc.
  refine (conj _ (conj (λ _, conj Hk Hd) (conj _ (conj _ _)))); [by rewrite Ho|lia| |by rewrite Ho].
  split_and!; [done|by rewrite Hk|by rewrite Hk].
Qed.

Lemma second_close p : store_ok p → open (this p) = false → close p = Done (tt, p).
Proof.
  intros [Hm _] Ho.
  unfold close, close_body, synchronize, isOpen, gets, modify, mbind, M_bind, mret, M_ret.
  rewrite Hm. cbn. rewrite Ho. unfold with_this. destruct p as [w c k s]; simpl in *.
  do 3 f_equal. exact (set_monitor_free s Hm).
Qed.
End Closing.


Section CloseSpec.
Context `{ES : ExternalSpec}.
Implicit Types (p : proc).

Lemma close_spec p (d : ptr) :
  store_ok p → open (this p) = true → txnDb (this p) = Some d →
  let hs : list ptr := omap (handle_of p) (umap_iter (kinds (this p))).*2 in
  length hs = base.size (kinds (this p)) ∧
  wp close (λ _ p',
    world p' = delete_TransactionDB d (destroyed hs (world p)) ∧
    chars p' = chars p ∧ reusableTx_ (this p') = reusableTx_ (this p) ∧
    open (this p') = false ∧ kinds (this p') = ∅ ∧ txnDb (this p') = None ∧
    (∀ n r, kinds (this p) !! n = Some r → kindobjs p' !! r = None) ∧
    store_ok p' ∧ close p' = Done (tt, p')) p.
Proof.
  intros Hs Ho Hd hs. assert (kinds_ok p) as Hk by apply Hs. split.
  { unfold hs. rewrite handles_all.
    - by rewrite length_fmap, umap_iter_perm, length_map_to_list.
    - pose proof (kinds_all_live p Hk) as Hl. unfold kinds_live in Hl. by rewrite Forall_fmap. }
  apply wp_synchronize; [apply Hs|].
  unfold close_body, syncWALNoLock, flushNoLock, isOpen. wp_steps.
  cbn [open with_this this set_monitor]. rewrite Ho. wp_steps.
  cbn [open with_this this set_open]. wp_steps. cbn [open with_this this set_open]. wp_steps.
  apply close_handles_spec; [by apply umap_values_nodup|by apply kinds_all_live|].
  intros ko Hko. wp_steps. unfold kinds_clear. wp_steps. simpl. rewrite Hd. wp_steps.
  apply wp_ext_. wp_steps.
  match goal with |- context [with_this (set_monitor false) ?q] =>
    set (p' := with_this (set_monitor false) q) end.
  assert (store_ok p') as Hs'.
  { apply (closed_store_ok p); try done. simpl.
    pose proof (EmptyKind_not_registered p Hk) as He.
    rewrite lookup_foldr_delete, decide_False by exact He. simpl in Hko.
    rewrite Hko; [apply Hk|]. by rewrite umap_iter_perm. }
  split; [done|]. split; [done|]. split; [done|]. split; [done|]. split; [done|].
  split; [done|]. split; [|split; [done|by apply second_close]].
  intros n r Hr. simpl. rewrite lookup_foldr_delete, decide_True; [done|].
  apply list_elem_of_fmap. exists (n, r). split; [done|]. by apply elem_of_map_to_list.
Qed.

Lemma close_frees p d :
  store_ok p → open (this p) = true → txnDb (this p) = Some d →
  wp close (λ _ p', ∀ n r, kinds (this p) !! n = Some r → kindobjs p' !! r = None) p.
Proof.
  intros Hs Ho Hd. eapply wp_mono; [by apply (close_spec p d)|].
  by intros _ p' (_ & _ & _ & _ & _ & _ & H & _).
Qed.
End CloseSpec.

(** C39. [close] on an open store deletes the handle of each kind once, then the database, and
    leaves a closed store with no kinds, whose kinds are gone from memory.  It clears the
    open flag first, so the sync and the flush it asks for see a closed store: between the
    state before and the state after, [FlushWAL] and [Flush] are never called.  The reusable
    transaction is not deleted either.  A second [close] does nothing. *)
Theorem close_never_flushes `{ES : ExternalSpec} (p : proc) (d : ptr) :
  store_ok p → open (this p) = true → txnDb (this p) = Some d →
  let hs : list ptr := omap (handle_of p) (umap_iter (kinds (this p))).*2 in
  length hs = base.size (kinds (this p)) ∧
  wp close (λ _ p',
    world p' = delete_TransactionDB d (destroyed hs (world p)) ∧
    chars p' = chars p ∧ reusableTx_ (this p') = reusableTx_ (this p) ∧
    open (this p') = false ∧ kinds (this p') = ∅ ∧ txnDb (this p') = None ∧
    (∀ n r, kinds (this p) !! n = Some r → kindobjs p' !! r = None) ∧
    store_ok p' ∧ close p' = Done (tt, p')) p.
Proof. apply close_spec. Qed.

(** Every [Kind] reference a store gave out dangles once the store is closed: a later
    call with it looks at the kind before it looks at the open flag, so it reads freed memory
    instead of reporting [Closed]. *)
Theorem kinds_dangle_after_close `{ES : ExternalSpec} (p : proc) (n : string) (r : ptr)
    (st : status_ptr) (k v : list byte) (l : Z) :
  store_ok p → open (this p) = true → kinds (this p) !! n = Some r →
  wp close (λ _ p',
    put st r (Some k) (len k) (Some v) (len v) p' = Undef UseAfterFree ∧
    remove st r (Some k) (len k) p' = Undef UseAfterFree ∧
    get st r (Some l) (Some k) (len k) p' = Undef UseAfterFree ∧
    putIfAbsent st r (Some k) (len k) (Some v) (len v) p' = Undef UseAfterFree ∧
    findMinKey st r (Some l) p' = Undef UseAfterFree ∧
    compact st r p' = Undef UseAfterFree) p.
Proof.
  intros Hs Ho Hn. destruct (proj1 (proj2 Hs) Ho) as [d Hd].
  eapply wp_mono; [by apply (close_frees p d)|]. intros u p' Hall. cbn beta in Hall. pose proof (Hall n r Hn) as Hgone.
  assert (deref_kind r p' = Undef UseAfterFree) as Hk by (unfold deref_kind; by rewrite Hgone).
  split_and!; unfold put, remove, get, putIfAbsent, findMinKey, find_key, compact, bad_argument;
    simpl; by rewrite ?(bind_undef _ _ _ _ (bind_undef _ _ _ _ Hk)), ?(bind_undef _ _ _ _ Hk).
Qed.

(** [putIfAbsent] on a key that has a value reads the value into a fresh array and never
    deletes it: when the call reports [AlreadyExists], the array is still allocated and
    nobody holds a pointer to it. *)
Theorem putIfAbsent_leaks_the_old_value `{ES : ExternalSpec} (p : proc) (x : Z) (r cf : ptr)
    (k v old : list byte) :
  store_ok p → open (this p) = true → kind_at p r cf →
  resolve (hget (hist (world p)) cf k) = Some (Some old) → old ≠ [] →
  wp (run_call (Some x) r (CPutIfAbsent k v)) (λ '(s, n, res) p',
    s = Some Status.AlreadyExists → n = None ∧ res = None ∧
    ∃ l, chars p !! l = None ∧ chars p' = <[l := old]> (chars p)) p.
Proof.
  intros Hs Ho Hk Hv Hne. destruct (kind_at_valid p r cf Hk) as (kk & Hr & _ & Hval).
  apply wp_bind. eapply (wp_public _ r _ (Some x)); [exact Hr|exact Hval|exact Hs|exact Ho|].
  apply wp_bind. eapply wp_mono.
  { apply (get_reads (lock p) _ r cf); [apply Hs|done..|apply denotes_all]. }
  intros [[st' n] res] p1 (Hro & code & a & Hrd & -> & Hg). cbn beta iota.
  pose proof (read_only_carried (lock p) p1 (proj2 Hs) Ho Hro) as Hc1.
  assert (note code (Some Status.Ok) = Some code) as -> by (unfold note; by case_decide as Hc; rewrite ?Hc).
  pose proof (read_only_inv _ _ Hro) as (ch & w & -> & _).
  inversion Hrd as [v0 Hr0|code0 Hc0 Hr0]; subst.
  - specialize (Hr0 _ Hv) as [= <-]. unfold gave in Hg. rewrite answer_default in Hg.
    destruct Hg as [_ Hg]. destruct old as [|b old]; [done|].
    destruct Hg as (l & -> & Hl & Hch). wp_steps. intros _. split; [done|]. split; [done|].
    by exists l.
  - rewrite decide_False by (intros [= ->]; by specialize (Hr0 eq_refl _ Hv)).
    rewrite decide_False by (intros [= ->]; by apply Z.lt_irrefl in Hc0).
    wp_steps. simpl. unfold Status.Ok, Status.AlreadyExists in *. intros [=]. lia.
Qed.
