(* ===== verification/StoreDemo.v ===== *)
(** The store on the in-memory database: a store opened by its own constructor, concrete runs
    of its calls, and each property of the store applied to one of them. *)
From S2P Require Import Prelude Slice RocksStatus StatusCode RocksDB KindImpl StoreImpl.
From S2P Require Import StoreLemmas StoreSpec MemDB StoreProps StoreMaintenance StoreLifecycle.

Local Open Scope Z_scope.

(** ** A store to run on *)

(** Before the constructor: an empty database and the static empty kind. *)
Definition demo_start (script : list RocksStatus.Status) : proc :=
  mkProc (set_script script m_init) ∅ {[ EmptyKind := AKindImpl new_KindImpl ]}
    (initial_StoreImpl open_config "demo").

Definition run_demo {A} (m : M proc A) (p : proc) : proc :=
  match m p with Done (_, p') => p' | Undef _ => p end.

Definition demo : proc := run_demo (StoreImpl_new open_config "demo") (demo_start []).
(** The kind of the default family, and its handle. *)
Definition demo_kind : ptr := 2%positive.
Definition demo_cf : ptr := 1%positive.

Definition B (s : string) : list byte := string_bytes s.

(** Results of a run, without the process. *)
Definition outcome_of {A} (m : M proc A) (p : proc) : outcome A :=
  match m p with Done (a, _) => Done a | Undef f => Undef f end.

Example demo_kinds : map_to_list (kinds (this demo)) = [("default"%string, demo_kind)].
Proof. vm_compute. reflexivity. Qed.

Example demo_put_get :
  outcome_of (put (Some 77) demo_kind (Some (B "k")) 1 (Some (B "value")) 5 ;;
              get (Some 77) demo_kind (Some 0) (Some (B "k")) 1) demo =
  Done (Some 0, Some 5, Some 1%positive).
Proof. vm_compute. reflexivity. Qed.

Example demo_missing :
  outcome_of (get (Some 77) demo_kind (Some 0) (Some (B "k")) 1) demo =
  Done (Some Status.NotFound, Some 0, None).
Proof. vm_compute. reflexivity. Qed.

Lemma demo_constructed :
  wp (StoreImpl_new open_config "demo") (λ _ p', store_ok p' ∧ open (this p') = true)
    (demo_start []).
Proof.
  eapply wp_mono.
  - eapply (constructor_spec (demo_start []) open_config "demo" OK [] _ OK); try reflexivity.
    split; by eexists.
  - intros u p' (H1 & H2 & _). done.
Qed.

Lemma demo_ok : store_ok demo.
Proof.
  pose proof demo_constructed as H. unfold wp in H. unfold demo, run_demo.
  destruct (StoreImpl_new open_config "demo" (demo_start [])) as [[u p']|]; [apply H|done].
Qed.

Lemma demo_open : open (this demo) = true.
Proof. vm_compute. reflexivity. Qed.

Lemma demo_kind_at : kind_at demo demo_kind demo_cf.
Proof. exists "default"%string. vm_compute. reflexivity. Qed.

#[export] Hint Resolve demo_ok demo_open demo_kind_at : core.

(** ** The properties at concrete inputs *)

Lemma store_refines_spec_witness :
  store_ok demo ∧
  wp (run_call (Some 0) demo_kind (CPut (B "k") (B "v")))
    (refines (Some 0) demo_cf (CPut (B "k") (B "v")) demo) demo.
Proof. split; [exact demo_ok|]. apply store_refines_spec; [exact demo_ok|exact demo_open|exact demo_kind_at]. Defined.

Definition demo_calls : list (ptr * call) :=
  [(demo_kind, CPut (B "a") (B "1")); (demo_kind, CUpdateIfPresent (B "a") (B "2"));
   (demo_kind, CRemove (B "a")); (demo_kind, CPutIfAbsent (B "a") (B "3"))].

Lemma store_refines_trace_witness :
  wp (run_calls (Some 0) demo_calls) (λ outs p',
    trace (Some 0) (hist (world demo)) (chars demo) (zip (replicate 4 demo_cf) demo_calls.*2) outs
      (hist (world p')) (chars p') ∧
    chars demo ⊆ chars p' ∧ NoDup (omap snd outs) ∧
    (∀ a, a ∈ omap snd outs → chars demo !! a = None) ∧
    store_ok p' ∧ open (this p') = true ∧ no_txn_leak demo p') demo.
Proof.
  apply store_refines_trace; [exact demo_ok|exact demo_open|].
  repeat constructor; exact demo_kind_at.
Defined.

Lemma write_then_get_witness :
  wp (out ← run_call (Some 7) demo_kind (CPut (B "k") (B "v"));
      out' ← run_call (Some 8) demo_kind (CGet (B "k")); mret (out, out'))
    (λ '((s1, _, _), (s2, n, res)) p', s1 = Some Status.Ok →
      (s2 = Some Status.Ok ∧ n = Some 1 ∧ (B "v" = [] → res = None) ∧
       (B "v" ≠ [] → ∃ l, res = Some l ∧ chars p' !! l = Some (B "v")))
      ∨ ∃ e, s2 = Some e ∧ e ≠ Status.Ok ∧ e ≠ Status.NotFound) demo.
Proof.
  exact (write_then_get demo 7 8 demo_kind demo_cf (B "k") (B "v") (CPut (B "k") (B "v"))
    demo_ok demo_open demo_kind_at (or_introl eq_refl)).
Defined.

Lemma bad_arguments_are_refused_witness :
  kindobjs demo !! demo_kind = Some (AKindImpl (KindImpl_of "default" (Some demo_cf))) ∧
  put (Some 0) demo_kind None 3 (Some (B "v")) 1 demo = Done (Some Status.InvalidArgument, demo).
Proof.
  assert (kindobjs demo !! demo_kind = Some (AKindImpl (KindImpl_of "default" (Some demo_cf))))
    as Hk by (vm_compute; reflexivity).
  split; [exact Hk|].
  exact (proj1 (proj1 (bad_arguments_are_refused demo (Some 0) demo_kind _ None (Some (B "v")) 3 1
    (Some 0) None Hk) (or_introl eq_refl))).
Defined.

(** The demo store after a [close], with a kind of another class still alive. *)
Definition demo_closed : proc :=
  let p := run_demo close demo in with_kindobjs (<[9%positive := OtherKind "x" true]> (kindobjs p)) p.

Lemma closed_store_answers_Closed_witness :
  monitor (this demo_closed) = false ∧ open (this demo_closed) = false ∧
  put (Some 0) 9%positive (Some (B "k")) 1 (Some (B "v")) 1 demo_closed =
    Done (Some Status.Closed, with_this (set_code Status.Closed) demo_closed).
Proof.
  split; [vm_compute; reflexivity|]. split; [vm_compute; reflexivity|].
  exact (proj1 (closed_store_answers_Closed demo_closed (Some 0) 9%positive (OtherKind "x" true)
    (B "k") (B "v") 1 1 (Some (B "v")) 0 ltac:(vm_compute; reflexivity) eq_refl
    ltac:(vm_compute; reflexivity) ltac:(vm_compute; reflexivity))).
Defined.

(** A commit is due a sync when 985 ms have passed: here the clock is far ahead. *)
Definition demo_late : proc := with_world (set_clock 5000000000 (world demo)) demo.

(** The counter, the time of the last sync, and how often the log was synced. *)
Definition sync_state (o : outcome (unit * proc)) : option (Z * Z * nat) :=
  match o with
  | Done (_, p) => Some (totalSinceLastSync (this p), lastSync (this p), m_synced (world p))
  | Undef _ => None
  end.

Lemma occasionalWalSync_rhythm_witness :
  sync_state (occasionalWalSync demo_late) = Some (0, 5000002000, 1%nat).
Proof.
  refine (eq_trans (f_equal sync_state (occasionalWalSync_rhythm demo_late 1%positive 5000001000
    (set_clock 5000001000 (world demo_late)) _ _ _ _)) _).
  - vm_compute. reflexivity.
  - vm_compute. reflexivity.
  - vm_compute. split; [discriminate|reflexivity].
  - reflexivity.
  - vm_compute. reflexivity.
Defined.

Lemma removeRange_removes_the_range_witness :
  wp (removeRange (Some 0) demo_kind (Some (B "a")) 1 (Some (B "c")) 1) (λ st' p',
    (∃ w, p' = with_world w demo) ∧ store_ok p' ∧
    ∃ c, st' = assign c (Some 0) ∧
      (c = Status.Ok → range_removed (hist (world demo)) (hist (world p')) demo_cf (B "a") (B "c")) ∧
      (c ≠ Status.Ok → hist (world p') = hist (world demo))) demo.
Proof.
  exact (removeRange_removes_the_range demo (Some 0) demo_kind demo_cf (B "a") (B "c")
    demo_ok demo_open demo_kind_at).
Defined.

Lemma find_key_finds_the_end_witness :
  wp (findMinKey (Some 0) demo_kind (Some 0))
    (find_post SeekToFirst least_key demo 1%positive demo_cf (Some 0)) demo ∧
  wp (findMaxKey (Some 0) demo_kind (Some 0))
    (find_post SeekToLast greatest_key demo 1%positive demo_cf (Some 0)) demo.
Proof.
  apply find_key_finds_the_end; [exact demo_ok|exact demo_open|exact demo_kind_at|].
  vm_compute. reflexivity.
Defined.

Lemma compactAll_stops_at_first_failure_witness :
  wp (compactAll (Some 5)) (λ st' p', p' = with_world (world p') demo ∧ store_ok p' ∧
    quiet (world demo) (world p') ∧
    compaction_end 1%positive demo (umap_iter (kinds (this demo))) (Some Status.Ok) st'
      (world demo) (world p')) demo.
Proof.
  apply (compactAll_stops_at_first_failure demo (Some 5) 1%positive demo_ok demo_open).
  vm_compute. reflexivity.
Defined.

Lemma getOrCreateKind_idempotent_witness :
  wp (getOrCreateKind (Some 0) "new") (λ out p', kind_answer demo "new" (Some 0) out p' ∧
    (kinds (this p') !! c_str "new" = Some out.2 →
     getOrCreateKind (Some 1) "new" p' = Done ((Some Status.Ok, out.2), p'))) demo ∧
  ∀ r, kinds (this demo) !! c_str "new" = Some r →
    getOrCreateKind (Some 0) "new" demo = Done ((Some Status.Ok, r), demo).
Proof. exact (getOrCreateKind_idempotent demo (Some 0) (Some 1) "new" demo_ok demo_open). Defined.

Lemma constructor_opens_witness :
  wp (StoreImpl_new open_config "demo") (λ _ p', store_ok p' ∧ open (this p') = true ∧
    txnDb (this p') = Some 1%positive ∧ totalSinceLastSync (this p') = 0 ∧ chars p' = ∅ ∧
    ∀ n, n ∈ families_of [] → is_Some (kinds (this p') !! n)) (demo_start []).
Proof.
  eapply (constructor_opens (demo_start []) open_config "demo" OK [] _ OK); try reflexivity.
  split; by eexists.
Defined.

(** Listing succeeds and opening fails. *)
Lemma open_failure_dereferences_null_witness :
  StoreImpl_new open_config "demo" (demo_start [OK; IOError kNone]) = Undef NullDeref.
Proof.
  eapply (proj1 (open_failure_dereferences_null (demo_start [OK; IOError kNone]) open_config
    "demo" OK [] _ eq_refl) eq_refl (IOError kNone) [] None); reflexivity.
Defined.

Lemma close_never_flushes_witness :
  wp close (λ _ p',
    world p' = delete_TransactionDB 1%positive (destroyed [demo_cf] (world demo)) ∧
    chars p' = chars demo ∧ reusableTx_ (this p') = reusableTx_ (this demo) ∧
    open (this p') = false ∧ kinds (this p') = ∅ ∧ txnDb (this p') = None ∧
    (∀ n r, kinds (this demo) !! n = Some r → kindobjs p' !! r = None) ∧
    store_ok p' ∧ close p' = Done (tt, p')) demo.
Proof.
  assert (txnDb (this demo) = Some 1%positive) as Hd by (vm_compute; reflexivity).
  pose proof (proj2 (close_never_flushes demo 1%positive demo_ok demo_open Hd)) as H.
  replace (omap (handle_of demo) (umap_iter (kinds (this demo))).*2 : list ptr) with [demo_cf] in H
    by (vm_compute; reflexivity).
  exact H.
Defined.

Lemma kinds_dangle_after_close_witness :
  wp close (λ _ p',
    put (Some 0) demo_kind (Some (B "k")) 1 (Some (B "v")) 1 p' = Undef UseAfterFree ∧
    remove (Some 0) demo_kind (Some (B "k")) 1 p' = Undef UseAfterFree ∧
    get (Some 0) demo_kind (Some 0) (Some (B "k")) 1 p' = Undef UseAfterFree ∧
    putIfAbsent (Some 0) demo_kind (Some (B "k")) 1 (Some (B "v")) 1 p' = Undef UseAfterFree ∧
    findMinKey (Some 0) demo_kind (Some 0) p' = Undef UseAfterFree ∧
    compact (Some 0) demo_kind p' = Undef UseAfterFree) demo.
Proof.
  exact (kinds_dangle_after_close demo "default" demo_kind (Some 0) (B "k") (B "v") 0
    demo_ok demo_open ltac:(vm_compute; reflexivity)).
Defined.

(** The demo store with one value in it. *)
Definition demo_full : proc := run_demo (run_call None demo_kind (CPut (B "k") (B "old"))) demo.

Lemma demo_full_ok : store_ok demo_full ∧ open (this demo_full) = true ∧ kind_at demo_full demo_kind demo_cf.
Proof.
  split; [|split; [vm_compute; reflexivity|exists "default"%string; vm_compute; reflexivity]].
  pose proof (run_call_refines demo None demo_kind demo_cf (CPut (B "k") (B "old")) demo_ok
    demo_open demo_kind_at) as H.
  unfold wp in H. unfold demo_full, run_demo.
  destruct (run_call _ _ _ demo) as [[[[st n] res] p']|]; [apply H|done].
Qed.

Lemma putIfAbsent_leaks_the_old_value_witness :
  wp (run_call (Some 0) demo_kind (CPutIfAbsent (B "k") (B "new"))) (λ '(s, n, res) p',
    s = Some Status.AlreadyExists → n = None ∧ res = None ∧
    ∃ l, chars demo_full !! l = None ∧ chars p' = <[l := B "old"]> (chars demo_full)) demo_full.
Proof.
  exact (putIfAbsent_leaks_the_old_value demo_full 0 demo_kind demo_cf (B "k") (B "new") (B "old")
    (proj1 demo_full_ok) (proj1 (proj2 demo_full_ok)) (proj2 (proj2 demo_full_ok))
    ltac:(vm_compute; reflexivity) ltac:(discriminate)).
Defined.
