(* ===== verification/KueueSpec.v ===== *)
(** The queue of KueueImpl.v is a first-in first-out queue of values, kept in RocksDB.  The
    invariant ties the abstract queue to the write histories of its keys, and shows on the way
    that every [SingleDelete] it makes is of the documented kind. *)
From S2P Require Import Prelude Slice BigEndian RocksStatus StatusCode RocksDB KindImpl.
From S2P Require Import StoreImpl StoreLemmas StoreSpec StoreProps KueueImpl.

Local Open Scope Z_scope.

(** ** Histories of queue keys *)

(** A key that holds nothing and may be put once. *)
Definition idle (h : list wop) : Prop := clean_from false h = true.

Lemma idle_nil : idle [].
Proof. done. Qed.

Lemma idle_resolve h : idle h → resolve h = Some None.
Proof.
  destruct h as [|[v| |] h]; simpl; try done. unfold idle. simpl.
  intros H. unfold clean. by rewrite H.
Qed.

(** Put, then single-deleted: the documented use. *)
Lemma idle_cycle v h : idle h → idle (WSingleDelete :: WPut v :: h).
Proof. done. Qed.

Lemma idle_put_clean v h : idle h → clean (WPut v :: h) = true.
Proof. done. Qed.

#[export] Hint Resolve idle_nil idle_resolve idle_cycle idle_put_clean : hist_db.

Section Spec.
Context `{ES : ExternalSpec}.
Implicit Types (s : kproc).

(** ** The invariant *)

(** The keys in use hold the values of the queue in order, and all other keys are idle. *)
Definition holds (h : history) (cf : ptr) (first : Z) (q : list (list byte)) : Prop :=
  (∀ (i : nat) v, q !! i = Some v → ∃ h0,
     hget h cf (putU64BE (first + Z.of_nat i)) = WPut v :: h0 ∧ idle h0) ∧
  (∀ n, 0 <= n < 2 ^ 64 → n < first ∨ first + Z.of_nat (length q) <= n →
     idle (hget h cf (putU64BE n))).

Definition kueue_ok (r cf : ptr) (q : list (list byte)) s : Prop :=
  let k := kueue s in
  isValid_ k = true ∧ queueKind k = Some r ∧ kind_at (kp s) r cf ∧
  store_ok (kp s) ∧ open (this (kp s)) = true ∧
  0 <= minKey k ∧ maxKey k = minKey k + Z.of_nat (length q) ∧ maxKey k < 2 ^ 64 ∧
  count k = Z.of_nat (length q) ∧ Z.of_nat (length q) < 2 ^ 63 ∧
  holds (hist (world (kp s))) cf (minKey k) q.

Lemma holds_frame h h' cf first q :
  (∀ n, 0 <= n < 2 ^ 64 → hget h' cf (putU64BE n) = hget h cf (putU64BE n)) →
  0 <= first → first + Z.of_nat (length q) < 2 ^ 64 → holds h cf first q → holds h' cf first q.
Proof.
  intros Hh Hf Hb [H1 H2]. split.
  - intros i v Hi. pose proof (lookup_lt_Some _ _ _ Hi). rewrite Hh by lia. by apply H1.
  - intros n Hn Hout. rewrite Hh by done. by apply H2.
Qed.

Lemma key_ne cf m n :
  0 <= m < 2 ^ 64 → 0 <= n < 2 ^ 64 → m ≠ n → (cf, putU64BE m) ≠ (cf : ptr, putU64BE n).
Proof.
  intros Hm Hn Hne Heq. apply (f_equal snd) in Heq. by apply Hne, putU64BE_inj.
Qed.

(** One more value at the end. *)
Lemma holds_put h cf first q v :
  0 <= first → first + Z.of_nat (length q) < 2 ^ 64 → holds h cf first q →
  holds (hpush cf (putU64BE (first + Z.of_nat (length q))) (WPut v) h) cf first (q ++ [v]).
Proof.
  intros Hf Hb [H1 H2]. split.
  - intros i w Hi. apply lookup_snoc_Some in Hi as [[Hlt Hi]|[Heq <-]].
    + rewrite hget_hpush_ne by (apply key_ne; lia). by apply H1.
    + subst i. rewrite hget_hpush_eq. eexists. split; [done|]. apply H2; lia.
  - intros n Hn Hout. rewrite length_app in Hout. simpl in Hout.
    rewrite hget_hpush_ne by (apply key_ne; lia). apply H2; lia.
Qed.

(** The first value gone. *)
Lemma holds_take h cf first v q :
  0 <= first → first + Z.of_nat (length (v :: q)) < 2 ^ 64 → holds h cf first (v :: q) →
  holds (hpush cf (putU64BE first) WSingleDelete h) cf (first + 1) q.
Proof.
  intros Hf Hb [H1 H2]. simpl length in *. split.
  - intros i w Hi. pose proof (lookup_lt_Some _ _ _ Hi).
    rewrite hget_hpush_ne by (apply key_ne; lia).
    replace (first + 1 + Z.of_nat i) with (first + Z.of_nat (S i)) by lia. by apply H1.
  - intros n Hn Hout. destruct (decide (n = first)) as [->|Hne].
    + rewrite hget_hpush_eq. destruct (H1 0%nat v eq_refl) as (h0 & Hg & Hi).
      rewrite Z.add_0_r in Hg. by rewrite Hg.
    + rewrite hget_hpush_ne by (apply key_ne; lia). apply H2; lia.
Qed.

Lemma holds_front h cf first v q :
  holds h cf first (v :: q) → resolve (hget h cf (putU64BE first)) = Some (Some v).
Proof.
  intros [H1 _]. destruct (H1 0%nat v eq_refl) as (h0 & Hg & _).
  rewrite Z.add_0_r in Hg. by rewrite Hg.
Qed.

(** ** Calls of the store from the queue *)

Lemma wp_in_store {A} (m : M proc A) Q s :
  wp m (λ a p, Q a (mkKProc (kueue s) p)) (kp s) → wp (in_store m) Q s.
Proof. unfold wp, in_store. by destruct (m (kp s)) as [[a p]|]. Qed.

Lemma wp_getKindRef r Q s : queueKind (kueue s) = Some r → Q r s → wp getKindRef Q s.
Proof. intros Hr HQ. unfold getKindRef. wp_steps. rewrite Hr. by wp_steps. Qed.

(** The store after a call of the queue: in order, open, the kind where it was. *)
Definition store_kept (r cf : ptr) (p p' : proc) : Prop :=
  store_ok p' ∧ open (this p') = true ∧ kind_at p' r cf.

Lemma carried_store_kept r cf p p' :
  open (this p) = true → kind_at p r cf → store_ok p' → carried p p' → store_kept r cf p p'.
Proof.
  intros Ho Hk Hs Hc. split; [done|]. split; [by rewrite (carried_open p p')|].
  by eapply carried_kind_at.
Qed.

(** One write of the store: its code in the cell, all or nothing. *)
Definition write_post (r cf : ptr) (key : list byte) (o : wop) (p : proc) (st' : status_ptr)
    (p' : proc) : Prop :=
  store_kept r cf p p' ∧ chars p' = chars p ∧
  ∃ c, st' = Some c ∧ writes_spec (hist (world p)) cf key o c (hist (world p')).

Lemma store_put r cf p x n v :
  store_ok p → open (this p) = true → kind_at p r cf →
  wp (StoreImpl.put (Some x) r (Some (putU64BE n)) 8 (Some v) (len v))
    (write_post r cf (putU64BE n) (WPut v) p) p.
Proof.
  intros Hs Ho Hk. pose proof (run_call_refines p (Some x) r cf (CPut (putU64BE n) v) Hs Ho Hk) as H.
  apply wp_bind_inv in H. eapply wp_mono; [exact H|].
  intros st' p' (Hs' & Hc & code & a & Hsp & -> & _ & _ & Hch). split; [by apply carried_store_kept|].
  split; [exact Hch|]. exists code. split; [done|]. by inversion Hsp.
Qed.

Lemma store_singleRemove r cf p x n :
  store_ok p → open (this p) = true → kind_at p r cf →
  wp (singleRemove (Some x) r (Some (putU64BE n)) 8)
    (write_post r cf (putU64BE n) WSingleDelete p) p.
Proof.
  intros Hs Ho Hk.
  pose proof (run_call_refines p (Some x) r cf (CSingleRemove (putU64BE n)) Hs Ho Hk) as H.
  apply wp_bind_inv in H. eapply wp_mono; [exact H|].
  intros st' p' (Hs' & Hc & code & a & Hsp & -> & _ & _ & Hch). split; [by apply carried_store_kept|].
  split; [exact Hch|]. exists code. split; [done|]. by inversion Hsp.
Qed.

(** Reading the front of the queue: its value, or an error that is not [NotFound]. *)
Definition front_read (v : list byte) (c : Z) (a : option (list byte)) : Prop :=
  (c = Status.Ok ∧ a = answer v) ∨ (c ≠ Status.Ok ∧ c ≠ Status.NotFound ∧ a = None).

Lemma read_front h cf k v c a :
  resolve (hget h cf k) = Some (Some v) → read_spec h cf k c a → front_read v c a.
Proof.
  intros Hv Hrd. inversion Hrd as [v0 Hr|c0 Hc Hr]; subst.
  - left. by specialize (Hr _ Hv) as [= <-].
  - right. split_and!; [by apply positive_not_ok| |done]. intros ->. by specialize (Hr eq_refl _ Hv).
Qed.

Lemma store_get r cf p x n v :
  store_ok p → open (this p) = true → kind_at p r cf →
  resolve (hget (hist (world p)) cf (putU64BE n)) = Some (Some v) →
  wp (get (Some x) r (Some 0) (Some (putU64BE n)) 8)
    (λ '(st', len, res) p', store_kept r cf p p' ∧ hist (world p') = hist (world p) ∧
       ∃ c a m, st' = Some c ∧ len = Some m ∧ front_read v c a ∧ gave p p' a m res) p.
Proof.
  intros Hs Ho Hk Hv. eapply wp_mono; [exact (run_call_refines p (Some x) r cf (CGet (putU64BE n)) Hs Ho Hk)|].
  intros [[st' n'] res] p' (Hs' & Hc & code & a & Hsp & -> & m & -> & Hg).
  split; [by apply carried_store_kept|]. inversion Hsp; subst. split; [done|].
  exists code, a, m. split_and!; [done|done|by eapply read_front|done].
Qed.

(** Taking the front: read and single-deleted, or left where it is. *)
Lemma store_take r cf p x n v :
  store_ok p → open (this p) = true → kind_at p r cf →
  resolve (hget (hist (world p)) cf (putU64BE n)) = Some (Some v) →
  wp (singleRemoveIfPresent (Some x) r (Some 0) (Some (putU64BE n)) 8)
    (λ '(st', len, res) p', store_kept r cf p p' ∧
       ∃ c a m, st' = Some c ∧ len = Some m ∧ gave p p' a m res ∧ (a = answer v ∨ a = None) ∧
         (c = Status.Ok → a = answer v) ∧
         hist (world p') = if decide (c = Status.Ok)
                           then hpush cf (putU64BE n) WSingleDelete (hist (world p))
                           else hist (world p)) p.
Proof.
  intros Hs Ho Hk Hv.
  eapply wp_mono; [exact (run_call_refines p (Some x) r cf (CSingleRemoveIfPresent (putU64BE n)) Hs Ho Hk)|].
  intros [[st' n'] res] p' (Hs' & Hc & code & a & Hsp & -> & m & -> & Hg).
  split; [by apply carried_store_kept|]. exists code, a, m. split; [done|]. split; [done|].
  split; [done|]. inversion Hsp as [| | | | | |k0 c0 a0 h0 Hrw| | |]; subst.
  inversion Hrw as [c1 a1 Hne Hrd|c1 a1 h1 Hrd Hw]; subst.
  - apply (read_front _ _ _ v) in Hrd as [[? _]|(_ & _ & ->)]; [done| |done].
    rewrite decide_False by done. split_and!; [by right|done|done].
  - apply (read_front _ _ _ v) in Hrd as [[_ ->]|[? _]]; [|done|done].
    split; [by left|]. split; [done|]. inversion Hw; subst; [by rewrite decide_True|by rewrite decide_False].
Qed.
End Spec.

(** ** The abstract queue *)

Inductive kop :=
  | KPut (v : list byte)
  | KTake
  | KTakeFor (timeout : Z)
  | KReadNext (timeout : Z)
  | KErase (key : Z)
  | KClear.

(** What an operation tells its caller: a code; nothing (the status is left as it was); a
    code, the key read and a value; or a flag. *)
Inductive answers :=
  | ACode (c : Z)
  | ASilent
  | AValue (c : Z) (key : option Z) (a : option (list byte))
  | AFlag (b : bool).

Definition takes (op : kop) : Prop :=
  match op with KTake | KTakeFor _ => True | _ => False end.
(** Operations that give up after a while. *)
Definition waits_for (op : kop) : Prop :=
  match op with KTakeFor t | KReadNext t => 0 < t | _ => False end.

(** First in, first out, from a queue [q] whose front has the number [first] to one whose
    front has the number [first']. *)
Inductive fifo (first : Z) :
    list (list byte) → kop → answers → Z → list (list byte) → Prop :=
  | fifo_put q v : fifo first q (KPut v) (ACode Status.Ok) first (q ++ [v])
  | fifo_put_failed q v c : c ≠ Status.Ok → fifo first q (KPut v) (ACode c) first q
  | fifo_take v q op :
      takes op → fifo first (v :: q) op (AValue Status.Ok None (answer v)) (first + 1) q
  | fifo_take_failed v q op c a :
      takes op → c ≠ Status.Ok → a = answer v ∨ a = None →
      fifo first (v :: q) op (AValue c None a) first (v :: q)
  | fifo_read v q t :
      fifo first (v :: q) (KReadNext t) (AValue Status.Ok (Some first) (answer v)) first (v :: q)
  | fifo_read_failed v q t c :
      c ≠ Status.Ok → c ≠ Status.NotFound →
      fifo first (v :: q) (KReadNext t) (AValue c None None) first (v :: q)
  | fifo_timed_out op :
      waits_for op → fifo first [] op (AValue Status.TimedOut None None) first []
  | fifo_erase v q : fifo first (v :: q) (KErase first) (AFlag true) (first + 1) q
  | fifo_erase_failed q key : fifo first q (KErase key) (AFlag false) first q
  | fifo_clear q :
      q ≠ [] → fifo first q KClear (ACode Status.Ok) (first + Z.of_nat (length q)) []
  | fifo_clear_empty : fifo first [] KClear ASilent first []
  | fifo_clear_failed q1 q2 c :
      c ≠ Status.Ok → q2 ≠ [] →
      fifo first (q1 ++ q2) KClear (ACode c) (first + Z.of_nat (length q1)) q2.

(** When an operation finishes: there is something to take or it gives up, an [erase] names a
    key that is there, and a [put] has a key left. *)
Definition ready (first : Z) (q : list (list byte)) (op : kop) : Prop :=
  match op with
  | KPut _ => first + Z.of_nat (length q) + 1 < 2 ^ 64 ∧ Z.of_nat (length q) + 1 < 2 ^ 63
  | KTake => q ≠ []
  | KTakeFor t | KReadNext t => q ≠ [] ∨ 0 < t
  | KErase key => q ≠ [] ∨ key ≠ first
  | KClear => True
  end.

Section Fifo.
Context `{ES : ExternalSpec}.
Implicit Types (s : kproc).

(** What the calls return. *)
Inductive kout :=
  | OStatus (st : status_ptr)
  | OValue (st : status_ptr) (len key : option Z) (res : option ptr)
  | OFlag (b : bool).

Definition run_kop (st : status_ptr) (op : kop) : M kproc kout :=
  match op with
  | KPut v => st ← put st (Some v) (len v); mret (OStatus st)
  | KTake => '(st, n, res) ← take st (Some 0); mret (OValue st n None res)
  | KTakeFor t => '(st, n, res) ← take_timeout st (Some 0) t; mret (OValue st n None res)
  | KReadNext t => '(st, n, key, res) ← readNext st (Some 0) (Some 0) t; mret (OValue st n key res)
  | KErase key => b ← erase key; mret (OFlag b)
  | KClear => st ← clear st; mret (OStatus st)
  end.

(** The answer as the caller sees it: codes in the status cell, a value as a fresh array. *)
Definition delivers (st : status_ptr) (a : answers) (o : kout) (p p' : proc) : Prop :=
  match a, o with
  | ACode c, OStatus st' => st' = assign c st ∧ chars p' = chars p
  | ASilent, OStatus st' => st' = st ∧ chars p' = chars p
  | AValue c key v, OValue st' n key' res =>
      st' = assign c st ∧ (key ≠ None → key' = key) ∧ ∃ m, n = Some m ∧ gave p p' v m res
  | AFlag b, OFlag b' => b' = b ∧ chars p' = chars p
  | _, _ => False
  end.

(** What a finished operation leaves: an answer of the abstract queue, and the invariant. *)
Definition queue_post (r cf : ptr) (q : list (list byte)) (st : status_ptr) (op : kop) s
    (o : kout) s' : Prop :=
  ∃ a q', fifo (minKey (kueue s)) q op a (minKey (kueue s')) q' ∧ kueue_ok r cf q' s' ∧
    delivers st a o (kp s) (kp s').

(** A change that does not touch the stored histories. *)
Lemma kueue_ok_same r cf q s p :
  kueue_ok r cf q s → store_kept r cf (kp s) p → hist (world p) = hist (world (kp s)) →
  kueue_ok r cf q (mkKProc (kueue s) p).
Proof.
  intros (Hv & Hr & Hk & Hs & Ho & Hmin & Hmax & Hb & Hc & Hl & Hh) (Hs' & Ho' & Hk') Hhist.
  unfold kueue_ok; simpl. rewrite Hhist. done.
Qed.

Lemma set_maxKey_back k n :
  0 <= maxKey k < 2 ^ 64 - 1 → n = maxKey k →
  set_maxKey (u64 (maxKey (set_maxKey (u64 (n + 1)) k) - 1)) (set_maxKey (u64 (n + 1)) k) = k.
Proof.
  intros Hb ->. unfold set_maxKey. simpl. rewrite (u64_small (maxKey k + 1)) by lia.
  replace (maxKey k + 1 - 1) with (maxKey k) by lia. rewrite u64_small by lia. by destruct k.
Qed.

Lemma put_fifo r cf q st v s :
  kueue_ok r cf q s → ready (minKey (kueue s)) q (KPut v) →
  wp (run_kop st (KPut v)) (queue_post r cf q st (KPut v) s) s.
Proof.
  intros Hok [Hb1 Hb2]. pose proof Hok as (Hv & Hr & Hk & Hs & Ho & Hmin & Hmax & Hb & Hc & Hl & Hh).
  unfold run_kop, put. wp_steps. rewrite Hv. wp_steps. eapply wp_getKindRef; [exact Hr|].
  wp_steps. apply wp_in_store. eapply wp_mono; [by apply (store_put r cf)|].
  intros state p' (Hkept & Hch & c & -> & Hw). cbn beta.
  set (s1 := with_kueue _ s). destruct (decide (Some c = Some Status.Ok)) as [[= ->]|Hne]; wp_steps.
  - exists (ACode Status.Ok), (q ++ [v]). split; [constructor|].
    split; [|by split]. destruct Hkept as (Hs' & Ho' & Hk').
    inversion Hw as [Heq Heqh|]; [|done]. unfold kueue_ok; simpl.
    rewrite length_app. simpl length. rewrite (u64_small (maxKey (kueue s) + 1)) by lia.
    rewrite i64_small by lia. simpl in Heqh. rewrite <- Heqh, Hmax.
    split_and!; try done; try lia. apply holds_put; [done|lia|done].
  - exists (ACode c), q. assert (c ≠ Status.Ok) as Hc' by congruence.
    split; [by constructor|]. split; [|by split]. unfold with_kueue; cbn [kueue kp s1].
    unfold s1, with_kueue; cbn [kueue kp]. rewrite set_maxKey_back by (done || lia).
    apply kueue_ok_same; [done|done|]. by inversion Hw.
Qed.

(** The counters once the front is gone. *)
Lemma pass_front_ok r cf q v s p :
  kueue_ok r cf (v :: q) s → store_kept r cf (kp s) p →
  hist (world p) = hpush cf (putU64BE (minKey (kueue s))) WSingleDelete (hist (world (kp s))) →
  wp pass_front (λ _ s', kp s' = p ∧ minKey (kueue s') = minKey (kueue s) + 1 ∧
    kueue_ok r cf q s') (mkKProc (kueue s) p).
Proof.
  intros (Hv & Hr & Hk & Hs & Ho & Hmin & Hmax & Hb & Hc & Hl & Hh) (Hs' & Ho' & Hk') Hhist.
  unfold pass_front. wp_steps. split; [done|]. simpl in *.
  rewrite u64_small by lia. split; [done|]. unfold kueue_ok; simpl.
  rewrite u64_small by lia. rewrite i64_small by lia. rewrite Hhist.
  split_and!; try done; try lia. apply (holds_take _ _ _ v); [done|simpl; lia|done].
Qed.

Lemma take_front_fifo r cf q v st op s :
  kueue_ok r cf (v :: q) s → takes op →
  wp (take_front st (Some 0)) (λ '(st', n, res) s',
    queue_post r cf (v :: q) st op s (OValue st' n None res) s') s.
Proof.
  intros Hok Hop. pose proof Hok as (Hv & Hr & Hk & Hs & Ho & Hmin & Hmax & Hb & Hc & Hl & Hh).
  unfold take_front. wp_steps. eapply wp_getKindRef; [exact Hr|]. wp_steps. apply wp_in_store.
  eapply wp_mono; [apply (store_take r cf _ _ _ v); try done; by apply holds_front in Hh|].
  intros [[state n] res] p' (Hkept & c & a & m & -> & -> & Hg & Ha & Hok' & Hhist). cbn beta iota.
  destruct (decide (Some c = Some Status.Ok)) as [[= ->]|Hne].
  - apply wp_bind. rewrite decide_True in Hhist by done.
    eapply wp_mono; [by apply (pass_front_ok r cf q v)|]. intros _ s' (<- & Hmk & Hok''). wp_steps.
    specialize (Hok' eq_refl) as ->.
    exists (AValue Status.Ok None (answer v)), q. split; [rewrite Hmk; by constructor|]. split; [done|].
    split; [done|]. split; [done|]. by exists m.
  - assert (c ≠ Status.Ok) as Hc' by congruence. rewrite decide_False in Hhist by done. wp_steps.
    exists (AValue c None a), (v :: q). split; [by constructor|].
    split; [by apply kueue_ok_same|]. split; [done|]. split; [done|]. by exists m.
Qed.

Lemma store_kept_refl r cf q s : kueue_ok r cf q s → store_kept r cf (kp s) (kp s).
Proof. by intros (_ & _ & Hk & Hs & Ho & _). Qed.

(** A wait with something to take is over at once; with nothing, it ends when time is up. *)
Lemma await_spec r cf q t Q s :
  kueue_ok r cf q s → q ≠ [] ∨ 0 < t → Q (bool_decide (q ≠ [])) s → wp (await t) Q s.
Proof.
  intros (_ & _ & _ & _ & _ & _ & _ & _ & Hc & _) Hq HQ. unfold await. wp_steps. rewrite Hc.
  destruct q as [|v q].
  - destruct Hq as [?|Ht]; [done|]. rewrite (bool_decide_true (0 < t)) by done. wp_steps.
    rewrite bool_decide_false in HQ by (intros H; by apply H). by rewrite bool_decide_false by (simpl; lia).
  - rewrite bool_decide_true in HQ by done.
    rewrite (bool_decide_true (0 < Z.of_nat (length (v :: q)))) by (simpl; lia).
    by case_bool_decide; wp_steps.
Qed.

Lemma timed_out_fifo r cf st op s n key :
  kueue_ok r cf [] s → waits_for op → n = Some 0 →
  queue_post r cf [] st op s (OValue (assign Status.TimedOut st) n key None) s.
Proof.
  intros Hok Hw ->. exists (AValue Status.TimedOut None None), [].
  split; [by constructor|]. split; [done|]. split; [done|]. split; [done|].
  exists 0. split; [done|]. by split.
Qed.

Lemma take_fifo r cf q st op s :
  kueue_ok r cf q s → takes op → ready (minKey (kueue s)) q op →
  wp (run_kop st op) (queue_post r cf q st op s) s.
Proof.
  intros Hok Ht Hrd. pose proof Hok as (Hv & _ & _ & _ & _ & _ & _ & _ & Hc & _).
  destruct op as [|  |t| | |]; try done; unfold run_kop, take, take_timeout; wp_steps;
    rewrite Hv; wp_steps.
  - simpl in Hrd. destruct q as [|v q]; [done|].
    rewrite Hc, bool_decide_false by (simpl; lia).
    eapply wp_mono; [by apply (take_front_fifo r cf q v st KTake)|].
    intros [[st' n] res] s' H. by wp_steps.
  - eapply await_spec; [done|done|]. destruct q as [|v q].
    + rewrite bool_decide_false by (intros H; by apply H). wp_steps.
      apply timed_out_fifo; [done| |done]. by destruct Hrd.
    + rewrite bool_decide_true by done.
      eapply wp_mono; [by apply (take_front_fifo r cf q v st (KTakeFor t))|].
      intros [[st' n] res] s' H. by wp_steps.
Qed.

Lemma readNext_fifo r cf q st t s :
  kueue_ok r cf q s → ready (minKey (kueue s)) q (KReadNext t) →
  wp (run_kop st (KReadNext t)) (queue_post r cf q st (KReadNext t) s) s.
Proof.
  intros Hok Hrd. pose proof Hok as (Hv & Hr & Hk & Hs & Ho & Hmin & Hmax & Hb & Hc & Hl & Hh).
  unfold run_kop, readNext. wp_steps. rewrite Hv. wp_steps.
  eapply await_spec; [done|done|]. destruct q as [|v q].
  - rewrite bool_decide_false by (intros H; by apply H). wp_steps.
    apply timed_out_fifo; [done| |done]. by destruct Hrd.
  - rewrite bool_decide_true by done. wp_steps. eapply wp_getKindRef; [exact Hr|]. wp_steps.
    apply wp_in_store.
    eapply wp_mono; [apply (store_get r cf _ _ _ v); try done; by apply holds_front in Hh|].
    intros [[state n] res] p' (Hkept & Hhist & c & a & m & -> & -> & Hf & Hg). wp_steps.
    destruct Hf as [[-> ->]|(Hne & Hnf & ->)].
    + rewrite decide_True by done.
      exists (AValue Status.Ok (Some (minKey (kueue s))) (answer v)), (v :: q).
      split; [constructor|]. split; [by apply kueue_ok_same|]. split; [done|]. split; [done|].
      by exists m.
    + rewrite decide_False by congruence. exists (AValue c None None), (v :: q).
      split; [by constructor|]. split; [by apply kueue_ok_same|]. split; [done|].
      split; [done|]. by exists m.
Qed.

Lemma erase_fifo r cf q st key s :
  kueue_ok r cf q s → ready (minKey (kueue s)) q (KErase key) →
  wp (run_kop st (KErase key)) (queue_post r cf q st (KErase key) s) s.
Proof.
  intros Hok Hrd. pose proof Hok as (Hv & Hr & Hk & Hs & Ho & Hmin & Hmax & Hb & Hc & Hl & Hh).
  unfold run_kop, erase. wp_steps. rewrite Hv. simpl andb.
  destruct (decide (key = minKey (kueue s))) as [->|Hne].
  2: { rewrite bool_decide_false by done. wp_steps. exists (AFlag false), q.
    split; [constructor|]. by split. }
  rewrite bool_decide_true by done. wp_steps. rewrite bool_decide_true by done. wp_steps.
  destruct q as [|v q]; [by destruct Hrd|].
  eapply wp_getKindRef; [exact Hr|]. wp_steps. apply wp_in_store.
  eapply wp_mono; [by apply (store_singleRemove r cf)|].
  intros state p' (Hkept & Hch & c & -> & Hw). cbn beta.
  destruct (decide (Some c = Some Status.Ok)) as [[= ->]|Hne].
  - apply wp_bind. eapply wp_mono.
    + apply (pass_front_ok r cf q v); [done|done|]. by inversion Hw.
    + intros _ s' (<- & Hmk & Hok'). wp_steps. rewrite bool_decide_true by done.
      exists (AFlag true), q. split; [rewrite Hmk; constructor|]. by split.
  - wp_steps. rewrite bool_decide_false by done. exists (AFlag false), (v :: q).
    split; [constructor|]. split; [|by split]. apply kueue_ok_same; [done|done|].
    inversion Hw; congruence.
Qed.

(** The loop of [clear] takes values off until none is left or the store refuses one. *)
Lemma clear_loop_spec r cf n q x s :
  kueue_ok r cf q s → (length q < n)%nat →
  wp (clear_loop n (Some x) r) (λ st' s', ∃ q1 q2, q = q1 ++ q2 ∧ kueue_ok r cf q2 s' ∧
    minKey (kueue s') = minKey (kueue s) + Z.of_nat (length q1) ∧
    chars (kp s') = chars (kp s) ∧
    ((q2 = [] ∧ (q1 = [] → st' = Some x) ∧ (q1 ≠ [] → st' = Some Status.Ok)) ∨
     ∃ c, c ≠ Status.Ok ∧ q2 ≠ [] ∧ st' = Some c)) s.
Proof.
  revert q x s. induction n as [|n IH]; intros q x s Hok Hn; [lia|].
  pose proof Hok as (Hv & Hr & Hk & Hs & Ho & Hmin & Hmax & Hb & Hc & Hl & Hh).
  cbn [clear_loop]. wp_steps. rewrite Hc. destruct q as [|v q].
  - wp_steps. exists [], []. split; [done|]. split; [done|]. split; [simpl; lia|].
    split; [done|]. left. by split_and!.
  - rewrite bool_decide_true by (simpl; lia). wp_steps. apply wp_in_store.
    eapply wp_mono; [by apply (store_singleRemove r cf)|].
    intros state p' (Hkept & Hch & c & -> & Hw). cbn beta.
    destruct (decide (Some c = Some Status.Ok)) as [[= ->]|Hne].
    + apply wp_bind. eapply wp_mono.
      { apply (pass_front_ok r cf q v); [done|done|]. by inversion Hw. }
      intros _ s' (Hp & Hmk & Hok'). eapply wp_mono; [apply (IH q Status.Ok s'); [done|simpl in Hn; lia]|].
      intros st' s2 (q1 & q2 & -> & Hok2 & Hmk2 & Hch2 & Hor). exists (v :: q1), q2.
      split; [done|]. split; [done|]. split; [simpl length; lia|]. split; [by rewrite Hch2, Hp|].
      destruct Hor as [(-> & He & Hne)|Hor]; [left|by right].
      split; [done|]. split; [done|]. intros _. destruct q1; [by apply He|by apply Hne].
    + wp_steps. assert (c ≠ Status.Ok) as Hc' by congruence.
      exists [], (v :: q). split; [done|].
      split; [|split; [simpl; lia|split; [done|by right; exists c]]].
      apply kueue_ok_same; [done|done|]. by inversion Hw.
Qed.

Lemma clear_fifo r cf q st s :
  kueue_ok r cf q s → wp (run_kop st KClear) (queue_post r cf q st KClear s) s.
Proof.
  intros Hok. pose proof Hok as (Hv & Hr & Hk & Hs & Ho & Hmin & Hmax & Hb & Hc & Hl & Hh).
  unfold run_kop, clear. wp_steps. rewrite Hv. wp_steps. eapply wp_getKindRef; [exact Hr|].
  wp_steps. rewrite Hc, Nat2Z.id. eapply wp_mono; [apply (clear_loop_spec r cf _ q (default Status.Ok st)); [done|lia]|].
  intros st' s' (q1 & q2 & -> & Hok' & Hmk & Hch & Hor). wp_steps.
  destruct Hor as [(-> & He & Hne)|(c & Hc' & Hq2 & ->)].
  - destruct q1 as [|v q1].
    + rewrite (He eq_refl). exists ASilent, []. rewrite Hmk, Z.add_0_r. split; [constructor|]. split; [done|].
      split; [by destruct st|done].
    + rewrite (Hne ltac:(done)). exists (ACode Status.Ok), []. rewrite app_nil_r, Hmk.
      split; [by constructor|]. by split.
  - exists (ACode c), q2. rewrite Hmk. split; [by constructor|]. by split.
Qed.

Lemma run_kop_fifo r cf q st op s :
  kueue_ok r cf q s → ready (minKey (kueue s)) q op →
  wp (run_kop st op) (queue_post r cf q st op s) s.
Proof.
  intros Hok Hrd. destruct op.
  - by apply put_fifo.
  - by apply take_fifo.
  - by apply take_fifo.
  - by apply readNext_fifo.
  - by apply erase_fifo.
  - by apply clear_fifo.
Qed.
End Fifo.

Lemma waits_forever `{External} st op s :
  isValid_ (kueue s) = true → count (kueue s) = 0 →
  op = KTake ∨ (∃ t, t <= 0 ∧ (op = KTakeFor t ∨ op = KReadNext t)) → run_kop st op s = Undef WaitsForever.
Proof.
  intros Hv Hc [->|(t & Ht & [-> | ->])]; cbn [run_kop];
    unfold take, take_timeout, readNext, await, gets, mbind, M_bind; rewrite Hv; cbn; rewrite Hc; try done;
    by rewrite (bool_decide_false (0 < t)) by lia.
Qed.

(** C3. The operations of a queue that nobody else uses refine the abstract first-in first-out
    queue. From a queue holding [q], when there is a key and a count left for one more value,
    [put] appends it; when [q] is not empty, both forms of [take] return and remove the oldest
    value, and [readNext] returns it with its key and leaves it; a wait with a timeout on an
    empty queue reports [TimedOut], and one without a timeout never ends; [erase] of the
    front's key removes it, and of a key that is not the next one to leave answers [false] and
    does nothing, if it is not the key an empty queue will use next; [clear] removes
    everything. An operation that fails leaves the queue as it was ([clear]: what it has not
    removed). Each of these operations but the waits without end finishes, and keeps [count],
    the keys and the write histories of the store in step; every [SingleDelete] it makes is of
    a key put once. *)
Theorem kueue_refines_fifo `{ES : ExternalSpec} (r cf : ptr) (q : list (list byte))
    (st : status_ptr) (op : kop) (s : kproc) :
  kueue_ok r cf q s →
  (ready (minKey (kueue s)) q op → wp (run_kop st op) (queue_post r cf q st op s) s) ∧
  (q = [] → op = KTake ∨ (∃ t, t <= 0 ∧ (op = KTakeFor t ∨ op = KReadNext t)) →
   run_kop st op s = Undef WaitsForever).
Proof.
  intros Hok. split; [by apply run_kop_fifo|]. intros -> Hop.
  destruct Hok as (Hv & _ & _ & _ & _ & _ & _ & _ & Hc & _). by apply waits_forever.
Qed.

(** ** Runs of a queue *)

Section Runs.
Context `{ES : ExternalSpec}.

(** A run, as a list of operations with the answers the abstract queue gave. *)
Inductive fifo_run : Z → list (list byte) → list (kop * answers) → list (list byte) → Prop :=
  | run_nil first q : fifo_run first q [] q
  | run_cons first first' q1 q2 q3 op a l :
      fifo first q1 op a first' q2 → fifo_run first' q2 l q3 →
      fifo_run first q1 ((op, a) :: l) q3.

(** The values that [put]s reported as put, and that [take]s reported as taken (null for an
    empty value). *)
Definition put_values (l : list (kop * answers)) : list (option (list byte)) :=
  omap (λ oa, match oa with
              | (KPut v, ACode c) => if decide (c = Status.Ok) then Some (answer v) else None
              | _ => None end) l.
Definition taken_values (l : list (kop * answers)) : list (option (list byte)) :=
  omap (λ oa, match oa with
              | (KTake, AValue c _ a) | (KTakeFor _, AValue c _ a) =>
                  if decide (c = Status.Ok) then Some a else None
              | _ => None end) l.

(** A client that puts, takes and peeks, and gives up on an empty queue. *)
Definition polling (op : kop) : Prop :=
  match op with KPut _ => True | KTakeFor t | KReadNext t => 0 < t | _ => False end.

Lemma fifo_order first q l q' :
  fifo_run first q l q' → Forall (λ oa, polling oa.1) l →
  (answer <$> q) ++ put_values l = taken_values l ++ (answer <$> q').
Proof.
  unfold put_values, taken_values.
  induction 1 as [first q|first first' q1 q2 q3 op a l Hf Hr IH]; intros Hn; [by rewrite app_nil_r|].
  inversion_clear Hn as [|? ? Hop Hn']. specialize (IH Hn'). simpl in Hop.
  inversion Hf; subst; cbn [omap list_omap fmap list_fmap] in *; try done.
  - rewrite decide_True by done. rewrite fmap_app in IH. simpl in IH.
    by rewrite <- app_assoc in IH.
  - by rewrite decide_False.
  - destruct op; try done; rewrite decide_True by done; simpl; by rewrite IH.
  - destruct op; try done; by rewrite decide_False.
  - by destruct op.
Qed.

Lemma fifo_length first q op a first' q' :
  fifo first q op a first' q' →
  first' + Z.of_nat (length q') <= first + Z.of_nat (length q) + 1 ∧
  (length q' <= S (length q))%nat.
Proof. inversion 1; subst; rewrite ?length_app; simpl; lia. Qed.

Fixpoint run_kops (st : status_ptr) (l : list kop) : M kproc (list kout) :=
  match l with
  | [] => mret []
  | op :: l' => o ← run_kop st op; os ← run_kops st l'; mret (o :: os)
  end.

Lemma run_kops_fifo r cf st l q s :
  kueue_ok r cf q s → Forall polling l →
  maxKey (kueue s) + Z.of_nat (length l) < 2 ^ 64 →
  Z.of_nat (length q) + Z.of_nat (length l) < 2 ^ 63 →
  wp (run_kops st l) (λ os s', length os = length l ∧ ∃ ans q',
    length ans = length l ∧ fifo_run (minKey (kueue s)) q (zip l ans) q' ∧
    kueue_ok r cf q' s') s.
Proof.
  revert q s. induction l as [|op l IH]; intros q s Hok Hp Hb1 Hb2; cbn [run_kops].
  - apply wp_ret. split; [done|]. exists [], q. split; [done|]. split; [constructor|done].
  - inversion_clear Hp as [|? ? Hop Hp']. simpl length in *.
    assert (maxKey (kueue s) = minKey (kueue s) + Z.of_nat (length q)) as Hmax by apply Hok.
    apply wp_bind. eapply wp_mono; [apply (run_kop_fifo r cf q); [done|]|].
    { destruct op; simpl in *; try done; [lia|by right|by right]. }
    intros o s' (a & q' & Hf & Hok' & _). apply wp_bind.
    assert (maxKey (kueue s') = minKey (kueue s') + Z.of_nat (length q')) as Hmax' by apply Hok'.
    destruct (fifo_length _ _ _ _ _ _ Hf).
    eapply wp_mono; [apply (IH q'); [done|done|lia|lia]|].
    intros os s2 (Hlen & ans & q2 & Hlen2 & Hrun & Hok2). wp_steps.
    split; [simpl; lia|]. exists (a :: ans), q2. split; [simpl; lia|].
    split; [by eapply run_cons|done].
Qed.
End Runs.

(** First in, first out over whole runs: however many values a client puts, takes and
    peeks at (with timeouts), as long as the 64-bit keys last every operation finishes, and
    the values that were in the queue followed by the values reported as put are exactly the
    values reported as taken followed by the values still in the queue, in that order. *)
Theorem kueue_run_is_fifo `{ES : ExternalSpec} (r cf : ptr) (st : status_ptr) (l : list kop)
    (q : list (list byte)) (s : kproc) :
  kueue_ok r cf q s → Forall polling l →
  maxKey (kueue s) + Z.of_nat (length l) < 2 ^ 64 →
  Z.of_nat (length q) + Z.of_nat (length l) < 2 ^ 63 →
  wp (run_kops st l) (λ os s', ∃ ans q', length ans = length l ∧
    fifo_run (minKey (kueue s)) q (zip l ans) q' ∧ kueue_ok r cf q' s' ∧
    (answer <$> q) ++ put_values (zip l ans) = taken_values (zip l ans) ++ (answer <$> q')) s.
Proof.
  intros Hok Hp Hb1 Hb2. eapply wp_mono; [by apply (run_kops_fifo r cf st l q)|].
  intros os s' (_ & ans & q' & Hlen & Hrun & Hok'). exists ans, q'.
  split; [done|]. split; [done|]. split; [done|].
  eapply fifo_order; [done|]. clear Hrun. revert ans Hlen.
  induction Hp as [|op l Hop Hp IH]; intros [|a ans] Hlen; try done; constructor; [done|].
  apply IH; simpl in *; lia.
Qed.

(** [erase] does not check that the queue holds anything: on an empty queue, erasing the
    key the next [put] will use is accepted by the store, and [count] goes below 0.  The next
    [put] then stores its value under a key that is already passed over and brings [count] to
    0: the value is in the store, the queue is empty, and [take] waits. *)
Theorem erase_on_empty_strands_next_value `{ES : ExternalSpec} (r cf : ptr) (x : Z)
    (st : status_ptr) (v : list byte) (s : kproc) :
  kueue_ok r cf [] s → minKey (kueue s) + 1 < 2 ^ 64 →
  wp (b ← erase (minKey (kueue s)); st' ← put (Some x) (Some v) (len v); mret (b, st'))
    (λ '(b, st') s', b = true → st' = Some Status.Ok →
      isEmpty (kueue s') = true ∧ maxKey (kueue s') = minKey (kueue s') ∧
      resolve (hget (hist (world (kp s'))) cf (putU64BE (minKey (kueue s') - 1))) = Some (Some v) ∧
      take st (Some 0) s' = Undef WaitsForever) s.
Proof.
  intros Hok Hb'. pose proof Hok as (Hv & Hr & Hk & Hs & Ho & Hmin & Hmax & Hb & Hc & Hl & Hh).
  simpl in Hmax, Hc. unfold erase. wp_steps. rewrite Hv. simpl andb.
  rewrite !bool_decide_true by done. wp_steps. rewrite bool_decide_true by done. wp_steps.
  eapply wp_getKindRef; [exact Hr|]. wp_steps. apply wp_in_store.
  eapply wp_mono; [by apply (store_singleRemove r cf)|].
  intros state p' ((Hs' & Ho' & Hk') & _ & c & -> & _). cbn beta.
  assert (∀ s1 b, isValid_ (kueue s1) = true → queueKind (kueue s1) = Some r → kp s1 = p' →
    (b = true → minKey (kueue s1) = minKey (kueue s) + 1 ∧ maxKey (kueue s1) = minKey (kueue s) ∧
       count (kueue s1) = -1) →
    wp (put (Some x) (Some v) (len v)) (λ a, wp (mret (b, a)) (λ '(b, st') s',
      b = true → st' = Some Status.Ok →
      isEmpty (kueue s') = true ∧ maxKey (kueue s') = minKey (kueue s') ∧
      resolve (hget (hist (world (kp s'))) cf (putU64BE (minKey (kueue s') - 1))) = Some (Some v) ∧
      take st (Some 0) s' = Undef WaitsForever)) s1) as Hput.
  { intros s1 b Hv1 Hr1 <- Hb1. unfold put. wp_steps. rewrite Hv1. wp_steps.
    eapply wp_getKindRef; [exact Hr1|]. wp_steps. apply wp_in_store.
    eapply wp_mono; [by apply (store_put r cf)|].
    intros state p2 (_ & _ & c2 & -> & Hw). cbn beta.
    destruct (decide (Some c2 = Some Status.Ok)) as [[= ->]|Hne]; wp_steps; intros -> Hst;
      [|by injection Hst].
    destruct (Hb1 eq_refl) as (Hm & Hx & Hcnt). inversion Hw as [Hw1 Hw2|]; [|done].
    unfold isEmpty, size, take, with_kueue, mbind, M_bind, gets. simpl in *.
    rewrite Hcnt, Hv1, Hm, <- Hw2, Hx. rewrite u64_small by lia.
    replace (minKey (kueue s) + 1 - 1) with (minKey (kueue s)) by lia.
    by rewrite hget_hpush_eq. }
  destruct (decide (Some c = Some Status.Ok)) as [[= ->]|Hne].
  - unfold pass_front. wp_steps. rewrite bool_decide_true by done.
    apply (Hput _ true); try done. intros _. simpl. rewrite u64_small by lia.
    split; [done|]. split; [lia|]. rewrite Hc. done.
  - wp_steps. rewrite bool_decide_false by done. by apply (Hput _ false).
Qed.
