(* ===== verification/KueueRecovery.v ===== *)
(** A queue made again over a family that already holds one: the constructor of KueueImpl.v
    finds the keys in use from the ends of the key space. *)
From S2P Require Import Prelude Slice BigEndian RocksStatus StatusCode RocksDB KindImpl.
From S2P Require Import StoreImpl StoreLemmas StoreSpec StoreProps StoreMaintenance.
From S2P Require Import StoreLifecycle KueueImpl KueueSpec.

Local Open Scope Z_scope.

Section Recovery.
Context `{ES : ExternalSpec}.
Implicit Types (p : proc).

(** The family holds the keys of the queue [q] from [first] on, and no others. *)
Definition only_queue (h : history) (cf : ptr) (first : Z) (q : list (list byte)) : Prop :=
  ∀ k, visible h cf k → ∃ i : nat, (i < length q)%nat ∧ k = putU64BE (first + Z.of_nat i).

Lemma holds_visible h cf first q (i : nat) :
  holds h cf first q → (i < length q)%nat → visible h cf (putU64BE (first + Z.of_nat i)).
Proof.
  intros [H1 _] Hi. destruct (lookup_lt_is_Some_2 q i Hi) as [v Hv].
  destruct (H1 i v Hv) as (h0 & Hg & _). exists v. by rewrite Hg.
Qed.

Lemma least_is_first h cf first q k :
  0 <= first → first + Z.of_nat (length q) < 2 ^ 64 → holds h cf first q →
  only_queue h cf first q → least_key h cf k → q ≠ [] ∧ k = putU64BE first.
Proof.
  intros Hf Hb Hh Ho [Hv Hle]. destruct (Ho k Hv) as (i & Hi & ->). destruct q as [|v q]; [simpl in Hi; lia|].
  split; [done|]. specialize (Hle _ (holds_visible h cf first (v :: q) 0 Hh ltac:(simpl; lia))).
  simpl length in *. rewrite lex_putU64BE in Hle by lia. f_equal.
  destruct (Z.compare_spec (first + Z.of_nat i) (first + Z.of_nat 0)); try done; lia.
Qed.

Lemma greatest_is_last h cf first q k :
  0 <= first → first + Z.of_nat (length q) < 2 ^ 64 → holds h cf first q →
  only_queue h cf first q → greatest_key h cf k →
  q ≠ [] ∧ k = putU64BE (first + Z.of_nat (length q) - 1).
Proof.
  intros Hf Hb Hh Ho [Hv Hle]. destruct (Ho k Hv) as (i & Hi & ->). destruct q as [|v q]; [simpl in Hi; lia|].
  split; [done|]. specialize (Hle _ (holds_visible h cf first (v :: q) (length q) Hh ltac:(simpl; lia))).
  simpl length in *. rewrite lex_putU64BE in Hle by lia. f_equal.
  destruct (Z.compare_spec (first + Z.of_nat (length q)) (first + Z.of_nat i)); try done; lia.
Qed.

Lemma no_key_no_queue h cf first q :
  holds h cf first q → (∀ k, ¬ visible h cf k) → q = [].
Proof.
  intros Hh Hn. destruct q as [|v q]; [done|]. exfalso.
  by apply (Hn _ (holds_visible h cf first (v :: q) 0 Hh ltac:(simpl; lia))).
Qed.

(** A search changes nothing a later one depends on. *)
Lemma read_only_kept p p' r cf d :
  read_only p p' → open (this p) = true → kind_at p r cf → txnDb (this p) = Some d →
  open (this p') = true ∧ kind_at p' r cf ∧ txnDb (this p') = Some d ∧
  hist (world p') = hist (world p).
Proof. intros (c & w & -> & [Hh _])%read_only_inv Ho [n Hk] Hd. split_and!; try done. by exists n. Qed.

(** An empty queue may start again anywhere. *)
Lemma holds_restart h cf first first' : holds h cf first [] → holds h cf first' [].
Proof.
  intros [_ H]. split; [intros i v Hi; by rewrite lookup_nil in Hi|].
  intros n Hn _. apply H; [done|simpl; lia].
Qed.

(** Reading back the array a search returned. *)
Definition found_key (q : list (list byte)) (n : Z) : option (list byte) :=
  match q with [] => None | _ => Some (putU64BE n) end.

Lemma decode_found p p' q n m res Q :
  0 <= n < 2 ^ 64 ∨ q = [] → gave p p' (found_key q n) m res →
  Q (match q with [] => None | _ => Some n end) p' → wp (decode_key res m) Q p'.
Proof.
  intros Hn [Hm Hg] HQ. destruct q as [|v q]; simpl in *.
  { destruct Hg as [-> _]. by apply wp_ret. }
  destruct Hn as [Hn|?]; [|done].
  destruct Hg as (l & -> & _ & Hch). unfold decode_key.
  rewrite bool_decide_true by (by rewrite Hm). apply wp_bind.
  apply (wp_done _ _ _ (putU64BE n) p'); [unfold deref_chars; by rewrite Hch, lookup_insert_eq|].
  apply wp_bind. eapply wp_lift_outcome; [|by apply wp_ret].
  rewrite <- (app_nil_r (putU64BE n)), getU64BE_put. by rewrite u64_small.
Qed.

(** A search over a queue's family, iterators permitting. *)
Lemma end_found_min p d cf first q found :
  (∀ it w, ¬ it_failed w it) → resolved (hist (world p)) cf →
  0 <= first → first + Z.of_nat (length q) < 2 ^ 64 →
  holds (hist (world p)) cf first q → only_queue (hist (world p)) cf first q →
  end_found SeekToFirst least_key p d cf found →
  found = found_key q first.
Proof.
  intros Hnf Hres Hf Hb Hh Ho (it & w & _ & He). specialize (He Hres). destruct found as [k|].
  - destruct (least_is_first _ _ _ _ _ Hf Hb Hh Ho He) as [Hq ->]. by destruct q.
  - destruct He as [?|Hn]; [by destruct (Hnf it (SeekToFirst it w))|].
    by rewrite (no_key_no_queue _ _ _ _ Hh Hn).
Qed.

Lemma end_found_max p d cf first q found :
  (∀ it w, ¬ it_failed w it) → resolved (hist (world p)) cf →
  0 <= first → first + Z.of_nat (length q) < 2 ^ 64 →
  holds (hist (world p)) cf first q → only_queue (hist (world p)) cf first q →
  end_found SeekToLast greatest_key p d cf found →
  found = found_key q (first + Z.of_nat (length q) - 1).
Proof.
  intros Hnf Hres Hf Hb Hh Ho (it & w & _ & He). specialize (He Hres). destruct found as [k|].
  - destruct (greatest_is_last _ _ _ _ _ Hf Hb Hh Ho He) as [Hq ->]. by destruct q.
  - destruct He as [?|Hn]; [by destruct (Hnf it (SeekToLast it w))|].
    by rewrite (no_key_no_queue _ _ _ _ Hh Hn).
Qed.
End Recovery.

Lemma recovery_spec `{ES : ExternalSpec} (p : proc) (id : string) (r cf d : ptr)
    (first : Z) (q : list (list byte)) :
  (∀ it w, ¬ it_failed w it) → store_ok p → open (this p) = true →
  txnDb (this p) = Some d → kinds (this p) !! c_str id = Some r → kind_at p r cf →
  resolved (hist (world p)) cf → 0 <= first → first + Z.of_nat (length q) < 2 ^ 64 →
  Z.of_nat (length q) < 2 ^ 63 → holds (hist (world p)) cf first q →
  only_queue (hist (world p)) cf first q →
  wp (KueueImpl_init id) (λ k p',
    (isValid_ k = true ∧ kueue_ok r cf q (mkKProc k p')) ∨
    (isValid_ k = false ∧ ∃ w w', NewIterator d cf w = (None, w'))) p.
Proof.
  intros Hnf Hs Ho Hd Hn Hk Hres Hf Hb Hl Hh Hq.
  unfold KueueImpl_init. apply wp_bind. unfold getKindManager. apply wp_bind.
  apply wp_validateOpen_open; [done|]. apply wp_ret. rewrite decide_True by done.
  apply wp_bind. eapply wp_done.
  { apply getOrCreateKind_known; [done|done|]. by rewrite c_str_idemp. }
  cbn beta iota. rewrite decide_True by done. destruct Hk as [nm Hr].
  apply wp_bind. eapply wp_deref_kind; [exact Hr|]. simpl kind_isValid. cbn iota.
  apply wp_bind. eapply wp_mono.
  { apply (find_key_spec SeekToFirst least_key p _ r cf d);
      [intros it w; apply seek_first_spec|done|done|by exists nm|done]. }
  intros [[st1 n1] res1] p1 (Hs1 & Hq1 & [(Hno & -> & _)|(-> & found & m & -> & Hg & He)]).
  { wp_steps. right. by split; [|destruct Hno as [w Hno]; exists (world p), w]. }
  cbn beta iota. rewrite decide_True by done.
  apply (end_found_min p d cf first q) in He; [subst found|done..].
  destruct (read_only_kept p p1 r cf d Hq1 Ho ltac:(by exists nm) Hd) as (Ho1 & Hk1 & Hd1 & Hh1).
  apply wp_bind. apply (decode_found p p1 q first); [left; lia|done|].
  apply wp_bind. eapply wp_mono.
  { apply (find_key_spec SeekToLast greatest_key p1 _ r cf d);
      [intros it w; apply seek_last_spec|done..]. }
  intros [[st2 n2] res2] p2 (Hs2 & Hq2 & [(Hno & -> & _)|(-> & found & m2 & -> & Hg2 & He2)]).
  { wp_steps. right. split; [by destruct q|]. destruct Hno as [w Hno]. by exists (world p1), w. }
  cbn beta iota. rewrite decide_True by done.
  destruct (read_only_kept p1 p2 r cf d Hq2 Ho1 Hk1 Hd1) as (Ho2 & Hk2 & Hd2 & Hh2).
  apply (end_found_max p1 d cf first q) in He2; [subst found|rewrite ?Hh1; done..].
  apply wp_bind. eapply (decode_found p1 p2 q _); [|exact Hg2|].
  { destruct q as [|v q]; [by right|left; simpl length in *; lia]. }
  rewrite Hh1 in Hh2. clear -Hs2 Ho2 Hk2 Hh2 Hf Hb Hl Hh.
  destruct q as [|v q]; simpl.
  - apply wp_ret. left. split; [done|].
    unfold kueue_ok; simpl. rewrite Hh2. split_and!; try done.
    by apply (holds_restart _ _ first).
  - rewrite bool_decide_true by lia. apply wp_ret. left.
    simpl length in *.
    rewrite (u64_small (first + Z.of_nat (S (length q)) - 1 + 1)) by lia.
    rewrite u64_small by lia. rewrite i64_small by lia.
    rewrite bool_decide_true by lia. split; [done|].
    unfold kueue_ok. cbn [kueue kp set_isValid set_count set_maxKey set_minKey set_queueKind
      isValid_ queueKind minKey maxKey count new_KueueImpl].
    rewrite Hh2. simpl length. split_and!; try done; lia.
Qed.

(** C7. Recovery: a queue made over a family that holds exactly the keys of a queue, starting
    at some number, takes up that queue, values and order included, or is invalid because the
    store could not make an iterator; it is never valid with a wrong range of keys.  The
    iterators must not fail: [findMinKey] reports a failed one as an empty family. *)
Theorem kueue_recovers `{ES : ExternalSpec} (p : proc) (id : string) (r cf d : ptr)
    (first : Z) (q : list (list byte)) :
  (∀ it w, ¬ it_failed w it) → store_ok p → open (this p) = true →
  txnDb (this p) = Some d → kinds (this p) !! c_str id = Some r → kind_at p r cf →
  resolved (hist (world p)) cf → 0 <= first → first + Z.of_nat (length q) < 2 ^ 64 →
  Z.of_nat (length q) < 2 ^ 63 → holds (hist (world p)) cf first q →
  only_queue (hist (world p)) cf first q →
  wp (KueueImpl_init id) (λ k p',
    (isValid_ k = true ∧ kueue_ok r cf q (mkKProc k p')) ∨
    (isValid_ k = false ∧ ∃ w w', NewIterator d cf w = (None, w'))) p.
Proof. apply recovery_spec. Qed.
