(* ===== verification/KueueConc.v ===== *)
(** The queue of include/impl/KueueImpl.h between threads: [putLock], [takeLock], the condition
    variable and the atomic counter, as a step relation.  A thread is at one of the program
    points below; a step is one access to a lock, to the counter, to a key or to the store,
    whose own mutex makes each of its calls one step.  Keys are unsigned 64-bit numbers and the
    counter is a signed one, as in KueueImpl.v; the totals, which nothing reads, are left out.  The
    queue is a valid one, and starts out empty. *)
From S2P Require Import Prelude StatusCode StoreSpec KueueSpec.

Local Open Scope Z_scope.

(** ** States *)

(** The calls that wait for a value: [take], [take] with a timeout, [readNext]. *)
Inductive waiter := WTake | WTakeFor (timeout : Z) | WRead (timeout : Z).

(** A call that knows what it will answer carries the answer to its end. *)
Inductive pc :=
  | Idle
  (* put *)
  | PWant (v : list byte)           (* to lock putLock *)
  | PStore (v : list byte)          (* to call store->put at maxKey++ *)
  | PCount                          (* stored: to count.fetch_add *)
  | PLeave (c : Z) (a : answers)    (* to unlock putLock *)
  | SWant (a : answers)             (* signalNotEmpty: to lock takeLock *)
  | SNotify (a : answers)           (* to notify_one and unlock *)
  (* take and readNext *)
  | TWant (k : waiter)              (* to lock takeLock *)
  | TTest (k : waiter)              (* to look at count *)
  | TWaiting (k : waiter)           (* in notEmpty.wait, takeLock free *)
  | TWoken (k : waiter)             (* woken: to lock takeLock again *)
  | TStore                          (* to call store->singleRemoveIfPresent at minKey *)
  | RStore                          (* to call store->get at minKey *)
  | TMin (a : answers)              (* removed: to ++minKey *)
  | TCount (a : answers)            (* to count.fetch_sub *)
  | TNotify (c : Z) (a : answers)   (* to notify_one when c > 1 *)
  | TLeave (a : answers)            (* to unlock takeLock *)
  (* erase *)
  | ESee (key : Z)                  (* to look at minKey without a lock *)
  | EWant (key : Z)                 (* key == minKey was seen: to lock takeLock *)
  | ETest (key : Z)                 (* to look at minKey again *)
  | EStore (key : Z)                (* to call store->singleRemove *)
  (* clear; it has removed nothing yet, or the last removal went well *)
  | CWantPut | CWantTake | CTest (a : answers) | CStore | CMin | CCount | CLeave (a : answers).

(** Where a call starts. *)
Definition entry (op : kop) : pc :=
  match op with
  | KPut v => PWant v
  | KTake => TWant WTake
  | KTakeFor timeout => TWant (WTakeFor timeout)
  | KReadNext timeout => TWant (WRead timeout)
  | KErase key => ESee key
  | KClear => CWantPut
  end.

(** [puts], [takes] and [returned] are not in the program: the values put and removed so far, in
    the order of their calls of the store, and the calls that returned, by the thread, with their
    answers. *)
Record conc := mkConc {
  store : gmap Z (list byte);
  count : Z;
  minKey : Z;
  maxKey : Z;
  putLock : option nat;
  takeLock : option nat;
  pcs : nat → pc;
  puts : list (list byte);
  takes : list (list byte);
  returned : list (nat * answers);
}.

Definition upd (t : nat) (p : pc) (f : nat → pc) : nat → pc :=
  λ u, if decide (u = t) then p else f u.

Definition initial : conc := mkConc ∅ 0 0 0 None None (λ _, Idle) [] [] [].

Definition goes (t : nat) (p : pc) (s : conc) : conc :=
  mkConc (store s) (count s) (minKey s) (maxKey s) (putLock s) (takeLock s)
    (upd t p (pcs s)) (puts s) (takes s) (returned s).
Definition with_store m s := mkConc m (count s) (minKey s) (maxKey s) (putLock s) (takeLock s)
  (pcs s) (puts s) (takes s) (returned s).
Definition with_count n s := mkConc (store s) n (minKey s) (maxKey s) (putLock s) (takeLock s)
  (pcs s) (puts s) (takes s) (returned s).
Definition with_minKey n s := mkConc (store s) (count s) n (maxKey s) (putLock s) (takeLock s)
  (pcs s) (puts s) (takes s) (returned s).
Definition with_maxKey n s := mkConc (store s) (count s) (minKey s) n (putLock s) (takeLock s)
  (pcs s) (puts s) (takes s) (returned s).
Definition with_putLock o s := mkConc (store s) (count s) (minKey s) (maxKey s) o (takeLock s)
  (pcs s) (puts s) (takes s) (returned s).
Definition with_takeLock o s := mkConc (store s) (count s) (minKey s) (maxKey s) (putLock s) o
  (pcs s) (puts s) (takes s) (returned s).
Definition log_put v s := mkConc (store s) (count s) (minKey s) (maxKey s) (putLock s)
  (takeLock s) (pcs s) (puts s ++ [v]) (takes s) (returned s).
Definition log_take v s := mkConc (store s) (count s) (minKey s) (maxKey s) (putLock s)
  (takeLock s) (pcs s) (puts s) (takes s ++ [v]) (returned s).
(** The call of [t] returns. *)
Definition returns (t : nat) (a : answers) (s : conc) : conc :=
  mkConc (store s) (count s) (minKey s) (maxKey s) (putLock s) (takeLock s)
    (upd t Idle (pcs s)) (puts s) (takes s) (returned s ++ [(t, a)]).

(** [store->singleRemove(key)], which succeeds whether or not the key is there. *)
Definition single_removed (key : Z) (s : conc) : conc :=
  match store s !! key with
  | Some v => log_take v (with_store (delete key (store s)) s)
  | None => s
  end.

(** ** Steps *)

(** [notify_one]: some thread in the wait wakes, or there is none. *)
Inductive notify (s : conc) : conc → Prop :=
  | notify_some u k : pcs s u = TWaiting k → notify s (goes u (TWoken k) s)
  | notify_none : (∀ u k, pcs s u ≠ TWaiting k) → notify s s.

Definition timed (k : waiter) : bool :=
  match k with WTake => false | WTakeFor timeout | WRead timeout => bool_decide (0 < timeout) end.

(** [take] goes on when [count] is not 0, the others when it is positive. *)
Definition may_take (k : waiter) (c : Z) : bool :=
  match k with WTake => bool_decide (c ≠ 0) | _ => bool_decide (0 < c) end.

(** What the store may answer when it does not remove the front: an error, and possibly the value
    that it read before.  It says that there is nothing only when that is so. *)
Definition not_taken (s : conc) (c : Z) (a : option (list byte)) : Prop :=
  c ≠ Status.Ok ∧ (a = None ∨ ∃ v, store s !! minKey s = Some v ∧ a = answer v).
Definition not_read (s : conc) (c : Z) : Prop :=
  c ≠ Status.Ok ∧ (c = Status.NotFound → store s !! minKey s = None).

Inductive step (t : nat) (s : conc) : conc → Prop :=
  | s_start op : pcs s t = Idle → step t s (goes t (entry op) s)
  (* put *)
  | s_put_lock v : pcs s t = PWant v → putLock s = None →
      step t s (goes t (PStore v) (with_putLock (Some t) s))
  | s_put_store v : pcs s t = PStore v →
      step t s (goes t PCount (log_put v
        (with_maxKey (u64 (maxKey s + 1)) (with_store (<[maxKey s := v]> (store s)) s))))
  | s_put_failed v c : pcs s t = PStore v → c ≠ Status.Ok →
      step t s (goes t (PLeave (-1) (ACode c)) (with_maxKey (u64 (u64 (maxKey s + 1) - 1)) s))
  | s_put_count : pcs s t = PCount →
      step t s (goes t (PLeave (count s) (ACode Status.Ok)) (with_count (i64 (count s + 1)) s))
  | s_put_leave c a : pcs s t = PLeave c a → c ≠ 0 → step t s (returns t a (with_putLock None s))
  | s_put_signal c a : pcs s t = PLeave c a → c = 0 → step t s (goes t (SWant a) (with_putLock None s))
  | s_signal_lock a : pcs s t = SWant a → takeLock s = None →
      step t s (goes t (SNotify a) (with_takeLock (Some t) s))
  | s_signal a s' : pcs s t = SNotify a → notify s s' →
      step t s (returns t a (with_takeLock None s'))
  (* take, readNext *)
  | s_take_lock k : pcs s t = TWant k → takeLock s = None →
      step t s (goes t (TTest k) (with_takeLock (Some t) s))
  | s_take_go k : pcs s t = TTest k → may_take k (count s) = true →
      step t s (goes t (match k with WRead _ => RStore | _ => TStore end) s)
  | s_take_wait k : pcs s t = TTest k → may_take k (count s) = false →
      step t s (goes t (TWaiting k) (with_takeLock None s))
  | s_take_timeout k : pcs s t = TTest k → may_take k (count s) = false → timed k = true →
      step t s (goes t (TLeave (AValue Status.TimedOut None None)) s)
  | s_wake k : pcs s t = TWaiting k → step t s (goes t (TWoken k) s)
  | s_woken_lock k : pcs s t = TWoken k → takeLock s = None →
      step t s (goes t (TTest k) (with_takeLock (Some t) s))
  | s_take_store v : pcs s t = TStore → store s !! minKey s = Some v →
      step t s (goes t (TMin (AValue Status.Ok None (answer v)))
        (log_take v (with_store (delete (minKey s) (store s)) s)))
  | s_take_failed c a : pcs s t = TStore → not_taken s c a →
      step t s (goes t (TLeave (AValue c None a)) s)
  | s_read v : pcs s t = RStore → store s !! minKey s = Some v →
      step t s (goes t (TLeave (AValue Status.Ok (Some (minKey s)) (answer v))) s)
  | s_read_failed c : pcs s t = RStore → not_read s c → step t s (goes t (TLeave (AValue c None None)) s)
  | s_take_min a : pcs s t = TMin a → step t s (goes t (TCount a) (with_minKey (u64 (minKey s + 1)) s))
  | s_take_count a : pcs s t = TCount a →
      step t s (goes t (TNotify (count s) a) (with_count (i64 (count s - 1)) s))
  | s_take_notify c a s' : pcs s t = TNotify c a → 1 < c → notify s s' → step t s (goes t (TLeave a) s')
  | s_take_quiet c a : pcs s t = TNotify c a → c <= 1 → step t s (goes t (TLeave a) s)
  | s_take_leave a : pcs s t = TLeave a → step t s (returns t a (with_takeLock None s))
  (* erase *)
  | s_erase_seen key : pcs s t = ESee key → key = minKey s → step t s (goes t (EWant key) s)
  | s_erase_refused key : pcs s t = ESee key → key ≠ minKey s → step t s (returns t (AFlag false) s)
  | s_erase_lock key : pcs s t = EWant key → takeLock s = None →
      step t s (goes t (ETest key) (with_takeLock (Some t) s))
  | s_erase_go key : pcs s t = ETest key → key = minKey s → step t s (goes t (EStore key) s)
  (* the key has gone meanwhile: [state] is still [Ok], and the answer is [true] *)
  | s_erase_gone key : pcs s t = ETest key → key ≠ minKey s → step t s (goes t (TLeave (AFlag true)) s)
  | s_erase_store key : pcs s t = EStore key →
      step t s (goes t (TMin (AFlag true)) (single_removed key s))
  | s_erase_failed key : pcs s t = EStore key → step t s (goes t (TLeave (AFlag false)) s)
  (* clear *)
  | s_clear_put : pcs s t = CWantPut → putLock s = None →
      step t s (goes t CWantTake (with_putLock (Some t) s))
  | s_clear_take : pcs s t = CWantTake → takeLock s = None →
      step t s (goes t (CTest ASilent) (with_takeLock (Some t) s))
  | s_clear_go a : pcs s t = CTest a → 0 < count s → step t s (goes t CStore s)
  | s_clear_done a : pcs s t = CTest a → count s <= 0 → step t s (goes t (CLeave a) s)
  | s_clear_store : pcs s t = CStore → step t s (goes t CMin (single_removed (minKey s) s))
  | s_clear_failed c : pcs s t = CStore → c ≠ Status.Ok → step t s (goes t (CLeave (ACode c)) s)
  | s_clear_min : pcs s t = CMin → step t s (goes t CCount (with_minKey (u64 (minKey s + 1)) s))
  | s_clear_count : pcs s t = CCount →
      step t s (goes t (CTest (ACode Status.Ok)) (with_count (i64 (count s - 1)) s))
  | s_clear_leave a : pcs s t = CLeave a →
      step t s (returns t a (with_putLock None (with_takeLock None s))).

(** Any thread makes a step. *)
Definition next (s s' : conc) : Prop := ∃ t, step t s s'.
Definition reachable : conc → Prop := rtc next initial.

(** The calls clients make who erase only keys that values were put under, as [readNext] gives them
    out, or who never erase.  (The keys are counted from 0.) *)
Definition allowed (erasing : bool) (s : conc) (op : kop) : Prop :=
  match op with
  | KErase key => erasing = true ∧ 0 <= key < Z.of_nat (length (puts s))
  | _ => True
  end.
Definition client_step (erasing : bool) (t : nat) (s s' : conc) : Prop :=
  step t s s' ∧ ∀ op, pcs s t = Idle → pcs s' t = entry op → allowed erasing s op.
Definition client_next (erasing : bool) (s s' : conc) : Prop := ∃ t, client_step erasing t s s'.
Definition reachable_by_clients (erasing : bool) : conc → Prop := rtc (client_next erasing) initial.

(** ** The locks *)

Definition holds_put (p : pc) : bool :=
  match p with
  | PStore _ | PCount | PLeave _ _ | CWantTake | CTest _ | CStore | CMin | CCount | CLeave _ => true
  | _ => false
  end.
Definition holds_take (p : pc) : bool :=
  match p with
  | SNotify _ | TTest _ | TStore | RStore | TMin _ | TCount _ | TNotify _ _ | TLeave _
  | ETest _ | EStore _ | CTest _ | CStore | CMin | CCount | CLeave _ => true
  | _ => false
  end.

(** A lock is held by exactly the thread that is inside its section. *)
Definition locks_ok (s : conc) : Prop :=
  (∀ u, holds_put (pcs s u) = true ↔ putLock s = Some u) ∧
  (∀ u, holds_take (pcs s u) = true ↔ takeLock s = Some u).

Definition pc_of (l : option nat) (f : nat → pc) : pc :=
  match l with Some u => f u | None => Idle end.

#[global] Arguments pc_of : simpl never.
#[global] Arguments upd : simpl never.

Lemma upd_same t p f : upd t p f t = p.
Proof. unfold upd. by rewrite decide_True. Qed.
Lemma upd_other t u p f : u ≠ t → upd t p f u = f u.
Proof. intros H. unfold upd. by rewrite decide_False. Qed.

Lemma pc_of_none f : pc_of None f = Idle.
Proof. done. Qed.
Lemma pc_of_at t f : pc_of (Some t) f = f t.
Proof. done. Qed.
Lemma pc_of_same t p f : pc_of (Some t) (upd t p f) = p.
Proof. apply upd_same. Qed.
Lemma pc_of_other l t p f : l ≠ Some t → pc_of l (upd t p f) = pc_of l f.
Proof. destruct l as [u|]; [|done]. intros H. apply upd_other. congruence. Qed.

Lemma locks_upd s t p l1 l2 :
  locks_ok s →
  (holds_put p = true ↔ l1 = Some t) → (holds_take p = true ↔ l2 = Some t) →
  (l1 = putLock s ∨ (holds_put (pcs s t) = true ∨ putLock s = None) ∧ (l1 = None ∨ l1 = Some t)) →
  (l2 = takeLock s ∨ (holds_take (pcs s t) = true ∨ takeLock s = None) ∧ (l2 = None ∨ l2 = Some t)) →
  (∀ u, holds_put (upd t p (pcs s) u) = true ↔ l1 = Some u) ∧
  (∀ u, holds_take (upd t p (pcs s) u) = true ↔ l2 = Some u).
Proof.
  intros [Hp Ht] H1 H2 Hl1 Hl2. unfold upd. split; intros u; case_decide as Hu; subst; try done.
  - rewrite Hp. destruct Hl1 as [->|[Ho Hl]]; [done|].
    assert (putLock s ≠ Some u) by (rewrite (Hp t) in Ho; destruct Ho as [Ho|Ho]; rewrite Ho; congruence).
    split; [done|]. destruct Hl as [-> | ->]; congruence.
  - rewrite Ht. destruct Hl2 as [->|[Ho Hl]]; [done|].
    assert (takeLock s ≠ Some u) by (rewrite (Ht t) in Ho; destruct Ho as [Ho|Ho]; rewrite Ho; congruence).
    split; [done|]. destruct Hl as [-> | ->]; congruence.
Qed.

(** [notify_one] leaves everything but the woken thread's place. *)
Lemma notify_same s s' :
  notify s s' → putLock s' = putLock s ∧ takeLock s' = takeLock s ∧
  (∀ u, (∀ k, pcs s u ≠ TWaiting k) → pcs s' u = pcs s u).
Proof.
  destruct 1 as [u k Hu|]; [|done]. simpl. split; [done|]. split; [done|].
  intros v Hv. apply upd_other. intros ->. by apply (Hv k).
Qed.
Lemma notify_locks s s' : notify s s' → locks_ok s → locks_ok s'.
Proof.
  destruct 1 as [u k Hu|]; [|done]. intros Hl.
  pose proof (proj1 Hl u) as Hp. pose proof (proj2 Hl u) as Ht. rewrite Hu in Hp, Ht. simpl in Hp, Ht.
  apply (locks_upd s u _ _ _ Hl); [exact Hp|exact Ht|by left|by left].
Qed.

(** What the program point of [t] says about the locks. *)
Ltac owns_as s Hl t Hpc Hp Ht :=
  let P := fresh "P" in let T := fresh "T" in
  pose proof (proj1 Hl t) as P; pose proof (proj2 Hl t) as T;
  rewrite Hpc in P, T; simpl in P, T;
  first [ assert (putLock s = Some t) as Hp by (by apply P)
        | assert (putLock s ≠ Some t) as Hp by (let H := fresh in intros H; by apply P in H) ];
  first [ assert (takeLock s = Some t) as Ht by (by apply T)
        | assert (takeLock s ≠ Some t) as Ht by (let H := fresh in intros H; by apply T in H) ];
  clear P T.
Ltac owns s Hl t Hpc :=
  let Hp := fresh "Hp" in let Ht := fresh "Ht" in owns_as s Hl t Hpc Hp Ht.

(** The locks after a step of [t], from what they were. *)
Ltac locks s t Hl Hpc :=
  apply (locks_upd s t _ _ _ Hl); simpl;
  [ first [done | split; (done || congruence)] | first [done | split; (done || congruence)]
  | first [by left | right; rewrite Hpc; split; [first [by left | by right]|first [by left|by right]]]
  | first [by left | right; rewrite Hpc; split; [first [by left | by right]|first [by left|by right]]] ].

Lemma single_removed_same key s :
  putLock (single_removed key s) = putLock s ∧ takeLock (single_removed key s) = takeLock s ∧
  pcs (single_removed key s) = pcs s ∧ puts (single_removed key s) = puts s.
Proof. unfold single_removed. by destruct (store s !! key). Qed.

Lemma locks_goes t p s s1 :
  putLock s1 = putLock s → takeLock s1 = takeLock s → pcs s1 = pcs s → locks_ok s →
  holds_put p = holds_put (pcs s t) → holds_take p = holds_take (pcs s t) → locks_ok (goes t p s1).
Proof.
  intros H1 H2 H3 Hl Hp Ht. unfold locks_ok, goes. simpl. rewrite H1, H2, H3.
  apply (locks_upd s t _ _ _ Hl); [rewrite Hp; apply Hl|rewrite Ht; apply Hl|by left|by left].
Qed.

(** Every step keeps the locks, whatever the calls. *)
Lemma locks_step t s s' : step t s s' → locks_ok s → locks_ok s'.
Proof.
  intros Hstep Hl.
  destruct Hstep as [op Hpc| | | | | | | | a s' Hpc Hn| | k Hpc Hm| | | | | | | | | | | c a s' Hpc Hc Hn| | | | | | | | key Hpc| | | | | | Hpc| | | | ]; try (owns s Hl t H; locks s t Hl H).
  - owns s Hl t Hpc. destruct op; locks s t Hl Hpc.
  - pose proof (notify_locks s s' Hn Hl) as Hl'. destruct (notify_same s s' Hn) as (Hp' & Ht' & Hsame).
    assert (pcs s' t = SNotify a) as Hpc' by (rewrite Hsame; by rewrite Hpc).
    owns s' Hl' t Hpc'. locks s' t Hl' Hpc'.
  - owns s Hl t Hpc. destruct k; locks s t Hl Hpc.
  - pose proof (notify_locks s s' Hn Hl) as Hl'. destruct (notify_same s s' Hn) as (Hp' & Ht' & Hsame).
    assert (pcs s' t = TNotify c a) as Hpc' by (rewrite Hsame; by rewrite Hpc).
    owns s' Hl' t Hpc'. locks s' t Hl' Hpc'.
  - destruct (single_removed_same key s) as (H1 & H2 & H3 & _). apply (locks_goes t _ s); rewrite ?Hpc; done.
  - destruct (single_removed_same (minKey s) s) as (H1 & H2 & H3 & _). apply (locks_goes t _ s); rewrite ?Hpc; done.
Qed.

Lemma reachable_locks s : reachable s → locks_ok s.
Proof.
  unfold reachable. intros H. remember initial as s0. assert (locks_ok s0) as H0 by (by subst).
  clear Heqs0. induction H as [|s1 s2 s3 [t Ht] _ IH]; [done|]. apply IH. by eapply locks_step.
Qed.

(** ** The queue *)

(** What is under way inside the sections: a value stored and not counted, a key removed and
    not passed, a removal not counted off, a removal decided on. *)
Definition uncounted (p : pc) : Z := match p with PCount => 1 | _ => 0 end.
Definition unpassed (p : pc) : Z := match p with TMin _ | CMin => 1 | _ => 0 end.
Definition unremoved (p : pc) : Z := match p with TMin _ | TCount _ | CMin | CCount => 1 | _ => 0 end.
Definition deciding (p : pc) : bool := match p with TStore | RStore | CStore => true | _ => false end.
(** The key an [erase] is about to remove. *)
Definition removing (p : pc) : option Z := match p with EStore key => Some key | _ => None end.
Lemma uncounted_bound p : 0 <= uncounted p <= 1.
Proof. destruct p; simpl; lia. Qed.
Lemma unremoved_bound p : 0 <= unremoved p <= 1.
Proof. destruct p; simpl; lia. Qed.
(** A removal that does not look whether the key is there. *)
Definition blind (p : pc) : bool := match p with EStore _ | CStore => true | _ => false end.
(** The key an [erase] was asked for. *)
Definition erase_key (p : pc) : option Z :=
  match p with ESee key | EWant key | ETest key | EStore key => Some key | _ => None end.

(** The values of consecutive keys. *)
Definition value_at (first : Z) (q : list (list byte)) (k : Z) : option (list byte) :=
  if decide (first <= k) then q !! Z.to_nat (k - first) else None.

Lemma value_at_snoc first q v k :
  value_at first (q ++ [v]) k =
    if decide (k = first + Z.of_nat (length q)) then Some v else value_at first q k.
Proof.
  unfold value_at. case_decide as H1; case_decide as H2; try done; try lia.
  - subst. replace (Z.to_nat (first + Z.of_nat (length q) - first)) with (length q) by lia.
    by rewrite lookup_app_r, Nat.sub_diag by lia.
  - destruct (decide (Z.to_nat (k - first) < length q)%nat).
    + by rewrite lookup_app_l.
    + rewrite lookup_app_r by lia. rewrite (lookup_ge_None_2 q) by lia.
      apply lookup_ge_None_2. simpl. lia.
Qed.

Lemma value_at_cons first v q k :
  value_at (first + 1) q k = if decide (k = first) then None else value_at first (v :: q) k.
Proof.
  unfold value_at. repeat case_decide; try done; try lia.
  by replace (Z.to_nat (k - first)) with (S (Z.to_nat (k - (first + 1)))) by lia.
Qed.

Lemma value_at_first first q : value_at first q first = head q.
Proof. unfold value_at. rewrite decide_True, Z.sub_diag by lia. by destruct q. Qed.

(** The queue [q] the state stands for, the accesses under way taken into account; [p] and [t] are the
    program points inside the two sections. *)
Record queue_is (erasing : bool) (p t : pc) (s : conc) (q : list (list byte)) : Prop := {
  q_store : ∀ k, store s !! k = value_at (minKey s + unpassed t) q k;
  q_minKey : minKey s + unpassed t = Z.of_nat (length (takes s));
  q_maxKey : maxKey s = minKey s + unpassed t + Z.of_nat (length q);
  q_count : count s = Z.of_nat (length q) - uncounted p + unremoved t;
  q_order : puts s = takes s ++ q;
  q_unremoved : unremoved t <= Z.of_nat (length (takes s));
  q_removing : ∀ key, removing t = Some key → key = minKey s;
  q_counted : erasing = false →
    uncounted p <= Z.of_nat (length q) ∧ (deciding t = true → uncounted p < Z.of_nat (length q));
  q_front : blind t = true → q ≠ [];
}.

(** Less than 2^63 values were put. *)
Definition few (s : conc) : Prop := Z.of_nat (length (puts s)) < 2 ^ 63.

Definition queue_at (erasing : bool) (s : conc) (q : list (list byte)) : Prop :=
  queue_is erasing (pc_of (putLock s) (pcs s)) (pc_of (takeLock s) (pcs s)) s q.

Definition keys_ok (erasing : bool) (s : conc) : Prop :=
  ∀ u key, erase_key (pcs s u) = Some key → erasing = true ∧ 0 <= key < Z.of_nat (length (puts s)).

Section Accesses.
Context (erasing : bool).
Implicit Types (p t : pc) (s : conc) (q : list (list byte)).

(** *** The queue under one access *)

(** Nothing of it but program points and locks changes. *)
Lemma queue_move p p' t t' s s' q :
  queue_is erasing p t s q →
  store s' = store s → minKey s' = minKey s → maxKey s' = maxKey s → count s' = count s →
  puts s' = puts s → takes s' = takes s →
  uncounted p' = uncounted p → unpassed t' = unpassed t → unremoved t' = unremoved t →
  (t' = t ∨ removing t' = None ∧ blind t' = false ∧ deciding t' = false) →
  queue_is erasing p' t' s' q.
Proof.
  intros [] E1 E2 E3 E4 E5 E6 Hu Hp Hr Ht.
  split; rewrite ?E1, ?E2, ?E3, ?E4, ?E5, ?E6, ?Hu, ?Hp, ?Hr; try done;
    destruct Ht as [->|(Ht1 & Ht2 & Ht3)]; rewrite ?Ht1, ?Ht2, ?Ht3; try done.
  intros He. by destruct (q_counted0 He).
Qed.

Lemma queue_goes p t s q u x : queue_is erasing p t s q → queue_is erasing p t (goes u x s) q.
Proof. by intros []. Qed.

Lemma ex_goes p t s u x :
  (∃ q, queue_is erasing p t s q) → ∃ q, queue_is erasing p t (goes u x s) q.
Proof. intros [q Hq]. exists q. by apply queue_goes. Qed.

Lemma queue_put v t s q :
  few (log_put v s) → queue_is erasing (PStore v) t s q →
  queue_is erasing PCount t (log_put v (with_maxKey (u64 (maxKey s + 1))
    (with_store (<[maxKey s := v]> (store s)) s))) (q ++ [v]).
Proof.
  unfold few. simpl. intros Hf []. rewrite q_order0, !length_app in Hf. simpl in *.
  split; simpl; rewrite ?length_app; simpl; try done.
  - intros k. rewrite value_at_snoc, lookup_insert, <- q_maxKey0, q_store0. by repeat case_decide.
  - rewrite u64_small by lia. lia.
  - lia.
  - by rewrite q_order0, app_assoc.
  - intros He. destruct (q_counted0 He) as [H1 H2]. split; [lia|]. intros H. specialize (H2 H). lia.
  - intros _. by destruct q.
Qed.

Lemma queue_put_failed v c a t s q :
  few s → queue_is erasing (PStore v) t s q →
  queue_is erasing (PLeave c a) t (with_maxKey (u64 (u64 (maxKey s + 1) - 1)) s) q.
Proof.
  intros Hf H. assert (u64 (u64 (maxKey s + 1) - 1) = maxKey s) as ->.
  { destruct H. unfold few in Hf. rewrite q_order0, length_app in Hf.
    rewrite (u64_small (maxKey s + 1)) by lia. rewrite u64_small by lia. lia. }
  eapply queue_move; [exact H|done..|by left].
Qed.

Lemma queue_count c a t s q :
  few s → queue_is erasing PCount t s q →
  queue_is erasing (PLeave c a) t (with_count (i64 (count s + 1)) s) q.
Proof.
  unfold few. intros Hf []. rewrite q_order0, length_app in Hf. simpl in *.
  split; simpl; try done.
  - pose proof (unremoved_bound t). rewrite i64_small by lia. lia.
  - intros He. destruct (q_counted0 He) as [H1 H2]. split; [lia|]. intros H. specialize (H2 H). lia.
Qed.

(** A removal decided on, in a section that nothing was removed in.  A [clear] also holds the other
    lock. *)
Lemma queue_decide p p' t t' s q :
  queue_is erasing p t s q → uncounted p' = uncounted p → unpassed t = 0 → unremoved t = 0 →
  unpassed t' = 0 → unremoved t' = 0 → (∀ key, removing t' = Some key → key = minKey s) →
  (deciding t' = true → erasing = false → count s ≠ 0) → (blind t' = true → q ≠ []) → queue_is erasing p' t' s q.
Proof.
  intros [] Hp H1 H2 H3 H4 H5 H6 H7. rewrite H1, H2 in *.
  split; rewrite ?H3, ?H4, ?Hp; try done. intros He. destruct (q_counted0 He) as [Hc _].
  split; [done|]. intros Hd. specialize (H6 Hd He). lia.
Qed.

Lemma queue_remove p p' t t' s q v :
  queue_is erasing p t s q → store s !! minKey s = Some v → uncounted p' = uncounted p →
  (erasing = false → deciding t = true) → unpassed t = 0 → unremoved t = 0 →
  deciding t' = false → unpassed t' = 1 → unremoved t' = 1 → removing t' = None → blind t' = false →
  ∃ q', queue_is erasing p' t' (log_take v (with_store (delete (minKey s) (store s)) s)) q'.
Proof.
  intros [] Hv Hp H0 H1 H2 H3 H4 H5 H6 H7. rewrite H1, H2, Z.add_0_r in *.
  rewrite q_store0, value_at_first in Hv. destruct q as [|w q]; [done|]. injection Hv as ->.
  exists q. simpl length in *.
  split; simpl; rewrite ?H3, ?H4, ?H5, ?H6, ?H7, ?Hp, ?length_app; simpl; try done; try lia.
  - intros k. rewrite (value_at_cons _ v), lookup_delete, q_store0. by repeat case_decide.
  - by rewrite q_order0, <- app_assoc.
  - intros He. destruct (q_counted0 He) as [Ha Hb]. specialize (Hb (H0 He)). split; [lia|done].
Qed.

(** A removal that does not look finds the front there. *)
Lemma queue_remove_blind p p' t t' s q :
  queue_is erasing p t s q → blind t = true → uncounted p' = uncounted p →
  (erasing = false → deciding t = true) → unpassed t = 0 → unremoved t = 0 →
  deciding t' = false → unpassed t' = 1 → unremoved t' = 1 → removing t' = None → blind t' = false →
  ∃ q', queue_is erasing p' t' (single_removed (minKey s) s) q'.
Proof.
  intros Hq Hb Hp H0 H1 H2 H3 H4 H5 H6 H7. assert (∃ v, store s !! minKey s = Some v) as [v Hv].
  { destruct Hq. rewrite q_store0, H1, Z.add_0_r, value_at_first. specialize (q_front0 Hb).
    destruct q as [|v q]; [done|]. by exists v. }
  unfold single_removed. rewrite Hv. by eapply queue_remove.
Qed.

Lemma queue_pass p p' t t' s q :
  few s → queue_is erasing p t s q → uncounted p' = uncounted p → unpassed t = 1 → unremoved t = 1 →
  unpassed t' = 0 → unremoved t' = 1 → deciding t' = false → removing t' = None → blind t' = false →
  queue_is erasing p' t' (with_minKey (u64 (minKey s + 1)) s) q.
Proof.
  unfold few. intros Hf [] Hp H1 H2 H3 H4 H5 H6 H7. rewrite q_order0, length_app in Hf.
  rewrite H1, H2 in *. assert (u64 (minKey s + 1) = minKey s + 1) as Hm by (rewrite u64_small; lia).
  split; simpl; rewrite ?Hm, ?H3, ?H4, ?H5, ?H6, ?H7, ?Hp, ?Z.add_0_r; try done.
  intros He. by destruct (q_counted0 He).
Qed.

Lemma queue_count_off p p' t t' s q :
  few s → queue_is erasing p t s q → uncounted p' = uncounted p → unpassed t = 0 → unremoved t = 1 →
  unpassed t' = 0 → unremoved t' = 0 → deciding t' = false → removing t' = None → blind t' = false →
  queue_is erasing p' t' (with_count (i64 (count s - 1)) s) q.
Proof.
  unfold few. intros Hf [] Hp H1 H2 H3 H4 H5 H6 H7. rewrite q_order0, length_app in Hf. rewrite H1, H2 in *.
  pose proof (uncounted_bound p).
  assert (i64 (count s - 1) = count s - 1) as Hm by (rewrite i64_small; lia).
  split; simpl; rewrite ?Hm, ?H3, ?H4, ?H5, ?H6, ?H7, ?Hp; try done; try lia.
  intros He. by destruct (q_counted0 He).
Qed.
End Accesses.

(** *** Steps *)

(** The other threads stay where they are, but for one that is woken. *)
Lemma step_others t s s' u :
  step t s s' → u ≠ t → pcs s' u = pcs s u ∨ ∃ k, pcs s u = TWaiting k ∧ pcs s' u = TWoken k.
Proof.
  assert (∀ s1 p, (pcs s1 u = pcs s u ∨ ∃ k, pcs s u = TWaiting k ∧ pcs s1 u = TWoken k) → u ≠ t →
    upd t p (pcs s1) u = pcs s u ∨ ∃ k, pcs s u = TWaiting k ∧ upd t p (pcs s1) u = TWoken k) as Hupd
    by (intros s1 p H Hu; by rewrite upd_other).
  assert (∀ s1, notify s s1 → pcs s1 u = pcs s u ∨ ∃ k, pcs s u = TWaiting k ∧ pcs s1 u = TWoken k) as Hnotify.
  { intros s1 [v k Hv|]; [|by left]. simpl. unfold upd. case_decide; subst; eauto. }
  destruct 1; intros Hu; simpl; apply Hupd; auto;
    left; unfold single_removed; by destruct (store s !! _).
Qed.

Lemma step_puts t s s' : step t s s' → (length (puts s) <= length (puts s'))%nat.
Proof.
  assert (∀ s1, notify s s1 → puts s1 = puts s) as Hn by (by destruct 1).
  destruct 1; simpl; rewrite ?length_app; try lia; try (match goal with H : notify s ?s1 |- _ => rewrite (Hn s1 H); lia end);
    unfold single_removed; by destruct (store s !! _).
Qed.

Lemma step_erase_key t s s' key :
  step t s s' → erase_key (pcs s' t) = Some key →
  erase_key (pcs s t) = Some key ∨ pcs s t = Idle ∧ pcs s' t = entry (KErase key).
Proof.
  intros Hstep. destruct Hstep; simpl; rewrite ?upd_same; simpl; try done;
    try match goal with H : pcs _ t = _ |- _ => rewrite H end; simpl; auto.
  - destruct op; simpl; try done. intros [= ->]. auto.
  - by destruct k.
Qed.

Lemma keys_step erasing t s s' : client_step erasing t s s' → keys_ok erasing s → keys_ok erasing s'.
Proof.
  intros [Hstep Hcall] Hk u key Hu. pose proof (step_puts t s s' Hstep).
  assert (erase_key (pcs s u) = Some key → erasing = true ∧ 0 <= key < Z.of_nat (length (puts s'))) as Hold.
  { intros E. destruct (Hk u key E). split; [done|lia]. }
  destruct (decide (u = t)) as [->|Hne].
  - destruct (step_erase_key t s s' key Hstep Hu) as [E|[Hi He]]; [auto|].
    destruct (Hcall (KErase key) Hi He). split; [done|lia].
  - destruct (step_others t s s' u Hstep Hne) as [E|(k & _ & E)]; rewrite E in Hu; [auto|done].
Qed.

Lemma notify_queue erasing s s' q : notify s s' → locks_ok s → queue_at erasing s q → queue_at erasing s' q.
Proof.
  destruct 1 as [u k Hu|]; [|done]. intros [Hp Ht] Hq. specialize (Hp u). specialize (Ht u).
  rewrite Hu in Hp, Ht. simpl in Hp, Ht. unfold queue_at. simpl.
  rewrite !pc_of_other by (intros E; by (apply Hp in E || apply Ht in E)).
  eapply queue_move; [exact Hq|done..|by left].
Qed.

(** The program points inside the sections, before and after. *)
Ltac points Hp Ht Hpc Hq :=
  unfold queue_at in *; simpl;
  rewrite ?(pc_of_other _ _ _ _ Hp), ?(pc_of_other _ _ _ _ Ht);
  rewrite ?Hp, ?Ht, ?pc_of_same, ?pc_of_none;
  rewrite ?Hp, ?Ht, ?pc_of_none, ?pc_of_at, ?Hpc in Hq.
(** A step of [t] from the point [Hpc] that only moves it. *)
Ltac moves_on s t Hl Hpc Hq q :=
  let Hp := fresh "Hp" in let Ht := fresh "Ht" in
  owns_as s Hl t Hpc Hp Ht; exists q; unfold queue_at in Hq;
  match goal with
  | H : putLock s = None |- _ => rewrite H in Hq
  | H : takeLock s = None |- _ => rewrite H in Hq
  | _ => idtac
  end;
  points Hp Ht Hpc Hq; eapply queue_move; [exact Hq|done..|auto].

Lemma queue_step erasing t s s' q :
  client_step erasing t s s' → locks_ok s → keys_ok erasing s → few s' → queue_at erasing s q →
  ∃ q', queue_at erasing s' q'.
Proof.
  intros [Hstep _] Hl Hkeys Hf Hq.
  destruct Hstep as [op Hpc|v Hpc|v Hpc|v c Hpc Hc|Hpc| | | |a s' Hpc Hn| |k Hpc Hm| | | | |v Hpc Hv
    | | | |a Hpc|a Hpc|c a s' Hpc Hc Hn| | | | | |key Hpc Hk| |key Hpc| | | |a Hpc Hc| |Hpc| |Hpc|Hpc| ];
    try (by moves_on s t Hl H Hq q).
  - destruct op; by moves_on s t Hl Hpc Hq q.
  - by moves_on s t Hl Hpc Hq q.
  - owns s Hl t Hpc. points Hp Ht Hpc Hq. eexists. by apply queue_goes, queue_put.
  - owns s Hl t Hpc. points Hp Ht Hpc Hq. eexists. by eapply queue_goes, queue_put_failed.
  - owns s Hl t Hpc. points Hp Ht Hpc Hq. eexists. by apply queue_goes, queue_count.
  - pose proof (notify_locks s s' Hn Hl) as Hl'. apply (notify_queue _ s s' q Hn Hl) in Hq.
    destruct (notify_same s s' Hn) as (_ & _ & Hsame).
    assert (pcs s' t = SNotify a) as Hpc' by (rewrite Hsame; by rewrite Hpc). by moves_on s' t Hl' Hpc' Hq q.
  - owns s Hl t Hpc. exists q. points Hp Ht Hpc Hq. apply queue_goes.
    destruct k; (eapply queue_decide; [exact Hq|done..| |done]); intros _ _; simpl in *;
      apply bool_decide_eq_true in Hm; lia.
  - owns s Hl t Hpc. points Hp Ht Hpc Hq.
    apply ex_goes. eapply queue_remove; [exact Hq|exact Hv|done..].
  - owns s Hl t Hpc. exists q. points Hp Ht Hpc Hq. apply queue_goes. by eapply queue_pass.
  - owns s Hl t Hpc. exists q. points Hp Ht Hpc Hq. apply queue_goes. by eapply queue_count_off.
  - pose proof (notify_locks s s' Hn Hl) as Hl'. apply (notify_queue _ s s' q Hn Hl) in Hq.
    destruct (notify_same s s' Hn) as (_ & _ & Hsame).
    assert (pcs s' t = TNotify c a) as Hpc' by (rewrite Hsame; by rewrite Hpc). by moves_on s' t Hl' Hpc' Hq q.
  - owns s Hl t Hpc. exists q. points Hp Ht Hpc Hq. apply queue_goes.
    destruct (Hkeys t key) as [He Hb]; [by rewrite Hpc|].
    eapply queue_decide; [exact Hq|done..| |done|]; [by intros ? [= <-]|].
    intros _. destruct Hq. intros ->. rewrite q_order0, app_nil_r in Hb. simpl in *. lia.
  - owns s Hl t Hpc. destruct (single_removed_same key s) as (E1 & E2 & E3 & _).
    destruct (Hkeys t key) as [-> Hb]; [by rewrite Hpc|].
    unfold queue_at. simpl. rewrite E1, E2, E3. points Hp Ht Hpc Hq. apply ex_goes.
    assert (key = minKey s) as -> by (by apply (q_removing _ _ _ _ _ Hq)).
    eapply queue_remove_blind; [exact Hq|done..].
  - owns s Hl t Hpc. exists q. points Hp Ht Hpc Hq. apply queue_goes.
    eapply queue_decide; [exact Hq|done..| |].
    + intros _ _. lia.
    + intros _ ->. destruct Hq. simpl in *. lia.
  - owns s Hl t Hpc. destruct (single_removed_same (minKey s) s) as (E1 & E2 & E3 & _).
    unfold queue_at. simpl. rewrite E1, E2, E3. points Hp Ht Hpc Hq. apply ex_goes.
    eapply queue_remove_blind; [exact Hq|done..].
  - owns s Hl t Hpc. exists q. points Hp Ht Hpc Hq. apply queue_goes. by eapply queue_pass.
  - owns s Hl t Hpc. exists q. points Hp Ht Hpc Hq. apply queue_goes. by eapply queue_count_off.
Qed.

Definition inv (erasing : bool) (s : conc) : Prop :=
  locks_ok s ∧ keys_ok erasing s ∧ (few s → ∃ q, queue_at erasing s q).

Lemma inv_initial erasing : inv erasing initial.
Proof.
  split; [by split|]. split; [by intros u key|]. intros _. exists []. split; simpl; try done.
  intros k. rewrite lookup_empty. unfold value_at. by case_decide.
Qed.

Lemma inv_step erasing t s s' : client_step erasing t s s' → inv erasing s → inv erasing s'.
Proof.
  intros Hc (Hl & Hk & Hq). pose proof (step_puts t s s' (proj1 Hc)) as Hp.
  split; [by eapply locks_step, Hl; apply Hc|]. split; [by eapply keys_step|].
  intros Hf. destruct Hq as [q Hq]; [unfold few in *; lia|]. by eapply queue_step.
Qed.

Lemma reachable_inv erasing s : reachable_by_clients erasing s → inv erasing s.
Proof.
  unfold reachable_by_clients. intros H. remember initial as s0. assert (inv erasing s0) as H0.
  { subst. apply inv_initial. } clear Heqs0.
  induction H as [|s1 s2 s3 [t Ht] _ IH]; [done|]. apply IH. by eapply inv_step.
Qed.

(** C4. Whatever the interleaving of [put], [take] (with and without timeout), [readNext], [clear] and
    [erase] by any number of threads, as long as fewer than 2^63 values were put and clients
    [erase] only keys that values were put under: each lock protects its section; the values removed,
    followed by the values still in the store, are the values put, in the order of the calls of the
    store; the store holds exactly the keys of those, which have not wrapped around; and [count] is the
    number of values in the store when no thread is between its access to the store and its access to
    the counter.  [count] is never negative, but for -1 while a value that was put and erased is
    not counted; without [erase] it never is. *)
Theorem kueue_is_fifo_between_threads (erasing : bool) (s : conc) :
  reachable_by_clients erasing s → Z.of_nat (length (puts s)) < 2 ^ 63 →
  (∀ u v, holds_put (pcs s u) = true → holds_put (pcs s v) = true → u = v) ∧
  (∀ u v, holds_take (pcs s u) = true → holds_take (pcs s v) = true → u = v) ∧
  ∃ q first, puts s = takes s ++ q ∧ (∀ k, store s !! k = value_at first q k) ∧
    first = Z.of_nat (length (takes s)) ∧ maxKey s = first + Z.of_nat (length q) ∧
    (0 <= count s ∨ erasing = true ∧ count s = -1 ∧ q = [] ∧ ∃ u, pcs s u = PCount) ∧
    ((∀ u, pcs s u ≠ PCount ∧ unremoved (pcs s u) = 0) →
     count s = Z.of_nat (length q) ∧ first = minKey s).
Proof.
  intros Hr Hf. apply reachable_inv in Hr as ([Hp Ht] & _ & Hq). destruct (Hq Hf) as [q []]. clear Hq.
  set (p := pc_of (putLock s) (pcs s)) in *. set (t := pc_of (takeLock s) (pcs s)) in *.
  pose proof (uncounted_bound p). pose proof (unremoved_bound t).
  assert (uncounted p = 0 ∨ uncounted p = 1 ∧ ∃ u, pcs s u = PCount) as Hun.
  { unfold p, pc_of. destruct (putLock s) as [u|]; [|by left]. destruct (pcs s u) eqn:E; eauto. }
  split; [intros u v Hu%Hp Hv%Hp; congruence|]. split; [intros u v Hu%Ht Hv%Ht; congruence|].
  exists q, (minKey s + unpassed t). split_and!; [done..| |].
  - destruct Hun as [Hun|[Hun Hat]]; [left; lia|]. destruct (decide (0 <= count s)) as [|Hneg]; [by left|right].
    split; [destruct erasing; [done|destruct (q_counted0 eq_refl); lia]|]. split; [lia|]. split; [|done].
    destruct q; [done|simpl in *; lia].
  - intros Hnone. assert (uncounted p = 0) as Hz.
    { destruct Hun as [?|[_ [u Hu]]]; [done|]. by destruct (Hnone u). }
    assert (unremoved t = 0) as Hz2.
    { unfold t, pc_of. destruct (takeLock s) as [u|]; [apply (Hnone u)|done]. }
    split; [lia|]. by destruct t; simpl in *; try lia.
Qed.

(** ** Progress *)

(** Finitely many threads have started. *)
Definition bounded (s : conc) : Prop := ∃ n : nat, ∀ u, (n <= u)%nat → pcs s u = Idle.

Lemma bounded_step t s s' : step t s s' → bounded s → bounded s'.
Proof.
  intros Hstep [n Hn]. exists (max n (S t)). intros u Hu. pose proof (Hn u ltac:(lia)) as Hi.
  destruct (step_others t s s' u Hstep) as [E|(k & E & _)]; [lia|congruence|congruence].
Qed.

Lemma reachable_bounded s : reachable s → bounded s.
Proof.
  unfold reachable. intros H. remember initial as s0. assert (bounded s0) as H0.
  { subst. by exists 0%nat. } clear Heqs0.
  induction H as [|s1 s2 s3 [t Ht] _ IH]; [done|]. apply IH. by eapply bounded_step.
Qed.

Lemma waiting_dec (p : pc) : (∃ k, p = TWaiting k) ∨ ∀ k, p ≠ TWaiting k.
Proof. destruct p; eauto; by right. Qed.

(** Some thread waits, or none does. *)
Lemma notify_total s : bounded s → ∃ s', notify s s'.
Proof.
  intros [n Hn].
  assert ((∃ u k, pcs s u = TWaiting k) ∨ ∀ u k, (u < n)%nat → pcs s u ≠ TWaiting k) as [(u & k & H)|H].
  - clear Hn. induction n as [|n IH]; [right; lia|]. destruct IH as [?|IH]; [by left|].
    destruct (waiting_dec (pcs s n)) as [[k Hk]|Hk]; [left; eauto|right].
    intros u k Hu. destruct (decide (u = n)) as [->|]; [done|]. apply IH; lia.
  - eexists. by eapply notify_some.
  - exists s. apply notify_none. intros u k Hw. destruct (decide (u < n)%nat).
    + by eapply H.
    + rewrite Hn in Hw by lia. done.
Qed.

(** A step of a call under way: not the start of one, and not a spurious wake-up. *)
Definition works (s s' : conc) : Prop :=
  ∃ t, step t s s' ∧ pcs s t ≠ Idle ∧ ∀ k, pcs s t ≠ TWaiting k.

Lemma works_intro t s s' p : pcs s t = p → p ≠ Idle → (∀ k, p ≠ TWaiting k) → step t s s' → ∃ s', works s s'.
Proof. intros <- Hi Hw Hs. by exists s', t. Qed.

(** Makes the step [r] from the program point [Hpc]. *)
Ltac work Hpc r := eapply (works_intro _ _ _ _ Hpc); [done|done|eapply r; first [exact Hpc|eassumption|idtac]].

Lemma some_error : Status.Busy ≠ Status.Ok.
Proof. done. Qed.

(** The holder of [takeLock] can always go on. *)
Lemma take_holder_works s t : bounded s → holds_take (pcs s t) = true → ∃ s', works s s'.
Proof.
  intros Hb Ht. destruct (notify_total s Hb) as [s1 Hn]. pose proof some_error as He.
  destruct (pcs s t) eqn:Hpc; try done.
  - work Hpc s_signal.
  - destruct (may_take k (count s)) eqn:Hm; [work Hpc s_take_go|work Hpc s_take_wait].
  - work Hpc s_take_failed. split; [exact He|by left].
  - work Hpc s_read_failed. split; [exact He|done].
  - work Hpc s_take_min.
  - work Hpc s_take_count.
  - destruct (decide (1 < c)); [work Hpc s_take_notify|]. work Hpc s_take_quiet. lia.
  - work Hpc s_take_leave.
  - destruct (decide (key = minKey s)); [work Hpc s_erase_go|work Hpc s_erase_gone].
  - work Hpc s_erase_failed.
  - destruct (decide (0 < count s)); [work Hpc s_clear_go|]. work Hpc s_clear_done. lia.
  - work Hpc s_clear_failed.
  - work Hpc s_clear_min.
  - work Hpc s_clear_count.
  - work Hpc s_clear_leave.
Qed.

(** C6. The locks never deadlock: in every state that calls of any threads lead to, [erase] of any keys
    included, and in which some call is under way and is not waiting for a value, some such call can
    make its next step. *)
Theorem kueue_never_deadlocks (s : conc) (t : nat) :
  reachable s → pcs s t ≠ Idle → (∀ k, pcs s t ≠ TWaiting k) → ∃ s', works s s'.
Proof.
  intros Hr Hi Hw. pose proof (reachable_bounded s Hr) as Hb.
  destruct (reachable_locks s Hr) as [Hp Ht]. pose proof some_error as Hbusy.
  assert (∀ u, takeLock s = Some u → ∃ s', works s s') as Htake
    by (intros u Hu; apply (take_holder_works s u Hb); by apply Ht).
  assert (∀ u, putLock s = Some u → ∃ s', works s s') as Hput.
  { intros u Hu. destruct (holds_take (pcs s u)) eqn:Htk; [by apply (Htake u), Ht|].
    apply Hp in Hu. destruct (pcs s u) eqn:Hpc; try done.
    - work Hpc s_put_failed.
    - work Hpc s_put_count.
    - destruct (decide (c = 0)); [work Hpc s_put_signal|work Hpc s_put_leave].
    - destruct (takeLock s) as [v|] eqn:Hl; [by apply (Htake v)|]. work Hpc s_clear_take. }
  destruct (holds_take (pcs s t)) eqn:Htk; [by apply (Htake t), Ht|].
  destruct (holds_put (pcs s t)) eqn:Hpt; [by apply (Hput t), Hp|].
  destruct (pcs s t) eqn:Hpc; try done.
  - destruct (putLock s) as [u|] eqn:Hl; [by apply (Hput u)|]. work Hpc s_put_lock.
  - destruct (takeLock s) as [u|] eqn:Hl; [by apply (Htake u)|]. work Hpc s_signal_lock.
  - destruct (takeLock s) as [u|] eqn:Hl; [by apply (Htake u)|]. work Hpc s_take_lock.
  - by destruct (Hw k).
  - destruct (takeLock s) as [u|] eqn:Hl; [by apply (Htake u)|]. work Hpc s_woken_lock.
  - destruct (decide (key = minKey s)); [work Hpc s_erase_seen|work Hpc s_erase_refused].
  - destruct (takeLock s) as [u|] eqn:Hl; [by apply (Htake u)|]. work Hpc s_erase_lock.
  - destruct (putLock s) as [u|] eqn:Hl; [by apply (Hput u)|]. work Hpc s_clear_put.
Qed.

(** ** Runs *)

Lemma by_clients s : reachable_by_clients true s → reachable s.
Proof. intros H. eapply rtc_subrel; [|exact H]. intros s1 s2 [t [Hs _]]. by exists t. Qed.

Lemma entry_inj op op' : entry op = entry op' → op = op'.
Proof. destruct op, op'; simpl; congruence. Qed.
Lemma run_call erasing t op s s' :
  pcs s t = Idle → allowed erasing s op → rtc (client_next erasing) (goes t (entry op) s) s' →
  rtc (client_next erasing) s s'.
Proof.
  intros Hi Ha. apply rtc_l. exists t. split; [by apply s_start|]. intros op' _ E. simpl in E.
  rewrite upd_same in E. by apply entry_inj in E as <-.
Qed.
Lemma run_on erasing t s s1 s' :
  pcs s t ≠ Idle → step t s s1 → rtc (client_next erasing) s1 s' → rtc (client_next erasing) s s'.
Proof. intros Hi Hs. apply rtc_l. exists t. by split. Qed.

(** The next step of a run: a call of thread [t], or its step by rule [r]; then the state as its fields. *)
Ltac fields :=
  lazymatch goal with
  | |- rtc _ ?s _ =>
      let m := eval vm_compute in (store s) in let c := eval vm_compute in (count s) in
      let k := eval vm_compute in (minKey s) in let x := eval vm_compute in (maxKey s) in
      let pl := eval vm_compute in (putLock s) in let tl := eval vm_compute in (takeLock s) in
      let f := eval cbn in (pcs s) in let ps := eval vm_compute in (puts s) in
      let ts := eval vm_compute in (takes s) in let r := eval vm_compute in (returned s) in
      change s with (mkConc m c k x pl tl f ps ts r)
  end.
Ltac calls t op := apply (run_call _ t op); [reflexivity|first [exact I|by split]|fields].
Tactic Notation "run_step" constr(t) uconstr(r) :=
  eapply (run_on _ t); [discriminate|eapply r; first [reflexivity|discriminate|idtac]|]; [..|fields].
(** [notify_one] when nobody waits. *)
Ltac unheard :=
  apply notify_none; intros u k; simpl; rewrite ?(proj1 (proj2 (proj2 (single_removed_same _ _)))); simpl;
  unfold upd; by repeat case_decide.
Ltac all_idle := intros [|[|[|[|u]]]]; reflexivity.

(** Thread 1 puts two values, thread 2 reads the first and erases it, thread 3 is about to take the
    second. *)
Lemma demo_run v w :
  ∃ s, reachable_by_clients true s ∧ puts s = [v; w] ∧ takes s = [v] ∧ pcs s 3%nat = TStore ∧
    count s = 1 ∧ returned s =
      [(1%nat, ACode Status.Ok); (1%nat, ACode Status.Ok);
       (2%nat, AValue Status.Ok (Some 0) (answer v)); (2%nat, AFlag true)].
Proof.
  eexists. split.
  { unfold reachable_by_clients.
    calls 1%nat (KPut v). run_step 1%nat s_put_lock. run_step 1%nat s_put_store.
    run_step 1%nat s_put_count. run_step 1%nat s_put_signal. run_step 1%nat s_signal_lock.
    run_step 1%nat s_signal; [unheard|].
    calls 1%nat (KPut w). run_step 1%nat s_put_lock. run_step 1%nat s_put_store.
    run_step 1%nat s_put_count. run_step 1%nat s_put_leave.
    calls 2%nat (KReadNext 0). run_step 2%nat s_take_lock. run_step 2%nat s_take_go.
    run_step 2%nat s_read. run_step 2%nat s_take_leave.
    calls 2%nat (KErase 0). run_step 2%nat s_erase_seen. run_step 2%nat s_erase_lock.
    run_step 2%nat s_erase_go. run_step 2%nat s_erase_store. run_step 2%nat s_take_min.
    run_step 2%nat s_take_count. run_step 2%nat s_take_notify; [unheard|]. run_step 2%nat s_take_leave.
    calls 3%nat KTake. run_step 3%nat s_take_lock. run_step 3%nat s_take_go.
    apply rtc_refl. }
  by split_and!.
Defined.

Lemma kueue_never_deadlocks_witness :
  ∃ s, reachable s ∧ pcs s 3%nat = TStore ∧ ∃ s', works s s'.
Proof.
  destruct (demo_run [x61] [x62]) as (s & Hr & _ & _ & Hpc & _). exists s.
  assert (reachable s) as Hr' by (by apply by_clients). split; [exact Hr'|]. split; [exact Hpc|].
  apply (kueue_never_deadlocks s 3%nat Hr'); [by rewrite Hpc|intros k; by rewrite Hpc].
Defined.

Lemma kueue_is_fifo_between_threads_witness :
  ∃ s, puts s = [[x61]; [x62]] ∧ takes s = [[x61]] ∧ ∃ q first,
    puts s = takes s ++ q ∧ (∀ k, store s !! k = value_at first q k) ∧ first = Z.of_nat (length (takes s)).
Proof.
  destruct (demo_run [x61] [x62]) as (s & Hr & Hp & Ht & _). exists s. split; [exact Hp|]. split; [exact Ht|].
  assert (Z.of_nat (length (puts s)) < 2 ^ 63) as Hf by (by rewrite Hp).
  destruct (proj2 (proj2 (kueue_is_fifo_between_threads true s Hr Hf))) as (q & first & H1 & H2 & H3 & _).
  by exists q, first.
Defined.

(** ** Behaviours that are not intended *)

(** C40. A wake-up can be lost: there is a reachable state in which the queue holds a value
    and is idle but for one thread, which waits in [take] without a timeout.  (Thread 1 waits
    in [take], thread 2 in [readNext]; thread 3 puts a value and its notification wakes thread
    2, which reads the value and leaves without waking anybody.) *)
Theorem take_may_wait_on_a_full_queue (v : list byte) :
  ∃ s, reachable_by_clients false s ∧ pcs s 1%nat = TWaiting WTake ∧ (∀ u, u ≠ 1%nat → pcs s u = Idle) ∧
    count s = 1 ∧ store s !! minKey s = Some v ∧ putLock s = None ∧ takeLock s = None.
Proof.
  eexists. split.
  { unfold reachable_by_clients.
    calls 1%nat KTake. run_step 1%nat s_take_lock. run_step 1%nat s_take_wait.
    calls 2%nat (KReadNext 0). run_step 2%nat s_take_lock. run_step 2%nat s_take_wait.
    calls 3%nat (KPut v). run_step 3%nat s_put_lock. run_step 3%nat s_put_store.
    run_step 3%nat s_put_count. run_step 3%nat s_put_signal. run_step 3%nat s_signal_lock.
    run_step 3%nat s_signal; [apply (notify_some _ 2%nat (WRead 0)); reflexivity|].
    run_step 2%nat s_woken_lock. run_step 2%nat s_take_go. run_step 2%nat s_read. run_step 2%nat s_take_leave.
    apply rtc_refl. }
  split; [reflexivity|]. split; [|by split_and!].
  intros u Hu. simpl. unfold upd. by repeat case_decide; subst.
Qed.

(** [erase] may answer [true] twice for one value: two threads erase the same key, one of
    them removes the value, and both are told that they did.  (Both see that the key is the
    smallest; the second finds another one under the lock, does nothing and answers [true].) *)
Theorem erase_may_succeed_twice (v : list byte) :
  ∃ s, reachable_by_clients true s ∧ (∀ u, pcs s u = Idle) ∧ puts s = [v] ∧ takes s = [v] ∧
    returned s = [(1%nat, ACode Status.Ok); (1%nat, AFlag true); (2%nat, AFlag true)].
Proof.
  eexists. split.
  { unfold reachable_by_clients.
    calls 1%nat (KPut v). run_step 1%nat s_put_lock. run_step 1%nat s_put_store.
    run_step 1%nat s_put_count. run_step 1%nat s_put_signal. run_step 1%nat s_signal_lock.
    run_step 1%nat s_signal; [unheard|].
    calls 1%nat (KErase 0). calls 2%nat (KErase 0). run_step 1%nat s_erase_seen. run_step 2%nat s_erase_seen.
    run_step 1%nat s_erase_lock. run_step 1%nat s_erase_go. run_step 1%nat s_erase_store.
    run_step 1%nat s_take_min. run_step 1%nat s_take_count. run_step 1%nat s_take_quiet.
    run_step 1%nat s_take_leave.
    run_step 2%nat s_erase_lock. run_step 2%nat s_erase_gone. run_step 2%nat s_take_leave. apply rtc_refl. }
  split; [|by split_and!]. intros u. simpl. unfold upd. by repeat case_decide.
Qed.

(** A step of any thread, by clients of any kind. *)
Tactic Notation "any_step" constr(t) uconstr(r) :=
  eapply rtc_l; [exists t; eapply r; first [reflexivity|discriminate|idtac]|]; [..|fields].
(** [erase] of a key that no value was put under takes the counter below zero, where [take] no longer
    waits and finds nothing. *)
Theorem take_finds_nothing_after_a_careless_erase :
  ∃ s, reachable s ∧ (∀ u, pcs s u = Idle) ∧ puts s = [] ∧ count s = -1 ∧ minKey s = 1 ∧
    returned s = [(1%nat, AFlag true); (2%nat, AValue Status.NotFound None None)].
Proof.
  eexists. split.
  { unfold reachable.
    any_step 1%nat (s_start _ _ (KErase 0)). any_step 1%nat s_erase_seen. any_step 1%nat s_erase_lock.
    any_step 1%nat s_erase_go. any_step 1%nat s_erase_store. any_step 1%nat s_take_min.
    any_step 1%nat s_take_count. any_step 1%nat s_take_quiet. any_step 1%nat s_take_leave.
    any_step 2%nat (s_start _ _ KTake). any_step 2%nat s_take_lock. any_step 2%nat s_take_go.
    any_step 2%nat (s_take_failed _ _ Status.NotFound None); [by split; [|left]|]. any_step 2%nat s_take_leave.
    apply rtc_refl. }
  split; [|by split_and!]. intros u. simpl. unfold upd. by repeat case_decide.
Qed.
