(* ===== verification/Bytes.v ===== *)
(** The client's byte strings (include/client/bytes.h, src/client/bytes.cpp): an object that
    owns an array of [char] obtained from the store, with copy, move, swap and clear.  The
    memory holds the arrays and the objects separately, so that aliasing, double deletes and
    leaks are visible; the value semantics at the end is what a program may rely on. *)
From S2P Require Import Prelude.

Local Open Scope Z_scope.

(** ** Data and memory *)

(** [data_] is null or the address of an array. *)
Record bytes := mkBytes { size_ : Z; data_ : option positive }.

Record mem := mkMem {
  arrays : gmap positive (list byte);
  objs : gmap positive bytes;
}.

Abbreviation MB := (M mem).

(** [*this], for the object at [a]. *)
Definition obj (a : positive) : MB bytes := λ m,
  match objs m !! a with Some b => Done (b, m) | None => Undef UseAfterFree end.
Definition set_obj (a : positive) (b : bytes) : MB unit :=
  modify (λ m, mkMem (arrays m) (<[a := b]> (objs m))).
Definition end_obj (a : positive) : MB unit :=
  modify (λ m, mkMem (arrays m) (delete a (objs m))).

(** [new char[n]] filled with [bs]; [delete[]]; [n] characters read from an address. *)
Definition new_array (bs : list byte) : MB positive := λ m,
  let l := fresh (dom (arrays m)) in Done (l, mkMem (<[l := bs]> (arrays m)) (objs m)).
Definition delete_array (p : option positive) : MB unit := λ m,
  match p with
  | None => Done (tt, m)
  | Some l => match arrays m !! l with
              | Some _ => Done (tt, mkMem (delete l (arrays m)) (objs m))
              | None => Undef DoubleFree
              end
  end.
Definition read_array (p : option positive) (n : Z) : MB (list byte) := λ m,
  match p with
  | None => if bool_decide (n = 0) then Done ([], m) else Undef NullDeref
  | Some l => match arrays m !! l with
              | Some bs => if bool_decide (n <= Z.of_nat (length bs))
                           then Done (take (Z.to_nat n) bs, m) else Undef OutOfBounds
              | None => Undef UseAfterFree
              end
  end.

(** ** The methods *)

(** [bytes(char* bytes, size_t length)] *)
Definition bytes_of (a : positive) (p : option positive) (length : Z) : MB unit :=
  set_obj a (mkBytes length p).

Definition clear (a : positive) : MB unit :=
  b ← obj a;
  if bool_decide (0 < size_ b) then
    set_obj a (mkBytes 0 (data_ b)) ;;
    delete_array (data_ b) ;;
    set_obj a (mkBytes 0 None)
  else mret tt.

(** [std::swap] of the sizes, then of the addresses. *)
Definition swap (a src : positive) : MB unit :=
  x ← obj a; y ← obj src;
  set_obj a (mkBytes (size_ y) (data_ x)) ;;
  y ← obj src; set_obj src (mkBytes (size_ x) (data_ y)) ;;
  x ← obj a; y ← obj src;
  set_obj a (mkBytes (size_ x) (data_ y)) ;;
  y ← obj src; set_obj src (mkBytes (size_ y) (data_ x)).

Definition copy (a other : positive) : MB unit :=
  o ← obj other;
  x ← obj a;
  set_obj a (mkBytes (size_ o) (data_ x)) ;;
  bs ← read_array (data_ o) (size_ o);
  tmp ← new_array bs;
  set_obj a (mkBytes (size_ o) (Some tmp)).

(** [bytes(const bytes& other)] *)
Definition copy_construct (a other : positive) : MB unit :=
  set_obj a (mkBytes 0 None) ;;
  o ← obj other;
  if bool_decide (0 < size_ o) then copy a other else mret tt.

(** [operator=(const bytes& other)] *)
Definition copy_assign (a other : positive) : MB unit :=
  if decide (a ≠ other) then
    clear a ;;
    o ← obj other;
    if bool_decide (0 < size_ o) then copy a other else mret tt
  else mret tt.

(** [bytes(bytes&& moving)] *)
Definition move_construct (a moving : positive) : MB unit :=
  set_obj a (mkBytes 0 None) ;; swap moving a.

(** [operator=(bytes&& moving)] *)
Definition move_assign (a moving : positive) : MB unit := swap moving a.

(** [~bytes()], after which the object is gone. *)
Definition destroy (a : positive) : MB unit := clear a ;; end_obj a.

Definition size (a : positive) : MB Z := b ← obj a; mret (size_ b).
Definition data (a : positive) : MB (option positive) := b ← obj a; mret (data_ b).
Definition index (a : positive) (i : Z) : MB byte :=
  b ← obj a;
  lift_outcome (assert_that (bool_decide (i < size_ b))) ;;
  bs ← read_array (data_ b) (i + 1);
  lift_outcome (from_option Done (Undef OutOfBounds) (bs !! Z.to_nat i)).
Definition to_bool (a : positive) : MB bool :=
  b ← obj a; mret (match data_ b with Some _ => true | None => false end).
Definition isEmpty (a : positive) : MB bool := b ← obj a; mret (bool_decide (size_ b = 0)).
Definition toString (a : positive) : MB (list byte) := b ← obj a; read_array (data_ b) (size_ b).

(** ** Programs over byte strings, and what they mean as values *)

(** [SReceive a v]: the store returned the value [v], null when it is empty, and the client
    wraps it (the last line of [KVStore::get]). *)
Inductive stmt :=
  | SReceive (a : positive) (v : list byte)
  | SCopyConstruct (a b : positive)
  | SMoveConstruct (a b : positive)
  | SCopyAssign (a b : positive)
  | SMoveAssign (a b : positive)
  | SSwap (a b : positive)
  | SClear (a : positive)
  | SDestroy (a : positive).

Definition exec (s : stmt) : MB unit :=
  match s with
  | SReceive a v =>
      match v with
      | [] => bytes_of a None 0
      | _ => l ← new_array v; bytes_of a (Some l) (Z.of_nat (length v))
      end
  | SCopyConstruct a b => copy_construct a b
  | SMoveConstruct a b => move_construct a b
  | SCopyAssign a b => copy_assign a b
  | SMoveAssign a b => move_assign a b
  | SSwap a b => swap a b
  | SClear a => clear a
  | SDestroy a => destroy a
  end.

Fixpoint exec_all (l : list stmt) : MB unit :=
  match l with [] => mret tt | s :: l' => exec s ;; exec_all l' end.

Abbreviation values := (gmap positive (list byte)).

(** The meaning of a statement over values, [None] when C++ scoping rules it out (an object
    constructed twice, or used before or after its life). *)
Definition vexec (s : stmt) (vs : values) : option values :=
  match s with
  | SReceive a v => match vs !! a with None => Some (<[a := v]> vs) | Some _ => None end
  | SCopyConstruct a b =>
      match vs !! a, vs !! b with None, Some v => Some (<[a := v]> vs) | _, _ => None end
  | SMoveConstruct a b =>
      match vs !! a, vs !! b with None, Some v => Some (<[a := v]> (<[b := []]> vs)) | _, _ => None end
  | SCopyAssign a b =>
      match vs !! a, vs !! b with Some _, Some v => Some (<[a := v]> vs) | _, _ => None end
  | SMoveAssign a b | SSwap b a =>
      match vs !! a, vs !! b with
      | Some u, Some v => Some (<[a := v]> (<[b := u]> vs))
      | _, _ => None
      end
  | SClear a => match vs !! a with Some _ => Some (<[a := []]> vs) | None => None end
  | SDestroy a => match vs !! a with Some _ => Some (delete a vs) | None => None end
  end.

Fixpoint vexec_all (l : list stmt) (vs : values) : option values :=
  match l with [] => Some vs | s :: l' => vs' ← vexec s vs; vexec_all l' vs' end.

(** ** Ownership *)

(** An object that holds [v]: null and zero, or an array of exactly [v]. *)
Definition holds_value (m : mem) (b : bytes) (v : list byte) : Prop :=
  size_ b = Z.of_nat (length v) ∧
  match v with
  | [] => data_ b = None
  | _ => ∃ l, data_ b = Some l ∧ arrays m !! l = Some v
  end.

Record owned (m : mem) (vs : values) : Prop := {
  owned_dom a : is_Some (objs m !! a) ↔ is_Some (vs !! a);
  owned_value a b v : objs m !! a = Some b → vs !! a = Some v → holds_value m b v;
  owned_once a1 a2 b1 b2 l :
    objs m !! a1 = Some b1 → objs m !! a2 = Some b2 → data_ b1 = Some l → data_ b2 = Some l →
    a1 = a2;
  owned_all l : is_Some (arrays m !! l) → ∃ a b, objs m !! a = Some b ∧ data_ b = Some l;
}.

Section Ownership.
Implicit Types (m : mem) (vs : values).

Lemma owned_look m vs a v :
  owned m vs → vs !! a = Some v → ∃ b, objs m !! a = Some b ∧ holds_value m b v.
Proof.
  intros Ho Hv. destruct (proj2 (owned_dom _ _ Ho a)) as [b Hb]; [by eexists|].
  exists b. split; [done|]. by eapply owned_value.
Qed.

(** No array belongs to [a]: it does not exist, or holds nothing. *)
Definition vacant m vs (a : positive) : Prop :=
  owned m vs ∧ (vs !! a = None ∨ vs !! a = Some []).

Lemma vacant_no_array m vs a b : vacant m vs a → objs m !! a = Some b → data_ b = None.
Proof.
  intros [Ho [Hv|Hv]] Hb.
  - assert (is_Some (vs !! a)) as [? ?] by (apply Ho; by eexists). congruence.
  - by destruct (owned_value _ _ Ho a b [] Hb Hv).
Qed.

(** The addresses other objects hold are not touched by a new object at a vacant place. *)
Lemma owned_null m vs a :
  vacant m vs a → owned (mkMem (arrays m) (<[a := mkBytes 0 None]> (objs m))) (<[a := []]> vs).
Proof.
  intros Hva. pose proof Hva as [Ho _]. pose proof (λ b, vacant_no_array m vs a b Hva) as Hno.
  constructor; simpl.
  - intros a'. destruct (decide (a = a')) as [->|Hne];
      [rewrite !lookup_insert_eq; naive_solver|rewrite !lookup_insert_ne by done; apply Ho].
  - intros a' b v. destruct (decide (a = a')) as [->|Hne].
    + rewrite !lookup_insert_eq. by intros [= <-] [= <-].
    + rewrite !lookup_insert_ne by done. apply (owned_value _ _ Ho).
  - intros a1 a2 b1 b2 l. rewrite !lookup_insert. repeat case_decide; subst; try naive_solver.
    apply (owned_once _ _ Ho).
  - intros l Hl. destruct (owned_all _ _ Ho l Hl) as (a' & b & Hb & Hd).
    exists a', b. rewrite lookup_insert_ne; [done|]. intros <-. apply Hno in Hb. congruence.
Qed.

Lemma owned_give m vs a l v :
  vacant m vs a → v ≠ [] → arrays m !! l = None →
  owned (mkMem (<[l := v]> (arrays m)) (<[a := mkBytes (Z.of_nat (length v)) (Some l)]> (objs m)))
    (<[a := v]> vs).
Proof.
  intros Hva Hne Hl. pose proof Hva as [Ho _]. pose proof (λ b, vacant_no_array m vs a b Hva) as Hno.
  assert (∀ a' b, objs m !! a' = Some b → data_ b = Some l → False) as Hfr.
  { intros a' b Hb Hd. destruct (proj1 (owned_dom _ _ Ho a')) as [v' Hv']; [by eexists|].
    destruct (owned_value _ _ Ho a' b v' Hb Hv') as [_ H]. destruct v'; [congruence|].
    destruct H as (l' & H1 & H2). congruence. }
  constructor; simpl.
  - intros a'. destruct (decide (a = a')) as [->|Hn];
      [rewrite !lookup_insert_eq; naive_solver|rewrite !lookup_insert_ne by done; apply Ho].
  - intros a' b v'. destruct (decide (a = a')) as [->|Hn].
    + rewrite !lookup_insert_eq. intros [= <-] [= <-]. split; [done|]. destruct v; [done|].
      exists l. simpl. by rewrite lookup_insert_eq.
    + rewrite !lookup_insert_ne by done. intros Hb Hv'.
      destruct (owned_value _ _ Ho a' b v' Hb Hv') as [Hs H]. split; [done|]. destruct v'; [done|].
      destruct H as (l' & H1 & H2). exists l'. split; [done|]. simpl.
      rewrite lookup_insert_ne; [done|]. intros <-. by eapply Hfr.
  - intros a1 a2 b1 b2 l'. rewrite !lookup_insert.
    repeat case_decide; subst; intros; simplify_eq/=; try done; try (by exfalso; eapply Hfr).
    by eapply (owned_once _ _ Ho).
  - intros l' Hl'. destruct (decide (l = l')) as [->|Hn].
    + exists a. rewrite lookup_insert_eq. by eexists.
    + rewrite lookup_insert_ne in Hl' by done.
      destruct (owned_all _ _ Ho l' Hl') as (a' & b & Hb & Hd).
      exists a', b. rewrite lookup_insert_ne; [done|]. intros <-. apply Hno in Hb. congruence.
Qed.

Lemma owned_release m vs a b l :
  owned m vs → objs m !! a = Some b → data_ b = Some l →
  owned (mkMem (delete l (arrays m)) (<[a := mkBytes 0 None]> (objs m))) (<[a := []]> vs).
Proof.
  intros Ho Hb Hd.
  assert (∀ a' b', a' ≠ a → objs m !! a' = Some b' → data_ b' ≠ Some l) as Hoth.
  { intros a' b' Hne Hb' Hd'. apply Hne. by eapply (owned_once _ _ Ho a' a). }
  constructor; simpl.
  - intros a'. destruct (decide (a = a')) as [->|Hn];
      [rewrite !lookup_insert_eq; naive_solver|rewrite !lookup_insert_ne by done; apply Ho].
  - intros a' b' v'. destruct (decide (a = a')) as [->|Hn].
    + rewrite !lookup_insert_eq. by intros [= <-] [= <-].
    + rewrite !lookup_insert_ne by done. intros Hb' Hv'.
      destruct (owned_value _ _ Ho a' b' v' Hb' Hv') as [Hs H]. split; [done|]. destruct v'; [done|].
      destruct H as (l' & H1 & H2). exists l'. split; [done|]. simpl.
      rewrite lookup_delete_ne; [done|]. intros <-. by eapply Hoth.
  - intros a1 a2 b1 b2 l'. rewrite !lookup_insert. repeat case_decide; subst; try naive_solver.
    apply (owned_once _ _ Ho).
  - intros l' Hl'. destruct (decide (l = l')) as [->|Hn];
      [rewrite lookup_delete_eq in Hl'; by destruct Hl'|].
    rewrite lookup_delete_ne in Hl' by done.
    destruct (owned_all _ _ Ho l' Hl') as (a' & b' & Hb' & Hd').
    exists a', b'. rewrite lookup_insert_ne; [done|]. intros <-. congruence.
Qed.

Lemma owned_swap m vs a c ba bc va vc :
  owned m vs → objs m !! a = Some ba → objs m !! c = Some bc → vs !! a = Some va →
  vs !! c = Some vc →
  owned (mkMem (arrays m) (<[c := ba]> (<[a := bc]> (objs m)))) (<[c := va]> (<[a := vc]> vs)).
Proof.
  intros Ho Ha Hc Hva Hvc. constructor; simpl.
  - intros x. rewrite !lookup_insert. repeat case_decide; try naive_solver. apply Ho.
  - intros x b v. rewrite !lookup_insert. repeat case_decide; subst; intros; simplify_eq;
      eapply (owned_value _ _ Ho); eauto.
  - intros a1 a2 b1 b2 l H1 H2 D1 D2. rewrite !lookup_insert in H1, H2.
    pose proof (owned_once _ _ Ho) as Hon.
    repeat case_decide; subst; simplify_eq; try done;
      first [by eapply Hon | exfalso; eauto 4].
  - intros l Hl. destruct (owned_all _ _ Ho l Hl) as (x & b & Hb & Hd).
    destruct (decide (c = x)) as [<-|Hcx].
    + destruct (decide (a = c)) as [->|Hac].
      * exists c, ba. rewrite lookup_insert_eq. simplify_eq. done.
      * exists a, bc. rewrite lookup_insert_ne, lookup_insert_eq by done. by simplify_eq.
    + destruct (decide (a = x)) as [<-|Hax].
      * exists c, ba. rewrite lookup_insert_eq. by simplify_eq.
      * exists x, b. by rewrite !lookup_insert_ne.
Qed.

Lemma owned_forget m vs a :
  vacant m vs a → owned (mkMem (arrays m) (delete a (objs m))) (delete a vs).
Proof.
  intros Hva. pose proof Hva as [Ho _]. pose proof (λ b, vacant_no_array m vs a b Hva) as Hno.
  constructor; simpl.
  - intros x. rewrite !lookup_delete. case_decide; [naive_solver|apply Ho].
  - intros x b v. rewrite !lookup_delete. case_decide; [done|]. apply (owned_value _ _ Ho).
  - intros a1 a2 b1 b2 l. rewrite !lookup_delete. repeat case_decide; try done.
    apply (owned_once _ _ Ho).
  - intros l Hl. destruct (owned_all _ _ Ho l Hl) as (x & b & Hb & Hd).
    exists x, b. rewrite lookup_delete_ne; [done|]. intros <-. apply Hno in Hb. congruence.
Qed.
End Ownership.

Section Methods.
Implicit Types (m : mem) (vs : values).

Lemma wp_obj a b Q m : objs m !! a = Some b → Q b m → wp (obj a) Q m.
Proof. intros Hb HQ. unfold wp, obj. by rewrite Hb. Qed.

Lemma clear_spec m vs a v :
  owned m vs → vs !! a = Some v → wp (clear a) (λ _ m', owned m' (<[a := []]> vs)) m.
Proof.
  intros Ho Hv. destruct (owned_look m vs a v Ho Hv) as (b & Hb & Hs & Hd).
  unfold clear. wp_steps. eapply wp_obj; [exact Hb|]. destruct v as [|x v].
  - rewrite bool_decide_false by (rewrite Hs; simpl; lia). wp_steps. by rewrite insert_id.
  - destruct Hd as (l & Hd & Hl). rewrite bool_decide_true by (rewrite Hs; simpl; lia).
    unfold set_obj. wp_steps. eapply wp_done; [unfold delete_array; by rewrite Hd; simpl; rewrite Hl|].
    wp_steps. simpl. rewrite insert_insert_eq. by eapply owned_release.
Qed.

Lemma swap_spec m vs a c va vc :
  owned m vs → vs !! a = Some va → vs !! c = Some vc →
  wp (swap a c) (λ _ m', owned m' (<[c := va]> (<[a := vc]> vs))) m.
Proof.
  intros Ho Hva Hvc. destruct (owned_look m vs a va Ho Hva) as (x & Hx & _).
  destruct (owned_look m vs c vc Ho Hvc) as (y & Hy & _).
  pose proof (owned_swap m vs a c x y va vc Ho Hx Hy Hva Hvc) as HH.
  unfold swap, set_obj. wp_steps. eapply wp_obj; [exact Hx|]. wp_steps. eapply wp_obj; [exact Hy|].
  wp_steps. destruct (decide (a = c)) as [->|Hne].
  - repeat (wp_step || (eapply wp_obj; [simpl; by rewrite lookup_insert_eq|]); cbn beta). simpl.
    simplify_eq. rewrite !insert_insert_eq in *. by destruct x.
  - repeat (wp_step || (eapply wp_obj; [simpl; simplify_map_eq; reflexivity|]); cbn beta). simpl.
    rewrite (insert_insert_ne _ a c), !insert_insert_eq by done. by destruct x, y.
Qed.

Lemma copy_spec m vs a c v :
  vacant m vs a → is_Some (objs m !! a) → a ≠ c → vs !! c = Some v → v ≠ [] →
  wp (copy a c) (λ _ m', owned m' (<[a := v]> vs)) m.
Proof.
  intros Hva [x Hx] Hne Hv Hnil. pose proof Hva as [Ho _].
  destruct (owned_look m vs c v Ho Hv) as (y & Hy & Hs & Hd).
  destruct v as [|e v]; [done|]. destruct Hd as (l & Hd & Hl).
  unfold copy, set_obj. wp_steps. eapply wp_obj; [exact Hy|]. wp_steps. eapply wp_obj; [exact Hx|].
  wp_steps. eapply wp_done.
  { unfold read_array. rewrite Hd. simpl. rewrite Hl. rewrite bool_decide_true by (rewrite Hs; done).
    reflexivity. }
  rewrite Hs, Nat2Z.id, take_ge by done. wp_steps. eapply wp_done; [reflexivity|]. wp_steps. simpl.
  rewrite insert_insert_eq. apply (owned_give m vs a _ (e :: v)); [done|done|].
  apply not_elem_of_dom, is_fresh.
Qed.

(** Both copying operations end the same way: copy when there is something to copy. *)
Lemma copy_tail m vs a c v :
  owned m vs → vs !! a = Some [] → a ≠ c → vs !! c = Some v →
  wp (o ← obj c; if bool_decide (0 < size_ o) then copy a c else mret tt)
    (λ _ m', owned m' (<[a := v]> vs)) m.
Proof.
  intros Ho Ha Hne Hv. destruct (owned_look m vs c v Ho Hv) as (y & Hy & Hs & _).
  wp_steps. eapply wp_obj; [exact Hy|]. destruct v as [|e v].
  - rewrite bool_decide_false by (rewrite Hs; simpl; lia). wp_steps. by rewrite insert_id.
  - rewrite bool_decide_true by (rewrite Hs; simpl; lia).
    apply copy_spec; [split; [done|by right]|apply (owned_dom _ _ Ho); by eexists|done..].
Qed.

Lemma exec_spec s m vs vs' :
  owned m vs → vexec s vs = Some vs' → wp (exec s) (λ _ m', owned m' vs') m.
Proof.
  intros Ho Hv. destruct s as [a v|a c|a c|a c|a c|a c|a|a]; simpl in *; repeat case_match; simplify_eq.
  - apply wp_modify. apply owned_null. split; [done|by left].
  - wp_steps. eapply wp_done; [reflexivity|]. apply wp_modify.
    apply (owned_give m vs a _ (b :: l)); [|done|].
    + split; [done|by left].
    + apply not_elem_of_dom, is_fresh.
  - unfold copy_construct, set_obj. apply wp_bind, wp_modify. assert (a ≠ c) as Hne by congruence.
    eapply wp_mono; [apply (copy_tail _ (<[a := []]> vs) a c)|].
    + apply owned_null. split; [done|by left].
    + by rewrite lookup_insert_eq.
    + done.
    + by rewrite lookup_insert_ne.
    + intros u m'. cbn beta. by rewrite insert_insert_eq.
  - unfold move_construct, set_obj. wp_steps. assert (a ≠ c) as Hne by congruence.
    eapply wp_mono; [apply (swap_spec _ (<[a := []]> vs) c a)|].
    + apply owned_null. split; [done|by left].
    + by rewrite lookup_insert_ne.
    + by rewrite lookup_insert_eq.
    + intros u m'. cbn beta.
      by rewrite (insert_insert_ne _ c a), insert_insert_eq by done.
  - unfold copy_assign. case_decide as Hne.
    + apply wp_bind. eapply wp_mono; [by eapply clear_spec|]. intros u m1 H1. cbn beta in H1 |- *.
      eapply wp_mono; [apply (copy_tail _ (<[a := []]> vs) a c); [exact H1|by rewrite lookup_insert_eq|done|]|].
      { by rewrite lookup_insert_ne. }
      intros u' m'. cbn beta. by rewrite insert_insert_eq.
    + subst c. wp_steps. simplify_eq. by rewrite insert_id.
  - unfold move_assign. by apply swap_spec.
  - by apply swap_spec.
  - by eapply clear_spec.
  - unfold destroy. wp_steps. eapply wp_mono; [by eapply clear_spec|].
    intros u m1 H1. apply wp_modify. rewrite <- (delete_insert_eq vs a []). apply owned_forget.
    split; [exact H1|]. right. by rewrite lookup_insert_eq.
Qed.
End Methods.

Lemma exec_all_spec l m vs vs' :
  owned m vs → vexec_all l vs = Some vs' → wp (exec_all l) (λ _ m', owned m' vs') m.
Proof.
  revert m vs. induction l as [|s l IH]; intros m vs Ho Hv; simpl in *; [injection Hv as <-; by apply wp_ret|].
  apply bind_Some in Hv as (vs1 & H1 & H2). apply wp_bind.
  eapply wp_mono; [by eapply exec_spec|]. intros u m1 Ho1. exact (IH m1 vs1 Ho1 H2).
Qed.

Definition no_memory : mem := mkMem ∅ ∅.

Lemma owned_no_memory : owned no_memory ∅.
Proof. constructor; intros *; simpl; rewrite ?lookup_empty; intros; try done; by destruct H. Qed.

Lemma owned_nothing m : owned m ∅ → arrays m = ∅.
Proof.
  intros Ho. apply map_eq. intros l. rewrite lookup_empty. apply eq_None_not_Some. intros Hl.
  destruct (owned_all _ _ Ho l Hl) as (a & b & Hb & _).
  destruct (proj1 (owned_dom _ _ Ho a)) as [v Hv]; [by eexists|]. by rewrite lookup_empty in Hv.
Qed.

Lemma look_spec m vs a v :
  owned m vs → vs !! a = Some v →
  size a m = Done (Z.of_nat (length v), m) ∧ toString a m = Done (v, m) ∧
  isEmpty a m = Done (bool_decide (v = []), m) ∧ to_bool a m = Done (bool_decide (v ≠ []), m) ∧
  ∀ i, 0 <= i → index a i m = from_option (λ x, Done (x, m)) (Undef AssertFailed) (v !! Z.to_nat i).
Proof.
  intros Ho Hv. destruct (owned_look m vs a v Ho Hv) as (b & Hb & Hs & Hd).
  assert (obj a m = Done (b, m)) as Hobj by (unfold obj; by rewrite Hb).
  unfold size, toString, isEmpty, to_bool, index. rewrite !(bind_done _ _ _ _ _ Hobj).
  split; [by rewrite Hs|]. destruct v as [|x v].
  - simpl in Hs. rewrite Hd, Hs. split_and!; [done|done|done|]. intros i Hi.
    rewrite (bind_done _ _ _ _ _ Hobj), Hs, bool_decide_false by lia. by rewrite lookup_nil.
  - destruct Hd as (l & Hd & Hl). rewrite Hd. split_and!.
    + unfold read_array. rewrite Hl, Hs, bool_decide_true by done. by rewrite Nat2Z.id, take_ge.
    + rewrite Hs. by rewrite bool_decide_false by (simpl; lia).
    + done.
    + intros i Hi. rewrite (bind_done _ _ _ _ _ Hobj), Hs, Hd. case_bool_decide as Hlt.
      * destruct (lookup_lt_is_Some_2 (x :: v) (Z.to_nat i)) as [c Hc]; [lia|]. rewrite Hc.
        cbn -[Z.to_nat lookup read_array].
        rewrite (bind_done _ _ m tt m) by done.
        rewrite (bind_done _ _ m (take (Z.to_nat (i + 1)) (x :: v)) m).
        -- rewrite lookup_take_lt, Hc by lia. done.
        -- unfold read_array. by rewrite Hl, bool_decide_true by lia.
      * rewrite lookup_ge_None_2 by lia. done.
Qed.

(** C17. Whatever a client does with its byte strings within their lifetimes (receive them from
    the store, copy or move construct and assign, itself included, swap, clear, destroy), no
    array is deleted twice, read after its deletion or past its end; every array has exactly
    one owner; each object reads as the value it should have, where one that was cleared or
    that another was move constructed from reads as empty, and move assignment exchanges the
    two values; and when the last object is gone no array is left. *)
Theorem bytes_own_their_arrays (l : list stmt) (vs : values) :
  vexec_all l ∅ = Some vs →
  wp (exec_all l) (λ _ m, owned m vs ∧ (vs = ∅ → arrays m = ∅) ∧
    ∀ a v, vs !! a = Some v →
      size a m = Done (Z.of_nat (length v), m) ∧ toString a m = Done (v, m) ∧
      isEmpty a m = Done (bool_decide (v = []), m) ∧ to_bool a m = Done (bool_decide (v ≠ []), m) ∧
      ∀ i, 0 <= i →
        index a i m = from_option (λ x, Done (x, m)) (Undef AssertFailed) (v !! Z.to_nat i))
    no_memory.
Proof.
  intros Hv. eapply wp_mono; [apply (exec_all_spec l _ ∅ vs); [apply owned_no_memory|done]|].
  intros u m Ho. cbn beta in Ho. split_and!; [done|intros ->; by apply owned_nothing|].
  intros a v Ha. by eapply look_spec.
Qed.

(** A client that copies, moves and assigns to itself, then lets everything go. *)
Definition demo_stmts : list stmt :=
  [SReceive 1 [x61; x62]; SReceive 2 []; SCopyConstruct 3 1; SMoveConstruct 4 1;
   SCopyAssign 4 4; SMoveAssign 2 3; SSwap 1 2; SCopyAssign 3 1; SClear 1;
   SDestroy 4; SDestroy 3; SDestroy 2; SDestroy 1].

Lemma bytes_own_their_arrays_witness :
  vexec_all demo_stmts ∅ = Some ∅ ∧ wp (exec_all demo_stmts) (λ _ m, arrays m = ∅) no_memory.
Proof.
  assert (vexec_all demo_stmts ∅ = Some ∅) as Hv by (vm_compute; reflexivity). split; [exact Hv|].
  eapply wp_mono; [exact (bytes_own_their_arrays demo_stmts ∅ Hv)|].
  intros u m (_ & H & _). exact (H eq_refl).
Defined.
