(* ===== verification/KueueManager.v ===== *)
(** Opening from outside (src/impl/librocks.cpp) and the manager of named queues
    (include/impl/KueueManagerImpl.h): one store, and one queue object per name, made when the
    name is first asked for. *)
From S2P Require Import Prelude Slice BigEndian RocksStatus StatusCode RocksDB KindImpl.
From S2P Require Import StoreImpl StoreLemmas StoreSpec StoreProps StoreMaintenance.
From S2P Require Import StoreLifecycle KueueImpl.

Local Open Scope Z_scope.

Section Manager.
Context `{E : External}.

(** ** librocks.cpp: openStore

    A process has one store; a pointer to it is null or points to it. *)

Definition openStore (c0 : StoreConfig) (status : status_ptr) (path : string) :
    M proc (status_ptr * bool) :=
  let status := assign Status.Ok status in
  StoreImpl_new c0 path ;;
  b ← StoreImpl.isOpen;
  if (b : bool) then mret (status, true)
  else
    c ← getCode;
    StoreImpl.close ;;
    StoreImpl_delete ;;
    mret (assign c status, false).

(** ** State *)

(** [store] is false when the pointer is null; [monitor_] is true while a call holds the
    manager's mutex. *)
Record KueueManagerImpl := mkManager {
  monitor_ : bool;
  store : bool;
  version_ : string;
  queues : gmap string ptr;
}.

(** The manager, the queue objects that exist, and the process of the store. *)
Record mproc := mkMProc {
  mgr : KueueManagerImpl;
  kueues : gmap ptr KueueImpl;
  mp : proc;
}.

Abbreviation MM := (M mproc).

Definition in_proc {A} (m : M proc A) : MM A := λ s,
  match m (mp s) with
  | Done (a, p) => Done (a, mkMProc (mgr s) (kueues s) p)
  | Undef f => Undef f
  end.
Definition with_mgr (f : KueueManagerImpl → KueueManagerImpl) (s : mproc) : mproc :=
  mkMProc (f (mgr s)) (kueues s) (mp s).

Definition set_monitor_ b m := mkManager b (store m) (version_ m) (queues m).
Definition set_store b m := mkManager (monitor_ m) b (version_ m) (queues m).
Definition set_version_ v m := mkManager (monitor_ m) (store m) v (queues m).
Definition set_queues q m := mkManager (monitor_ m) (store m) (version_ m) q.

(** [store->...] *)
Definition on_store {A} (m : M proc A) : MM A :=
  b ← gets (λ s, store (mgr s)); if (b : bool) then in_proc m else undef NullDeref.

(** [new KueueImpl(store, identifier)] *)
Definition alloc_kueue (k : KueueImpl) : MM ptr := λ s,
  let a := fresh (dom (kueues s)) in
  Done (a, mkMProc (mgr s) (<[a := k]> (kueues s)) (mp s)).
Definition new_kueue (identifier : string) : MM ptr :=
  k ← in_proc (KueueImpl_init identifier); alloc_kueue k.
Definition delete_kueue (a : ptr) : MM unit := λ s,
  match kueues s !! a with
  | Some _ => Done (tt, mkMProc (mgr s) (delete a (kueues s)) (mp s))
  | None => Undef DoubleFree
  end.

(** A call on the queue at [a]. *)
Definition on_kueue {A} (a : ptr) (m : M kproc A) : MM A := λ s,
  match kueues s !! a with
  | None => Undef UseAfterFree
  | Some k =>
      match m (mkKProc k (mp s)) with
      | Done (x, s') => Done (x, mkMProc (mgr s) (<[a := kueue s']> (kueues s)) (kp s'))
      | Undef f => Undef f
      end
  end.

Definition synchronize {A} (m : MM A) : MM A :=
  locked ← gets (λ s, monitor_ (mgr s));
  if (locked : bool) then undef SelfDeadlock
  else
    modify (with_mgr (set_monitor_ true)) ;;
    a ← m;
    modify (with_mgr (set_monitor_ false)) ;;
    mret a.

(** ** Operations *)

Definition isOpen : MM bool :=
  b ← gets (λ s, store (mgr s));
  if (b : bool) then in_proc StoreImpl.isOpen else mret false.

Definition validateOpen (status : status_ptr) : MM (bool * status_ptr) :=
  b ← isOpen;
  if (b : bool) then mret (true, assign Status.Ok status)
  else mret (false, assign Status.Closed status).

Definition KueueManagerImpl_new (c0 : StoreConfig) (status : status_ptr) (path : string) :
    MM status_ptr :=
  modify (with_mgr (λ _, mkManager false false EmptyString ∅)) ;;
  let status := assign Status.Ok status in
  in_proc (StoreImpl_new c0 path) ;;
  b ← in_proc StoreImpl.isOpen;
  if (b : bool) then
    modify (with_mgr (set_store true)) ;;
    modify (with_mgr (set_version_ GetRocksVersionAsString)) ;;
    mret status
  else
    c ← in_proc getCode;
    in_proc StoreImpl.close ;;
    in_proc StoreImpl_delete ;;
    mret (assign c status).

(** The pointer returned, null when the manager is closed. *)
Definition get (status : status_ptr) (id : string) : MM (status_ptr * option ptr) :=
  synchronize (
    '(b, status) ← validateOpen status;
    if (b : bool) then
      qs ← gets (λ s, queues (mgr s));
      match qs !! c_str id with
      | Some q => mret (status, Some q)
      | None =>
          let identifier := c_str id in
          pKueue ← new_kueue identifier;
          modify (with_mgr (λ m, set_queues (<[identifier := pKueue]> (queues m)) m)) ;;
          mret (status, Some pKueue)
      end
    else mret (status, None)).

(** [for (auto& it : queues) delete it.second] *)
Fixpoint delete_queues (l : list (string * ptr)) : MM unit :=
  match l with [] => mret tt | (_, q) :: l' => delete_kueue q ;; delete_queues l' end.

Definition close_ : MM unit :=
  b ← isOpen;
  if (b : bool) then
    qs ← gets (λ s, queues (mgr s));
    delete_queues (umap_iter qs) ;;
    modify (with_mgr (set_queues ∅)) ;;
    on_store StoreImpl_delete ;;
    modify (with_mgr (set_store false))
  else mret tt.

Definition close : MM unit := synchronize close_.
Definition KueueManagerImpl_delete : MM unit := close_.

Definition compactAll (status : status_ptr) : MM status_ptr :=
  synchronize (
    '(b, status) ← validateOpen status;
    if (b : bool) then on_store (StoreImpl.compactAll status) else mret status).

Definition syncWal (status : status_ptr) : MM status_ptr :=
  synchronize (
    '(b, status) ← validateOpen status;
    if (b : bool) then on_store syncWAL ;; mret status else mret status).

Definition getRocksDBVersion : MM string := gets (λ s, version_ (mgr s)).

(** librocks.cpp: openKueueManager; the manager when it is open, null otherwise. *)
Definition openKueueManager (c0 : StoreConfig) (status : status_ptr) (path : string) :
    MM (status_ptr * bool) :=
  let status := assign Status.Ok status in
  status ← KueueManagerImpl_new c0 status path;
  b ← isOpen;
  if (b : bool) then mret (status, true)
  else close ;; KueueManagerImpl_delete ;; mret (status, false).
End Manager.

Arguments mproc : clear implicits.
Arguments mproc {E}.

(** ** Making a queue always finishes *)

Section Making.
Context `{ES : ExternalSpec}.
Implicit Types (p : proc).

(** Reading back what a search returned is always possible. *)
Lemma decode_total p p' found m res :
  gave p p' found m res → wp (decode_key res m) (λ _ p2, p2 = p') p'.
Proof.
  intros [Hm Hg]. destruct (default [] found) as [|b v].
  { destruct Hg as [-> _]. by apply wp_ret. }
  destruct Hg as (l & -> & _ & Hch). unfold decode_key. case_bool_decide as H8; [|by apply wp_ret].
  apply wp_bind. eapply (wp_done _ _ _ (b :: v) p').
  { unfold deref_chars. by rewrite Hch, lookup_insert_eq. }
  apply wp_bind. eapply wp_lift_outcome.
  { unfold getU64BE. rewrite (read_mem_done _ (b :: v)) by (done || lia). reflexivity. }
  by wp_steps.
Qed.

(** What making a queue leaves alone. *)
Definition untouched p p' : Prop :=
  store_ok p' ∧ open (this p') = true ∧ hist (world p') = hist (world p) ∧
  ∀ r cf, kind_at p r cf → kind_at p' r cf.

Lemma untouched_trans p1 p2 p3 : untouched p1 p2 → untouched p2 p3 → untouched p1 p3.
Proof.
  intros (_ & _ & Hh1 & Hk1) (Hs & Ho & Hh2 & Hk2). split_and!; [done|done|congruence|eauto].
Qed.

Lemma find_end_total seek is_end st r l p cf :
  seeks seek is_end → store_ok p → open (this p) = true → kind_at p r cf →
  wp (find_key seek st r (Some l)) (λ '(_, n, res) p', untouched p p' ∧
    kinds (this p') = kinds (this p) ∧ is_Some n ∧
    wp (decode_key res (default 0 n)) (λ _ p2, p2 = p') p') p.
Proof.
  intros Hseek Hs Ho Hk. destruct (proj1 (proj2 Hs) Ho) as [d Hd].
  eapply wp_mono; [by apply (find_key_spec seek is_end p _ r cf d)|].
  intros [[st1 n1] res1] p1 (Hs1 & Hro & Hout).
  destruct (read_only_inv _ _ Hro) as (ch & w & -> & [Hh _]).
  assert (untouched p (with_chars ch (with_world w p))) as Hu.
  { split_and!; [done|exact Ho|exact Hh|]. intros r' cf' [nm Hr']. by exists nm. }
  destruct Hout as [(_ & _ & -> & -> & _)|(_ & found & m & -> & Hg & _)].
  - split; [done|]. split; [done|]. split; [by eexists|]. by apply wp_ret.
  - split; [done|]. split; [done|]. split; [by eexists|]. by eapply decode_total.
Qed.

(** The kind a queue works on is registered under the queue's name. *)
Definition works_on (id : string) (k : KueueImpl) p' : Prop :=
  isValid_ k = true → ∃ r cf, queueKind k = Some r ∧ kinds (this p') !! c_str id = Some r ∧
    kind_at p' r cf.

Lemma kueue_init_total p id :
  store_ok p → open (this p) = true →
  wp (KueueImpl_init id) (λ k p', untouched p p' ∧ works_on id k p') p.
Proof.
  intros Hs Ho. unfold KueueImpl_init. apply wp_bind. unfold getKindManager. apply wp_bind.
  apply wp_validateOpen_open; [done|]. apply wp_ret. rewrite decide_True by done.
  apply wp_bind. eapply wp_mono; [by apply getOrCreateKind_spec|].
  intros [st1 r] p1 (Hs1 & Ho1 & [Hq1 _] & _ & Hk1 & Hout). cbn beta iota.
  assert (untouched p p1) as Hu1 by done.
  destruct Hout as [(-> & Hreg & cf & Hcf & _)|(c & Hc & -> & -> & _)].
  2: { rewrite decide_False by (intros [= ->]; done). by apply wp_ret. }
  rewrite c_str_idemp in Hreg.
  rewrite decide_True by done. pose proof Hcf as [nm Hr]. apply wp_bind.
  eapply wp_deref_kind; [exact Hr|]. simpl kind_isValid. cbn iota.
  apply wp_bind. eapply wp_mono; [apply (find_end_total SeekToFirst least_key _ _ _ _ cf); [|done..]|].
  { intros it w. apply seek_first_spec. }
  intros [[st2 n2] res2] p2 (Hu2 & Hreg2 & [l2 ->] & Hd2). pose proof Hu2 as (Hs2 & Ho2 & _ & Hk2).
  cbn beta iota. case_decide; [|wp_steps; split; [by eapply untouched_trans|done]].
  apply wp_bind. eapply wp_mono; [exact Hd2|]. intros m p2' ->.
  apply wp_bind. eapply wp_mono; [apply (find_end_total SeekToLast greatest_key _ _ _ _ cf); [|by eauto..]|].
  { intros it w. apply seek_last_spec. }
  intros [[st3 n3] res3] p3 (Hu3 & Hreg3 & [l3 ->] & Hd3). cbn beta iota.
  assert (untouched p p3) as Hu by (eapply untouched_trans; [done|by eapply untouched_trans]).
  case_decide; [|wp_steps; split; [done|by destruct m]].
  apply wp_bind. eapply wp_mono; [exact Hd3|]. intros g p3' ->.
  case_bool_decide; wp_steps; (split; [done|]); [|by destruct m, g].
  intros _. exists r, cf. split; [by destruct m, g|]. split; [by rewrite Hreg3, Hreg2|].
  by apply Hu3, Hk2.
Qed.
End Making.

(** ** The manager's invariant *)

Section Managing.
Context `{ES : ExternalSpec}.
Implicit Types (s : mproc).

(** The manager is open, its lock free, its store in order, and each name has a queue object of
    its own. *)
Definition manager_ok s : Prop :=
  monitor_ (mgr s) = false ∧ store (mgr s) = true ∧
  store_ok (mp s) ∧ open (this (mp s)) = true ∧
  (∀ n a, queues (mgr s) !! n = Some a → is_Some (kueues s !! a)) ∧
  (∀ n1 n2 a, queues (mgr s) !! n1 = Some a → queues (mgr s) !! n2 = Some a → n1 = n2).

Lemma wp_in_proc {A} (m : M proc A) Q s :
  wp m (λ a p, Q a (mkMProc (mgr s) (kueues s) p)) (mp s) → wp (in_proc m) Q s.
Proof. unfold wp, in_proc. by destruct (m (mp s)) as [[a p]|]. Qed.

Lemma wp_synchronize_m {A} (m : M mproc A) Q s :
  monitor_ (mgr s) = false →
  wp m (λ a s', Q a (with_mgr (set_monitor_ false) s')) (with_mgr (set_monitor_ true) s) →
  wp (synchronize m) Q s.
Proof.
  intros Hm H. unfold synchronize. wp_steps. rewrite Hm. wp_steps.
  eapply wp_mono; [exact H|]. intros a s' Ha. by wp_steps.
Qed.

Lemma wp_isOpen_m Q s :
  Q (store (mgr s) && open (this (mp s))) s → wp isOpen Q s.
Proof.
  intros HQ. unfold isOpen. wp_steps. destruct (store (mgr s)); [|by apply wp_ret].
  apply wp_in_proc. unfold StoreImpl.isOpen. wp_steps. by destruct s.
Qed.

Lemma unlocked s : monitor_ (mgr s) = false →
  with_mgr (set_monitor_ false) (with_mgr (set_monitor_ true) s) = s.
Proof. destruct s as [[m st v q] k p]; simpl. by intros ->. Qed.

(** A call that gives up when the manager is closed. *)
Lemma closed_manager_call {A} st (a : status_ptr → A) (body : status_ptr → M mproc A) s :
  monitor_ (mgr s) = false → store (mgr s) = false →
  synchronize ('(b, status) ← validateOpen st;
               if (b : bool) then body status else mret (a status)) s =
  Done (a (assign Status.Closed st), s).
Proof.
  intros Hm Ho. destruct s as [[m b v q] k p]; simpl in *; subst.
  unfold synchronize, validateOpen, isOpen, gets, modify, mbind, M_bind, mret, M_ret. by simpl.
Qed.

Lemma get_known st id a s :
  manager_ok s → queues (mgr s) !! c_str id = Some a →
  get st id s = Done ((assign Status.Ok st, Some a), s).
Proof.
  intros (Hm & Hst & _ & Ho & _) Ha. destruct s as [[m b v q] k p]; simpl in *; subst.
  unfold get, synchronize, validateOpen, isOpen, in_proc, StoreImpl.isOpen, gets, modify, mbind,
    M_bind, mret, M_ret. simpl. rewrite Ho. simpl. by rewrite Ha.
Qed.

(** A new queue object, under a name that had none. *)
Lemma manager_ok_insert s n a k p :
  manager_ok s → queues (mgr s) !! n = None → kueues s !! a = None → store_ok p →
  open (this p) = true →
  manager_ok (mkMProc (set_queues (<[n := a]> (queues (mgr s))) (mgr s)) (<[a := k]> (kueues s)) p).
Proof.
  intros (Hm & Hst & _ & _ & Hq & Hi) Hn Ha Hs Ho. split_and!; try done; simpl.
  - intros n' a' [[<- <-]|[Hne Hl]]%lookup_insert_Some; [rewrite lookup_insert_eq; by eexists|].
    rewrite lookup_insert_ne; [by eapply Hq|]. intros <-. destruct (Hq n' a Hl) as [? ?]. congruence.
  - intros n1 n2 a' [[<- <-]|[Hne1 Hl1]]%lookup_insert_Some
      [[<- E2]|[Hne2 Hl2]]%lookup_insert_Some; try done; [..|by eapply Hi].
    + destruct (Hq n2 a Hl2) as [? ?]. congruence.
    + subst a'. destruct (Hq n1 a Hl1) as [? ?]. congruence.
Qed.

(** What [get] answers. *)
Definition get_post s (id : string) (st : status_ptr) (out : status_ptr * option ptr) s' : Prop :=
  let '(st', q) := out in
  st' = assign Status.Ok st ∧ manager_ok s' ∧ untouched (mp s) (mp s') ∧
  (∀ a, is_Some (kueues s !! a) → kueues s' !! a = kueues s !! a) ∧
  ∃ a, q = Some a ∧ queues (mgr s') = <[c_str id := a]> (queues (mgr s)) ∧
    (is_Some (queues (mgr s) !! c_str id) → s' = s) ∧
    (queues (mgr s) !! c_str id = None → kueues s !! a = None ∧
       ∃ k, kueues s' !! a = Some k ∧ works_on (c_str id) k (mp s')) ∧
    ∀ st2, get st2 id s' = Done ((assign Status.Ok st2, Some a), s').

Lemma untouched_refl p : store_ok p → open (this p) = true → untouched p p.
Proof. done. Qed.

Lemma get_spec_m st id s : manager_ok s → wp (get st id) (get_post s id st) s.
Proof.
  intros Hok. destruct (queues (mgr s) !! c_str id) as [a|] eqn:Hq.
  { eapply wp_done; [by apply get_known|]. pose proof Hok as (_ & _ & Hs & Ho & _).
    split_and!; [done|done|by apply untouched_refl|done|]. exists a.
    split_and!; [done|by rewrite insert_id|done|congruence|]. intros st2. by apply get_known. }
  pose proof Hok as (Hm & Hst & Hs & Ho & Hqs & Hi).
  apply wp_synchronize_m; [done|]. unfold validateOpen. wp_steps. apply wp_isOpen_m. simpl.
  rewrite Hst, Ho. apply wp_ret. cbn beta iota. apply wp_bind, wp_gets.
  cbn [queues mgr with_mgr set_monitor_]. rewrite Hq. unfold new_kueue. wp_steps.
  apply wp_in_proc. simpl. eapply wp_mono; [by apply kueue_init_total|].
  intros k p' [Hu Hw]. cbn beta. eapply wp_done; [reflexivity|]. wp_steps.
  pose proof (is_fresh (dom (kueues s))) as Hfr%not_elem_of_dom.
  set (a := fresh (dom (kueues s))) in *.
  assert (with_mgr (set_monitor_ false) (with_mgr (λ m, set_queues (<[c_str id:=a]> (queues m)) m)
    (mkMProc (set_monitor_ true (mgr s)) (<[a:=k]> (kueues s)) p')) =
    mkMProc (set_queues (<[c_str id := a]> (queues (mgr s))) (mgr s)) (<[a := k]> (kueues s)) p') as Heq.
  { destruct s as [[m st' v q] ks p]; simpl in *. by subst m. }
  change (get_post s id st (assign Status.Ok st, Some a)
    (with_mgr (set_monitor_ false) (with_mgr (λ m, set_queues (<[c_str id:=a]> (queues m)) m)
      (mkMProc (set_monitor_ true (mgr s)) (<[a:=k]> (kueues s)) p')))).
  rewrite Heq. clear Heq.
  assert (manager_ok (mkMProc (set_queues (<[c_str id := a]> (queues (mgr s))) (mgr s))
    (<[a := k]> (kueues s)) p')) as Hok' by (apply manager_ok_insert; try done; apply Hu).
  split; [done|]. split; [exact Hok'|]. split; [exact Hu|]. split.
  { intros a' [k' Hk']. simpl. rewrite lookup_insert_ne; [done|]. intros <-. congruence. }
  exists a. split; [done|]. split; [done|]. split; [by intros [? ?]; congruence|]. split.
  - intros _. split; [done|]. exists k. simpl. rewrite lookup_insert_eq. done.
  - intros st2. apply get_known; [exact Hok'|]. simpl. by rewrite lookup_insert_eq.
Qed.
End Managing.

(** ** Closing the manager *)

Section ManagerClosing.
Context `{ES : ExternalSpec}.
Implicit Types (s : mproc).

Lemma delete_queues_spec l Q s :
  NoDup l.*2 → Forall (λ nq, is_Some (kueues s !! nq.2)) l →
  (∀ ks, (∀ a, ks !! a = if decide (a ∈ l.*2) then None else kueues s !! a) →
     Q tt (mkMProc (mgr s) ks (mp s))) →
  wp (delete_queues l) Q s.
Proof.
  revert s. induction l as [|[n q] l IH]; intros s Hnd Hl HQ; cbn [delete_queues].
  { apply wp_ret. replace s with (mkMProc (mgr s) (kueues s) (mp s)) by (by destruct s).
    apply HQ. intros a. rewrite decide_False; [done|]. apply not_elem_of_nil. }
  inversion_clear Hnd as [|? ? Hq Hnd']. inversion_clear Hl as [|? ? [k Hk] Hl']. simpl in Hk, Hq.
  apply wp_bind. eapply wp_done; [unfold delete_kueue; by rewrite Hk|]. apply IH; [done| |].
  - apply Forall_forall. intros [n' q'] Hin. rewrite Forall_forall in Hl'. simpl.
    rewrite lookup_delete_ne; [exact (Hl' _ Hin)|]. intros ->. apply Hq.
    apply list_elem_of_fmap. by exists (n', q').
  - intros ks Hks. apply HQ. intros a. rewrite Hks. simpl. destruct (decide (a = q)) as [->|Hne].
    + rewrite lookup_delete_eq, (decide_True (P := q ∈ q :: _)) by apply list_elem_of_here.
      by case_decide.
    + rewrite lookup_delete_ne by done. destruct (decide (a ∈ l.*2)) as [Hin|Hin].
      * rewrite decide_True; [done|]. by apply list_elem_of_further.
      * rewrite decide_False; [done|]. intros [?|?]%elem_of_cons; tauto.
Qed.

Lemma queue_addresses s :
  manager_ok s → NoDup (umap_iter (queues (mgr s))).*2 ∧
  Forall (λ nq, is_Some (kueues s !! nq.2)) (umap_iter (queues (mgr s))).
Proof.
  intros (_ & _ & _ & _ & Hq & Hi). rewrite umap_iter_perm. split.
  - apply NoDup_fmap_2_strong; [|apply NoDup_map_to_list].
    intros [n1 a1] [n2 a2] H1%elem_of_map_to_list H2%elem_of_map_to_list. simpl. intros <-.
    by rewrite (Hi n1 n2 a1 H1 H2).
  - apply Forall_forall. intros [n a] Hin%elem_of_map_to_list. by apply (Hq n).
Qed.

(** What [close] leaves: no queue, no store, and every call answered with [Closed]. *)
Definition close_post s s' : Prop :=
  store (mgr s') = false ∧ queues (mgr s') = ∅ ∧
  store_ok (mp s') ∧ open (this (mp s')) = false ∧
  (∀ n a, queues (mgr s) !! n = Some a → kueues s' !! a = None) ∧
  (∀ a, (∀ n, queues (mgr s) !! n ≠ Some a) → kueues s' !! a = kueues s !! a) ∧
  (∀ st id, get st id s' = Done ((assign Status.Closed st, None), s')) ∧
  (∀ st, compactAll st s' = Done (assign Status.Closed st, s')) ∧
  (∀ st, syncWal st s' = Done (assign Status.Closed st, s')) ∧
  close s' = Done (tt, s') ∧ KueueManagerImpl_delete s' = Done (tt, s').

Lemma closed_noop s :
  monitor_ (mgr s) = false → store (mgr s) = false →
  close s = Done (tt, s) ∧ KueueManagerImpl_delete s = Done (tt, s).
Proof.
  intros Hm Ho. destruct s as [[m b v q] k p]; simpl in *; subst.
  unfold close, KueueManagerImpl_delete, close_, synchronize, isOpen, gets, modify, mbind, M_bind,
    mret, M_ret. by simpl.
Qed.

Lemma close_spec_m s : manager_ok s → wp close (λ _ s', close_post s s') s.
Proof.
  intros Hok. pose proof Hok as (Hm & Hst & Hs & Ho & Hqs & Hi).
  destruct (queue_addresses s Hok) as [Hnd Hall]. destruct (proj1 (proj2 Hs) Ho) as [d Hd].
  apply wp_synchronize_m; [done|]. unfold close_. apply wp_bind, wp_isOpen_m. simpl.
  rewrite Hst, Ho. simpl. wp_steps. simpl. apply delete_queues_spec; [done|done|].
  intros ks Hks. simpl in Hks. wp_steps. unfold on_store. wp_steps. simpl. rewrite Hst.
  apply wp_in_proc. unfold StoreImpl_delete, StoreImpl.isOpen. wp_steps. simpl. rewrite Ho.
  eapply wp_mono; [by apply (proj2 (close_spec (mp s) d Hs Ho Hd))|].
  intros u p' (_ & _ & _ & Ho' & _ & _ & _ & Hs' & _). wp_steps. simpl.
  set (s' := with_mgr (set_monitor_ false) _).
  assert (monitor_ (mgr s') = false) as Hm' by done.
  assert (store (mgr s') = false) as Hst' by done.
  destruct (closed_noop s' Hm' Hst') as [Hc1 Hc2].
  refine (conj Hst' (conj eq_refl (conj Hs' (conj Ho' (conj _ (conj _ (conj _ (conj _ (conj _
    (conj Hc1 Hc2)))))))))).
  - intros n a Ha. simpl. rewrite Hks, decide_True; [done|]. rewrite umap_iter_perm.
    apply list_elem_of_fmap. exists (n, a). split; [done|]. by apply elem_of_map_to_list.
  - intros a Ha. simpl. rewrite Hks, decide_False; [done|]. rewrite umap_iter_perm.
    intros ([n a'] & -> & Hin%elem_of_map_to_list)%list_elem_of_fmap. by apply (Ha n).
  - intros st id. apply (closed_manager_call st (λ st, (st, None))); done.
  - intros st. by apply (closed_manager_call st (λ st, st)).
  - intros st. by apply (closed_manager_call st (λ st, st)).
Qed.

(** Deleting a queue leaves a manager whose [close] deletes it again. *)
Lemma delete_again l q s :
  q ∈ l.*2 → Forall (λ nq, nq.2 = q ∨ is_Some (kueues s !! nq.2)) l → NoDup l.*2 →
  kueues s !! q = None → delete_queues l s = Undef DoubleFree.
Proof.
  revert s. induction l as [|[n a] l IH]; intros s Hin Hl Hnd Hq; [by apply elem_of_nil in Hin|].
  inversion_clear Hl as [|? ? Ha Hl']. inversion_clear Hnd as [|? ? Hna Hnd']. simpl in *.
  destruct (decide (a = q)) as [->|Hne].
  { apply bind_undef. unfold delete_kueue. by rewrite Hq. }
  destruct Ha as [?|[k Hk]]; [done|]. erewrite bind_done; [|unfold delete_kueue; by rewrite Hk].
  apply IH; [|..|done|].
  - apply elem_of_cons in Hin. naive_solver.
  - apply Forall_forall. intros [n' a'] Hin'. rewrite Forall_forall in Hl'. simpl.
    destruct (Hl' _ Hin') as [?|Hs]; [by left|right]. rewrite lookup_delete_ne; [exact Hs|].
    intros ->. apply Hna. apply list_elem_of_fmap. by exists (n', a').
  - simpl. by rewrite lookup_delete_ne.
Qed.

Lemma delete_then_close s n q :
  manager_ok s → queues (mgr s) !! n = Some q →
  wp (delete_kueue q) (λ _ s', close s' = Undef DoubleFree) s.
Proof.
  intros Hok Hq. destruct (queue_addresses s Hok) as [Hnd Hall].
  destruct Hok as (Hm & Hst & Hs & Ho & Hqs & Hi). destruct (Hqs n q Hq) as [k Hk].
  eapply wp_done; [unfold delete_kueue; by rewrite Hk|].
  set (s' := mkMProc _ _ _). unfold close, synchronize.
  erewrite bind_done by reflexivity. simpl. rewrite Hm.
  erewrite bind_done by reflexivity. apply bind_undef. unfold close_.
  erewrite bind_done. 2: { unfold isOpen. erewrite bind_done by reflexivity. simpl. by rewrite Hst. }
  simpl. rewrite Ho. erewrite bind_done by reflexivity. apply bind_undef.
  apply (delete_again _ q).
  - simpl. rewrite umap_iter_perm. apply list_elem_of_fmap. exists (n, q).
    split; [done|]. by apply elem_of_map_to_list.
  - simpl. eapply Forall_impl; [exact Hall|]. intros [n' a] Ha. simpl in *.
    destruct (decide (a = q)) as [->|Hne]; [by left|right]. by rewrite lookup_delete_ne.
  - exact Hnd.
  - simpl. by rewrite lookup_delete_eq.
Qed.
End ManagerClosing.

(** C11. The manager's [get] gives one queue object per name: on an open manager it reports
    [Ok] and returns the object registered under the name, made on the first request over the
    column family of that name and then returned again, with nothing changed; other names and
    other queues are untouched, two names never share an object, and what is stored does not
    change. *)
Theorem manager_keeps_one_queue_per_name `{ES : ExternalSpec} (s : mproc) (st : status_ptr)
    (id : string) :
  manager_ok s → wp (get st id) (get_post s id st) s.
Proof. apply get_spec_m. Qed.

(** Closing the manager deletes each of its queues once, closes and deletes the store, and
    leaves a manager on which every call reports [Closed] (a null pointer from [get]) and a
    second [close] or the destructor does nothing. *)
Theorem manager_close_is_final `{ES : ExternalSpec} (s : mproc) :
  manager_ok s → wp close (λ _ s', close_post s s') s.
Proof. apply close_spec_m. Qed.

(** The interface says that the queue [get] returns must be deleted by the caller, but the
    manager keeps the pointer: a caller that does so makes the next [close], and so the
    destructor too, delete the object a second time. *)
Theorem deleting_a_queue_breaks_close `{ES : ExternalSpec} (s : mproc) (st : status_ptr)
    (id : string) :
  manager_ok s →
  wp (get st id) (λ '(_, q) s', ∃ a, q = Some a ∧
    wp (delete_kueue a) (λ _ s'', close s'' = Undef DoubleFree) s') s.
Proof.
  intros Hok. eapply wp_mono; [by apply get_spec_m|].
  intros [st' q] s' (_ & Hok' & _ & _ & a & -> & Hqs & _). exists a. split; [done|].
  apply (delete_then_close _ (c_str id)); [done|]. by rewrite Hqs, lookup_insert_eq.
Qed.
