(* ===== verification/KueueDemo.v ===== *)
(** A queue on the store of StoreDemo.v, and the manager of queues: concrete runs, and the properties of both
    applied to them. *)
From S2P Require Import Prelude Slice BigEndian RocksStatus StatusCode RocksDB KindImpl StoreImpl StoreLemmas.
From S2P Require Import StoreSpec MemDB StoreDemo KueueImpl KueueSpec KueueRecovery KueueManager.

Local Open Scope Z_scope.

(** The queue a constructor makes, and the process after it. *)
Definition kueue_of (id : string) (p : proc) : kproc :=
  match KueueImpl_init id p with
  | Done (k, p') => mkKProc k p'
  | Undef _ => mkKProc new_KueueImpl p
  end.

Definition demo_kueue : kproc := kueue_of "default" demo.

Definition run_kueue {A} (m : M kproc A) (s : kproc) : kproc :=
  match m s with Done (_, s') => s' | Undef _ => s end.

Definition result_of {A} (m : M kproc A) (s : kproc) : outcome A :=
  match m s with Done (a, _) => Done a | Undef f => Undef f end.

Example demo_kueue_fields : kueue demo_kueue = mkKueueImpl 0 0 0 0 0 (Some demo_kind) true.
Proof. vm_compute. reflexivity. Qed.

(** Two puts and three polls. *)
Example demo_kueue_run :
  result_of (run_kops (Some 9) [KPut (B "one"); KPut (B "two"); KTakeFor 1; KTakeFor 1; KTakeFor 1])
    demo_kueue =
  Done [OStatus (Some 0); OStatus (Some 0); OValue (Some 0) (Some 3) None (Some 1%positive);
        OValue (Some 0) (Some 3) None (Some 2%positive);
        OValue (Some Status.TimedOut) (Some 0) None None].
Proof. vm_compute. reflexivity. Qed.

(** After two puts the queue is made again from what the store holds. *)
Example demo_kueue_reopened :
  kueue (kueue_of "default"
    (kp (run_kueue (run_kops None [KPut (B "one"); KPut (B "two")]) demo_kueue))) =
  mkKueueImpl 0 0 2 0 2 (Some demo_kind) true.
Proof. vm_compute. reflexivity. Qed.

Lemma demo_holds : holds (hist (world demo)) demo_cf 0 [].
Proof.
  replace (hist (world demo)) with (∅ : history) by (vm_compute; reflexivity).
  split; [intros i v Hi; by rewrite lookup_nil in Hi|]. intros n _ _. unfold hget.
  by rewrite lookup_empty.
Qed.

Lemma demo_nothing_visible k : ¬ visible (hist (world demo)) demo_cf k.
Proof.
  replace (hist (world demo)) with (∅ : history) by (vm_compute; reflexivity).
  intros [v Hv]. unfold hget in Hv. by rewrite lookup_empty in Hv.
Qed.

Lemma demo_resolved : resolved (hist (world demo)) demo_cf.
Proof.
  replace (hist (world demo)) with (∅ : history) by (vm_compute; reflexivity).
  intros k. unfold hget. rewrite lookup_empty. by eexists.
Qed.

Lemma demo_recovers :
  wp (KueueImpl_init "default") (λ k p',
    (isValid_ k = true ∧ kueue_ok demo_kind demo_cf [] (mkKProc k p')) ∨
    (isValid_ k = false ∧ ∃ w w', NewIterator 1%positive demo_cf w = (None, w'))) demo.
Proof.
  apply (recovery_spec demo "default" demo_kind demo_cf 1%positive 0 []).
  - intros it w H. exact H.
  - exact demo_ok.
  - exact demo_open.
  - vm_compute. reflexivity.
  - vm_compute. reflexivity.
  - exact demo_kind_at.
  - exact demo_resolved.
  - lia.
  - reflexivity.
  - reflexivity.
  - exact demo_holds.
  - intros k Hk. destruct (demo_nothing_visible k Hk).
Qed.

Lemma demo_kueue_ok : kueue_ok demo_kind demo_cf [] demo_kueue.
Proof.
  pose proof demo_recovers as H. pose proof demo_kueue_fields as Hf.
  unfold demo_kueue, kueue_of in *. unfold wp in H.
  destruct (KueueImpl_init "default" demo) as [[k p']|]; [|done].
  destruct H as [[_ H]|[H _]]; [exact H|]. simpl in Hf. by rewrite Hf in H.
Qed.

(** ** The properties at concrete inputs *)

Lemma kueue_refines_fifo_witness :
  kueue_ok demo_kind demo_cf [] demo_kueue ∧
  wp (run_kop (Some 0) (KPut (B "v"))) (queue_post demo_kind demo_cf [] (Some 0) (KPut (B "v")) demo_kueue)
    demo_kueue.
Proof.
  split; [exact demo_kueue_ok|].
  apply (proj1 (kueue_refines_fifo demo_kind demo_cf [] (Some 0) (KPut (B "v")) demo_kueue demo_kueue_ok)).
  rewrite demo_kueue_fields. vm_compute. split; reflexivity.
Defined.

Definition demo_ops : list kop := [KPut (B "one"); KPut (B "two"); KTakeFor 5; KReadNext 5].

Lemma kueue_run_is_fifo_witness :
  wp (run_kops (Some 0) demo_ops) (λ os s', ∃ ans q', length ans = 4%nat ∧
    fifo_run (minKey (kueue demo_kueue)) [] (zip demo_ops ans) q' ∧ kueue_ok demo_kind demo_cf q' s' ∧
    (answer <$> []) ++ put_values (zip demo_ops ans) =
      taken_values (zip demo_ops ans) ++ (answer <$> q')) demo_kueue.
Proof.
  apply (kueue_run_is_fifo demo_kind demo_cf (Some 0) demo_ops [] demo_kueue demo_kueue_ok).
  - repeat constructor.
  - rewrite demo_kueue_fields. reflexivity.
  - reflexivity.
Defined.

Lemma kueue_recovers_witness :
  wp (KueueImpl_init "default") (λ k p',
    (isValid_ k = true ∧ kueue_ok demo_kind demo_cf [] (mkKProc k p')) ∨
    (isValid_ k = false ∧ ∃ w w', NewIterator 1%positive demo_cf w = (None, w'))) demo.
Proof.
  apply (kueue_recovers demo "default" demo_kind demo_cf 1%positive 0 []).
  - intros it w H. exact H.
  - exact demo_ok.
  - exact demo_open.
  - vm_compute. reflexivity.
  - vm_compute. reflexivity.
  - exact demo_kind_at.
  - exact demo_resolved.
  - lia.
  - reflexivity.
  - reflexivity.
  - exact demo_holds.
  - intros k Hk. destruct (demo_nothing_visible k Hk).
Defined.

Lemma erase_on_empty_strands_next_value_witness :
  kueue_ok demo_kind demo_cf [] demo_kueue ∧
  wp (b ← erase (minKey (kueue demo_kueue)); st' ← put (Some 0) (Some (B "v")) 1; mret (b, st'))
    (λ '(b, st') s', b = true → st' = Some Status.Ok →
      isEmpty (kueue s') = true ∧ maxKey (kueue s') = minKey (kueue s') ∧
      resolve (hget (hist (world (kp s'))) demo_cf (putU64BE (minKey (kueue s') - 1))) = Some (Some (B "v")) ∧
      take None (Some 0) s' = Undef WaitsForever) demo_kueue.
Proof.
  split; [exact demo_kueue_ok|].
  apply (erase_on_empty_strands_next_value demo_kind demo_cf 0 None (B "v") demo_kueue demo_kueue_ok).
  rewrite demo_kueue_fields. reflexivity.
Defined.

(** The stranded value, on the in-memory database. *)
Example demo_stranded :
  result_of (b ← erase 0; st ← put (Some 0) (Some (B "v")) 1; o ← run_kop (Some 0) (KTakeFor 1);
             mret (b, st, o)) demo_kueue =
  Done (true, Some Status.Ok, OValue (Some Status.TimedOut) (Some 0) None None).
Proof. vm_compute. reflexivity. Qed.

Definition demo_mgr : mproc := mkMProc (mkManager false true "9.0.0" ∅) ∅ demo.

Lemma demo_mgr_ok : manager_ok demo_mgr.
Proof.
  split_and!; [done|done|exact demo_ok|exact demo_open|..]; simpl; intros *; by rewrite lookup_empty.
Qed.

(** What a run answers. *)
Definition answer_of {A} (m : M mproc A) (s : mproc) : outcome A :=
  match m s with Done (a, _) => Done a | Undef f => Undef f end.

Definition no_mproc : mproc :=
  mkMProc (mkManager false false EmptyString ∅) ∅ (demo_start []).

(** Two names, one of them asked for twice; then a closed manager. *)
Example demo_manager_run :
  answer_of ('(st0, o) ← openKueueManager open_config (Some 9) "demo";
    '(_, q1) ← get (Some 9) "jobs"; '(_, q2) ← get (Some 9) "mail"; '(st, q3) ← get (Some 9) "jobs";
    close ;; '(st', q4) ← get (Some 9) "jobs"; mret (st0, o, q1, q2, (st, q3), (st', q4))) no_mproc =
  Done (Some Status.Ok, true, Some 1%positive, Some 2%positive, (Some Status.Ok, Some 1%positive),
        (Some Status.Closed, None)).
Proof. vm_compute. reflexivity. Qed.

(** A value put in a queue of the manager comes out of it. *)
Example demo_manager_queue :
  answer_of ('(_, _) ← openKueueManager open_config None "demo";
    '(_, q) ← get None "jobs";
    let q := default 1%positive q in
    st ← on_kueue q (put (Some 7) (Some (B "job 1")) 5);
    '(_, n, v) ← on_kueue q (take None (Some 0)); mret (st, n, v)) no_mproc =
  Done (Some Status.Ok, Some 5, Some 1%positive).
Proof. vm_compute. reflexivity. Qed.

(** The families cannot be listed: the code is reported and there is no manager. *)
Example demo_open_fails :
  answer_of (openKueueManager open_config (Some 9) "demo")
    (mkMProc (mkManager false false EmptyString ∅) ∅ (demo_start [Corruption kNone])) =
  Done (Some Status.Corruption, false).
Proof. vm_compute. reflexivity. Qed.

Lemma manager_keeps_one_queue_per_name_witness :
  manager_ok demo_mgr ∧ wp (get (Some 0) "jobs") (get_post demo_mgr "jobs" (Some 0)) demo_mgr.
Proof.
  split; [exact demo_mgr_ok|].
  exact (manager_keeps_one_queue_per_name demo_mgr (Some 0) "jobs" demo_mgr_ok).
Defined.

Lemma manager_close_is_final_witness : wp close (λ _ s', close_post demo_mgr s') demo_mgr.
Proof. exact (manager_close_is_final demo_mgr demo_mgr_ok). Defined.

Lemma deleting_a_queue_breaks_close_witness :
  wp (get (Some 0) "jobs") (λ '(_, q) s', ∃ a, q = Some a ∧
    wp (delete_kueue a) (λ _ s'', close s'' = Undef DoubleFree) s') demo_mgr.
Proof. exact (deleting_a_queue_breaks_close demo_mgr (Some 0) "jobs" demo_mgr_ok). Defined.
