(* ===== verification/RocksException.v ===== *)
(** The client's exception (include/client/RocksException.h, src/client/RocksException.cpp): a
    status code with a message. *)
From S2P Require Import Prelude RocksStatus StatusCode.
From stdpp Require Import pretty.

Local Open Scope Z_scope.
Local Open Scope string_scope.

(** [what] is what [std::runtime_error] keeps. *)
Record RocksException := mkRocksException { what : string; code_ : Z }.

#[export] Instance RocksException_eq_dec : EqDecision RocksException.
Proof. solve_decision. Defined.

Definition NAME : string := "RocksException - ".
Definition newline : string := String (Ascii.ascii_of_nat 10) EmptyString.

(** [sprintf_s(buffer, 64, "%ld", value)] *)
Definition l2s (value : Z) : string := pretty value.

Definition new_RocksException : RocksException := mkRocksException NAME Status.Unknown.
(** The constructors with a message, a [char* ] or a [std::string]. *)
Definition RocksException_of (code : Z) (message : string) : RocksException :=
  mkRocksException (NAME +:+ c_str message +:+ newline) code.
(** The constructors with a place in the source. *)
Definition RocksException_at (code : Z) (file : string) (line : Z) (message : string) :
    RocksException :=
  mkRocksException (NAME +:+ c_str file +:+ ":" +:+ l2s line +:+ ": " +:+ c_str message
    +:+ newline) code.

Definition code (e : RocksException) : Z := code_ e.

Example RocksException_at_works :
  what (RocksException_at Status.Busy "a.cpp" (-12) "no") =
    "RocksException - a.cpp:-12: no" +:+ newline.
Proof. reflexivity. Qed.

Lemma length_append s1 s2 : String.length (s1 +:+ s2) = (String.length s1 + String.length s2)%nat.
Proof. induction s1 as [|c s1 IH]; simpl; [done|by rewrite IH]. Qed.

Lemma append_inj_r s1 s2 t : s1 +:+ t = s2 +:+ t → s1 = s2.
Proof.
  revert s2. induction s1 as [|c s1 IH]; intros [|c2 s2]; simpl; intros H; [done|..].
  - apply (f_equal String.length) in H. rewrite !length_append in H. simpl in H. lia.
  - apply (f_equal String.length) in H. rewrite !length_append in H. simpl in H. lia.
  - injection H as -> H. by rewrite (IH s2).
Qed.

(** The message can be read back. *)
Lemma RocksException_of_inj c1 c2 m1 m2 :
  what (RocksException_of c1 m1) = what (RocksException_of c2 m2) → c_str m1 = c_str m2.
Proof. simpl. intros H. simplify_eq/=. by eapply append_inj_r. Qed.
