(* ===== verification/KVStore.v ===== *)
(** The C++ client (include/client/KVStore.h, src/client/KVStore.cpp): the calls of the C
    interface with statuses turned into exceptions and results into [bytes]. *)
From S2P Require Import Prelude Slice RocksStatus StatusCode RocksDB KindImpl StoreImpl.
From S2P Require Import RocksException KueueManager.
From S2P Require Bytes.

Local Open Scope Z_scope.

(** A call returns or throws. *)
Inductive throws (A : Type) :=
  | Returned (a : A)
  | Thrown (e : RocksException).
Arguments Returned {A} _.
Arguments Thrown {A} _.

Definition codes : gmap Z string := list_to_map [
  (Status.Invalid, "Invalid"); (Status.NoIterator, "NoIterator");
  (Status.AlreadyExists, "AlreadyExists"); (Status.NoTransaction, "NoTransaction");
  (Status.Closed, "Closed"); (Status.Ok, "Ok"); (Status.NotFound, "NotFound");
  (Status.Corruption, "Corruption"); (Status.NotSupported, "NotSupported");
  (Status.InvalidArgument, "InvalidArgument"); (Status.IOError, "IOError");
  (Status.MergeInProgress, "MergeInProgress"); (Status.Incomplete, "Incomplete");
  (Status.ShutdownInProgress, "ShutdownInProgress"); (Status.TimedOut, "TimedOut");
  (Status.Aborted, "Aborted"); (Status.Busy, "Busy"); (Status.Expired, "Expired");
  (Status.TryAgain, "TryAgain"); (Status.CompactionTooLarge, "CompactionTooLarge");
  (Status.ColumnFamilyDropped, "ColumnFamilyDropped"); (Status.Unknown, "Unknown")
]%string.

(** The exception [throwForStatus] throws for a status that is not [Ok]. *)
Definition exception_for (status : Z) : RocksException :=
  match codes !! status with
  | Some message => RocksException_of status message
  | None => RocksException_of status "Unknown"
  end.

(** [std::string_view]: the characters, [None] for a null [data()]. *)
Abbreviation string_view := char_ptr.
Definition sv_size (v : string_view) : Z := Z.of_nat (length (default [] v)).

Section KVStore.
Context `{E : External}.
(** [operator<] of a [Kind] that is not the library's. *)
Context (other_lt : Kind → Kind → bool).

(** The client object holds a pointer to the store, null when [store] is false. *)
Record kvproc := mkKV { store : bool; kvp : proc }.

Definition MT (A : Type) : Type := kvproc → outcome (throws A * kvproc).

#[export] Instance MT_ret : MRet MT := λ A a s, Done (Returned a, s).
#[export] Instance MT_bind : MBind MT := λ A B k m s,
  match m s with
  | Done (Returned a, s') => k a s'
  | Done (Thrown e, s') => Done (Thrown e, s')
  | Undef f => Undef f
  end.

(** A call that does not throw. *)
Definition run_store {A} (m : M proc A) : MT A := λ s,
  match m (kvp s) with
  | Done (a, p) => Done (Returned a, mkKV (store s) p)
  | Undef f => Undef f
  end.
(** [store->...] *)
Definition on_store {A} (m : M proc A) : MT A := λ s,
  if store s then run_store m s else Undef NullDeref.
Definition set_store (b : bool) : MT unit := λ s, Done (Returned tt, mkKV b (kvp s)).

Definition throwForStatus (status : Z) : MT bool := λ s,
  if decide (status ≠ Status.Ok) then Done (Thrown (exception_for status), s)
  else Done (Returned false, s).

(** [if (status != Status::Ok) throwForStatus(status);] *)
Definition unless_ok (status : status_ptr) : MT unit :=
  let status := default Status.Ok status in
  if decide (status ≠ Status.Ok) then throwForStatus status ≫= λ _, mret tt else mret tt.
(** The same, [NotFound] let through. *)
Definition unless_ok_or_not_found (status : status_ptr) : MT unit :=
  let status := default Status.Ok status in
  if decide (¬ (status = Status.Ok ∨ status = Status.NotFound))
  then throwForStatus status ≫= λ _, mret tt else mret tt.

(** ** Construction and destruction *)

Definition KVStore_open (c0 : StoreConfig) (path : string) : MT unit :=
  '(status, s) ← run_store (openStore c0 (Some Status.Ok) (c_str path));
  set_store s ≫= λ _,
  if decide (default Status.Ok status ≠ Status.Ok)
  then throwForStatus (default Status.Ok status) ≫= λ _, mret tt else mret tt.

Definition KVStore_of (pStore : bool) : MT unit := set_store pStore.

Definition KVStore_delete : MT unit := λ s,
  if store s then (on_store StoreImpl_delete ≫= λ _, set_store false) s else Done (Returned tt, s).

Definition close : MT unit := λ s,
  if store s then on_store StoreImpl.close s else Done (Returned tt, s).

Definition isOpen : MT bool := on_store StoreImpl.isOpen.

(** ** Kinds *)

Definition getKindManager : MT unit :=
  status ← on_store (StoreImpl.getKindManager (Some Status.Ok)); unless_ok status.

Definition getDefaultKind : MT ptr :=
  getKindManager ≫= λ _,
  '(status, k) ← on_store (StoreImpl.getDefaultKind (Some Status.Ok));
  unless_ok status ≫= λ _, mret k.

Definition getOrCreateKind (kindName : string) : MT ptr :=
  getKindManager ≫= λ _,
  '(status, k) ← on_store (StoreImpl.getOrCreateKind (Some Status.Ok) (c_str kindName));
  unless_ok status ≫= λ _, mret k.

(** [comparator]: [a.get() < b.get()] *)
Definition comparator (a b : ptr * Kind) : bool :=
  match a.2 with AKindImpl k => kind_lt k b.2 | OtherKind _ _ => other_lt a.2 b.2 end.

(** [std::set::insert]: in order, unless an equivalent element is there. *)
Fixpoint kindset_insert (x : ptr * Kind) (l : list (ptr * Kind)) : list (ptr * Kind) :=
  match l with
  | [] => [x]
  | y :: l' =>
      if comparator x y then x :: y :: l'
      else if comparator y x then y :: kindset_insert x l' else y :: l'
  end.

(** The loop of [getKinds] over the array of addresses. *)
Fixpoint fill_kinds (ppK : list ptr) (kinds : list (ptr * Kind)) : MT (list (ptr * Kind)) :=
  match ppK with
  | [] => mret kinds
  | r :: ppK' =>
      kind ← run_store (deref_kind r); fill_kinds ppK' (kindset_insert (r, kind) kinds)
  end.

Definition getKinds : MT (list (ptr * Kind)) :=
  getKindManager ≫= λ _,
  '(status, resultLen, ppK) ← on_store (StoreImpl.getKinds (Some Status.Ok) (Some 0));
  let status := default Status.Ok status in
  if decide (status = Status.Ok) then
    match ppK with
    | Some ppK => fill_kinds (take (Z.to_nat (default 0 resultLen)) ppK) []
    | None => if decide (default 0 resultLen = 0) then mret [] else λ _, Undef NullDeref
    end
  else throwForStatus status ≫= λ _, mret [].

(** ** Reads and writes *)

(** [bytes(val, resultLen)] *)
Definition as_bytes (val : option ptr) (resultLen : option Z) : Bytes.bytes :=
  Bytes.mkBytes (default 0 resultLen) val.

Definition put (kind : ptr) (key value : string_view) : MT unit :=
  status ← on_store (StoreImpl.put (Some Status.Ok) kind key (sv_size key) value (sv_size value));
  unless_ok status.

Definition remove (kind : ptr) (key : string_view) : MT unit :=
  status ← on_store (StoreImpl.remove (Some Status.Ok) kind key (sv_size key));
  unless_ok status.

Definition get (kind : ptr) (key : string_view) : MT Bytes.bytes :=
  '(status, resultLen, val) ←
    on_store (StoreImpl.get (Some Status.Ok) kind (Some 0) key (sv_size key));
  unless_ok_or_not_found status ≫= λ _, mret (as_bytes val resultLen).

Definition updateIfPresent (kind : ptr) (key value : string_view) : MT Bytes.bytes :=
  '(status, resultLen, oldVal) ← on_store (StoreImpl.updateIfPresent (Some Status.Ok) kind
     (Some 0) key (sv_size key) value (sv_size value));
  unless_ok_or_not_found status ≫= λ _, mret (as_bytes oldVal resultLen).

Definition singleRemove (kind : ptr) (key : string_view) : MT unit :=
  status ← on_store (StoreImpl.singleRemove (Some Status.Ok) kind key (sv_size key));
  unless_ok status.

Definition singleRemoveIfPresent (kind : ptr) (key : string_view) : MT Bytes.bytes :=
  '(status, resultLen, removed) ←
    on_store (StoreImpl.singleRemoveIfPresent (Some Status.Ok) kind (Some 0) key (sv_size key));
  unless_ok_or_not_found status ≫= λ _, mret (as_bytes removed resultLen).

Definition removeIfPresent (kind : ptr) (key : string_view) : MT Bytes.bytes :=
  '(status, resultLen, removed) ←
    on_store (StoreImpl.removeIfPresent (Some Status.Ok) kind (Some 0) key (sv_size key));
  unless_ok_or_not_found status ≫= λ _, mret (as_bytes removed resultLen).

Definition putIfAbsent (kind : ptr) (key value : string_view) : MT bool :=
  status ← on_store (StoreImpl.putIfAbsent (Some Status.Ok) kind key (sv_size key) value
                       (sv_size value));
  let status := default Status.Ok status in
  if decide (status = Status.Ok) then mret true
  else if decide (status = Status.AlreadyExists) then mret false
  else throwForStatus status.

Definition findMinKey (kind : ptr) : MT Bytes.bytes :=
  '(status, resultLen, minKey) ← on_store (StoreImpl.findMinKey (Some Status.Ok) kind (Some 0));
  unless_ok status ≫= λ _, mret (as_bytes minKey resultLen).

Definition findMaxKey (kind : ptr) : MT Bytes.bytes :=
  '(status, resultLen, maxKey) ← on_store (StoreImpl.findMaxKey (Some Status.Ok) kind (Some 0));
  unless_ok status ≫= λ _, mret (as_bytes maxKey resultLen).

Definition compact (kind : ptr) : MT unit :=
  status ← on_store (StoreImpl.compact (Some Status.Ok) kind); unless_ok status.

Definition compactAll : MT unit :=
  status ← on_store (StoreImpl.compactAll (Some Status.Ok)); unless_ok status.
End KVStore.

Arguments kvproc : clear implicits.
Arguments kvproc {E}.
