(* ===== verification/KVStoreSpec.v ===== *)
(** What the C++ client of KVStore.v promises: the abstract store of StoreSpec.v, with the
    errors as exceptions that name them, and results that own their memory. *)
From S2P Require Import Prelude Slice RocksStatus StatusCode RocksDB KindImpl StoreImpl.
From S2P Require Import StoreLemmas StoreSpec StoreProps StoreLifecycle RocksException KVStore.
From S2P Require Bytes.
From Stdlib Require Import Sorting.Sorted.

Local Open Scope Z_scope.

(** ** Exceptions *)

(** The table names the constants of StatusCode.h, each by a name of its own. *)
Lemma codes_dom c : is_Some (codes !! c) ↔ c ∈ Status.all.
Proof.
  assert (dom codes = list_to_set Status.all) as Hd by (vm_compute; reflexivity).
  by rewrite <- elem_of_dom, Hd, elem_of_list_to_set.
Qed.

Definition code_names : list string := (λ c, default EmptyString (codes !! c)) <$> Status.all.

Lemma code_names_distinct : NoDup code_names.
Proof. apply (bool_decide_unpack _). vm_compute. done. Qed.

Lemma code_names_c_str c m : codes !! c = Some m → c_str m = m.
Proof.
  intros Hm. assert (map_Forall (λ _ m, c_str m = m) codes) as Hall.
  { apply (bool_decide_unpack _). vm_compute. done. }
  exact (Hall c m Hm).
Qed.

#[local] Opaque codes.

Lemma code_names_lookup i c m :
  Status.all !! i = Some c → codes !! c = Some m → code_names !! i = Some m.
Proof.
  intros Hi Hm. apply list_lookup_fmap_Some. exists c. split; [by rewrite Hm|exact Hi].
Qed.

Lemma codes_inj c1 c2 m : codes !! c1 = Some m → codes !! c2 = Some m → c1 = c2.
Proof.
  intros H1 H2. assert (c1 ∈ Status.all) as H1' by (apply codes_dom; by eexists).
  assert (c2 ∈ Status.all) as H2' by (apply codes_dom; by eexists).
  apply list_elem_of_lookup in H1' as [i Hi]. apply list_elem_of_lookup in H2' as [j Hj].
  pose proof (NoDup_lookup _ _ _ _ code_names_distinct (code_names_lookup _ _ _ Hi H1)
    (code_names_lookup _ _ _ Hj H2)) as ->. congruence.
Qed.

Lemma exception_code c : code (exception_for c) = c.
Proof. unfold exception_for. by destruct (codes !! c). Qed.

Lemma exception_message c :
  what (exception_for c) =
    NAME +:+ default "Unknown"%string (codes !! c) +:+ newline.
Proof.
  unfold exception_for. destruct (codes !! c) as [m|] eqn:Hm; simpl; [|done].
  by rewrite (code_names_c_str c m).
Qed.

(** Every status a call can report (the codes of the library and those RocksDB is
    reported with) is thrown as an exception that carries the code and a message of its own:
    two codes with the same message are the same code. *)
Theorem exceptions_name_their_code (c1 c2 : Z) (s : RocksStatus.Status) :
  c1 ∈ Status.all → c2 ∈ Status.all →
  code (exception_for c1) = c1 ∧ is_Some (codes !! report_code s) ∧
  (what (exception_for c1) = what (exception_for c2) → c1 = c2).
Proof.
  intros H1 H2. split; [apply exception_code|]. split; [by apply codes_dom, report_code_in|].
  rewrite !exception_message. apply codes_dom in H1 as [m1 Hm1]. apply codes_dom in H2 as [m2 Hm2].
  rewrite Hm1, Hm2. simpl. intros H. simplify_eq/=. apply append_inj_r in H as ->.
  by eapply codes_inj.
Qed.

Lemma exceptions_name_their_code_witness :
  what (exception_for Status.Busy) = (NAME +:+ "Busy" +:+ newline)%string ∧
  code (exception_for Status.Busy) = 11.
Proof.
  split; [reflexivity|].
  refine (proj1 (exceptions_name_their_code Status.Busy Status.Ok OK _ _));
    apply (bool_decide_unpack _); vm_compute; exact I.
Defined.

Section Client.
Context `{ES : ExternalSpec}.
Implicit Types (s : kvproc).

(** ** Rules for calls that may throw *)

Lemma wp_tbind {A B} (m : MT A) (k : A → MT B) Q s :
  wp m (λ o s', match o with Returned a => wp (k a) Q s' | Thrown e => Q (Thrown e) s' end) s →
  wp (m ≫= k) Q s.
Proof. unfold wp, mbind, MT_bind. by destruct (m s) as [[[a|e] s']|]. Qed.

Lemma wp_on_store {A} (m : M proc A) (Q : throws A → kvproc → Prop) s :
  store s = true → wp m (λ a p, Q (Returned a) (mkKV true p)) (kvp s) →
  wp (on_store m) Q s.
Proof.
  intros Hs. unfold wp, on_store, run_store. rewrite Hs. by destruct (m (kvp s)) as [[a p]|].
Qed.

Lemma wp_run_store {A} (m : M proc A) (Q : throws A → kvproc → Prop) s :
  wp m (λ a p, Q (Returned a) (mkKV (store s) p)) (kvp s) → wp (run_store m) Q s.
Proof. unfold wp, run_store. by destruct (m (kvp s)) as [[a p]|]. Qed.

Lemma wp_unless_ok c (Q : throws unit → kvproc → Prop) s :
  (c = Status.Ok → Q (Returned tt) s) → (c ≠ Status.Ok → Q (Thrown (exception_for c)) s) →
  wp (unless_ok (Some c)) Q s.
Proof.
  intros H1 H2. unfold unless_ok, throwForStatus, wp, mbind, MT_bind. simpl.
  destruct (decide (c ≠ Status.Ok)) as [Hc|Hc]; simpl; [by apply H2|].
  apply H1. by destruct (decide (c = Status.Ok)).
Qed.

Lemma wp_unless_ok_or_not_found c (Q : throws unit → kvproc → Prop) s :
  (c = Status.Ok ∨ c = Status.NotFound → Q (Returned tt) s) →
  (c ≠ Status.Ok → c ≠ Status.NotFound → Q (Thrown (exception_for c)) s) →
  wp (unless_ok_or_not_found (Some c)) Q s.
Proof.
  intros H1 H2. unfold unless_ok_or_not_found, throwForStatus, wp, mbind, MT_bind. simpl.
  destruct (decide (¬ (c = Status.Ok ∨ c = Status.NotFound))) as [Hc|Hc]; simpl.
  - rewrite decide_True by tauto. simpl. apply H2; tauto.
  - apply H1. destruct (decide (c = Status.Ok)), (decide (c = Status.NotFound)); tauto.
Qed.

(** ** The calls of the client *)

Inductive client_value := CVUnit | CVBool (b : bool) | CVBytes (b : Bytes.bytes).

Definition run_client (r : ptr) (c : call) : MT client_value :=
  match c with
  | CPut k v => put r (Some k) (Some v) ≫= λ _, mret CVUnit
  | CRemove k => remove r (Some k) ≫= λ _, mret CVUnit
  | CSingleRemove k => singleRemove r (Some k) ≫= λ _, mret CVUnit
  | CGet k => b ← get r (Some k); mret (CVBytes b)
  | CUpdateIfPresent k v => b ← updateIfPresent r (Some k) (Some v); mret (CVBytes b)
  | CRemoveIfPresent k => b ← removeIfPresent r (Some k); mret (CVBytes b)
  | CSingleRemoveIfPresent k => b ← singleRemoveIfPresent r (Some k); mret (CVBytes b)
  | CPutIfAbsent k v => b ← putIfAbsent r (Some k) (Some v); mret (CVBool b)
  end.

(** The codes the client does not throw for. *)
Definition tolerated (c : call) (code : Z) : Prop :=
  match c with
  | CPut _ _ | CRemove _ | CSingleRemove _ => code = Status.Ok
  | CPutIfAbsent _ _ => code = Status.Ok ∨ code = Status.AlreadyExists
  | _ => code = Status.Ok ∨ code = Status.NotFound
  end.

(** What the client returns for the code and the value of the abstract store: a [bytes] object
    that owns an array with the value, [true] exactly when the value was put. *)
Definition value_is (c : call) (code : Z) (a : option (list byte)) (p' : proc)
    (v : client_value) : Prop :=
  match c with
  | CPut _ _ | CRemove _ | CSingleRemove _ => v = CVUnit
  | CPutIfAbsent _ _ => v = CVBool (bool_decide (code = Status.Ok))
  | _ => ∃ b, v = CVBytes b ∧ Bytes.holds_value (Bytes.mkMem (chars p') ∅) b (default [] a)
  end.

Definition client_refines (cf : ptr) (c : call) s (out : throws client_value) s' : Prop :=
  store s' = true ∧ store_ok (kvp s') ∧ carried (kvp s) (kvp s') ∧
  ∃ code a, spec cf (hist (world (kvp s))) c (code, a) (hist (world (kvp s'))) ∧
    (∃ n res, returned c (kvp s) (kvp s') a n res) ∧
    match out with
    | Returned v => tolerated c code ∧ value_is c code a (kvp s') v
    | Thrown e => ¬ tolerated c code ∧ e = exception_for code
    end.

Lemma gave_holds p p' a m res :
  gave p p' a m res →
  Bytes.holds_value (Bytes.mkMem (chars p') ∅) (as_bytes res (Some m)) (default [] a).
Proof.
  intros [-> Hg]. split; [done|]. destruct (default [] a) as [|b v]; [by destruct Hg as [-> _]|].
  destruct Hg as (l & -> & _ & ->). exists l. simpl. by rewrite lookup_insert_eq.
Qed.

(** A call that returns a status only. *)
Lemma run_client_status (X : M proc status_ptr) r cf c s :
  store s = true → run_call (Some Status.Ok) r c = (st ← X; mret (st, None, None)) →
  wp (run_call (Some Status.Ok) r c) (refines (Some Status.Ok) cf c (kvp s)) (kvp s) →
  (∀ code, tolerated c code ↔ code = Status.Ok) →
  (∀ code a p', code = Status.Ok → value_is c code a p' CVUnit) →
  wp ((status ← on_store X; unless_ok status) ≫= λ _, mret CVUnit) (client_refines cf c s) s.
Proof.
  intros Hst HX H Ht Hv. rewrite HX in H. apply wp_bind_inv in H.
  apply wp_tbind, wp_tbind, wp_on_store; [done|].
  eapply wp_mono; [exact H|]. intros st' p' (Hs' & Hc & code & a & Hsp & -> & Hret).
  apply wp_unless_ok; intros Hcode; (split; [done|split; [done|split; [done|]]]);
    exists code, a; (split; [done|]; split; [by exists None, None|]).
  - split; [by apply Ht|by apply Hv].
  - split; [by rewrite Ht|done].
Qed.

(** A call that returns a value. *)
Lemma run_client_value r cf c s :
  store s = true →
  wp (run_call (Some Status.Ok) r c) (refines (Some Status.Ok) cf c (kvp s)) (kvp s) →
  (∀ code, tolerated c code ↔ code = Status.Ok ∨ code = Status.NotFound) →
  (∀ code a p' b, Bytes.holds_value (Bytes.mkMem (chars p') ∅) b (default [] a) →
     value_is c code a p' (CVBytes b)) →
  (∀ p p' a n res, returned c p p' a n res → ∃ m, n = Some m ∧ gave p p' a m res) →
  wp (b ← ('(status, n, val) ← on_store (run_call (Some Status.Ok) r c);
           unless_ok_or_not_found status ≫= λ _, mret (as_bytes val n)); mret (CVBytes b))
    (client_refines cf c s) s.
Proof.
  intros Hst H Ht Hv Hg. apply wp_tbind, wp_tbind, wp_on_store; [done|].
  eapply wp_mono; [exact H|]. intros [[st' n] res] p' (Hs' & Hc & code & a & Hsp & -> & Hret).
  apply wp_tbind, wp_unless_ok_or_not_found; intros Hcode; [|intros Hcode2];
    (split; [done|split; [done|split; [done|]]]); exists code, a;
    (split; [done|]; split; [by exists n, res|]).
  - split; [by apply Ht|]. apply Hv. destruct (Hg _ _ _ _ _ Hret) as (m & -> & Hg').
    by eapply gave_holds.
  - split; [by rewrite Ht; tauto|done].
Qed.

Lemma run_client_absent r cf k v s :
  store s = true →
  wp (run_call (Some Status.Ok) r (CPutIfAbsent k v))
    (refines (Some Status.Ok) cf (CPutIfAbsent k v) (kvp s)) (kvp s) →
  wp (run_client r (CPutIfAbsent k v)) (client_refines cf (CPutIfAbsent k v) s) s.
Proof.
  intros Hst H. apply wp_bind_inv in H. apply wp_tbind, wp_tbind, wp_on_store; [done|].
  eapply wp_mono; [exact H|]. intros st' p' (Hs' & Hc & code & a & Hsp & -> & Hret). simpl.
  assert (∀ out : throws client_value,
    match out with
    | Returned w => tolerated (CPutIfAbsent k v) code ∧ value_is (CPutIfAbsent k v) code a p' w
    | Thrown e => ¬ tolerated (CPutIfAbsent k v) code ∧ e = exception_for code
    end → client_refines cf (CPutIfAbsent k v) s out (mkKV true p')) as Hfin.
  { intros out Hout. split; [done|]. split; [done|]. split; [done|]. exists code, a.
    split; [done|]. split; [by exists None, None|exact Hout]. }
  destruct (decide (code = Status.Ok)) as [->|H1]; [by apply Hfin; split; [left|]|].
  destruct (decide (code = Status.AlreadyExists)) as [->|H2]; [by apply Hfin; split; [right|]|].
  unfold wp, throwForStatus. rewrite decide_True by done. apply Hfin. simpl. tauto.
Qed.

Lemma run_client_refines r cf c s :
  store s = true → store_ok (kvp s) → open (this (kvp s)) = true → kind_at (kvp s) r cf →
  wp (run_client r c) (client_refines cf c s) s.
Proof.
  intros Hst Hs Ho Hk. pose proof (λ c, run_call_refines (kvp s) (Some Status.Ok) r cf c Hs Ho Hk) as H.
  destruct c as [k v|k|k|k|k v|k|k|k v].
  - by eapply run_client_status; [done|reflexivity|apply H|done|done].
  - by eapply run_client_status; [done|reflexivity|apply H|done|done].
  - by eapply run_client_status; [done|reflexivity|apply H|done|done].
  - apply (run_client_value r cf (CGet k)); [done|apply H|done|by eexists|done].
  - apply (run_client_value r cf (CUpdateIfPresent k v)); [done|apply H|done|by eexists|done].
  - apply (run_client_value r cf (CRemoveIfPresent k)); [done|apply H|done|by eexists|done].
  - apply (run_client_value r cf (CSingleRemoveIfPresent k)); [done|apply H|done|by eexists|done].
  - by apply run_client_absent.
Qed.
End Client.

(** ** The set of kinds *)

Section KindSets.
Context `{ES : ExternalSpec} (other_lt : Kind → Kind → bool).

(** The element's name as the order sees it. *)
Definition key_of (x : ptr * Kind) : list byte := string_bytes (kind_name x.2).
Definition library_kind (x : ptr * Kind) : Prop := ∃ k, x.2 = AKindImpl k ∧ kind_wf k.
Definition before (x y : ptr * Kind) : Prop := lex (key_of x) (key_of y) = Lt.

Lemma comparator_before x y :
  library_kind x → comparator other_lt x y = true ↔ before x y.
Proof.
  intros (k & Hx & Hw). unfold comparator, kind_lt, before, key_of. rewrite Hx.
  rewrite bool_decide_eq_true. simpl. by rewrite (name_wf k Hw).
Qed.

Lemma comparator_not_before x y :
  library_kind x → comparator other_lt x y = false ↔ ¬ before x y.
Proof. intros Hx. rewrite <- comparator_before by done. by destruct (comparator _ x y). Qed.

Lemma kindset_insert_elem x l y : y ∈ kindset_insert other_lt x l → y = x ∨ y ∈ l.
Proof.
  induction l as [|z l IH]; simpl; [set_solver|].
  destruct (comparator other_lt x z), (comparator other_lt z x); set_solver.
Qed.

Lemma kindset_insert_keeps x l y : y ∈ l → y ∈ kindset_insert other_lt x l.
Proof.
  induction l as [|z l IH]; simpl; [set_solver|].
  destruct (comparator other_lt x z), (comparator other_lt z x); set_solver.
Qed.

Lemma kindset_insert_sorted x l :
  library_kind x → Forall library_kind l → StronglySorted before l →
  StronglySorted before (kindset_insert other_lt x l) ∧
  ∃ y, y ∈ kindset_insert other_lt x l ∧ key_of y = key_of x.
Proof.
  intros Hx Hl Hs. induction Hs as [|z l Hs IH Hz]; simpl.
  { split; [repeat constructor|]. exists x. set_solver. }
  inversion_clear Hl as [|? ? Hlz Hl']. destruct (IH Hl') as [IH1 (y & IH2 & IH3)].
  destruct (comparator other_lt x z) eqn:E1.
  - apply comparator_before in E1; [|done]. split; [|exists x; set_solver].
    constructor; [by constructor|]. constructor; [done|].
    eapply Forall_impl; [exact Hz|]. intros w Hw. unfold before in *. by eapply lex_lt_trans.
  - destruct (comparator other_lt z x) eqn:E2.
    + apply comparator_before in E2; [|done]. split; [|exists y; set_solver].
      constructor; [done|]. apply Forall_forall. intros w [->|Hw]%kindset_insert_elem; [done|].
      rewrite Forall_forall in Hz. by apply Hz.
    + split; [by constructor|]. exists z. split; [set_solver|].
      apply comparator_not_before in E1; [|done]. apply comparator_not_before in E2; [|done].
      unfold before in *. apply lex_eq. rewrite lex_antisym in E1. by destruct (lex (key_of z) _).
Qed.

(** Adding a list of kinds. *)
Definition add_kinds (l : list (ptr * Kind)) (acc : list (ptr * Kind)) : list (ptr * Kind) :=
  foldl (λ acc x, kindset_insert other_lt x acc) acc l.

Lemma add_kinds_spec l acc :
  Forall library_kind l → Forall library_kind acc → StronglySorted before acc →
  let res := add_kinds l acc in
  StronglySorted before res ∧ Forall library_kind res ∧
  (∀ y, y ∈ res → y ∈ l ∨ y ∈ acc) ∧ (∀ y, y ∈ acc → y ∈ res) ∧
  ∀ x, x ∈ l → ∃ y, y ∈ res ∧ key_of y = key_of x.
Proof.
  intros Hl. revert acc. induction Hl as [|x l Hx Hl IH]; intros acc Hacc Hs; simpl.
  { split_and!; [done..|set_solver|set_solver|set_solver]. }
  destruct (kindset_insert_sorted x acc Hx Hacc Hs) as [Hs' (y & Hy & Hyx)].
  assert (Forall library_kind (kindset_insert other_lt x acc)) as Hacc'.
  { apply Forall_forall. intros z [->|Hz]%kindset_insert_elem; [done|].
    rewrite Forall_forall in Hacc. by apply Hacc. }
  destruct (IH _ Hacc' Hs') as (H1 & H2 & H3 & H4 & H5). split_and!; [done|done|..].
  - intros z Hz. destruct (H3 z Hz) as [?|[->|?]%kindset_insert_elem]; set_solver.
  - intros z Hz. by apply H4, kindset_insert_keeps.
  - intros z [->|Hz]%elem_of_cons; [|by apply H5]. exists y. split; [by apply H4|done].
Qed.

Lemma fill_kinds_spec rs acc s :
  (∀ r, r ∈ rs → is_Some (kindobjs (kvp s) !! r)) →
  ∃ l, fill_kinds other_lt rs acc s = Done (Returned (add_kinds l acc), s) ∧ l.*1 = rs ∧
    ∀ x, x ∈ l → kindobjs (kvp s) !! x.1 = Some x.2.
Proof.
  revert acc. induction rs as [|r rs IH]; intros acc Hrs.
  { exists []. split_and!; [done|done|set_solver]. }
  destruct (Hrs r) as [k Hk]; [set_solver|].
  destruct (IH (kindset_insert other_lt (r, k) acc)) as (l & H1 & H2 & H3); [set_solver|].
  exists ((r, k) :: l). split_and!.
  - cbn [fill_kinds]. unfold mbind, MT_bind, run_store, deref_kind. rewrite Hk.
    destruct s as [b p]. exact H1.
  - by rewrite fmap_cons, H2.
  - intros x [->|Hx]%elem_of_cons; [done|by apply H3].
Qed.

Lemma StoreImpl_getKinds_open p :
  store_ok p → open (this p) = true →
  StoreImpl.getKinds (Some Status.Ok) (Some 0) p =
    Done ((Some Status.Ok, Some (Z.of_nat (length (umap_iter (kinds (this p))).*2)),
           Some (umap_iter (kinds (this p))).*2), p).
Proof.
  intros [Hm _] Ho.
  unfold StoreImpl.getKinds, synchronize, validateOpen, StoreImpl.isOpen, gets, modify, mbind, M_bind,
    mret, M_ret. rewrite Hm. simpl. rewrite Ho. simpl. f_equal. f_equal.
  unfold with_this. simpl. destruct p as [w c k s]; simpl in *. f_equal.
  exact (set_monitor_free s Hm).
Qed.

Lemma getKindManager_open s :
  store s = true → open (this (kvp s)) = true → getKindManager s = Done (Returned tt, s).
Proof.
  intros Hst Ho. unfold getKindManager, on_store, mbind, MT_bind, run_store. rewrite Hst.
  unfold StoreImpl.getKindManager, validateOpen, StoreImpl.isOpen, gets, mbind, M_bind, mret, M_ret.
  rewrite Ho. simpl. by destruct s; simpl in *; subst.
Qed.

Lemma getKinds_spec s :
  store s = true → store_ok (kvp s) → open (this (kvp s)) = true →
  ∃ l, getKinds other_lt s = Done (Returned l, s) ∧ StronglySorted before l ∧
    Forall library_kind l ∧
    (∀ x, x ∈ l → (∃ n, kinds (this (kvp s)) !! n = Some x.1) ∧ kindobjs (kvp s) !! x.1 = Some x.2) ∧
    ∀ n r, kinds (this (kvp s)) !! n = Some r → ∃ x, x ∈ l ∧ kind_name x.2 = c_str n.
Proof.
  intros Hst Hs Ho. assert (kinds_ok (kvp s)) as (He & Hk & Hi) by apply Hs.
  assert (∀ r, r ∈ (umap_iter (kinds (this (kvp s)))).*2 ↔ ∃ n, kinds (this (kvp s)) !! n = Some r) as Hin.
  { intros r. rewrite umap_iter_perm, list_elem_of_fmap. split.
    - intros ([n r'] & -> & Hn%elem_of_map_to_list). by exists n.
    - intros [n Hn]. exists (n, r). split; [done|by apply elem_of_map_to_list]. }
  destruct (fill_kinds_spec (umap_iter (kinds (this (kvp s)))).*2 [] s) as (l & Hf & Hl1 & Hl2).
  { intros r [n Hn]%Hin. destruct (Hk n r Hn) as [h Hh]. by eexists. }
  assert (Forall library_kind l) as Hlib.
  { apply Forall_forall. intros x Hx. assert (x.1 ∈ l.*1) as Hx1 by (by apply list_elem_of_fmap_2).
    rewrite Hl1 in Hx1. apply Hin in Hx1 as [n Hn]. destruct (Hk n _ Hn) as [h Hh].
    rewrite (Hl2 x Hx) in Hh. injection Hh as Hh. eexists. split; [exact Hh|].
    unfold kind_wf. simpl. apply c_str_idemp. }
  destruct (add_kinds_spec l [] Hlib) as (H1 & H2 & H3 & _ & H5); [by constructor..|].
  exists (add_kinds l []). split_and!; [|done|done|..].
  - unfold getKinds. unfold mbind at 1, MT_bind at 1. rewrite getKindManager_open by done.
    unfold mbind, MT_bind, on_store, run_store. rewrite Hst, StoreImpl_getKinds_open by done.
    simpl. rewrite Nat2Z.id, take_ge by done. destruct s as [b p]; simpl in *; subst b. exact Hf.
  - intros x Hx. destruct (H3 x Hx) as [Hx'|Hx']; [|set_solver]. split; [|by apply Hl2].
    apply Hin. rewrite <- Hl1. by apply list_elem_of_fmap_2.
  - intros n r Hn. assert (r ∈ l.*1) as Hr by (rewrite Hl1; apply Hin; by exists n).
    apply list_elem_of_fmap in Hr as (x & -> & Hx). destruct (H5 x Hx) as (y & Hy & Hyx).
    exists y. split; [done|]. apply list_byte_of_string_inj. unfold key_of in Hyx. rewrite Hyx.
    f_equal. destruct (Hk n _ Hn) as [h Hh]. rewrite (Hl2 x Hx) in Hh. injection Hh as ->.
    simpl. unfold name. simpl. by rewrite c_str_idemp.
Qed.
End KindSets.

(** C8. The client refines the abstract store too: for every read and write, the call throws
    exactly when the abstract store reports a code the client does not tolerate ([NotFound] is
    tolerated where a missing key is an answer, [AlreadyExists] by [putIfAbsent]), and the
    exception carries that code; otherwise it returns what the abstract store returns, a value
    as a [bytes] object that owns an array with exactly the value (null when it is empty or
    absent), and [putIfAbsent] returns true exactly when the value was put. *)
Theorem client_refines_store `{ES : ExternalSpec} (s : kvproc) (r cf : ptr) (c : call) :
  store s = true → store_ok (kvp s) → open (this (kvp s)) = true → kind_at (kvp s) r cf →
  wp (run_client r c) (client_refines cf c s) s.
Proof. apply run_client_refines. Qed.

(** The client's [getKinds] returns the kinds of the store as a set: in strictly ascending
    order of their names, each of them a registered kind, every registered name present;
    nothing changes. *)
Theorem getKinds_is_the_sorted_set `{ES : ExternalSpec} (other_lt : Kind → Kind → bool)
    (s : kvproc) :
  store s = true → store_ok (kvp s) → open (this (kvp s)) = true →
  ∃ l, getKinds other_lt s = Done (Returned l, s) ∧
    StronglySorted (λ x y, comparator other_lt x y = true) l ∧
    (∀ x, x ∈ l → (∃ n, kinds (this (kvp s)) !! n = Some x.1) ∧ kindobjs (kvp s) !! x.1 = Some x.2) ∧
    ∀ n r, kinds (this (kvp s)) !! n = Some r → ∃ x, x ∈ l ∧ kind_name x.2 = c_str n.
Proof.
  intros Hst Hs Ho. destruct (getKinds_spec other_lt s Hst Hs Ho) as (l & H1 & H2 & H3 & H4 & H5).
  exists l. split_and!; try done. clear -H2 H3. induction H2 as [|x l Hs IH Hx]; [by constructor|].
  inversion_clear H3 as [|? ? Hlx Hl]. constructor; [by apply IH|].
  eapply Forall_impl; [exact Hx|]. intros y Hy. by apply comparator_before.
Qed.

(** A conditional write of the client that finds the key but then cannot begin its
    transaction throws after the old value has been read: the array with that value stays
    allocated and nobody holds its address. *)
Theorem client_leaks_when_it_throws `{ES : ExternalSpec} (s : kvproc) (r cf : ptr) (c : call)
    (old : list byte) :
  store s = true → store_ok (kvp s) → open (this (kvp s)) = true → kind_at (kvp s) r cf →
  (∃ k v, c = CUpdateIfPresent k v) ∨ (∃ k, c = CRemoveIfPresent k ∨ c = CSingleRemoveIfPresent k) →
  resolve (hget (hist (world (kvp s))) cf (call_key c)) = Some (Some old) → old ≠ [] →
  wp (run_client r c) (λ out s', ∀ e, out = Thrown e → code e = Status.NoTransaction →
    ∃ l, chars (kvp s) !! l = None ∧ chars (kvp s') = <[l := old]> (chars (kvp s))) s.
Proof.
  intros Hst Hs Ho Hk Hc Hv Hne. eapply wp_mono; [by apply run_client_refines|].
  intros out s' (_ & _ & _ & c0 & a & Hsp & (n & res & Hret) & Hout) e -> Hcode.
  destruct Hout as [_ ->]. rewrite exception_code in Hcode. subst c0.
  assert (∃ o h', read_write_spec (hist (world (kvp s))) cf (call_key c) o Status.NoTransaction a h' ∧
    ∃ m, gave (kvp s) (kvp s') a m res) as (o & h' & Hrw & m & Hg).
  { destruct Hc as [(k & v & ->)|[k [-> | ->]]]; inversion Hsp; subst;
      (do 2 eexists; split; [eassumption|]); by destruct Hret as (m & _ & Hg); exists m. }
  inversion Hrw as [? ? _ Hrd|? ? ? Hrd Hw]; subst.
  { inversion Hrd as [|? Hpos]; subst. unfold Status.NoTransaction, Status.Ok in *. lia. }
  inversion Hrd as [v0 Hr Heq|? Hpos]; subst; [|unfold Status.Ok in *; lia].
  specialize (Hr _ Hv) as [= <-]. destruct Hg as [_ Hg]. rewrite answer_default in Hg.
  destruct old as [|b old]; [done|]. destruct Hg as (l & _ & Hl & Hch). by exists l.
Qed.
