(* ===== verification/ClientDemo.v ===== *)
(** The C++ client on the in-memory database: concrete runs, and its properties applied to
    them. *)
From S2P Require Import Prelude Slice RocksStatus StatusCode RocksDB KindImpl StoreImpl.
From S2P Require Import StoreLemmas StoreSpec MemDB StoreDemo RocksException KVStore.
From S2P Require Import KVStoreSpec.
From S2P Require Bytes.
From Stdlib Require Import Sorting.Sorted.

Local Open Scope Z_scope.

Definition no_other : Kind → Kind → bool := λ _ _, false.
Definition demo_kv : kvproc := mkKV true demo.
Definition demo_kv_full : kvproc := mkKV true demo_full.

Definition thrown_by {A} (m : MT A) (s : kvproc) : option Z :=
  match m s with Done (Thrown e, _) => Some (code e) | _ => None end.
Definition returned_by {A} (m : MT A) (s : kvproc) : option A :=
  match m s with Done (Returned a, _) => Some a | _ => None end.

(** The start of Test.cpp: the default kind, a new kind, a put and a get. *)
Example demo_client_run :
  returned_by (KVStore_open open_config "demo" ≫= λ _, compactAll ≫= λ _,
    newKind ← getOrCreateKind "ABCDEF";
    put newKind (Some (B "newKey_0")) (Some (B "newValue_0")) ≫= λ _,
    remove newKind (Some (B "newKey_2a")) ≫= λ _,
    removed ← removeIfPresent newKind (Some (B "newKey_2d"));
    result ← get newKind (Some (B "newKey_0"));
    absent ← putIfAbsent newKind (Some (B "newKey_4")) (Some (B "ABC"));
    present ← putIfAbsent newKind (Some (B "newKey_4")) (Some (B "XYZ"));
    close ≫= λ _, still_open ← isOpen;
    mret (Bytes.size_ removed, Bytes.size_ result, absent, present, still_open))
    (mkKV false (demo_start [])) =
  Some (0, 10, true, false, false).
Proof. vm_compute. reflexivity. Qed.

(** A path whose families cannot be listed. *)
Example demo_client_open_fails :
  thrown_by (KVStore_open open_config "demo") (mkKV false (demo_start [Corruption kNone])) =
  Some Status.Corruption.
Proof. vm_compute. reflexivity. Qed.

(** The store reads the old value and then cannot begin a transaction. *)
Definition demo_kv_failing : kvproc :=
  mkKV true (with_world (set_script [OK; Busy kNone] (world demo_full)) demo_full).

Definition arrays_after {A} (m : MT A) (s : kvproc) : list (ptr * list byte) :=
  match m s with Done (_, s') => map_to_list (chars (kvp s')) | Undef _ => [] end.

Example demo_client_leak :
  thrown_by (removeIfPresent demo_kind (Some (B "k"))) demo_kv_failing = Some Status.NoTransaction ∧
  arrays_after (removeIfPresent demo_kind (Some (B "k"))) demo_kv_failing = [(1%positive, B "old")].
Proof. split; vm_compute; reflexivity. Qed.

Lemma client_refines_store_witness :
  store_ok (kvp demo_kv) ∧
  wp (run_client demo_kind (CPut (B "k") (B "v"))) (client_refines demo_cf (CPut (B "k") (B "v")) demo_kv)
    demo_kv.
Proof.
  split; [exact demo_ok|].
  exact (client_refines_store demo_kv demo_kind demo_cf (CPut (B "k") (B "v")) eq_refl demo_ok
    demo_open demo_kind_at).
Defined.

Lemma getKinds_is_the_sorted_set_witness :
  ∃ l, getKinds no_other demo_kv = Done (Returned l, demo_kv) ∧
    StronglySorted (λ x y, comparator no_other x y = true) l.
Proof.
  destruct (getKinds_is_the_sorted_set no_other demo_kv eq_refl demo_ok demo_open) as (l & H1 & H2 & _).
  exists l. exact (conj H1 H2).
Defined.

Lemma client_leaks_when_it_throws_witness :
  wp (run_client demo_kind (CRemoveIfPresent (B "k"))) (λ out s', ∀ e, out = Thrown e →
    code e = Status.NoTransaction →
    ∃ l, chars demo_full !! l = None ∧ chars (kvp s') = <[l := B "old"]> (chars demo_full)) demo_kv_full.
Proof.
  exact (client_leaks_when_it_throws demo_kv_full demo_kind demo_cf (CRemoveIfPresent (B "k"))
    (B "old") eq_refl (proj1 demo_full_ok) (proj1 (proj2 demo_full_ok)) (proj2 (proj2 demo_full_ok))
    (or_intror (ex_intro _ (B "k") (or_introl eq_refl))) ltac:(vm_compute; reflexivity)
    ltac:(discriminate)).
Defined.
