(* ===== verification/Logger.v ===== *)
(** The log (include/impl/SimpleLogger.h, src/impl/SimpleLogger.cpp) and the file it writes to
    (src/impl/utils.cpp).  A [Logger] lives for one statement: it is constructed, told its
    level, appended to, and writes its line when it is destroyed. *)
From S2P Require Import Prelude RocksDB.
From stdpp Require Import pretty.

Local Open Scope Z_scope.
Local Open Scope string_scope.

Record SYSTEMTIME := mkSYSTEMTIME { wHour : N; wMinute : N; wSecond : N; wMilliseconds : N }.

(** What the log asks of Windows and the C library.  A formatting call that fails returns
    [None]; [FILE* ] is an address. *)
Class Windows := {
  Win : Type;
  GetDateFormatA : string → Win → option string * Win;
  GetTimeFormatA : string → SYSTEMTIME → Win → option string * Win;
  GetLocalTime : Win → SYSTEMTIME * Win;
  GetCurrentThreadId : Win → N * Win;
  GetModuleHandleExA : Win → bool * Win;
  GetModuleFileNameA : Win → option string * Win;
  fsopen : string → string → Win → option ptr * Win;
  fprintf : ptr → string → Win → Z * Win;
  fflush : ptr → Win → Win;
}.

(** ** Levels *)

(** [enum class LogLevel]: an [int], so that one more than the maximum is a level too. *)
Definition LogLevel := Z.
Definition LOG_FATAL : LogLevel := 0.
Definition LOG_ERROR : LogLevel := 1.
Definition LOG_WARNING : LogLevel := 2.
Definition LOG_INFO : LogLevel := 3.
Definition LOG_DEBUG : LogLevel := 4.
Definition LOG_FINE : LogLevel := 5.
Definition LOG_FINER : LogLevel := 6.

Definition level_names : list string :=
  ["FATAL"; "ERROR"; "WARN "; "INFO "; "DEBUG"; "FINE "; "FINER"].
Definition levelToString (level : LogLevel) : outcome string :=
  if bool_decide (level < 0) then Undef OutOfBounds
  else from_option Done (Undef OutOfBounds) (level_names !! Z.to_nat level).

(** ** State *)

(** The stream and the maximum level are static; [str] and [loggerLogLevel] are the object's. *)
Record Logger := mkLogger { str : string; loggerLogLevel : LogLevel }.

Section Logger.
Context `{W : Windows}.

Record lproc := mkLProc { win : Win; stream : option ptr; maxLogLevel : LogLevel }.

Abbreviation ML := (M lproc).

Definition ask {A} (f : Win → A * Win) : ML A := λ s,
  let '(a, w) := f (win s) in Done (a, mkLProc w (stream s) (maxLogLevel s)).
Definition tell (f : Win → Win) : ML unit := λ s,
  Done (tt, mkLProc (f (win s)) (stream s) (maxLogLevel s)).

(** ** utils.cpp *)

(** [strrchr(buf, c)]: what comes before the last occurrence. *)
Fixpoint before_last (c : Ascii.ascii) (s : string) : option string :=
  match s with
  | EmptyString => None
  | String d s' =>
      match before_last c s' with
      | Some p => Some (String d p)
      | None => if decide (d = c) then Some EmptyString else None
      end
  end.

Definition backslash : Ascii.ascii := Ascii.ascii_of_nat 92.

Definition ownPath : ML string :=
  h ← ask GetModuleHandleExA;
  if (h : bool) then
    buf ← ask GetModuleFileNameA;
    match buf with
    | Some buf =>
        match before_last backslash (c_str buf) with
        | Some p => mret (p +:+ String backslash EmptyString)
        | None => mret EmptyString
        end
    | None => mret EmptyString
    end
  else mret EmptyString.

Definition today : ML string :=
  d ← ask (GetDateFormatA "-yyyy'-'MM'-'dd");
  mret (match d with Some b => c_str b | None => "Error in today" end).

Definition openLogfile : ML (option ptr) :=
  p ← ownPath; d ← today; ask (fsopen (p +:+ "librocks" +:+ d +:+ ".log") "a").

(** ** Date, time and thread *)

Definition getCurrentThreadId : ML string := i ← ask GetCurrentThreadId; mret (pretty i).

Definition dateToday : ML string :=
  d ← ask (GetDateFormatA "yyyy'-'MM'-'dd");
  mret (match d with Some b => c_str b | None => "Error in dateToday()" end).

(** [%0<n>hu] *)
Definition zero_padded (n : nat) (x : N) : string :=
  let digits := pretty x in
  Nat.iter (n - String.length digits) (String (Ascii.ascii_of_nat 48)) digits.

Definition timeNow : ML string :=
  st ← ask GetLocalTime;
  t ← ask (GetTimeFormatA "HH':'mm':'ss" st);
  mret (match t with
        | Some _ => zero_padded 2 (wHour st) +:+ ":" +:+ zero_padded 2 (wMinute st) +:+ ":" +:+
                    zero_padded 2 (wSecond st) +:+ "." +:+ zero_padded 3 (wMilliseconds st)
        | None => "Error in timeNow()"
        end).

Definition datetimeNow : ML string := d ← dateToday; t ← timeNow; mret (d +:+ " " +:+ t).

(** ** The logger *)

Definition setStream (pFile : option ptr) : ML unit :=
  match pFile with
  | Some f => modify (λ s, mkLProc (win s) (Some f) (maxLogLevel s))
  | None => mret tt
  end.
Definition setMaxLogLevel (level : LogLevel) : ML unit :=
  modify (λ s, mkLProc (win s) (stream s) level).
Definition isInitialized : ML bool :=
  f ← gets stream; mret (match f with Some _ => true | None => false end).
Definition isLogLevelEnabled (level : LogLevel) : ML bool :=
  m ← gets maxLogLevel; mret (bool_decide (level <= m)).

Definition initialize : ML unit :=
  b ← isInitialized; if (b : bool) then mret tt else f ← openLogfile; setStream f.

(** [Logger()] *)
Definition new_Logger : ML Logger := initialize ;; mret (mkLogger EmptyString LOG_INFO).

Definition get (this : Logger) (level : LogLevel) : ML Logger :=
  m ← gets maxLogLevel;
  if bool_decide (level <= m) then
    datetime ← datetimeNow;
    threadId ← getCurrentThreadId;
    name ← lift_outcome (levelToString level);
    mret (mkLogger (str this +:+ datetime +:+ " " +:+ name +:+ " [" +:+ threadId +:+ "]" +:+
                    String (Ascii.ascii_of_nat 9) "- ") level)
  else mret (mkLogger (str this) (m + 1)).

(** The four [append]s: each ends in the one for [char* ]. *)
Definition append (this : Logger) (msg : string) : ML Logger :=
  m ← gets maxLogLevel;
  if bool_decide (loggerLogLevel this <= m)
  then mret (mkLogger (str this +:+ c_str msg) (loggerLogLevel this)) else mret this.

Definition newline : string := String (Ascii.ascii_of_nat 10) EmptyString.

(** [~Logger()] *)
Definition delete_Logger (this : Logger) : ML unit :=
  m ← gets maxLogLevel;
  if bool_decide (loggerLogLevel this <= m) then
    pStream ← gets stream;
    match pStream with
    | Some f =>
        n ← ask (fprintf f (str this +:+ newline));
        if bool_decide (0 <= n) then tell (fflush f) else mret tt
    | None => mret tt
    end
  else mret tt.

(** ** Statements: [__LOG_x __LARG(a) __LARG(b) ...;] *)

Fixpoint append_all (this : Logger) (msgs : list string) : ML Logger :=
  match msgs with [] => mret this | m :: msgs' => l ← append this m; append_all l msgs' end.

Definition log_statement (level : LogLevel) (msgs : list string) : ML unit :=
  l ← new_Logger; l ← get l level; l ← append_all l msgs; delete_Logger l.

(** A statement during which another thread sets the maximum level. *)
Definition log_statement_raced (level : LogLevel) (before after : list string)
    (new_max : LogLevel) : ML unit :=
  l ← new_Logger; l ← get l level; l ← append_all l before;
  setMaxLogLevel new_max ;;
  l ← append_all l after; delete_Logger l.

(** ** Properties *)

(** What a destructor that writes does to the outside. *)
Definition written (f : ptr) (line : string) (w : Win) : Win :=
  let '(n, w') := fprintf f line w in if bool_decide (0 <= n) then fflush f w' else w'.

Definition concat_msgs (msgs : list string) : string :=
  foldr (λ m acc, c_str m +:+ acc) EmptyString msgs.

Lemma append_empty_r s : s +:+ EmptyString = s.
Proof. induction s as [|c s IH]; [done|]. exact (f_equal (String c) IH). Qed.
Lemma append_assoc s1 s2 s3 : s1 +:+ (s2 +:+ s3) = (s1 +:+ s2) +:+ s3.
Proof. induction s1 as [|c s1 IH]; [done|]. exact (f_equal (String c) IH). Qed.

Lemma append_all_on l msgs s :
  loggerLogLevel l <= maxLogLevel s →
  append_all l msgs s = Done (mkLogger (str l +:+ concat_msgs msgs) (loggerLogLevel l), s).
Proof.
  revert l. induction msgs as [|m msgs IH]; intros l Hl; cbn [append_all].
  { simpl. rewrite append_empty_r. by destruct l. }
  erewrite bind_done.
  2: { unfold append. erewrite bind_done by reflexivity. rewrite bool_decide_true by exact Hl. reflexivity. }
  rewrite IH by exact Hl. simpl. by rewrite <- append_assoc.
Qed.

Lemma append_all_off l msgs s :
  maxLogLevel s < loggerLogLevel l → append_all l msgs s = Done (l, s).
Proof.
  intros Hl. induction msgs as [|m msgs IH]; cbn [append_all]; [done|].
  erewrite bind_done.
  2: { unfold append. erewrite bind_done by reflexivity. rewrite bool_decide_false by lia. reflexivity. }
  exact IH.
Qed.

Lemma delete_on l f s :
  stream s = Some f → loggerLogLevel l <= maxLogLevel s →
  delete_Logger l s =
    Done (tt, mkLProc (written f (str l +:+ newline) (win s)) (Some f) (maxLogLevel s)).
Proof.
  intros Hf Hl. unfold delete_Logger, written, ask, tell, gets, mbind, M_bind, mret, M_ret.
  rewrite bool_decide_true by exact Hl. rewrite Hf.
  destruct (fprintf f _ (win s)) as [n w']. case_bool_decide; simpl; by rewrite Hf.
Qed.

Lemma delete_off l s : maxLogLevel s < loggerLogLevel l → delete_Logger l s = Done (tt, s).
Proof.
  intros Hl. unfold delete_Logger. erewrite bind_done by reflexivity.
  by rewrite bool_decide_false by lia.
Qed.

Lemma new_Logger_ready f s :
  stream s = Some f → new_Logger s = Done (mkLogger EmptyString LOG_INFO, s).
Proof.
  intros Hf. unfold new_Logger, initialize, isInitialized, gets, mbind, M_bind, mret, M_ret.
  by rewrite Hf.
Qed.

(** The line of an enabled level up to its message, and the outside after the clocks are read. *)
Definition prefix_of (level : LogLevel) (w : Win) : string * Win :=
  match datetimeNow (mkLProc w None 0) with
  | Done (dt, s1) =>
      match getCurrentThreadId s1 with
      | Done (tid, s2) =>
          (dt +:+ " " +:+ default EmptyString (level_names !! Z.to_nat level) +:+ " [" +:+ tid +:+ "]"
             +:+ String (Ascii.ascii_of_nat 9) "- ", win s2)
      | Undef _ => (EmptyString, w)
      end
  | Undef _ => (EmptyString, w)
  end.

Lemma get_on l level s :
  0 <= level <= LOG_FINER → level <= maxLogLevel s →
  get l level s = Done (mkLogger (str l +:+ (prefix_of level (win s)).1) level,
    mkLProc (prefix_of level (win s)).2 (stream s) (maxLogLevel s)).
Proof.
  intros Hlv Hmax. unfold get. erewrite bind_done by reflexivity. rewrite bool_decide_true by done.
  assert (∃ n, level_names !! Z.to_nat level = Some n) as [n Hn].
  { apply lookup_lt_is_Some_2. unfold LOG_FINER in Hlv. simpl. lia. }
  assert (levelToString level = Done n) as Hn'.
  { unfold levelToString. rewrite bool_decide_false by lia. by rewrite Hn. }
  unfold prefix_of. rewrite Hn.
  unfold datetimeNow, dateToday, timeNow, getCurrentThreadId, ask, mbind, M_bind, mret, M_ret.
  cbn [win stream maxLogLevel]. destruct (GetDateFormatA _ _) as [d w1]. cbn [win stream maxLogLevel].
  destruct (GetLocalTime w1) as [st w2]. cbn [win stream maxLogLevel].
  destruct (GetTimeFormatA _ _ w2) as [t w3]. cbn [win stream maxLogLevel].
  destruct (GetCurrentThreadId w3) as [i w4]. by rewrite Hn'.
Qed.

Lemma get_off l level s :
  maxLogLevel s < level → get l level s = Done (mkLogger (str l) (maxLogLevel s + 1), s).
Proof.
  intros H. unfold get. erewrite bind_done by reflexivity. by rewrite bool_decide_false by lia.
Qed.
End Logger.

Arguments lproc : clear implicits.
Arguments lproc {W}.

Lemma log_statement_spec `{W : Windows} (s : lproc) (f : ptr) (level : LogLevel)
    (msgs : list string) :
  stream s = Some f → 0 <= level <= LOG_FINER →
  (level <= maxLogLevel s →
   log_statement level msgs s = Done (tt, mkLProc
     (written f (((prefix_of level (win s)).1 +:+ concat_msgs msgs) +:+ newline)
        (prefix_of level (win s)).2) (Some f) (maxLogLevel s))) ∧
  (maxLogLevel s < level → log_statement level msgs s = Done (tt, s)).
Proof.
  intros Hf Hlv. unfold log_statement. split; intros Hm;
    (erewrite bind_done; [|by eapply new_Logger_ready]).
  - erewrite bind_done by (by apply get_on). erewrite bind_done by (by apply append_all_on).
    by rewrite (delete_on _ f).
  - erewrite bind_done by (by apply get_off).
    erewrite bind_done by (apply append_all_off; simpl; lia). by apply delete_off; simpl; lia.
Qed.

(** A log statement at an enabled level writes exactly one line to the open log and
    flushes it: date and time, the level's name, the thread, then the message parts in order;
    at a level above the maximum it writes nothing and asks Windows for nothing. *)
Theorem log_statement_writes_one_line `{W : Windows} (s : lproc) (f : ptr) (level : LogLevel)
    (msgs : list string) :
  stream s = Some f → 0 <= level <= LOG_FINER →
  (level <= maxLogLevel s →
   log_statement level msgs s = Done (tt, mkLProc
     (written f (((prefix_of level (win s)).1 +:+ concat_msgs msgs) +:+ newline)
        (prefix_of level (win s)).2) (Some f) (maxLogLevel s))) ∧
  (maxLogLevel s < level → log_statement level msgs s = Done (tt, s)).
Proof. apply log_statement_spec. Qed.

Lemma log_raced_spec `{W : Windows} (s : lproc) (f : ptr) (level new_max : LogLevel)
    (before after : list string) :
  stream s = Some f → maxLogLevel s < level → maxLogLevel s < new_max →
  log_statement_raced level before after new_max s =
    Done (tt, mkLProc (written f (concat_msgs after +:+ newline) (win s)) (Some f) new_max).
Proof.
  intros Hf H1 H2. unfold log_statement_raced.
  erewrite bind_done by (by eapply new_Logger_ready). erewrite bind_done by (by apply get_off).
  erewrite bind_done by (apply append_all_off; simpl; lia). erewrite bind_done by reflexivity.
  erewrite bind_done by (apply append_all_on; simpl; lia). rewrite (delete_on _ f); simpl; [done|done|lia].
Qed.

(** A statement that is suppressed when it starts writes all the same when the maximum
    level is raised before it ends, even to a level below the statement's own: what it
    writes is a line without date, level or thread, holding only the parts appended after the
    change. *)
Theorem suppressed_statement_writes_when_raised `{W : Windows} (s : lproc) (f : ptr)
    (level new_max : LogLevel) (before after : list string) :
  stream s = Some f → maxLogLevel s < level → maxLogLevel s < new_max →
  log_statement_raced level before after new_max s =
    Done (tt, mkLProc (written f (concat_msgs after +:+ newline) (win s)) (Some f) new_max).
Proof. apply log_raced_spec. Qed.

(** ** A Windows that answers, to evaluate on: it keeps what was printed. *)

#[export] Instance DemoWindows : Windows := {|
  Win := list (ptr * string);
  GetDateFormatA := λ f w, (Some "2024-05-06", w);
  GetTimeFormatA := λ f st w, (Some "07:08:09", w);
  GetLocalTime := λ w, (mkSYSTEMTIME 7 8 9 10, w);
  GetCurrentThreadId := λ w, (42%N, w);
  GetModuleHandleExA := λ w, (true, w);
  GetModuleFileNameA := λ w, (Some (String.append "C:" (String backslash "x.dll")), w);
  fsopen := λ p m w, (Some 5%positive, (5%positive, p) :: w);
  fprintf := λ f l w, (1, (f, l) :: w);
  fflush := λ f w, w;
|}.

Definition demo_log : lproc := mkLProc [] None LOG_INFO.

(** The first statement opens the file. *)
Example demo_log_line :
  log_statement LOG_ERROR ["disk "; "full"] demo_log = Done (tt, mkLProc
    [(5%positive, "2024-05-06 07:08:09.010 ERROR [42]" +:+ String (Ascii.ascii_of_nat 9) "- disk full" +:+ newline);
     (5%positive, "C:" +:+ String backslash "librocks2024-05-06.log")] (Some 5%positive) LOG_INFO).
Proof. vm_compute. reflexivity. Qed.

Lemma log_statement_writes_one_line_witness :
  let s : lproc := mkLProc [] (Some 5%positive) LOG_INFO in
  log_statement LOG_WARNING ["late"] s = Done (tt, mkLProc
    [(5%positive, "2024-05-06 07:08:09.010 WARN  [42]" +:+ String (Ascii.ascii_of_nat 9) "- late" +:+ newline)]
    (Some 5%positive) LOG_INFO) ∧
  log_statement LOG_DEBUG ["late"] s = Done (tt, s).
Proof.
  intros s. split.
  - refine (eq_trans (proj1 (log_statement_writes_one_line s 5 LOG_WARNING ["late"] eq_refl _) _) _);
      [vm_compute; split; discriminate|vm_compute; discriminate|vm_compute; reflexivity].
  - apply (proj2 (log_statement_writes_one_line s 5 LOG_DEBUG ["late"] eq_refl
      ltac:(vm_compute; split; discriminate))). vm_compute. reflexivity.
Defined.

Lemma suppressed_statement_writes_when_raised_witness :
  log_statement_raced LOG_FINER ["x"] [] LOG_DEBUG (mkLProc [] (Some 5%positive) LOG_INFO) =
    Done (tt, mkLProc [(5%positive, newline)] (Some 5%positive) LOG_DEBUG).
Proof.
  exact (suppressed_statement_writes_when_raised (mkLProc [] (Some 5%positive) LOG_INFO) 5
    LOG_FINER LOG_DEBUG ["x"] [] eq_refl eq_refl eq_refl).
Defined.
