(* ===== verification/SmallEnumSet.v ===== *)
(** Sets of small enumerators as bits (include/rocksdb/data_structure.h, [SmallEnumSet]): an
    array of 64-bit pieces, with insertion, removal, iteration in ascending order and a count.
    The two bit-counting functions are compiled into RocksDB, so they are arguments. *)
From S2P Require Import Prelude.
From Stdlib Require Import Sorting.Sorted.

Local Open Scope Z_scope.

Definition kPieceBits : Z := 64.
Definition kPieceMask : Z := 63.
Definition kPieceShift : Z := 6.
(** [~x] on an unsigned 64-bit piece. *)
Definition not64 (x : Z) : Z := Z.lxor x (2 ^ 64 - 1).

Section SmallEnumSet.
(** [kMaxValue] is the value of [MAX_ENUMERATOR]; an enumerator is its value. *)
Context (kMaxValue : Z).
(** [BitsSetToOneForSmallEnumSet] and [CountTrailingZeroBitsForSmallEnumSet] *)
Context (BitsSetToOne CountTrailingZeroBits : Z → Z).

Definition kPieceCount : Z := Z.quot kMaxValue kPieceBits + 1.
Definition in_range (value : Z) : bool := bool_decide (0 <= value) && bool_decide (value <= kMaxValue).

(** [state_], a [std::array] of [kPieceCount] pieces. *)
Abbreviation SmallEnumSet := (list Z).

Definition new_SmallEnumSet : SmallEnumSet := replicate (Z.to_nat kPieceCount) 0.

Definition All : SmallEnumSet :=
  replicate (Z.to_nat (kPieceCount - 1)) (not64 0) ++
  [if bool_decide (Z.land (kMaxValue + 1) kPieceMask ≠ 0)
   then u64 (Z.shiftl 1 (Z.land (kMaxValue + 1) kPieceMask) - 1) else not64 0].

Definition set_eqb (s that : SmallEnumSet) : bool := bool_decide (s = that).
Definition set_neb (s that : SmallEnumSet) : bool := negb (set_eqb s that).

(** [GetPiece] and [RefPiece]: [state_[pos >> kPieceShift]]. *)
Definition GetPiece (s : SmallEnumSet) (pos : Z) : outcome Z :=
  from_option Done (Undef OutOfBounds) (s !! Z.to_nat (Z.shiftr pos kPieceShift)).
Definition set_piece (s : SmallEnumSet) (pos piece : Z) : SmallEnumSet :=
  <[Z.to_nat (Z.shiftr pos kPieceShift) := piece]> s.

Definition Contains (s : SmallEnumSet) (value : Z) : outcome bool :=
  assert_that (in_range value) ;;
  piece ← GetPiece s value;
  Done (bool_decide (Z.land piece (u64 (Z.shiftl 1 (Z.land value kPieceMask))) ≠ 0)).

Definition empty (s : SmallEnumSet) : bool := forallb (λ piece, bool_decide (piece = 0)) s.

(** The set afterwards, and whether it was modified. *)
Definition Add (s : SmallEnumSet) (value : Z) : outcome (SmallEnumSet * bool) :=
  assert_that (in_range value) ;;
  old_piece ← GetPiece s value;
  let piece := Z.lor old_piece (u64 (Z.shiftl 1 (Z.land value kPieceMask))) in
  Done (set_piece s value piece, bool_decide (old_piece ≠ piece)).

Definition Remove (s : SmallEnumSet) (value : Z) : outcome (SmallEnumSet * bool) :=
  assert_that (in_range value) ;;
  old_piece ← GetPiece s value;
  let piece := Z.land old_piece (not64 (u64 (Z.shiftl 1 (Z.land value kPieceMask)))) in
  Done (set_piece s value piece, bool_decide (old_piece ≠ piece)).

Definition With (s : SmallEnumSet) (value : Z) : outcome SmallEnumSet :=
  assert_that (in_range value) ;; r ← Add s value; Done (fst r).
Definition Without (s : SmallEnumSet) (value : Z) : outcome SmallEnumSet :=
  assert_that (in_range value) ;; r ← Remove s value; Done (fst r).

(** [SmallEnumSet(e, rest...)]: the rest first, then [With(e)]. *)
Fixpoint SmallEnumSet_of (l : list Z) : outcome SmallEnumSet :=
  match l with
  | [] => Done new_SmallEnumSet
  | e :: rest => s ← SmallEnumSet_of rest; With s e
  end.

(** The loop of [SkipUnset]; each round goes on to the next piece. *)
Fixpoint skip_loop (fuel : nat) (s : SmallEnumSet) (pos : Z) : outcome Z :=
  match fuel with
  | O => Undef WaitsForever
  | S fuel' =>
      if bool_decide (pos <= kMaxValue) then
        piece ← GetPiece s pos;
        let remainder := Z.shiftr piece (Z.land pos kPieceMask) in
        if bool_decide (remainder ≠ 0) then Done (pos + CountTrailingZeroBits remainder)
        else skip_loop fuel' s (Z.land (pos + kPieceBits) (Z.lnot kPieceMask))
      else Done (kMaxValue + 1)
  end.
Definition SkipUnset (s : SmallEnumSet) (pos : Z) : outcome Z :=
  skip_loop (S (Z.to_nat kPieceCount)) s pos.

(** A [const_iterator] over a set is its position. *)
Definition begin (s : SmallEnumSet) : outcome Z := SkipUnset s 0.
Definition end_ : Z := kMaxValue + 1.
Definition iter_next (s : SmallEnumSet) (pos : Z) : outcome Z :=
  if bool_decide (pos < kMaxValue) then SkipUnset s (pos + 1) else Done (kMaxValue + 1).
Definition iter_deref (pos : Z) : outcome Z :=
  assert_that (bool_decide (pos <= kMaxValue)) ;; Done pos.

(** [for (auto e : set)], collecting what the iterator gives. *)
Fixpoint iterate (fuel : nat) (s : SmallEnumSet) (pos : Z) : outcome (list Z) :=
  match fuel with
  | O => Undef WaitsForever
  | S fuel' =>
      if bool_decide (pos = end_) then Done []
      else
        e ← iter_deref pos;
        pos' ← iter_next s pos;
        l ← iterate fuel' s pos';
        Done (e :: l)
  end.
Definition elements (s : SmallEnumSet) : outcome (list Z) :=
  pos ← begin s; iterate (S (S (Z.to_nat kMaxValue))) s pos.

Definition count (s : SmallEnumSet) : Z := foldr (λ piece n, BitsSetToOne piece + n) 0 s.

(** ** What a set means *)

Definition member (s : SmallEnumSet) (v : Z) : bool :=
  Z.testbit (default 0 (s !! Z.to_nat (v / 64))) (v mod 64).

(** The pieces are 64 bits wide, and no bit past [kMaxValue] is set. *)
Definition set_wf (s : SmallEnumSet) : Prop :=
  Z.of_nat (length s) = kPieceCount ∧ Forall (λ piece, 0 <= piece < 2 ^ 64) s ∧
  ∀ v, kMaxValue < v → v < 64 * kPieceCount → member s v = false.

Context (Hmax : 0 <= kMaxValue < 1024).
(** What the two functions compute, on 64-bit words. *)
Context (Hbits : ∀ w, 0 <= w < 2 ^ 64 →
  BitsSetToOne w = Z.of_nat (length (filter (λ i, Z.testbit w i = true) (seqZ 0 64)))).
Context (Hctz : ∀ w, 0 < w < 2 ^ 64 → 0 <= CountTrailingZeroBits w ∧
  Z.testbit w (CountTrailingZeroBits w) = true ∧
  ∀ i, 0 <= i < CountTrailingZeroBits w → Z.testbit w i = false).

Lemma kPieceCount_val : kPieceCount = kMaxValue / 64 + 1.
Proof. unfold kPieceCount, kPieceBits. by rewrite Z.quot_div_nonneg by lia. Qed.

Lemma land_mask v : Z.land v kPieceMask = v mod 64.
Proof. unfold kPieceMask. change 63 with (Z.ones 6). by rewrite Z.land_ones by lia. Qed.

Lemma shiftr_piece v : Z.shiftr v kPieceShift = v / 64.
Proof. unfold kPieceShift. by rewrite Z.shiftr_div_pow2 by lia. Qed.

Lemma next_piece pos : Z.land (pos + kPieceBits) (Z.lnot kPieceMask) = 64 * (pos / 64 + 1).
Proof.
  unfold kPieceMask, kPieceBits. change 63 with (Z.ones 6). rewrite <- Z.ldiff_land.
  rewrite Z.ldiff_ones_r by lia. rewrite Z.shiftr_div_pow2, Z.shiftl_mul_pow2 by lia.
  replace (pos + 64) with (pos + 1 * 64) by lia. change (2 ^ 6) with 64.
  rewrite Z.div_add by lia. lia.
Qed.

Lemma bit_small i : 0 <= i < 64 → u64 (Z.shiftl 1 i) = 2 ^ i.
Proof.
  intros Hi. rewrite Z.shiftl_1_l. apply u64_small. split; [by apply Z.pow_nonneg|].
  apply Z.pow_lt_mono_r; lia.
Qed.

Lemma testbit_ones i : 0 <= i < 64 → Z.testbit (2 ^ 64 - 1) i = true.
Proof.
  intros Hi. replace (2 ^ 64 - 1) with (Z.ones 64) by done. by rewrite Z.ones_spec_low by lia.
Qed.

Lemma testbit_not64 w i : 0 <= i < 64 → Z.testbit (not64 w) i = negb (Z.testbit w i).
Proof. intros Hi. unfold not64. rewrite Z.lxor_spec, testbit_ones by done. by rewrite xorb_true_r. Qed.

Lemma high_bits w i : 0 <= w < 2 ^ 64 → 64 <= i → Z.testbit w i = false.
Proof.
  intros Hw Hi. destruct (decide (w = 0)) as [->|Hn]; [apply Z.testbit_0_l|].
  apply Z.bits_above_log2; [lia|]. assert (Z.log2 w < 64); [|lia]. apply Z.log2_lt_pow2; lia.
Qed.

(** Words with the same 64 bits are equal. *)
Lemma word_ext w1 w2 :
  0 <= w1 < 2 ^ 64 → 0 <= w2 < 2 ^ 64 → (∀ i, 0 <= i < 64 → Z.testbit w1 i = Z.testbit w2 i) →
  w1 = w2.
Proof.
  intros H1 H2 H. apply Z.bits_inj'. intros i Hi.
  destruct (decide (i < 64)); [by apply H|]. by rewrite !high_bits by lia.
Qed.

Lemma word_bound w : (∀ i, 64 <= i → Z.testbit w i = false) → 0 <= w → 0 <= w < 2 ^ 64.
Proof.
  intros Hb Hw. split; [done|]. destruct (decide (w = 0)) as [->|Hn]; [lia|].
  apply Z.log2_lt_pow2; [lia|]. destruct (decide (Z.log2 w < 64)) as [|Hl]; [done|].
  exfalso. pose proof (Hb (Z.log2 w) ltac:(lia)) as Hf. rewrite Z.bit_log2 in Hf by lia. done.
Qed.

Lemma lor_bound a b : 0 <= a < 2 ^ 64 → 0 <= b < 2 ^ 64 → 0 <= Z.lor a b < 2 ^ 64.
Proof.
  intros Ha Hb. apply word_bound; [|apply Z.lor_nonneg; lia]. intros i Hi.
  by rewrite Z.lor_spec, !high_bits.
Qed.
Lemma land_bound a b : 0 <= a < 2 ^ 64 → 0 <= Z.land a b < 2 ^ 64.
Proof.
  intros Ha. apply word_bound; [|apply Z.land_nonneg; lia]. intros i Hi.
  by rewrite Z.land_spec, (high_bits a).
Qed.

(** ** Looking at a piece *)

Lemma piece_index v : 0 <= v <= kMaxValue → 0 <= v / 64 < kPieceCount.
Proof.
  intros Hv. rewrite kPieceCount_val. split; [by apply Z.div_pos; lia|].
  pose proof (Z.div_le_mono v kMaxValue 64). lia.
Qed.

Lemma wf_piece s v :
  set_wf s → 0 <= v <= kMaxValue →
  ∃ w, s !! Z.to_nat (v / 64) = Some w ∧ GetPiece s v = Done w ∧ 0 <= w < 2 ^ 64.
Proof.
  intros (Hl & Hp & _) Hv. pose proof (piece_index v Hv).
  destruct (lookup_lt_is_Some_2 s (Z.to_nat (v / 64))) as [w Hw]; [lia|].
  exists w. split; [done|]. split; [unfold GetPiece; by rewrite shiftr_piece, Hw|].
  rewrite Forall_lookup in Hp. by eapply Hp.
Qed.

Lemma in_range_true v : 0 <= v <= kMaxValue → in_range v = true.
Proof. intros Hv. unfold in_range. by rewrite !bool_decide_true by lia. Qed.

Lemma mod64 v : 0 <= v mod 64 < 64.
Proof. apply Z.mod_pos_bound. lia. Qed.

Lemma land_bit w i : 0 <= i → bool_decide (Z.land w (2 ^ i) ≠ 0) = Z.testbit w i.
Proof.
  intros Hi. assert (∀ j, Z.testbit (Z.land w (2 ^ i)) j = Z.testbit w i && bool_decide (j = i)) as Hj.
  { intros j. destruct (decide (j < 0)) as [Hn|Hn].
    - rewrite !Z.testbit_neg_r by lia. rewrite bool_decide_false by lia. by rewrite andb_false_r.
    - rewrite Z.land_spec, Z.pow2_bits_eqb by lia. case_bool_decide as E.
      + subst. by rewrite Z.eqb_refl.
      + rewrite (proj2 (Z.eqb_neq i j)) by lia. by rewrite !andb_false_r. }
  destruct (Z.testbit w i) eqn:E.
  - apply bool_decide_true. intros H0. specialize (Hj i). rewrite H0, Z.testbit_0_l in Hj.
    by rewrite bool_decide_true in Hj.
  - apply bool_decide_false. intros Hn. apply Hn, Z.bits_inj'. intros j _.
    by rewrite Hj, Z.testbit_0_l.
Qed.

Lemma Contains_spec s v : set_wf s → 0 <= v <= kMaxValue → Contains s v = Done (member s v).
Proof.
  intros Hs Hv. destruct (wf_piece s v Hs Hv) as (w & Hw & Hg & _).
  unfold Contains, member. rewrite in_range_true, Hg, Hw by done. simpl.
  rewrite land_mask, bit_small by apply mod64. by rewrite land_bit by apply mod64.
Qed.

(** ** Changing a piece *)

Lemma member_set_piece s v w x :
  set_wf s → 0 <= v <= kMaxValue → 0 <= x →
  member (set_piece s v w) x =
    if decide (x / 64 = v / 64) then Z.testbit w (x mod 64) else member s x.
Proof.
  intros Hs Hv Hx. destruct (wf_piece s v Hs Hv) as (w0 & Hw0 & _). unfold member, set_piece.
  rewrite shiftr_piece. pose proof (Z.div_pos x 64 Hx ltac:(lia)). pose proof (piece_index v Hv).
  case_decide as E.
  - rewrite E, list_lookup_insert_eq; [done|]. by eapply lookup_lt_Some.
  - rewrite list_lookup_insert_ne; [done|]. lia.
Qed.

(** A new piece whose bits are those of the old one, the bit of [v] apart. *)
Lemma set_piece_spec s v w b :
  set_wf s → 0 <= v <= kMaxValue → 0 <= w < 2 ^ 64 →
  (∀ i, 0 <= i < 64 → Z.testbit w i =
     if decide (i = v mod 64) then b else member s (64 * (v / 64) + i)) →
  set_wf (set_piece s v w) ∧
  ∀ x, 0 <= x → member (set_piece s v w) x = if decide (x = v) then b else member s x.
Proof.
  intros Hs Hv Hw Hbits'.
  assert (∀ x, 0 <= x → member (set_piece s v w) x = if decide (x = v) then b else member s x) as Hm.
  { intros x Hx. rewrite member_set_piece by done. pose proof (Z.div_mod x 64 ltac:(lia)).
    pose proof (Z.div_mod v 64 ltac:(lia)). case_decide as E.
    - rewrite Hbits' by apply mod64. repeat case_decide; try lia; [done|]. f_equal. lia.
    - rewrite decide_False by congruence. done. }
  split; [|done]. destruct Hs as (Hl & Hp & Hh). split_and!.
  - unfold set_piece. by rewrite length_insert.
  - unfold set_piece. by apply Forall_insert.
  - intros x Hx1 Hx2. rewrite Hm by lia. rewrite decide_False by lia. by apply Hh.
Qed.

Lemma member_at s v i : 0 <= i < 64 → 0 <= v → member s (64 * (v / 64) + i) =
  Z.testbit (default 0 (s !! Z.to_nat (v / 64))) i.
Proof.
  intros Hi Hv. unfold member. replace (64 * (v / 64) + i) with (i + (v / 64) * 64) by lia.
  rewrite Z.div_add, Z.mod_add, Z.div_small, Z.mod_small by lia. done.
Qed.

Lemma Add_spec s v :
  set_wf s → 0 <= v <= kMaxValue →
  ∃ s', Add s v = Done (s', negb (member s v)) ∧ With s v = Done s' ∧ set_wf s' ∧
    ∀ x, 0 <= x → member s' x = if decide (x = v) then true else member s x.
Proof.
  intros Hs Hv. destruct (wf_piece s v Hs Hv) as (w & Hw & Hg & Hb). pose proof (mod64 v) as Hm.
  set (w' := Z.lor w (2 ^ (v mod 64))).
  assert (0 <= 2 ^ (v mod 64) < 2 ^ 64) as Hp.
  { split; [apply Z.pow_nonneg; lia|apply Z.pow_lt_mono_r; lia]. }
  assert (∀ i, 0 <= i < 64 → Z.testbit w' i = Z.testbit w i || bool_decide (i = v mod 64)) as Hw'.
  { intros i Hi. unfold w'. rewrite Z.lor_spec, Z.pow2_bits_eqb by lia. f_equal.
    case_bool_decide as E; [subst; apply Z.eqb_refl|apply Z.eqb_neq; lia]. }
  assert (member s v = Z.testbit w (v mod 64)) as Hmv by (unfold member; by rewrite Hw).
  destruct (set_piece_spec s v w' true Hs Hv) as [Hwf Hmem].
  { by apply lor_bound. }
  { intros i Hi. rewrite Hw' by done. rewrite member_at, Hw by lia. simpl.
    repeat case_decide; subst; rewrite ?bool_decide_true, ?bool_decide_false by done;
      by rewrite ?orb_true_r, ?orb_false_r. }
  assert (Add s v = Done (set_piece s v w', negb (member s v))) as HA.
  { unfold Add. rewrite in_range_true, Hg by done. simpl. rewrite land_mask, bit_small by done.
    fold w'. do 2 f_equal. rewrite Hmv. destruct (Z.testbit w (v mod 64)) eqn:E.
    - apply bool_decide_false. intros Hn. apply Hn, word_ext; [done|by apply lor_bound|].
      intros i Hi. rewrite Hw' by done. case_bool_decide; subst; by rewrite ?E, ?orb_false_r.
    - apply bool_decide_true. intros Heq. specialize (Hw' (v mod 64) Hm).
      rewrite <- Heq, E, bool_decide_true in Hw'; done. }
  exists (set_piece s v w'). split_and!; [done| |done|done].
  unfold With. by rewrite in_range_true, HA.
Qed.

Lemma Remove_spec s v :
  set_wf s → 0 <= v <= kMaxValue →
  ∃ s', Remove s v = Done (s', member s v) ∧ Without s v = Done s' ∧ set_wf s' ∧
    ∀ x, 0 <= x → member s' x = if decide (x = v) then false else member s x.
Proof.
  intros Hs Hv. destruct (wf_piece s v Hs Hv) as (w & Hw & Hg & Hb). pose proof (mod64 v) as Hm.
  set (w' := Z.land w (not64 (2 ^ (v mod 64)))).
  assert (∀ i, 0 <= i < 64 → Z.testbit w' i = Z.testbit w i && negb (bool_decide (i = v mod 64))) as Hw'.
  { intros i Hi. unfold w'. rewrite Z.land_spec, testbit_not64, Z.pow2_bits_eqb by lia. do 2 f_equal.
    case_bool_decide as E; [subst; apply Z.eqb_refl|apply Z.eqb_neq; lia]. }
  assert (member s v = Z.testbit w (v mod 64)) as Hmv by (unfold member; by rewrite Hw).
  destruct (set_piece_spec s v w' false Hs Hv) as [Hwf Hmem].
  { by apply land_bound. }
  { intros i Hi. rewrite Hw' by done. rewrite member_at, Hw by lia. simpl.
    repeat case_decide; subst; rewrite ?bool_decide_true, ?bool_decide_false by done;
      by rewrite ?andb_true_r, ?andb_false_r. }
  assert (Remove s v = Done (set_piece s v w', member s v)) as HR.
  { unfold Remove. rewrite in_range_true, Hg by done. simpl. rewrite land_mask, bit_small by done.
    fold w'. do 2 f_equal. rewrite Hmv. destruct (Z.testbit w (v mod 64)) eqn:E.
    - apply bool_decide_true. intros Heq. specialize (Hw' (v mod 64) Hm).
      rewrite <- Heq, E, bool_decide_true in Hw'; done.
    - apply bool_decide_false. intros Hn. apply Hn, word_ext; [done|by apply land_bound|].
      intros i Hi. rewrite Hw' by done. case_bool_decide; subst; by rewrite ?E, ?andb_true_r. }
  exists (set_piece s v w'). split_and!; [done| |done|done].
  unfold Without. by rewrite in_range_true, HR.
Qed.

(** ** Iteration *)

(** [r] is the least member from [pos] on, or the end. *)
Definition first_from (s : SmallEnumSet) (pos r : Z) : Prop :=
  pos <= r <= kMaxValue + 1 ∧ (∀ v, pos <= v < r → member s v = false) ∧
  (r <= kMaxValue → member s r = true).

Lemma member_shift s pos w i :
  s !! Z.to_nat (pos / 64) = Some w → 0 <= pos → 0 <= i → pos mod 64 + i < 64 →
  member s (pos + i) = Z.testbit (Z.shiftr w (pos mod 64)) i.
Proof.
  intros Hw Hp Hi Hlt. pose proof (mod64 pos) as Hm. rewrite Z.shiftr_spec by lia.
  pose proof (Z.div_mod pos 64 ltac:(lia)) as Hd.
  replace (pos + i) with (64 * (pos / 64) + (i + pos mod 64)) by lia.
  rewrite member_at by lia. by rewrite Hw.
Qed.

Lemma skip_loop_spec fuel s pos :
  set_wf s → 0 <= pos <= 64 * kPieceCount → kPieceCount < Z.of_nat fuel + pos / 64 →
  ∃ r, skip_loop fuel s pos = Done r ∧ (pos <= kMaxValue + 1 → first_from s pos r) ∧
    (kMaxValue < pos → r = kMaxValue + 1).
Proof.
  intros Hs. revert pos. induction fuel as [|fuel IH]; intros pos Hpos Hfuel.
  { exfalso. pose proof (Z.div_le_mono pos (64 * kPieceCount) 64 ltac:(lia) ltac:(lia)) as Hd.
    rewrite Z.mul_comm, Z.div_mul in Hd by lia. lia. }
  cbn [skip_loop]. case_bool_decide as Hle.
  2: { exists (kMaxValue + 1). split; [done|]. split; [|done]. intros Hp1.
       split; [lia|]. split; [intros v Hv; lia|lia]. }
  destruct (wf_piece s pos Hs) as (w & Hw & Hg & Hb); [lia|]. rewrite Hg. simpl.
  rewrite land_mask. pose proof (mod64 pos) as Hm. pose proof (Z.div_mod pos 64 ltac:(lia)) as Hd.
  assert (0 <= Z.shiftr w (pos mod 64) < 2 ^ 64) as Hr.
  { apply word_bound; [|apply Z.shiftr_nonneg; lia]. intros i Hi.
    rewrite Z.shiftr_spec by lia. apply high_bits; lia. }
  case_bool_decide as Hrem.
  - destruct (Hctz (Z.shiftr w (pos mod 64)) ltac:(lia)) as (H0 & H1 & H2).
    set (c := CountTrailingZeroBits _) in *. exists (pos + c). split; [done|].
    assert (pos mod 64 + c < 64) as Hc.
    { destruct (decide (pos mod 64 + c < 64)) as [|Hn]; [done|]. exfalso.
      rewrite Z.shiftr_spec, high_bits in H1 by lia. done. }
    assert (member s (pos + c) = true) as Hin by (rewrite (member_shift s pos w); [done|done|lia..]).
    assert (pos + c <= kMaxValue) as Hcm.
    { destruct (decide (pos + c <= kMaxValue)) as [|Hn]; [done|]. exfalso.
      destruct Hs as (_ & _ & Hh). rewrite Hh in Hin; [done|lia|].
      pose proof (piece_index pos ltac:(lia)). lia. }
    split; [|lia]. intros _. split; [lia|]. split; [|done]. intros v Hv.
    replace v with (pos + (v - pos)) by lia. rewrite (member_shift s pos w) by (done || lia).
    apply H2. lia.
  - assert (Z.shiftr w (pos mod 64) = 0) as Hz by lia. rewrite next_piece.
    pose proof (piece_index pos ltac:(lia)) as Hpi.
    assert ((64 * (pos / 64 + 1)) / 64 = pos / 64 + 1) as Hq by (rewrite Z.mul_comm; apply Z.div_mul; lia).
    assert (∀ v, pos <= v < 64 * (pos / 64 + 1) → member s v = false) as Hskip.
    { intros v Hv. replace v with (pos + (v - pos)) by lia.
      rewrite (member_shift s pos w) by (done || lia). by rewrite Hz, Z.testbit_0_l. }
    destruct (IH (64 * (pos / 64 + 1))) as (r & Hr1 & Hr2 & Hr3); [lia|lia|].
    exists r. split; [exact Hr1|]. split; [|lia]. intros _.
    destruct (decide (64 * (pos / 64 + 1) <= kMaxValue + 1)) as [Hn|Hn].
    + destruct (Hr2 Hn) as (A & B & C). split; [lia|]. split; [|done]. intros v Hv.
      destruct (decide (v < 64 * (pos / 64 + 1))); [apply Hskip; lia|apply B; lia].
    + rewrite Hr3 by lia. split; [lia|]. split; [|lia]. intros v Hv. apply Hskip. lia.
Qed.

Lemma SkipUnset_spec s pos :
  set_wf s → 0 <= pos <= kMaxValue + 1 → ∃ r, SkipUnset s pos = Done r ∧ first_from s pos r.
Proof.
  intros Hs Hpos. pose proof kPieceCount_val as Hk.
  pose proof (Z.div_mod kMaxValue 64 ltac:(lia)) as Hd. pose proof (mod64 kMaxValue) as Hm.
  pose proof (Z.div_pos pos 64 ltac:(lia) ltac:(lia)).
  destruct (skip_loop_spec (S (Z.to_nat kPieceCount)) s pos Hs) as (r & H1 & H2 & _); [lia|lia|].
  exists r. split; [exact H1|]. apply H2. lia.
Qed.

(** The members from [pos] on, in ascending order. *)
Definition members_from (s : SmallEnumSet) (pos : Z) : list Z :=
  filter (λ v, member s v = true) (seqZ pos (kMaxValue + 1 - pos)).

Lemma filter_none {A} (P : A → Prop) `{∀ x, Decision (P x)} (l : list A) :
  (∀ x, x ∈ l → ¬ P x) → filter P l = [].
Proof.
  induction l as [|x l IH]; intros Hl; [done|]. rewrite filter_cons_False.
  - apply IH. intros y Hy. apply Hl. by apply list_elem_of_further.
  - apply Hl, list_elem_of_here.
Qed.

Lemma members_from_first s pos r :
  first_from s pos r → 
  members_from s pos = if bool_decide (r <= kMaxValue) then r :: members_from s (r + 1) else [].
Proof.
  intros (Hb & Hno & Hyes). unfold members_from.
  replace (kMaxValue + 1 - pos) with ((r - pos) + (kMaxValue + 1 - r)) by lia.
  rewrite seqZ_app by lia. rewrite filter_app, filter_none.
  2: { intros v Hv%elem_of_seqZ. rewrite Hno by lia. done. }
  replace (pos + (r - pos)) with r by lia. simpl. case_bool_decide as Hr.
  - rewrite (seqZ_cons r) by lia. rewrite filter_cons_True by (by apply Hyes).
    do 2 f_equal. f_equal; lia.
  - replace (kMaxValue + 1 - r) with 0 by lia. done.
Qed.

Lemma iterate_spec fuel s pos :
  set_wf s → 0 <= pos <= kMaxValue + 1 → (pos <= kMaxValue → member s pos = true) →
  kMaxValue + 2 <= Z.of_nat fuel + pos →
  iterate fuel s pos =
    Done (if bool_decide (pos <= kMaxValue) then pos :: members_from s (pos + 1) else []).
Proof.
  intros Hs. revert pos. induction fuel as [|fuel IH]; intros pos Hpos Hin Hfuel; [lia|].
  cbn [iterate]. unfold end_. case_bool_decide as He.
  { rewrite bool_decide_false by lia. done. }
  rewrite (bool_decide_true (pos <= kMaxValue)) by lia. unfold iter_deref, iter_next.
  rewrite (bool_decide_true (pos <= kMaxValue)) by lia. simpl. case_bool_decide as Hlt.
  - destruct (SkipUnset_spec s (pos + 1) Hs) as (r & Hr & Hf); [lia|]. rewrite Hr. simpl.
    pose proof Hf as (Hb & _ & Hyes). rewrite IH by (done || lia). simpl.
    by rewrite (members_from_first s (pos + 1) r).
  - simpl. rewrite IH by (done || lia). rewrite bool_decide_false by lia. simpl.
    unfold members_from. by replace (kMaxValue + 1 - (pos + 1)) with 0 by lia.
Qed.

Lemma elements_spec s : set_wf s → elements s = Done (members_from s 0).
Proof.
  intros Hs. unfold elements, begin. destruct (SkipUnset_spec s 0 Hs) as (r & Hr & Hf); [lia|].
  rewrite Hr. cbn [mbind outcome_bind]. pose proof Hf as (Hb & _ & Hyes).
  rewrite iterate_spec by (done || lia). by rewrite (members_from_first s 0 r).
Qed.

(** ** Counting *)

Lemma filter_iff_seq (P Q : Z → Prop) `{∀ x, Decision (P x)} `{∀ x, Decision (Q x)} a b n :
  (∀ i, 0 <= i < n → P (a + i) ↔ Q (b + i)) →
  length (filter P (seqZ a n)) = length (filter Q (seqZ b n)).
Proof.
  destruct (decide (n < 0)) as [Hn|Hn]; [by rewrite !seqZ_nil by lia|].
  assert (∃ k : nat, n = Z.of_nat k) as [k ->] by (exists (Z.to_nat n); lia). clear Hn.
  revert a b. induction k as [|k IH]; intros a b HPQ; [done|].
  rewrite (seqZ_cons a), (seqZ_cons b) by lia. 
  replace (Z.pred (Z.of_nat (S k))) with (Z.of_nat k) by lia.
  assert (length (filter P (seqZ (Z.succ a) (Z.of_nat k))) =
          length (filter Q (seqZ (Z.succ b) (Z.of_nat k)))) as Hk.
  { apply IH. intros i Hi. replace (Z.succ a + i) with (a + (i + 1)) by lia.
    replace (Z.succ b + i) with (b + (i + 1)) by lia. apply HPQ. lia. }
  pose proof (HPQ 0 ltac:(lia)) as H0'. rewrite !Z.add_0_r in H0'.
  destruct (decide (P a)).
  - rewrite !filter_cons_True by tauto. simpl. by rewrite Hk.
  - rewrite !filter_cons_False by tauto. exact Hk.
Qed.

Lemma count_blocks s :
  Forall (λ piece, 0 <= piece < 2 ^ 64) s →
  count s = Z.of_nat (length (filter (λ v, member s v = true) (seqZ 0 (64 * Z.of_nat (length s))))).
Proof.
  induction s as [|w s IH] using rev_ind; intros Hf; [done|].
  apply Forall_app in Hf as [Hf [Hw _]%Forall_cons].
  rewrite length_app. simpl length.
  replace (64 * Z.of_nat (length s + 1)) with (64 * Z.of_nat (length s) + 64) by lia.
  rewrite seqZ_app, filter_app, length_app by lia. rewrite Nat2Z.inj_add.
  assert (∀ l acc, foldr (λ piece n, BitsSetToOne piece + n) acc l =
    foldr (λ piece n, BitsSetToOne piece + n) 0 l + acc) as Hacc.
  { intros l acc. induction l as [|x l IHl]; simpl; [lia|]. rewrite IHl. lia. }
  unfold count in *. rewrite foldr_app. simpl. rewrite Hacc, (IH Hf), (Hbits w Hw). f_equal.
  - f_equal. apply filter_iff_seq. intros i Hi. rewrite Z.add_0_l. unfold member.
    rewrite lookup_app_l; [done|]. pose proof (Z.div_lt_upper_bound i 64 (Z.of_nat (length s))
      ltac:(lia) ltac:(lia)). pose proof (Z.div_pos i 64 ltac:(lia) ltac:(lia)). lia.
  - rewrite Z.add_0_r. f_equal. apply filter_iff_seq. intros i Hi. unfold member.
    replace (0 + 64 * Z.of_nat (length s) + i) with (i + Z.of_nat (length s) * 64) by lia.
    rewrite Z.div_add, Z.mod_add, Z.div_small, Z.mod_small by lia. simpl.
    rewrite ?Z.add_0_l, Nat2Z.id, lookup_app_r, Nat.sub_diag by lia. done.
Qed.

Lemma count_spec s : set_wf s → count s = Z.of_nat (length (members_from s 0)).
Proof.
  intros (Hl & Hf & Hh). rewrite count_blocks by done. rewrite Hl. unfold members_from.
  rewrite Z.sub_0_r. pose proof kPieceCount_val.
  pose proof (Z.div_mod kMaxValue 64 ltac:(lia)). pose proof (mod64 kMaxValue).
  replace (64 * kPieceCount) with ((kMaxValue + 1) + (64 * kPieceCount - (kMaxValue + 1))) by lia.
  rewrite seqZ_app, filter_app by lia.
  rewrite (filter_none _ (seqZ (0 + (kMaxValue + 1)) _)), app_nil_r; [done|].
  intros v Hv%elem_of_seqZ. rewrite Hh by lia. done.
Qed.

(** ** Whole sets *)

Lemma set_ext s t :
  set_wf s → set_wf t → (∀ v, 0 <= v <= kMaxValue → member s v = member t v) → s = t.
Proof.
  intros (Hl1 & Hp1 & Hh1) (Hl2 & Hp2 & Hh2) Hm.
  pose proof kPieceCount_val as Hk. apply list_eq_same_length with (n := length s); [lia|lia|].
  intros i w1 w2 Hi Hw1 Hw2. rewrite Forall_lookup in Hp1. rewrite Forall_lookup in Hp2.
  apply word_ext; [by eapply Hp1|by eapply Hp2|]. intros j Hj.
  assert (∀ u w, u !! i = Some w → member u (64 * Z.of_nat i + j) = Z.testbit w j) as Hb.
  { intros u w Hu. unfold member. replace (64 * Z.of_nat i + j) with (j + Z.of_nat i * 64) by lia.
    rewrite Z.div_add, Z.mod_add, Z.div_small, Z.mod_small by lia. rewrite Z.add_0_l, Nat2Z.id. by rewrite Hu. }
  rewrite <- (Hb s w1 Hw1), <- (Hb t w2 Hw2).
  destruct (decide (64 * Z.of_nat i + j <= kMaxValue)); [apply Hm; lia|].
  rewrite Hh1, Hh2 by lia. done.
Qed.

Lemma kPieceCount_pos : 1 <= kPieceCount.
Proof. rewrite kPieceCount_val. pose proof (Z.div_pos kMaxValue 64). lia. Qed.

Lemma new_wf : set_wf new_SmallEnumSet ∧ ∀ v, member new_SmallEnumSet v = false.
Proof.
  pose proof kPieceCount_pos as Hk.
  assert (∀ v, member new_SmallEnumSet v = false) as Hm.
  { intros v. unfold member, new_SmallEnumSet.
    destruct (replicate _ 0 !! _) as [w|] eqn:Hw; [|apply Z.testbit_0_l].
    apply lookup_replicate in Hw as [-> _]. apply Z.testbit_0_l. }
  split; [|done]. split_and!; [unfold new_SmallEnumSet; rewrite length_replicate; lia| |done].
  apply Forall_replicate. lia.
Qed.

Lemma member_All v :
  0 <= v < 64 * kPieceCount → member All v = bool_decide (v <= kMaxValue).
Proof.
  intros Hv. pose proof kPieceCount_pos as Hk. pose proof kPieceCount_val as Hkv.
  pose proof (Z.div_mod kMaxValue 64 ltac:(lia)) as Hd. pose proof (mod64 kMaxValue) as Hm.
  pose proof (Z.div_mod v 64 ltac:(lia)) as Hdv. pose proof (mod64 v) as Hmv.
  assert (0 <= v / 64 < kPieceCount) as Hq.
  { split; [apply Z.div_pos; lia|apply Z.div_lt_upper_bound; lia]. }
  assert (∀ i, 0 <= i < 64 → Z.testbit (not64 0) i = true) as Hones.
  { intros i Hi. by rewrite testbit_not64, Z.testbit_0_l. }
  unfold member, All. destruct (decide (v / 64 < kPieceCount - 1)) as [Hlt|Hge].
  - rewrite lookup_app_l by (rewrite length_replicate; lia).
    rewrite lookup_replicate_2 by lia. simpl. rewrite Hones by done.
    by rewrite bool_decide_true by lia.
  - assert (v / 64 = kPieceCount - 1) as Hlast by lia.
    rewrite lookup_app_r by (rewrite length_replicate; lia). rewrite length_replicate, Hlast.
    rewrite Nat.sub_diag. simpl. rewrite land_mask.
    assert ((kMaxValue + 1) mod 64 = if decide (kMaxValue mod 64 = 63) then 0 else kMaxValue mod 64 + 1) as Hmod.
    { replace (kMaxValue + 1) with ((kMaxValue mod 64 + 1) + (kMaxValue / 64) * 64) by lia.
      rewrite Z.mod_add by lia. case_decide as E; [by rewrite E|]. rewrite Z.mod_small; lia. }
    rewrite Hmod. case_decide as E.
    + rewrite bool_decide_false by lia. rewrite Hones by done. by rewrite bool_decide_true by lia.
    + rewrite (bool_decide_true (_ ≠ 0)) by lia. rewrite Z.shiftl_1_l.
      assert (2 ^ (kMaxValue mod 64 + 1) - 1 = Z.ones (kMaxValue mod 64 + 1)) as ->.
      { rewrite Z.ones_equiv. lia. }
      rewrite u64_small.
      2: { rewrite Z.ones_equiv. pose proof (Z.pow_lt_mono_r 2 (kMaxValue mod 64 + 1) 64 ltac:(lia) ltac:(lia) ltac:(lia)).
           pose proof (Z.pow_pos_nonneg 2 (kMaxValue mod 64 + 1) ltac:(lia) ltac:(lia)). lia. }
      rewrite Z.testbit_ones_nonneg by lia. rewrite (bool_decide_ext _ (v mod 64 < kMaxValue mod 64 + 1)) by lia.
      case_bool_decide as Hlt; [apply Z.ltb_lt; lia|apply Z.ltb_ge; lia].
Qed.

Lemma All_wf : set_wf All.
Proof.
  pose proof kPieceCount_pos as Hk.
  assert (∀ x, 0 <= u64 x < 2 ^ 64) as Hu by apply u64_bound.
  assert (0 <= not64 0 < 2 ^ 64) as Hn by done. split_and!.
  - unfold All. rewrite length_app, length_replicate. simpl. lia.
  - unfold All. apply Forall_app. split; [by apply Forall_replicate|].
    constructor; [|done]. case_bool_decide; [apply Hu|exact Hn].
  - intros v Hv1 Hv2. rewrite member_All by lia. apply bool_decide_false. lia.
Qed.

Lemma empty_spec s : set_wf s → empty s = bool_decide (members_from s 0 = []).
Proof.
  intros Hs. pose proof Hs as (Hl & Hp & Hh). destruct (empty s) eqn:He; symmetry.
  - apply bool_decide_true. apply filter_none. intros v _. unfold empty in He.
    apply Is_true_true in He. rewrite forallb_True, Forall_lookup in He. unfold member.
    destruct (s !! Z.to_nat (v / 64)) as [w|] eqn:Hw; [|by rewrite Z.testbit_0_l].
    pose proof (He _ _ Hw) as H0%bool_decide_unpack. simpl. by rewrite H0, Z.testbit_0_l.
  - apply bool_decide_false. intros Hm.
    assert (s = new_SmallEnumSet) as ->.
    { apply set_ext; [done|apply new_wf|]. intros v Hv. rewrite (proj2 new_wf).
      destruct (member s v) eqn:E; [|done]. exfalso.
      assert (v ∈ members_from s 0) as Hin.
      { apply list_elem_of_filter. split; [done|]. apply elem_of_seqZ. lia. }
      rewrite Hm in Hin. by apply elem_of_nil in Hin. }
    apply eq_true_false_abs in He; [done|]. unfold empty, new_SmallEnumSet. clear.
    induction (Z.to_nat kPieceCount) as [|n IH]; simpl; [done|]. exact IH.
Qed.

Lemma SmallEnumSet_of_spec l :
  Forall (λ v, 0 <= v <= kMaxValue) l →
  ∃ s, SmallEnumSet_of l = Done s ∧ set_wf s ∧
    ∀ v, 0 <= v → member s v = bool_decide (v ∈ l).
Proof.
  induction 1 as [|e l He Hl (s & Hs & Hwf & Hm)]; simpl.
  - exists new_SmallEnumSet. split; [done|]. destruct new_wf as [Hw Hm]. split; [done|].
    intros v _. by rewrite Hm.
  - rewrite Hs. simpl. destruct (Add_spec s e Hwf He) as (s' & _ & HW & Hwf' & Hm').
    exists s'. split_and!; [done|done|]. intros v Hv. rewrite Hm', Hm by done.
    case_decide as E; [subst; symmetry; apply bool_decide_true, list_elem_of_here|].
    apply bool_decide_ext. rewrite elem_of_cons. tauto.
Qed.
End SmallEnumSet.

(** [kMaxValue] and the two bit functions as the class requires them. *)
Definition bits_ok (kMaxValue : Z) (BitsSetToOne CountTrailingZeroBits : Z → Z) : Prop :=
  0 <= kMaxValue < 1024 ∧
  (∀ w, 0 <= w < 2 ^ 64 →
    BitsSetToOne w = Z.of_nat (length (filter (λ i, Z.testbit w i = true) (seqZ 0 64)))) ∧
  ∀ w, 0 < w < 2 ^ 64 → 0 <= CountTrailingZeroBits w ∧
    Z.testbit w (CountTrailingZeroBits w) = true ∧
    ∀ i, 0 <= i < CountTrailingZeroBits w → Z.testbit w i = false.

(** C18. A [SmallEnumSet] is a set of enumerators: one made from a list holds that list,
    [Add] and [Remove] change one membership, keep the invariant and tell whether they changed
    anything, [Contains] and [==] decide membership and equality, iteration gives the members
    once each in ascending order and ends, [count] is their number, [empty] says whether there
    are none, and [All] holds every enumerator. *)
Theorem small_enum_set_is_a_set (kMax : Z) (ones ctz : Z → Z) (l : list Z) (s t : list Z) (v : Z) :
  bits_ok kMax ones ctz → Forall (λ v, 0 <= v <= kMax) l → set_wf kMax s → set_wf kMax t →
  0 <= v <= kMax →
  (∃ u, SmallEnumSet_of kMax l = Done u ∧ set_wf kMax u ∧ ∀ x, 0 <= x → member u x = bool_decide (x ∈ l)) ∧
  (∃ s', Add kMax s v = Done (s', negb (member s v)) ∧ set_wf kMax s' ∧
     ∀ x, 0 <= x → member s' x = if decide (x = v) then true else member s x) ∧
  (∃ s', Remove kMax s v = Done (s', member s v) ∧ set_wf kMax s' ∧
     ∀ x, 0 <= x → member s' x = if decide (x = v) then false else member s x) ∧
  Contains kMax s v = Done (member s v) ∧
  (set_eqb s t = true ↔ ∀ x, 0 <= x <= kMax → member s x = member t x) ∧
  (∃ es, elements kMax ctz s = Done es ∧ es = filter (λ x, member s x = true) (seqZ 0 (kMax + 1)) ∧
     count ones s = Z.of_nat (length es) ∧ empty s = bool_decide (es = [])) ∧
  set_wf kMax (All kMax) ∧ member (All kMax) v = true.
Proof.
  intros (Hmax & Hones & Hctz) Hl Hs Ht Hv. split_and!.
  - by apply SmallEnumSet_of_spec.
  - destruct (Add_spec kMax Hmax s v Hs Hv) as (s' & H1 & _ & H2 & H3). by exists s'.
  - destruct (Remove_spec kMax Hmax s v Hs Hv) as (s' & H1 & _ & H2 & H3). by exists s'.
  - by apply Contains_spec.
  - unfold set_eqb. rewrite bool_decide_eq_true. split; [by intros ->|]. by apply set_ext.
  - exists (members_from kMax s 0). split; [by apply elements_spec|].
    split; [unfold members_from; by rewrite Z.sub_0_r|].
    split; [by apply count_spec|by apply empty_spec].
  - by apply All_wf.
  - pose proof (piece_index kMax Hmax v Hv). pose proof (Z.div_mod v 64 ltac:(lia)).
    pose proof (mod64 v). rewrite member_All by (done || lia). by rewrite bool_decide_true by lia.
Qed.

(** Bit functions to evaluate with. *)
Definition demo_ones (w : Z) : Z := Z.of_nat (length (filter (λ i, Z.testbit w i = true) (seqZ 0 64))).
Definition demo_ctz (w : Z) : Z :=
  default 0 (head (filter (λ i, Z.testbit w i = true) (seqZ 0 64))).

Lemma first_set w l i :
  head (filter (λ i, Z.testbit w i = true) l) = Some i → StronglySorted Z.lt l →
  Z.testbit w i = true ∧ ∀ j, j ∈ l → j < i → Z.testbit w j = false.
Proof.
  induction l as [|x l IH]; [done|]. destruct (decide (Z.testbit w x = true)) as [Hx|Hx].
  - rewrite filter_cons_True by done. intros [= ->] Hs. split; [done|].
    intros j [->|Hj]%elem_of_cons Hlt; [lia|]. inversion_clear Hs as [|? ? _ Hf].
    rewrite Forall_forall in Hf. apply Hf in Hj. lia.
  - rewrite filter_cons_False by done. intros Hh Hs. inversion_clear Hs as [|? ? Hs' _].
    destruct (IH Hh Hs') as [H1 H2]. split; [done|]. intros j [->|Hj]%elem_of_cons Hlt; [|by apply H2].
    by apply not_true_is_false.
Qed.

Lemma seqZ_sorted a (k : nat) : StronglySorted Z.lt (seqZ a (Z.of_nat k)).
Proof.
  revert a. induction k as [|k IH]; intros a; [constructor|].
  rewrite (seqZ_cons a) by lia. replace (Z.pred (Z.of_nat (S k))) with (Z.of_nat k) by lia.
  constructor; [apply IH|]. apply Forall_forall. intros x Hx%elem_of_seqZ. lia.
Qed.

Lemma demo_bits_ok (kMax : Z) : 0 <= kMax < 1024 → bits_ok kMax demo_ones demo_ctz.
Proof.
  intros Hk. split; [done|]. split; [done|]. intros w Hw. unfold demo_ctz.
  destruct (head (filter (λ i, Z.testbit w i = true) (seqZ 0 64))) as [i|] eqn:Hh; simpl.
  - destruct (first_set _ _ _ Hh (seqZ_sorted 0 64)) as [H1 H2].
    assert (0 <= i) as Hi.
    { apply head_Some in Hh as [l Hl]. assert (i ∈ i :: l) as Hin by apply list_elem_of_here.
      rewrite <- Hl in Hin. apply list_elem_of_filter in Hin as [_ Hin%elem_of_seqZ]. lia. }
    split; [done|]. split; [done|]. intros j Hj. apply H2; [|lia]. apply elem_of_seqZ.
    destruct (decide (i < 64)); [lia|]. rewrite high_bits in H1 by lia. done.
  - exfalso. apply head_None in Hh.
    assert (w = 0) as ->; [|lia]. apply word_ext; [lia|lia|]. intros i Hi. rewrite Z.testbit_0_l.
    destruct (Z.testbit w i) eqn:E; [|done].
    assert (i ∈ filter (λ i, Z.testbit w i = true) (seqZ 0 64)) as Hin.
    { apply list_elem_of_filter. split; [done|]. apply elem_of_seqZ. lia. }
    rewrite Hh in Hin. by apply elem_of_nil in Hin.
Qed.

Example demo_set_elements :
  (s ← SmallEnumSet_of 100 [70; 3; 99; 3; 64]; elements 100 demo_ctz s) = Done [3; 64; 70; 99].
Proof. vm_compute. reflexivity. Qed.

Lemma small_enum_set_is_a_set_witness :
  bits_ok 100 demo_ones demo_ctz ∧ Contains 100 [8; 64] 70 = Done true ∧
  elements 100 demo_ctz [8; 64] = Done [3; 70].
Proof.
  assert (bits_ok 100 demo_ones demo_ctz) as Hb by (apply demo_bits_ok; lia).
  assert (∀ v, 100 < v → v < 64 * kPieceCount 100 → member [8; 64] v = false) as Hhigh.
  { intros v H1 H2. change (kPieceCount 100) with 2 in H2. unfold member.
    assert (v / 64 = 1) as -> by (symmetry; apply (Z.div_unique v 64 1 (v - 64)); lia).
    assert (v mod 64 = v - 64) as -> by (symmetry; apply (Z.mod_unique v 64 1 (v - 64)); lia).
    simpl. change 64 with (2 ^ 6) at 1. rewrite Z.pow2_bits_eqb by lia. apply Z.eqb_neq. lia. }
  assert (set_wf 100 [8; 64]) as Hs.
  { split; [reflexivity|]. split; [repeat constructor; lia|exact Hhigh]. }
  split; [exact Hb|].
  destruct (small_enum_set_is_a_set 100 demo_ones demo_ctz [1] [8; 64] [8; 64] 70 Hb)
    as (_ & _ & _ & H4 & _ & (es & H6 & H7 & _) & _);
    [repeat constructor; lia|exact Hs|exact Hs|lia|].
  split; [rewrite H4; reflexivity|]. rewrite H6, H7. vm_compute. reflexivity.
Defined.
