(* ===== verification/IntervalSet.v ===== *)
(** Sets of intervals that merge as they are inserted (include/rocksdb/data_structure.h,
    [Interval] and [IntervalSet]): the template over an ordered type, kept in a [std::set], and
    its specialization for slices, kept in a vector and ordered by a [Comparator]; and
    [ManagedPtr] of the same header.  IntervalSpec.v says what an insertion adds. *)
From S2P Require Import Prelude.
From stdpp Require Import sorting.

Local Open Scope Z_scope.

(** ** [ManagedPtr] *)

Module ManagedPtr.
(** A pointer to an object and to its owner; either may be null. *)
Record ManagedPtr := mkManagedPtr { ptr_ : option positive; owner_ : option positive }.

Section ManagedPtr.
(** [Fn], on what it reclaims from. *)
Context {W : Type} (Fn : positive → positive → W → W).

Definition new_ManagedPtr : ManagedPtr := mkManagedPtr None None.
Definition ManagedPtr_of (p owner : option positive) : ManagedPtr := mkManagedPtr p owner.
Definition Free (m : ManagedPtr) (w : W) : W :=
  match ptr_ m, owner_ m with Some p, Some o => Fn o p w | _, _ => w end.
(** The new object, and what is left of the one moved from. *)
Definition ManagedPtr_move (other : ManagedPtr) : ManagedPtr * ManagedPtr :=
  (mkManagedPtr (ptr_ other) (owner_ other), mkManagedPtr None None).
(** [a = std::move(b)], [same] when they are one object. *)
Definition move_assign (same : bool) (this other : ManagedPtr) (w : W) :
    ManagedPtr * ManagedPtr * W :=
  if same then (this, other, w)
  else let w := Free this w in
       (mkManagedPtr (ptr_ other) (owner_ other), mkManagedPtr None None, w).
Definition delete_ManagedPtr (m : ManagedPtr) (w : W) : W := Free m w.
Definition get (m : ManagedPtr) : option positive := ptr_ m.
Definition to_bool (m : ManagedPtr) : bool := match ptr_ m with Some _ => true | None => false end.
Definition owner (m : ManagedPtr) : option positive := owner_ m.

(** Moving hands the object over: it is reclaimed once, when the new holder goes. *)
Lemma moved_freed_once m w :
  let '(m', m0) := ManagedPtr_move m in
  delete_ManagedPtr m0 (delete_ManagedPtr m' w) = Free m w ∧ get m0 = None ∧ get m' = get m.
Proof. by destruct m. Qed.

Lemma assigned_freed_once a b w :
  let '(a', b', w') := move_assign false a b w in
  delete_ManagedPtr b' (delete_ManagedPtr a' w') = Free b (Free a w) ∧ get b' = None.
Proof. by destruct a, b. Qed.
End ManagedPtr.
End ManagedPtr.

(** ** [Interval] *)

(** [end_] is [None] for [End::INF]. *)
Record Interval (K : Type) := mkInterval { start : K; end_ : option K }.
Arguments mkInterval {K} _ _.
Arguments start {K} _.
Arguments end_ {K} _.

Section Interval.
Context {K : Type} `{EqDecision K}.

(** [Interval(const T&)] and [Interval(const std::pair<T, T>&)] *)
Definition Interval_from (s : K) : Interval K := mkInterval s None.
Definition Interval_of_pair (p : K * K) : Interval K := mkInterval p.1 (Some p.2).
Definition has_end (i : Interval K) : bool := match end_ i with Some _ => true | None => false end.
(** [std::get<T>(end_)] throws when the end is infinite. *)
Definition end_of (i : Interval K) : outcome K :=
  match end_ i with Some e => Done e | None => Undef UncaughtException end.

Section Template.
(** [comp], [std::less<T>] by default. *)
Context (comparator : K → K → bool).

(** [CompareVariant]: infinity is less than every value, and not less than itself. *)
Definition compare_variant (a b : option K) : bool :=
  match a, b with
  | Some x, Some y => comparator x y
  | None, None => false
  | Some _, None => false
  | None, Some _ => true
  end.

Definition interval_eq_pair (i : Interval K) (p : K * K) : bool :=
  bool_decide (start i = p.1) && has_end i && bool_decide (end_ i = Some p.2).
Definition interval_eqb (i other : Interval K) : bool :=
  if decide (start i ≠ start other) then false
  else if negb (has_end i) && negb (has_end other) then true
  else if bool_decide (has_end i ≠ has_end other) then false
  else bool_decide (end_ i = end_ other).
Definition interval_ltb (i other : Interval K) : bool := comparator (start i) (start other).
End Template.

Section ForSlices.
(** [comparator_->Compare] *)
Context (Compare : K → K → Z).

Definition slice_interval_eqb (i other : Interval K) : bool :=
  if bool_decide (Compare (start i) (start other) ≠ 0) then false
  else match end_ i, end_ other with
       | None, None => true
       | Some x, Some y => bool_decide (Compare x y = 0)
       | _, _ => false
       end.
Definition slice_interval_ltb (i other : Interval K) : bool :=
  bool_decide (Compare (start i) (start other) < 0).
End ForSlices.
End Interval.

(** ** [IntervalSet<T>]: the intervals of a [std::set], in its order *)

Section Generic.
Context {K : Type} (comp_ : K → K → bool).
Implicit Types (i x : Interval K) (l : list (Interval K)).

(** [std::set::insert]: in order of the starts, unless one with an equivalent start is there. *)
Fixpoint set_insert (x : Interval K) (l : list (Interval K)) : list (Interval K) :=
  match l with
  | [] => [x]
  | y :: l' =>
      if comp_ (start y) (start x) then y :: set_insert x l'
      else if comp_ (start x) (start y) then x :: y :: l' else y :: l'
  end.

(** Is there an infinite interval [i] starts in? *)
Definition in_infinite l i : bool :=
  existsb (λ it, negb (has_end it) && negb (comp_ (start i) (start it))) l.

Fixpoint lower_position (l : list (Interval K)) (s : K) : nat :=
  match l with
  | [] => O
  | it :: l' => if comp_ (start it) s then S (lower_position l' s) else O
  end.

(** The first interval to look at: the one before the position, if it reaches [i]. *)
Definition first_touched l i : nat :=
  match lower_position l (start i) with
  | O => O
  | S p =>
      match l !! p with
      | Some it => if match end_ it with Some e => comp_ e (start i) | None => false end
                   then S p else p
      | None => S p
      end
  end.

(** The loop over the intervals an infinite one absorbs: the new start. *)
Fixpoint absorb_all (l : list (Interval K)) (new_start : K) : K :=
  match l with
  | [] => new_start
  | it :: l' => absorb_all l' (if comp_ (start it) new_start then start it else new_start)
  end.

(** The loop for a finite interval, at position [it]: where it stopped, the positions to
    erase, the new bounds, and whether it met an infinite interval. *)
Fixpoint absorb (l : list (Interval K)) (it : nat) (to_erase : list nat) (new_start new_end : K) :
    nat * list nat * K * K * bool :=
  match l with
  | [] => (it, to_erase, new_start, new_end, false)
  | x :: l' =>
      if comp_ new_end (start x) then (it, to_erase, new_start, new_end, false)
      else if match end_ x with Some e => comp_ e new_start | None => false end
      then absorb l' (S it) to_erase new_start new_end
      else
        let new_start := if comp_ (start x) new_start then start x else new_start in
        match end_ x with
        | Some e => absorb l' (S it) (to_erase ++ [it]) new_start (if comp_ new_end e then e else new_end)
        | None => (it, to_erase, new_start, new_end, true)
        end
  end.

(** The positions of the infinite intervals from [it] on. *)
Fixpoint infinite_positions (l : list (Interval K)) (it : nat) : list nat :=
  match l with
  | [] => []
  | x :: l' => if has_end x then infinite_positions l' (S it) else it :: infinite_positions l' (S it)
  end.

(** [intervals_.erase] for each position, counted from [n]. *)
Fixpoint erase_positions (to_erase : list nat) (n : nat) (l : list (Interval K)) : list (Interval K) :=
  match l with
  | [] => []
  | x :: l' =>
      if bool_decide (n ∈ to_erase) then erase_positions to_erase (S n) l'
      else x :: erase_positions to_erase (S n) l'
  end.

Definition generic_insertImpl (l : list (Interval K)) (i : Interval K) : list (Interval K) :=
  if match end_ i with
     | Some e => negb (comp_ (start i) e) && negb (comp_ e (start i))
     | None => false
     end then l
  else if in_infinite l i then l
  else
    let it := first_touched l i in
    match end_ i with
    | None => set_insert (Interval_from (absorb_all (drop it l) (start i))) (take it l)
    | Some e =>
        let '(it, to_erase, new_start, new_end, inf_end) := absorb (drop it l) it [] (start i) e in
        let infs := infinite_positions (drop it l) it in
        let to_erase := to_erase ++ infs in
        let inf_end := inf_end || negb (bool_decide (infs = [])) in
        let l := erase_positions to_erase 0 l in
        if (inf_end : bool) then set_insert (Interval_from new_start) l
        else set_insert (mkInterval new_start (Some new_end)) l
    end.

(** [insert(start, end)] and [insert(start)] *)
Definition generic_insert l (start end_ : K) : list (Interval K) :=
  generic_insertImpl l (mkInterval start (Some end_)).
Definition generic_insert_from l (start : K) : list (Interval K) :=
  generic_insertImpl l (Interval_from start).

Definition generic_empty l : bool := bool_decide (l = []).
Definition generic_clear (l : list (Interval K)) : list (Interval K) := [].
Definition generic_size l : nat := length l.
End Generic.

(** ** [IntervalSet<Slice, Comparator>]: a vector of intervals *)

Section ForSlices.
Context {K : Type} (Compare : K → K → Z).
Implicit Types (i x : Interval K) (l : list (Interval K)).

(** The first interval that starts at or after [s]. *)
Fixpoint findPosition (l : list (Interval K)) (s : K) : nat :=
  match l with
  | [] => O
  | it :: l' => if bool_decide (0 <= Compare (start it) s) then O else S (findPosition l' s)
  end.

(** [intervals_.insert(findPosition(x), x)] *)
Definition insert_interval x l : list (Interval K) :=
  let pos := findPosition l (start x) in take pos l ++ x :: drop pos l.

(** The interval before the position is included when it reaches [i]; [None] when [prop]
    makes that a failure. *)
Definition touched_from (prop : bool) l i : option nat :=
  match findPosition l (start i) with
  | O => Some O
  | S p =>
      match l !! p with
      | Some prev =>
          if match end_ prev with Some e => bool_decide (Compare e (start i) < 0) | None => false end
          then Some (S p) else if prop then None else Some p
      | None => Some (S p)
      end
  end.

(** The loop over the intervals an infinite one absorbs. *)
Fixpoint merge_all (prop : bool) (l : list (Interval K)) (new_start : K) : option K :=
  match l with
  | [] => Some new_start
  | it :: l' =>
      if bool_decide (Compare (start it) new_start < 0) then
        if prop then None else merge_all prop l' (start it)
      else merge_all prop l' new_start
  end.

(** The loop for a finite interval, at position [it]: where it stopped, the end of what to
    erase, the new bounds, and whether it met an infinite interval. *)
Fixpoint merge (total : nat) (l : list (Interval K)) (it erase_end : nat) (new_start new_end : K) :
    nat * nat * K * K * bool :=
  match l with
  | [] => (it, erase_end, new_start, new_end, false)
  | x :: l' =>
      if bool_decide (0 <= Compare new_end (start x)) then
        if match end_ x with Some e => bool_decide (Compare e new_start < 0) | None => false end
        then merge total l' (S it) (S it) new_start new_end
        else
          let new_start := if bool_decide (Compare (start x) new_start < 0) then start x else new_start in
          match end_ x with
          | Some e =>
              merge total l' (S it) (S it) new_start
                (if bool_decide (Compare new_end e < 0) then e else new_end)
          | None => (it, total, new_start, new_end, true)
          end
      else (it, erase_end, new_start, new_end, false)
  end.

(** The intervals afterwards, and whether [i] was inserted. *)
Definition insertImpl (prop : bool) l i : list (Interval K) * bool :=
  if match end_ i with Some e => bool_decide (0 <= Compare (start i) e) | None => false end
  then (l, false)
  else
    match touched_from prop l i with
    | None => (l, false)
    | Some it =>
        match end_ i with
        | None =>
            match merge_all prop (drop it l) (start i) with
            | None => (l, false)
            | Some new_start =>
                if bool_decide (it ≠ length l) && prop then (l, false)
                else (insert_interval (Interval_from new_start) (take it l), true)
            end
        | Some e =>
            let '(it2, erase_end, new_start, new_end, inf_end) :=
              merge (length l) (drop it l) it it (start i) e in
            let beyond := existsb (λ x, negb (has_end x)) (drop it2 l) in
            let inf_end := inf_end || beyond in
            let erase_end := if (beyond : bool) then length l else erase_end in
            let l := take it l ++ drop erase_end l in
            (insert_interval
               (if (inf_end : bool) then Interval_from new_start
                else mkInterval new_start (Some new_end)) l, true)
        end
    end.

(** [insert(start, end)] and [insert(start)] *)
Definition insert (prop : bool) l (start end_ : K) : list (Interval K) * bool :=
  insertImpl prop l (mkInterval start (Some end_)).
Definition insert_from (prop : bool) l (start : K) : list (Interval K) * bool :=
  insertImpl prop l (Interval_from start).
End ForSlices.

(** ** What the sets do, on concrete intervals *)

Definition zless (a b : Z) : bool := bool_decide (a < b).
Definition zcompare (a b : Z) : Z := a - b.

Example merge_example :
  insertImpl zcompare false [mkInterval 1 (Some 3); mkInterval 5 (Some 7); mkInterval 9 (Some 12)]
    (mkInterval 3 (Some 6)) = ([mkInterval 1 (Some 7); mkInterval 9 (Some 12)], true) ∧
  generic_insertImpl zless [mkInterval 1 (Some 3); mkInterval 5 (Some 7); mkInterval 9 (Some 12)]
    (mkInterval 3 (Some 6)) = [mkInterval 1 (Some 7); mkInterval 9 (Some 12)].
Proof. split; vm_compute; reflexivity. Qed.

(** An infinite interval beyond the one inserted swallows the gap between them; in the template
    an interval of the gap even stays beside it. *)
Example swallow_example :
  insertImpl zcompare false [mkInterval 5 (Some 6); mkInterval 10 None] (mkInterval 1 (Some 2)) =
    ([mkInterval 1 None], true) ∧
  generic_insertImpl zless [mkInterval 5 (Some 6); mkInterval 10 None] (mkInterval 1 (Some 2)) =
    [mkInterval 1 None; mkInterval 5 (Some 6)].
Proof. split; vm_compute; reflexivity. Qed.

(** [fail_on_intersect] merges with a later interval, and refuses one that only touches. *)
Example prop_example :
  insertImpl zcompare true [mkInterval 5 (Some 10)] (mkInterval 3 (Some 7)) =
    ([mkInterval 3 (Some 10)], true) ∧
  insertImpl zcompare true [mkInterval 1 (Some 3)] (mkInterval 3 (Some 5)) =
    ([mkInterval 1 (Some 3)], false).
Proof. split; vm_compute; reflexivity. Qed.
