(* ===== verification/IntervalSpec.v ===== *)
(** What an insertion into the interval set of IntervalSet.v adds: the union, and, when an
    infinite interval lies beyond, the gap before it as well. *)
From stdpp Require Import sorting.
From S2P Require Import Prelude IntervalSet.

Local Open Scope Z_scope.

(** The comparator orders the keys: its signs are antisymmetric, and it is transitive. *)
Definition comparator_ok {K} (Compare : K → K → Z) : Prop :=
  (∀ a b, Compare b a < 0 ↔ 0 < Compare a b) ∧
  (∀ a b c, Compare a b <= 0 → Compare b c <= 0 → Compare a c <= 0).

Section Spec.
Context {K : Type} (Compare : K → K → Z).
Implicit Types (i x y : Interval K) (l A B C : list (Interval K)) (k : K).

Definition lt (a b : K) : Prop := Compare a b < 0.
Definition le (a b : K) : Prop := Compare a b <= 0.

(** A key in an interval, and in one of a list. *)
Definition mem (k : K) (i : Interval K) : Prop :=
  le (start i) k ∧ match end_ i with Some e => lt k e | None => True end.
Definition inset (k : K) (l : list (Interval K)) : Prop := ∃ i, i ∈ l ∧ mem k i.

(** [i] ends before [j] starts. *)
Definition sep (i j : Interval K) : Prop := ∃ e, end_ i = Some e ∧ lt e (start j).
Definition proper (i : Interval K) : Prop :=
  match end_ i with Some e => lt (start i) e | None => True end.
(** Apart from each other and in order, none of them empty: only the last may be infinite. *)
Definition set_ok (l : list (Interval K)) : Prop := StronglySorted sep l ∧ Forall proper l.

(** An infinite interval of the set starts after the end of [i], and [k] is not before [i]. *)
Definition swallowed (l : list (Interval K)) (i : Interval K) (k : K) : Prop :=
  ∃ j e, j ∈ l ∧ end_ j = None ∧ end_ i = Some e ∧ lt e (start j) ∧ le (start i) k.

Context (Hc : comparator_ok Compare).

(** ** The order *)

Lemma not_le a b : ¬ le a b ↔ lt b a.
Proof. unfold le, lt. rewrite (proj1 Hc a b). lia. Qed.
Lemma not_lt a b : ¬ lt a b ↔ le b a.
Proof. rewrite <- not_le. unfold le. lia. Qed.
Lemma lt_le a b : lt a b → le a b.
Proof. unfold lt, le. lia. Qed.
Lemma le_trans a b c : le a b → le b c → le a c.
Proof. apply (proj2 Hc). Qed.
Lemma le_lt_trans a b c : le a b → lt b c → lt a c.
Proof. intros H1 H2. apply not_le. intros H3. apply not_le in H2. apply H2. by eapply le_trans. Qed.
Lemma lt_le_trans a b c : lt a b → le b c → lt a c.
Proof. intros H1 H2. apply not_le. intros H3. apply not_le in H1. apply H1. by eapply le_trans. Qed.
Lemma lt_trans a b c : lt a b → lt b c → lt a c.
Proof. intros H1 H2. eapply le_lt_trans; [by apply lt_le|done]. Qed.
Lemma le_refl a : le a a.
Proof. unfold le. pose proof (proj1 Hc a a). lia. Qed.
Lemma lt_irrefl a : ¬ lt a a.
Proof. apply not_lt, le_refl. Qed.
Lemma lt_dec a b : {lt a b} + {le b a}.
Proof. destruct (decide (Compare a b < 0)) as [H|H]; [by left|right; by apply not_lt]. Qed.
Lemma ge_compare a b : 0 <= Compare a b ↔ le b a.
Proof. rewrite <- not_lt. unfold lt. lia. Qed.
Hint Resolve lt_le le_refl : core.

(** Decide the tests of the code. *)
Ltac test_lt a b H :=
  destruct (lt_dec a b) as [H|H];
  [rewrite ?(bool_decide_true (Compare a b < 0)) by exact H;
   rewrite ?(bool_decide_false (0 <= Compare a b)) by (unfold lt in H; lia)
  |rewrite ?(bool_decide_false (Compare a b < 0)) by (apply ge_compare in H; lia);
   rewrite ?(bool_decide_true (0 <= Compare a b)) by (by apply ge_compare)].

(** The smaller and the greater of two keys, as the loops compute them. *)
Definition kmin (a b : K) : K := if bool_decide (Compare b a < 0) then b else a.
Definition kmax (a b : K) : K := if bool_decide (Compare a b < 0) then b else a.

Lemma kmin_spec a b : le (kmin a b) a ∧ le (kmin a b) b ∧ ((kmin a b = a ∧ le a b) ∨ (kmin a b = b ∧ lt b a)).
Proof. unfold kmin. test_lt b a H; auto 7. Qed.
Lemma kmax_spec a b : le a (kmax a b) ∧ le b (kmax a b) ∧ ((kmax a b = a ∧ le b a) ∨ (kmax a b = b ∧ lt a b)).
Proof. unfold kmax. test_lt a b H; auto 7. Qed.

(** Two intervals that meet make one. *)
Lemma union_interval a b c d k :
  lt a b → lt c d → le c b → le a d →
  (le (kmin a c) k ∧ lt k (kmax b d)) ↔ (le a k ∧ lt k b) ∨ (le c k ∧ lt k d).
Proof.
  intros Hab Hcd Hcb Had.
  destruct (kmin_spec a c) as (m1 & m2 & Hm), (kmax_spec b d) as (M1 & M2 & HM). split.
  - intros [H1 H2]. destruct (lt_dec k b) as [Hkb|Hkb].
    + destruct (lt_dec k a) as [Hka|Hka]; [|by left]. right.
      destruct Hm as [[E _]|[E _]]; rewrite E in H1.
      * exfalso. apply (lt_irrefl k). by eapply lt_le_trans.
      * split; [done|]. by eapply lt_le_trans.
    + destruct HM as [[E _]|[E _]]; rewrite E in H2.
      * exfalso. apply (lt_irrefl k). by eapply lt_le_trans.
      * right. split; [|done]. by eapply le_trans.
  - intros [[H1 H2]|[H1 H2]]; split; eauto using le_trans, lt_le_trans.
Qed.

(** ** Lists of intervals *)

Lemma set_ok_app A B :
  set_ok (A ++ B) ↔ set_ok A ∧ set_ok B ∧ ∀ a b, a ∈ A → b ∈ B → sep a b.
Proof. unfold set_ok. rewrite StronglySorted_app, Forall_app. tauto. Qed.

Lemma set_ok_cons x l : set_ok (x :: l) ↔ proper x ∧ set_ok l ∧ ∀ y, y ∈ l → sep x y.
Proof.
  rewrite (set_ok_app [x] l). unfold set_ok at 1. split.
  - intros ([_ [Hp _]%Forall_cons] & Hl & Hs). split; [done|]. split; [done|].
    intros y Hy. apply Hs; [apply list_elem_of_here|done].
  - intros (Hp & Hl & Hs). split; [|split; [done|]].
    + split; [repeat constructor|by constructor].
    + intros a b ->%list_elem_of_singleton. apply Hs.
Qed.

Lemma sep_starts x y : proper x → sep x y → lt (start x) (start y).
Proof. intros Hp (e & He & Hl). unfold proper in Hp. rewrite He in Hp. by eapply lt_trans. Qed.

Lemma inset_app k A B : inset k (A ++ B) ↔ inset k A ∨ inset k B.
Proof. unfold inset. setoid_rewrite elem_of_app. naive_solver. Qed.
Lemma inset_cons k x l : inset k (x :: l) ↔ mem k x ∨ inset k l.
Proof. unfold inset. setoid_rewrite elem_of_cons. naive_solver. Qed.
Lemma inset_nil k : ¬ inset k [].
Proof. intros (i & Hi & _). by apply elem_of_nil in Hi. Qed.

Lemma findPosition_app A B k :
  (∀ a, a ∈ A → lt (start a) k) → (∀ b, b ∈ B → le k (start b)) →
  findPosition Compare (A ++ B) k = length A.
Proof.
  intros HA HB. induction A as [|a A IH]; simpl.
  - destruct B as [|b B]; [done|]. simpl. pose proof (HB b ltac:(apply list_elem_of_here)) as Hb.
    rewrite bool_decide_true; [done|]. by apply ge_compare.
  - pose proof (HA a ltac:(apply list_elem_of_here)) as Ha. unfold lt in Ha.
    rewrite bool_decide_false by lia. f_equal. apply IH. intros b Hb. apply HA.
    by apply list_elem_of_further.
Qed.

(** A sorted list splits at a key. *)
Lemma split_at l k :
  set_ok l → ∃ A B, l = A ++ B ∧ (∀ a, a ∈ A → lt (start a) k) ∧ (∀ b, b ∈ B → le k (start b)).
Proof.
  induction l as [|x l IH]; intros Hl.
  { exists [], []. split_and!; [done|..]; intros ? []%elem_of_nil. }
  apply set_ok_cons in Hl as (Hp & Hl & Hs). test_lt (start x) k H.
  - destruct (IH Hl) as (A & B & -> & HA & HB). exists (x :: A), B. split_and!; [done| |done].
    intros a [-> |Ha]%elem_of_cons; auto.
  - exists [], (x :: l). split_and!; [done|intros ? []%elem_of_nil|].
    intros b [-> |Hb]%elem_of_cons; [done|]. eapply le_trans; [exact H|].
    apply lt_le, sep_starts; auto.
Qed.

(** ** Where an insertion begins *)

(** What lies wholly before [k], and what reaches it. *)
Definition ends_before k i : Prop := ∃ e, end_ i = Some e ∧ lt e k.
Definition reaches k i : Prop := match end_ i with Some e => le k e | None => True end.

Lemma ends_before_dec k i : {ends_before k i} + {reaches k i}.
Proof.
  unfold ends_before, reaches. destruct (end_ i) as [e|]; [|by right].
  destruct (lt_dec e k); [left; by exists e|by right].
Qed.

Lemma touched_from_spec l i :
  set_ok l → ∃ A B, l = A ++ B ∧ touched_from Compare false l i = Some (length A) ∧
    (∀ a, a ∈ A → ends_before (start i) a) ∧ (∀ b, b ∈ B → reaches (start i) b).
Proof.
  intros Hl. destruct (split_at l (start i) Hl) as (A & B & -> & HA & HB).
  apply set_ok_app in Hl as ([HsA HpA] & [_ HpB] & HAB).
  assert (∀ b, b ∈ B → reaches (start i) b) as HrB.
  { intros b Hb. unfold reaches. destruct (end_ b) as [e|] eqn:He; [|done].
    rewrite Forall_forall in HpB. specialize (HpB b Hb). unfold proper in HpB. rewrite He in HpB.
    eapply le_trans; [by apply HB|by apply lt_le]. }
  unfold touched_from. rewrite findPosition_app by done.
  destruct A as [|prev A _] using rev_ind.
  { exists [], B. split_and!; [done|done|intros ? []%elem_of_nil|done]. }
  rewrite length_app. simpl length. rewrite Nat.add_1_r.
  rewrite <- app_assoc. simpl app. rewrite list_lookup_middle by done.
  assert (∀ a, a ∈ A → ends_before (start i) a) as HbA.
  { apply StronglySorted_app in HsA as (Hsep & _ & _). intros a Ha.
    destruct (Hsep a prev Ha ltac:(apply list_elem_of_here)) as (e & He & Hlt).
    exists e. split; [done|]. eapply lt_trans; [exact Hlt|]. apply HA. set_solver. }
  destruct (ends_before_dec (start i) prev) as [He|Hr].
  - pose proof He as (e & Ee & Hlt). rewrite Ee, bool_decide_true by exact Hlt.
    exists (A ++ [prev]), B. rewrite <- app_assoc. split_and!; [done| | |done].
    + rewrite length_app. simpl. by rewrite Nat.add_1_r.
    + intros a [Ha| ->%list_elem_of_singleton]%elem_of_app; auto.
  - exists A, (prev :: B). split_and!; [done| |done|].
    + unfold reaches in Hr. destruct (end_ prev) as [e|]; [|done].
      rewrite bool_decide_false; [done|]. apply ge_compare in Hr. lia.
    + intros b [-> |Hb]%elem_of_cons; auto.
Qed.

(** ** The loops *)

Lemma merge_all_spec l k :
  ∃ r, merge_all Compare false l k = Some r ∧ le r k ∧ (∀ b, b ∈ l → le r (start b)) ∧
    (r = k ∨ ∃ b, b ∈ l ∧ r = start b ∧ lt r k).
Proof.
  revert k. induction l as [|x l IH]; intros k; simpl.
  { exists k. split_and!; [done|done|intros ? []%elem_of_nil|by left]. }
  test_lt (start x) k H.
  - destruct (IH (start x)) as (r & E & H1 & H2 & H3). exists r. split_and!; [done|..].
    + eauto using le_trans.
    + intros b [-> |Hb]%elem_of_cons; auto.
    + right. destruct H3 as [-> |(b & Hb & -> & Hlt)].
      * exists x. split_and!; [apply list_elem_of_here|done|done].
      * exists b. split_and!; [by apply list_elem_of_further|done|by eapply lt_trans].
  - destruct (IH k) as (r & E & H1 & H2 & H3). exists r. split_and!; [done|done|..].
    + intros b [-> |Hb]%elem_of_cons; [by eapply le_trans|auto].
    + destruct H3 as [-> |(b & Hb & -> & Hlt)]; [by left|right].
      exists b. split_and!; [by apply list_elem_of_further|done|done].
Qed.

Lemma union_infinite a b c k :
  lt a b → le c b → le (kmin a c) k ↔ (le a k ∧ lt k b) ∨ le c k.
Proof.
  intros Hab Hcb. destruct (kmin_spec a c) as (m1 & m2 & Hm). split.
  - intros H. destruct (lt_dec k c) as [Hk|Hk]; [|by right]. left.
    destruct Hm as [[E _]|[E _]]; rewrite E in H.
    + split; [done|]. by eapply lt_le_trans.
    + exfalso. apply (lt_irrefl k). by eapply lt_le_trans.
  - intros [[H _]|H]; eauto using le_trans.
Qed.

(** What [merge] leaves: it took in the intervals of [M] and stopped before [C]. *)
Lemma merge_spec total l it ns ne :
  set_ok l → lt ns ne → (∀ b, b ∈ l → reaches ns b) →
  ∃ M C ns' ne' inf, l = M ++ C ∧
    merge Compare total l it it ns ne =
      ((it + length M)%nat, if (inf : bool) then total else (it + length M)%nat, ns', ne', inf) ∧
    lt ns' ne' ∧ le ns' ns ∧ le ne ne' ∧ (∀ m, m ∈ M → has_end m = true) ∧
    (ns' = ns ∨ ∃ b, b ∈ l ∧ ns' = start b) ∧
    (if inf then (∃ x, C = [x] ∧ end_ x = None) ∧
       ∀ k, le ns' k ↔ (le ns k ∧ lt k ne) ∨ inset k l
     else (∀ c, c ∈ C → lt ne' (start c)) ∧
       ∀ k, (le ns' k ∧ lt k ne') ↔ (le ns k ∧ lt k ne) ∨ inset k M).
Proof.
  revert it ns ne. induction l as [|x l IH]; intros it ns ne Hl Hlt Hr; cbn [merge].
  { exists [], [], ns, ne, false. rewrite Nat.add_0_r. split_and!; try done; [..|by left| |].
    - intros ? []%elem_of_nil.
    - intros ? []%elem_of_nil.
    - intros k. pose proof (inset_nil k). tauto. }
  apply set_ok_cons in Hl as (Hp & Hl & Hsep). test_lt ne (start x) Hx.
  { exists [], (x :: l), ns, ne, false. rewrite Nat.add_0_r. split_and!; try done; [..|by left| |].
    - intros ? []%elem_of_nil.
    - intros c [-> |Hc']%elem_of_cons; [done|]. eapply lt_trans; [exact Hx|].
      apply sep_starts; auto.
    - intros k. pose proof (inset_nil k). tauto. }
  pose proof (Hr x ltac:(apply list_elem_of_here)) as Hrx. unfold reaches in Hrx.
  fold (kmin ns (start x)). destruct (kmin_spec ns (start x)) as (m1 & m2 & Hm).
  destruct (end_ x) as [e|] eqn:He.
  - rewrite bool_decide_false by (apply ge_compare in Hrx; lia). fold (kmax ne e).
    unfold proper in Hp. rewrite He in Hp.
    destruct (kmax_spec ne e) as (M1 & M2 & HM).
    destruct (IH (S it) (kmin ns (start x)) (kmax ne e) Hl)
      as (M & C & ns' & ne' & inf & -> & E & H1 & H2 & H3 & H4 & H5 & H6).
    + eapply le_lt_trans; [exact m1|]. by eapply lt_le_trans.
    + intros b Hb. pose proof (Hr b ltac:(by apply list_elem_of_further)) as Hrb. unfold reaches in *.
      destruct (end_ b); [|done]. eapply le_trans; [exact m1|done].
    + assert (∀ k, (le (kmin ns (start x)) k ∧ lt k (kmax ne e)) ↔ (le ns k ∧ lt k ne) ∨ mem k x) as Hu.
      { intros k. rewrite (union_interval ns ne (start x) e k) by done. unfold mem. by rewrite He. }
      exists (x :: M), C, ns', ne', inf. simpl length. rewrite Nat.add_succ_r.
      split; [done|]. split; [exact E|]. split; [done|].
      split; [by eapply le_trans|]. split; [by eapply le_trans|]. split.
      { intros m [-> |Hm']%elem_of_cons; [|by apply H4]. unfold has_end. by rewrite He. }
      split.
      { destruct H5 as [-> |(b & Hb & ->)].
        - destruct Hm as [[-> _]|[-> _]]; [by left|right]. exists x. split; [|done]. apply list_elem_of_here.
        - right. exists b. split; [|done]. by apply list_elem_of_further. }
      destruct inf; destruct H6 as [H6 H7]; (split; [done|]); intros k; rewrite H7, Hu;
        rewrite ?inset_cons; tauto.
  - exists [], (x :: l), (kmin ns (start x)), ne, true. rewrite Nat.add_0_r.
    assert (l = []) as ->.
    { destruct l as [|y l]; [done|]. destruct (Hsep y ltac:(apply list_elem_of_here)) as (e & E & _).
      congruence. }
    split; [done|]. split; [done|]. split; [eapply le_lt_trans; [exact m1|exact Hlt]|]. split; [done|]. split; [done|].
    split; [intros ? []%elem_of_nil|]. split.
    { destruct Hm as [[-> _]|[-> _]]; [by left|right]. exists x. split; [|done]. apply list_elem_of_here. }
    split; [by exists x|]. intros k. rewrite (union_infinite ns ne (start x)), inset_cons by done.
    unfold mem. rewrite He. pose proof (inset_nil k). tauto.
Qed.

(** ** The insertion *)

(** The new interval goes between what ends before it and what starts after it. *)
Lemma insert_between A C n :
  set_ok A → set_ok C → proper n → (∀ a, a ∈ A → sep a n) → (∀ c, c ∈ C → sep n c) →
  (∀ a c, a ∈ A → c ∈ C → sep a c) →
  insert_interval Compare n (A ++ C) = A ++ n :: C ∧ set_ok (A ++ n :: C).
Proof.
  intros HA HC Hn HAn HnC HAC. split.
  - unfold insert_interval. rewrite findPosition_app.
    + by rewrite take_app_length, drop_app_length.
    + intros a Ha. apply sep_starts; [|by apply HAn]. destruct HA as [_ HA].
      rewrite Forall_forall in HA. by apply HA.
    + intros c Hc'. apply lt_le, sep_starts; auto.
  - apply set_ok_app. split; [done|]. split; [by apply set_ok_cons|].
    intros a b Ha [-> |Hb]%elem_of_cons; auto.
Qed.

(** The absorbed part of a set and what replaces it. *)
Lemma starts_after A B a ns i :
  (∀ a b, a ∈ A → b ∈ B → sep a b) → (∀ a, a ∈ A → ends_before (start i) a) → a ∈ A →
  ns = start i ∨ (∃ b, b ∈ B ∧ ns = start b) → ∃ e, end_ a = Some e ∧ lt e ns.
Proof. intros HAB HA Ha [-> |(b & Hb & ->)]; [by apply HA|by apply HAB]. Qed.

(** At the end of the vector nothing is after it. *)
Lemma insert_at_end A n :
  set_ok A → proper n → (∀ a, a ∈ A → sep a n) →
  insert_interval Compare n A = A ++ [n] ∧ set_ok (A ++ [n]).
Proof.
  intros HA Hn HAn. destruct (insert_between A [] n) as [E Hok]; [done|by repeat constructor|done|done|..].
  - intros ? []%elem_of_nil.
  - intros ? ? _ []%elem_of_nil.
  - by rewrite app_nil_r in E.
Qed.

Lemma in_finite_interval k i e : end_ i = Some e → mem k i ↔ le (start i) k ∧ lt k e.
Proof. intros He. unfold mem. by rewrite He. Qed.
Lemma in_infinite_interval k i : end_ i = None → mem k i ↔ le (start i) k.
Proof. intros He. unfold mem. rewrite He. tauto. Qed.

(** The keys of the set when the new interval [r, ∞) takes the place of [B] ... *)
Lemma absorbed_keys A B i r k :
  end_ i = None → le r (start i) → (∀ b, b ∈ B → le r (start b)) →
  (r = start i ∨ ∃ b, b ∈ B ∧ r = start b ∧ lt r (start i)) → (∀ b, b ∈ B → reaches (start i) b) →
  inset k (A ++ [Interval_from r]) ↔ inset k (A ++ B) ∨ mem k i ∨ swallowed (A ++ B) i k.
Proof.
  intros He H1 H2 H3 HB.
  assert (¬ swallowed (A ++ B) i k) as Hns by (intros (j & e & _ & _ & E0 & _); congruence).
  rewrite !(inset_app k A), inset_cons, (in_infinite_interval k i), (in_infinite_interval k (Interval_from r))
    by done.
  pose proof (inset_nil k). simpl. split.
  - intros [?|[Hk|?]]; [tauto| |done]. destruct (lt_dec k (start i)) as [Hki|Hki]; [|tauto].
    left. right. destruct H3 as [-> |(b & Hb & -> & Hlt)].
    + exfalso. apply (lt_irrefl k). by eapply lt_le_trans.
    + exists b. split; [done|]. split; [done|]. pose proof (HB b Hb) as Hrb. unfold reaches in Hrb.
      destruct (end_ b); [|done]. by eapply lt_le_trans.
  - intros [[?|(b & Hb & Hk & _)]|[Hk|?]]; [tauto|..|done]; right; left.
    + eapply le_trans; [|exact Hk]. by apply H2.
    + by eapply le_trans.
Qed.

(** ... when a finite interval met an infinite one ... *)
Lemma joined_keys A B i e ns k :
  end_ i = Some e → le ns (start i) → (∀ k, le ns k ↔ (le (start i) k ∧ lt k e) ∨ inset k B) →
  inset k (A ++ [Interval_from ns]) ↔ inset k (A ++ B) ∨ mem k i ∨ swallowed (A ++ B) i k.
Proof.
  intros He Hns H.
  rewrite !(inset_app k A), inset_cons, (in_finite_interval k i e), (in_infinite_interval k (Interval_from ns))
    by done.
  pose proof (inset_nil k). pose proof (H k) as Hk. simpl. split; [tauto|].
  intros [[?|?]|[?|(j & e' & _ & _ & _ & _ & Hi)]]; [tauto..|]. right. left. by eapply le_trans.
Qed.

(** ... and when an infinite one lies beyond. *)
Lemma swallowing_keys A M C i e ns ne j k :
  end_ i = Some e → lt (start i) e → lt ns ne → le ns (start i) → le e ne →
  (∀ c, c ∈ C → lt ne (start c)) →
  (∀ k, (le ns k ∧ lt k ne) ↔ (le (start i) k ∧ lt k e) ∨ inset k M) →
  j ∈ C → end_ j = None →
  inset k (A ++ [Interval_from ns]) ↔ inset k (A ++ M ++ C) ∨ mem k i ∨ swallowed (A ++ M ++ C) i k.
Proof.
  intros He Hi Hn Hns Hne HC H Hj Ej.
  rewrite !(inset_app k A), inset_app, inset_cons, (in_finite_interval k i e),
    (in_infinite_interval k (Interval_from ns)) by done.
  pose proof (inset_nil k). pose proof (H k) as Hk. simpl. split.
  - intros [?|[Hm|?]]; [tauto| |done]. destruct (lt_dec k ne) as [Hkn|Hkn]; [tauto|].
    right. right. exists j, e. split; [set_solver|]. split; [done|]. split; [done|].
    split; [by eapply le_lt_trans; [|by apply HC]|].
    apply lt_le. eapply lt_le_trans; [exact Hi|]. by eapply le_trans.
  - intros [[?|[HM|(c & Hc' & Hm & _)]]|[Hmi|(j' & e' & _ & _ & _ & _ & Hm)]]; [tauto|..]; right; left.
    + apply H. by right.
    + apply lt_le. eapply lt_trans; [exact Hn|]. eapply lt_le_trans; [by apply HC|done].
    + apply H. by left.
    + by eapply le_trans.
Qed.

Lemma existsb_infinite C :
  existsb (λ x, negb (has_end x)) C = true → ∃ j, j ∈ C ∧ end_ j = None.
Proof.
  intros (j & Hj%list_elem_of_In & Ej)%existsb_exists. exists j. split; [done|].
  unfold has_end in Ej. by destruct (end_ j).
Qed.

Lemma existsb_finite C x : existsb (λ x, negb (has_end x)) C = false → x ∈ C → has_end x = true.
Proof.
  intros HC Hx. destruct (has_end x) eqn:E; [done|]. exfalso. apply not_true_iff_false in HC. apply HC.
  apply existsb_exists. exists x. split; [by apply list_elem_of_In|by rewrite E].
Qed.

Definition all_finite l : Prop := ∀ x, x ∈ l → has_end x = true.

Lemma all_finite_app A B : all_finite (A ++ B) ↔ all_finite A ∧ all_finite B.
Proof. unfold all_finite. setoid_rewrite elem_of_app. naive_solver. Qed.

Lemma infinite_not_all_finite l j : j ∈ l → end_ j = None → ¬ all_finite l.
Proof. intros Hj Ej H. apply H in Hj. unfold has_end in Hj. by rewrite Ej in Hj. Qed.

Lemma all_finite_none l i k : all_finite l → ¬ swallowed l i k.
Proof. intros H (j & e & Hj & Ej & _). apply H in Hj. unfold has_end in Hj. by rewrite Ej in Hj. Qed.

(** What every insertion into a good set does. *)
Definition inserted (l : list (Interval K)) (i : Interval K) : Prop :=
  ∃ l', insertImpl Compare false l i = (l', true) ∧ set_ok l' ∧
    (∀ k, inset k l' ↔ inset k l ∨ mem k i ∨ swallowed l i k) ∧
    (all_finite l → has_end i = true → all_finite l').

Lemma insert_infinite_spec l i : set_ok l → end_ i = None → inserted l i.
Proof.
  intros Hl He. unfold inserted, insertImpl. rewrite He.
  destruct (touched_from_spec l i Hl) as (A & B & -> & -> & HA & HB).
  rewrite drop_app_length, take_app_length. apply set_ok_app in Hl as (HlA & HlB & HAB).
  destruct (merge_all_spec B (start i)) as (r & -> & H1 & H2 & H3). rewrite andb_false_r.
  destruct (insert_at_end A (Interval_from r)) as [-> Hok]; [done|done|..].
  { intros a Ha. apply (starts_after A B a r i); [done|done|done|].
    destruct H3 as [-> |(b & Hb & -> & _)]; [by left|right; by exists b]. }
  eexists. split; [done|]. split; [exact Hok|]. split.
  - intros k. by apply absorbed_keys.
  - intros _ Hi. unfold has_end in Hi. by rewrite He in Hi.
Qed.

Lemma insert_finite_spec l i e : set_ok l → end_ i = Some e → lt (start i) e → inserted l i.
Proof.
  intros Hl He Hi. unfold inserted, insertImpl.
  rewrite He, (bool_decide_false (0 <= _)) by (unfold lt in Hi; lia).
  destruct (touched_from_spec l i Hl) as (A & B & -> & -> & HA & HB).
  rewrite drop_app_length, take_app_length. apply set_ok_app in Hl as (HlA & HlB & HAB).
  destruct (merge_spec (length (A ++ B)) B (length A) (start i) e HlB Hi HB)
    as (M & C & ns & ne & inf & -> & -> & H1 & H2 & H3 & H4 & H5 & H6).
  assert (drop (length A + length M) (A ++ M ++ C) = C) as Hdrop.
  { by rewrite drop_app_add, drop_app_length. }
  rewrite Hdrop. pose proof HlB as (HlM & HlC & HMC)%set_ok_app.
  assert (∀ a, a ∈ A → ∃ e, end_ a = Some e ∧ lt e ns) as HAns.
  { intros a Ha. by apply (starts_after A (M ++ C) a ns i). }
  destruct (insert_at_end A (Interval_from ns)) as [Eend Hend]; [done|done|done|].
  destruct inf; destruct H6 as [H6 H7].
  - destruct H6 as (x & -> & Hx).
    replace (existsb _ [x]) with true by (simpl; unfold has_end; by rewrite Hx).
    cbn beta iota zeta. rewrite drop_ge, app_nil_r by done. simpl orb. cbn iota. rewrite Eend.
    eexists. split; [done|]. split; [exact Hend|]. split; [intros k; by apply (joined_keys A _ i e)|].
    intros []%(infinite_not_all_finite _ x); [set_solver|done].
  - destruct (existsb (λ x, negb (has_end x)) C) eqn:Hex; cbn beta iota zeta; simpl orb; cbn iota.
    + rewrite drop_ge, app_nil_r, Eend by done. apply existsb_infinite in Hex as (j & Hj & Ej).
      eexists. split; [done|]. split; [exact Hend|].
      split; [intros k; by apply (swallowing_keys A M C i e ns ne j)|].
      intros []%(infinite_not_all_finite _ j); [set_solver|done].
    + rewrite Hdrop. destruct (insert_between A C (mkInterval ns (Some ne))) as [-> Hok]; [done..| | |].
      { intros c Hc'. exists ne. split; [done|]. by apply H6. }
      { intros a c Ha Hc'. apply HAB; [done|]. set_solver. }
      assert (all_finite (A ++ M ++ C)) as Hfin.
      { intros x [Hx|[Hx|Hx]%elem_of_app]%elem_of_app; [|by apply H4|by eapply existsb_finite].
        destruct (HAns x Hx) as (e0 & E0 & _). unfold has_end. by rewrite E0. }
      eexists. split; [done|]. split; [exact Hok|]. split.
      * intros k. pose proof (all_finite_none (A ++ M ++ C) i k Hfin).
        rewrite !(inset_app k A), inset_cons, inset_app, (in_finite_interval k i e),
          (in_finite_interval k _ ne) by done. simpl. rewrite H7. tauto.
      * intros _ _ x [Hx|[-> |Hx]%elem_of_cons]%elem_of_app; [|done|]; apply Hfin; set_solver.
Qed.

Lemma insertImpl_spec l i : set_ok l → proper i → inserted l i.
Proof.
  intros Hl Hi. unfold proper in Hi. destruct (end_ i) as [e|] eqn:He.
  - by apply (insert_finite_spec l i e).
  - by apply insert_infinite_spec.
Qed.

(** ** Sets built by insertions *)

(** [insert] for each interval of a list, from the empty set. *)
Definition insert_all (ranges : list (Interval K)) : list (Interval K) :=
  fold_left (λ l i, (insertImpl Compare false l i).1) ranges [].

Lemma insert_from_spec l ranges :
  set_ok l → all_finite l → Forall proper ranges → all_finite ranges →
  let l' := fold_left (λ l i, (insertImpl Compare false l i).1) ranges l in
  set_ok l' ∧ all_finite l' ∧ ∀ k, inset k l' ↔ inset k l ∨ inset k ranges.
Proof.
  revert l. induction ranges as [|i ranges IH]; intros l Hl Hf Hp Hr; cbn zeta; simpl fold_left.
  { split; [done|]. split; [done|]. intros k. pose proof (inset_nil k). tauto. }
  apply Forall_cons in Hp as [Hi Hp]. assert (has_end i = true) as Hh by (apply Hr; set_solver).
  destruct (insertImpl_spec l i Hl Hi) as (l1 & E & Hok & Hk & Hf1). rewrite E. cbn [fst].
  destruct (IH l1 Hok (Hf1 Hf Hh) Hp) as (H1 & H2 & H3); [intros x Hx; apply Hr; set_solver|].
  split; [done|]. split; [done|]. intros k. rewrite H3, Hk, inset_cons.
  pose proof (all_finite_none l i k Hf). tauto.
Qed.

(** Inserting into a good interval set always succeeds and leaves a good one (sorted, apart,
    no interval empty).  The keys it covers afterwards are those it covered and those of the new
    interval; and, when the set holds an infinite interval beyond a finite new one, every key from
    the new interval's start on, the gap between the two included. *)
Theorem insert_covers_the_interval l i :
  set_ok l → proper i →
  ∃ l', insertImpl Compare false l i = (l', true) ∧ set_ok l' ∧
    ∀ k, inset k l' ↔ inset k l ∨ mem k i ∨ swallowed l i k.
Proof.
  intros Hl Hi. destruct (insertImpl_spec l i Hl Hi) as (l' & H1 & H2 & H3 & _). by exists l'.
Qed.

(** C19. A set built by inserting finite ranges, in any order and however they overlap, holds
    disjoint, non-touching, sorted intervals that cover exactly the union of the ranges. *)
Theorem interval_set_is_the_union ranges :
  Forall proper ranges → (∀ i, i ∈ ranges → has_end i = true) →
  set_ok (insert_all ranges) ∧ ∀ k, inset k (insert_all ranges) ↔ ∃ i, i ∈ ranges ∧ mem k i.
Proof.
  intros Hp Hf. destruct (insert_from_spec [] ranges) as (H1 & _ & H3); [by repeat constructor|..|done|done|].
  - intros ? []%elem_of_nil.
  - split; [done|]. intros k. unfold insert_all. rewrite H3. pose proof (inset_nil k). unfold inset. tauto.
Qed.

(** A range that is empty or reversed is not inserted. *)
Lemma empty_range_refused prop l i e :
  end_ i = Some e → le e (start i) → insertImpl Compare prop l i = (l, false).
Proof. intros He H. unfold insertImpl. rewrite He, bool_decide_true; [done|]. by apply ge_compare. Qed.

(** A set told to fail on intersections is left alone when it refuses. *)
Lemma refused_unchanged prop l i l' : insertImpl Compare prop l i = (l', false) → l' = l.
Proof.
  unfold insertImpl. intros H. destruct (end_ i) as [e|].
  - case_bool_decide; [by injection H|]. destruct (touched_from _ _ _ _); [|by injection H].
    by destruct (merge _ _ _ _ _ _) as [[[[]]]].
  - destruct (touched_from _ _ _ _); [|by injection H]. destruct (merge_all _ _ _ _); [|by injection H].
    destruct (_ && _); [by injection H|done].
Qed.
End Spec.

(** ** On integers *)

Lemma zcompare_ok : comparator_ok zcompare.
Proof. unfold comparator_ok, zcompare. split; lia. Qed.

Lemma insert_covers_the_interval_witness :
  comparator_ok zcompare ∧ set_ok zcompare [mkInterval 5 (Some 6); mkInterval 10 None] ∧
  ∃ l', insertImpl zcompare false [mkInterval 5 (Some 6); mkInterval 10 None] (mkInterval 1 (Some 2)) = (l', true) ∧
    set_ok zcompare l' ∧
    ∀ k, inset zcompare k l' ↔ inset zcompare k [mkInterval 5 (Some 6); mkInterval 10 None] ∨
      mem zcompare k (mkInterval 1 (Some 2)) ∨
      swallowed zcompare [mkInterval 5 (Some 6); mkInterval 10 None] (mkInterval 1 (Some 2)) k.
Proof.
  assert (set_ok zcompare [mkInterval 5 (Some 6); mkInterval 10 None]) as Hok.
  { split; repeat constructor; by exists 6. }
  split; [exact zcompare_ok|]. split; [exact Hok|].
  apply (insert_covers_the_interval zcompare zcompare_ok _ _ Hok). done.
Defined.

Lemma interval_set_is_the_union_witness :
  insert_all zcompare [mkInterval 5 (Some 7); mkInterval 1 (Some 3); mkInterval 3 (Some 6)] =
    [mkInterval 1 (Some 7)] ∧
  set_ok zcompare (insert_all zcompare [mkInterval 5 (Some 7); mkInterval 1 (Some 3); mkInterval 3 (Some 6)]) ∧
  ∀ k, inset zcompare k
         (insert_all zcompare [mkInterval 5 (Some 7); mkInterval 1 (Some 3); mkInterval 3 (Some 6)]) ↔
    ∃ i, i ∈ [mkInterval 5 (Some 7); mkInterval 1 (Some 3); mkInterval 3 (Some 6)] ∧ mem zcompare k i.
Proof.
  split; [by vm_compute|]. apply (interval_set_is_the_union zcompare zcompare_ok).
  - by repeat constructor.
  - intros i Hi. repeat (apply elem_of_cons in Hi as [-> |Hi]; [done|]). by apply elem_of_nil in Hi.
Defined.
