(* ===== verification/OptionsType.v ===== *)
(** Options as text (include/rocksdb/utilities/options_type.h, and [ConfigOptions] of
    include/rocksdb/convenience.h): the description of one option, [OptionTypeInfo], with its
    flags; and the code of the header that turns options into text and back: enumerations,
    vectors, arrays and maps of strings.  What the header only declares ([NextToken], [Parse],
    [Serialize], ...) is the class [OptionsCode]; its documented behaviour is in OptionsSpec.v. *)
From stdpp Require Import sorting.
From S2P Require Import Prelude Slice RocksStatus.

Local Open Scope Z_scope.

Definition lbrace : byte := Byte.x7b.
Definition rbrace : byte := Byte.x7d.
Definition equals_sign : byte := Byte.x3d.

(** ** [ConfigOptions] *)

Definition SanityLevel : Type := Z.
Definition kSanityLevelNone : SanityLevel := 1.
Definition kSanityLevelLooselyCompatible : SanityLevel := 2.
Definition kSanityLevelExactMatch : SanityLevel := 255.

Inductive Depth := kDepthDefault | kDepthShallow | kDepthDetailed.
#[export] Instance Depth_eq_dec : EqDecision Depth.
Proof. solve_decision. Defined.

(** Without the pointers to the environment and the object registry. *)
Record ConfigOptions := mkConfigOptions {
  ignore_unknown_options : bool;
  ignore_unsupported_options : bool;
  input_strings_escaped : bool;
  invoke_prepare_options : bool;
  mutable_options_only : bool;
  delimiter : list byte;
  depth : Depth;
  sanity_level : SanityLevel;
  file_readahead_size : Z;
}.

Definition new_ConfigOptions : ConfigOptions :=
  mkConfigOptions false true true true false (str ";") kDepthDefault kSanityLevelExactMatch (512 * 1024).
Definition IsShallow (o : ConfigOptions) : bool := bool_decide (depth o = kDepthShallow).
Definition IsDetailed (o : ConfigOptions) : bool := bool_decide (depth o = kDepthDetailed).
Definition IsCheckDisabled (o : ConfigOptions) : bool := bool_decide (sanity_level o = kSanityLevelNone).
Definition IsCheckEnabled (o : ConfigOptions) (level : SanityLevel) : bool :=
  bool_decide (kSanityLevelNone < level) && bool_decide (level <= sanity_level o).

(** [ConfigOptions copy = ...; copy.x = ...] *)
Definition set_ignore_unsupported (b : bool) (o : ConfigOptions) : ConfigOptions :=
  mkConfigOptions (ignore_unknown_options o) b (input_strings_escaped o)
    (invoke_prepare_options o) (mutable_options_only o) (delimiter o) (depth o) (sanity_level o)
    (file_readahead_size o).
Definition set_delimiter (d : list byte) (o : ConfigOptions) : ConfigOptions :=
  mkConfigOptions (ignore_unknown_options o) (ignore_unsupported_options o)
    (input_strings_escaped o) (invoke_prepare_options o) (mutable_options_only o) d (depth o)
    (sanity_level o) (file_readahead_size o).

(** ** Kinds of options and their flags *)

Inductive OptionType :=
  | kBoolean | kInt | kInt32T | kInt64T | kUInt | kUInt8T | kUInt32T | kUInt64T | kSizeT | kDouble
  | kAtomicInt | kString | kCompactionStyle | kCompactionPri | kCompressionType
  | kCompactionStopStyle | kChecksumType | kEncodingType | kEnv | kEnum | kStruct | kVector
  | kConfigurable | kCustomizable | kEncodedString | kTemperature | kArray | kStringMap | kUnknown.
Inductive OptionVerificationType :=
  | kNormal | kByName | kByNameAllowNull | kByNameAllowFromNull | kDeprecated | kAlias.
#[export] Instance OptionType_eq_dec : EqDecision OptionType.
Proof. solve_decision. Defined.
#[export] Instance OptionVerificationType_eq_dec : EqDecision OptionVerificationType.
Proof. solve_decision. Defined.

(** [OptionTypeFlags : uint32_t] *)
Definition OptionTypeFlags : Type := Z.
Module Flags.
Definition kNone : OptionTypeFlags := 0x0.
Definition kCompareDefault : OptionTypeFlags := 0x0.
Definition kCompareNever : OptionTypeFlags := kSanityLevelNone.
Definition kCompareLoose : OptionTypeFlags := kSanityLevelLooselyCompatible.
Definition kCompareExact : OptionTypeFlags := kSanityLevelExactMatch.
Definition kMutable : OptionTypeFlags := 0x0100.
Definition kRawPointer : OptionTypeFlags := 0x0200.
Definition kShared : OptionTypeFlags := 0x0400.
Definition kUnique : OptionTypeFlags := 0x0800.
Definition kAllowNull : OptionTypeFlags := 0x1000.
Definition kDontSerialize : OptionTypeFlags := 0x2000.
Definition kDontPrepare : OptionTypeFlags := 0x4000.
Definition kStringNameOnly : OptionTypeFlags := 0x8000.
End Flags.
Definition flags_or (a b : OptionTypeFlags) : OptionTypeFlags := Z.lor a b.
Definition flags_and (a b : OptionTypeFlags) : OptionTypeFlags := Z.land a b.

(** ** Enumerations *)

Definition ParseEnum {T} (type_map : gmap (list byte) T) (type : list byte) (value : T) : bool * T :=
  match type_map !! type with
  | Some v => (true, v)
  | None => (false, value)
  end.

(** The loop over the pairs of the map. *)
Fixpoint serialize_enum_loop {T} `{EqDecision T} (pairs : list (list byte * T)) (type : T)
    (value : list byte) : bool * list byte :=
  match pairs with
  | [] => (false, value)
  | (name, v) :: pairs' =>
      if decide (v = type) then (true, name) else serialize_enum_loop pairs' type value
  end.

(** ** [OptionTypeInfo] *)

(** The functions on [void*] get and give the object the pointer addresses: an option of type
    [T].  [Parse] may stop at an assertion. *)
Definition ParseFunc (T : Type) : Type :=
  ConfigOptions → list byte → list byte → T → outcome (Status * T).
Definition SerializeFunc (T : Type) : Type :=
  ConfigOptions → list byte → T → list byte → outcome (Status * list byte).
Definition EqualsFunc (T : Type) : Type :=
  ConfigOptions → list byte → T → T → list byte → bool * list byte.
Definition PrepareFunc (T : Type) : Type := ConfigOptions → list byte → T → Status * T.

(** A validation function looks at the options of the whole database; which one it is does not
    matter here, only whether there is one. *)
Record OptionTypeInfo (T : Type) := mkOptionTypeInfo {
  offset_ : Z;
  parse_func_ : option (ParseFunc T);
  serialize_func_ : option (SerializeFunc T);
  equals_func_ : option (EqualsFunc T);
  prepare_func_ : option (PrepareFunc T);
  validate_func_ : bool;
  type_ : OptionType;
  verification_ : OptionVerificationType;
  flags_ : OptionTypeFlags;
}.
Arguments mkOptionTypeInfo {T}.
Arguments offset_ {T}.
Arguments parse_func_ {T}.
Arguments serialize_func_ {T}.
Arguments equals_func_ {T}.
Arguments prepare_func_ {T}.
Arguments validate_func_ {T}.
Arguments type_ {T}.
Arguments verification_ {T}.
Arguments flags_ {T}.

Definition new_OptionTypeInfo {T} (offset : Z) (type : OptionType)
    (verification : OptionVerificationType) (flags : OptionTypeFlags)
    (parse_func : option (ParseFunc T)) (serialize_func : option (SerializeFunc T))
    (equals_func : option (EqualsFunc T)) : OptionTypeInfo T :=
  mkOptionTypeInfo offset parse_func serialize_func equals_func None false type verification flags.

Section OptionTypeInfo.
Context {T : Type}.
Implicit Types (info : OptionTypeInfo T).

Definition SetParseFunc (f : ParseFunc T) info : OptionTypeInfo T :=
  mkOptionTypeInfo (offset_ info) (Some f) (serialize_func_ info) (equals_func_ info)
    (prepare_func_ info) (validate_func_ info) (type_ info) (verification_ info) (flags_ info).
Definition SetSerializeFunc (f : SerializeFunc T) info : OptionTypeInfo T :=
  mkOptionTypeInfo (offset_ info) (parse_func_ info) (Some f) (equals_func_ info)
    (prepare_func_ info) (validate_func_ info) (type_ info) (verification_ info) (flags_ info).
Definition SetEqualsFunc (f : EqualsFunc T) info : OptionTypeInfo T :=
  mkOptionTypeInfo (offset_ info) (parse_func_ info) (serialize_func_ info) (Some f)
    (prepare_func_ info) (validate_func_ info) (type_ info) (verification_ info) (flags_ info).
Definition SetPrepareFunc (f : PrepareFunc T) info : OptionTypeInfo T :=
  mkOptionTypeInfo (offset_ info) (parse_func_ info) (serialize_func_ info) (equals_func_ info)
    (Some f) (validate_func_ info) (type_ info) (verification_ info) (flags_ info).
Definition SetValidateFunc info : OptionTypeInfo T :=
  mkOptionTypeInfo (offset_ info) (parse_func_ info) (serialize_func_ info) (equals_func_ info)
    (prepare_func_ info) true (type_ info) (verification_ info) (flags_ info).
Definition SetFlags (flags : OptionTypeFlags) info : OptionTypeInfo T :=
  mkOptionTypeInfo (offset_ info) (parse_func_ info) (serialize_func_ info) (equals_func_ info)
    (prepare_func_ info) (validate_func_ info) (type_ info) (verification_ info) flags.
Definition GetFlags info : OptionTypeFlags := flags_ info.
Definition GetType info : OptionType := type_ info.

(** [IsEnabled(OptionTypeFlags)] and [IsEnabled(OptionVerificationType)] *)
Definition IsEnabled (otf : OptionTypeFlags) info : bool :=
  bool_decide (flags_and (flags_ info) otf = otf).
Definition IsVerified (ovf : OptionVerificationType) info : bool :=
  bool_decide (verification_ info = ovf).

Definition IsMutable info : bool := IsEnabled Flags.kMutable info.
Definition IsEditable (opts : ConfigOptions) info : bool :=
  if mutable_options_only opts then IsMutable info else true.
Definition IsDeprecated info : bool := IsVerified kDeprecated info.
Definition IsAlias info : bool := IsVerified kAlias info.

Definition GetSanityLevel info : SanityLevel :=
  if IsDeprecated info || IsAlias info then kSanityLevelNone
  else
    let match_ := flags_and (flags_ info) Flags.kCompareExact in
    if bool_decide (match_ = Flags.kCompareDefault) then kSanityLevelExactMatch else match_.

Definition IsStruct info : bool := bool_decide (type_ info = kStruct).
Definition IsConfigurable info : bool :=
  bool_decide (type_ info = kConfigurable) || bool_decide (type_ info = kCustomizable).
Definition IsCustomizable info : bool := bool_decide (type_ info = kCustomizable).

Definition ShouldSerialize info : bool :=
  if IsDeprecated info || IsAlias info then false
  else if IsEnabled Flags.kDontSerialize info then false else true.
Definition ShouldPrepare info : bool :=
  if IsDeprecated info || IsAlias info then false
  else if IsEnabled Flags.kDontPrepare info then false
  else match prepare_func_ info with Some _ => true | None => IsConfigurable info end.
Definition ShouldValidate info : bool :=
  if IsDeprecated info || IsAlias info then false
  else validate_func_ info || IsConfigurable info.
Definition CanBeNull info : bool :=
  IsEnabled Flags.kAllowNull info || IsVerified kByNameAllowNull info
  || IsVerified kByNameAllowFromNull info.
Definition IsSharedPtr info : bool := IsEnabled Flags.kShared info.
Definition IsUniquePtr info : bool := IsEnabled Flags.kUnique info.
Definition IsRawPtr info : bool := IsEnabled Flags.kRawPointer info.
Definition IsByName info : bool :=
  IsVerified kByName info || IsVerified kByNameAllowNull info
  || IsVerified kByNameAllowFromNull info.

(** Addresses: [read] gives the object the pointer (unique, shared or raw) at an address holds. *)
Definition GetOffset (base : Z) info : Z := base + offset_ info.
Definition AsRawPointer (read : Z → option Z) (base_addr : option Z) info : option Z :=
  match base_addr with
  | None => None
  | Some base =>
      if IsUniquePtr info then read (GetOffset base info)
      else if IsSharedPtr info then read (GetOffset base info)
      else if IsRawPtr info then read (GetOffset base info)
      else Some (GetOffset base info)
  end.
End OptionTypeInfo.

(** ** What the header declares and does not define *)

Class OptionsCode := {
  (* Status(Code, SubCode, const Slice&, const Slice&, Severity) *)
  Status_msg : Code → SubCode → Slice → Slice → Severity → Status;
  (* the order in which an unordered_map is walked *)
  umap_walk : ∀ {V : Type}, gmap (list byte) V → list (list byte * V);
  (* NextToken(opts, delimiter, start, &end, &token); the end is [None] for npos *)
  NextToken : list byte → byte → nat → Status * option nat * list byte;
  (* the members of OptionTypeInfo *)
  Parse : ∀ {T : Type}, OptionTypeInfo T → ParseFunc T;
  Serialize : ∀ {T : Type}, OptionTypeInfo T → SerializeFunc T;
  AreEqual : ∀ {T : Type}, OptionTypeInfo T → EqualsFunc T;
  (* ParseStruct, SerializeStruct and StructsAreEqual, for a structure's name and its map *)
  struct_map : Type → Type;
  ParseStruct : ∀ {T : Type}, list byte → option (struct_map T) → ParseFunc T;
  SerializeStruct : ∀ {T : Type}, list byte → option (struct_map T) → SerializeFunc T;
  StructsAreEqual : ∀ {T : Type}, list byte → option (struct_map T) → EqualsFunc T;
  (* Slice::DecodeHex and Slice::ToString(true) *)
  DecodeHex : list byte → bool * list byte;
  ToString_hex : list byte → list byte;
}.

Section Code.
Context `{OptionsCode}.

(** [OptionTypeInfo::Enum]; [map] may be null *)
Definition SerializeEnum {T} `{EqDecision T} (type_map : gmap (list byte) T) (type : T)
    (value : list byte) : bool * list byte :=
  serialize_enum_loop (umap_walk type_map) type value.

Definition not_supported (msg : string) (msg2 : list byte) : Status :=
  NotSupported_msg Status_msg (Slice_of_string (str msg)) (Slice_of_string msg2).
Definition invalid_argument (msg : string) (msg2 : list byte) : Status :=
  InvalidArgument_msg Status_msg (Slice_of_string (str msg)) (Slice_of_string msg2).

Definition enum_parse {T} (map : option (gmap (list byte) T)) : ParseFunc T :=
  λ _ name value addr,
    match map with
    | None => Done (not_supported "No enum mapping " name, addr)
    | Some m =>
        let '(b, v) := ParseEnum m value addr in
        if (b : bool) then Done (OK, v)
        else Done (invalid_argument "No mapping for enum " name, v)
    end.
Definition enum_serialize {T} `{EqDecision T} (map : option (gmap (list byte) T)) : SerializeFunc T :=
  λ _ name addr value,
    match map with
    | None => Done (not_supported "No enum mapping " name, value)
    | Some m =>
        let '(b, v) := SerializeEnum m addr value in
        if (b : bool) then Done (OK, v)
        else Done (invalid_argument "No mapping for enum " name, v)
    end.
Definition enum_equals {T} `{EqDecision T} : EqualsFunc T :=
  λ _ _ addr1 addr2 mismatch, (bool_decide (addr1 = addr2), mismatch).
Definition Enum {T} `{EqDecision T} (offset : Z) (map : option (gmap (list byte) T))
    (flags : OptionTypeFlags) (verification : OptionVerificationType) : OptionTypeInfo T :=
  SetEqualsFunc enum_equals
    (SetSerializeFunc (enum_serialize map)
      (SetParseFunc (enum_parse map) (new_OptionTypeInfo offset kEnum verification flags None None None))).

(** [OptionTypeInfo::Struct] *)
Definition Struct {T} (struct_name : list byte) (map : option (struct_map T)) (offset : Z)
    (verification : OptionVerificationType) (flags : OptionTypeFlags) : OptionTypeInfo T :=
  SetEqualsFunc (StructsAreEqual struct_name map)
    (SetSerializeFunc (SerializeStruct struct_name map)
      (SetParseFunc (ParseStruct struct_name map)
        (new_OptionTypeInfo offset kStruct verification flags None None None))).
Definition Struct_with {T} (struct_name : list byte) (map : option (struct_map T)) (offset : Z)
    (verification : OptionVerificationType) (flags : OptionTypeFlags) (parse_func : ParseFunc T) :
    OptionTypeInfo T :=
  SetParseFunc parse_func (Struct struct_name map offset verification flags).

(** ** Vectors *)

(** [start = end + 1]; the loops stop at [npos] before they use it. *)
Definition next_start (end_ : option nat) : nat := match end_ with Some e => S e | None => O end.
Definition more (value : list byte) (start : nat) (end_ : option nat) : bool :=
  bool_decide (start < length value)%nat && match end_ with Some _ => true | None => false end.

Fixpoint parse_vector_loop {T} (fuel : nat) (elem0 : T) (config_options : ConfigOptions)
    (elem_info : OptionTypeInfo T) (separator : byte) (name value : list byte)
    (status : Status) (start : nat) (end_ : option nat) (result : list T) :
    outcome (Status * list T) :=
  match fuel with
  | O => Undef WaitsForever
  | S fuel' =>
      if ok status && more value start end_ then
        let copy := set_ignore_unsupported false config_options in
        let '(status, end_, token) := NextToken value separator start in
        '(status, result) ←
          (if ok status then
             '(status, elem) ← Parse elem_info copy name token elem0;
             if ok status then Done (status, result ++ [elem])
             else if ignore_unsupported_options config_options && IsNotSupported status
             then Done (OK, result) else Done (status, result)
           else Done (status, result));
        parse_vector_loop fuel' elem0 config_options elem_info separator name value status
          (next_start end_) end_ result
      else Done (status, result)
  end.

(** [elem0] is the new element [T elem;] each token is parsed into. *)
Definition ParseVector {T} (elem0 : T) (config_options : ConfigOptions)
    (elem_info : OptionTypeInfo T) (separator : byte) (name value : list byte) :
    outcome (Status * list T) :=
  parse_vector_loop (S (S (length value))) elem0 config_options elem_info separator name value
    default_Status O (Some O) [].

(** The text of one element within the text of the whole. *)
Definition protect (separator : byte) (elem_str : list byte) : list byte :=
  if bool_decide (separator ∈ elem_str) then lbrace :: elem_str ++ [rbrace] else elem_str.

Fixpoint serialize_loop {T} (embedded : ConfigOptions) (elem_info : OptionTypeInfo T)
    (separator : byte) (name : list byte) (vec : list T) (result : list byte) (printed : Z) :
    outcome (Status * list byte * Z) :=
  match vec with
  | [] => Done (OK, result, printed)
  | elem :: vec' =>
      '(s, elem_str) ← Serialize elem_info embedded name elem [];
      if negb (ok s) then Done (s, result, printed)
      else if bool_decide (elem_str ≠ []) then
        let result := if bool_decide (0 < printed) then result ++ [separator] else result in
        serialize_loop embedded elem_info separator name vec'
          (result ++ protect separator elem_str) (printed + 1)
      else serialize_loop embedded elem_info separator name vec' result printed
  end.

(** [result.at(0)] *)
Definition at_0 (s : list byte) : outcome byte :=
  match s with c :: _ => Done c | [] => Undef UncaughtException end.

(** The text of the whole, in braces where it needs them. *)
Definition wrap (result : list byte) (printed : Z) : outcome (list byte) :=
  if bool_decide (equals_sign ∈ result) then Done (lbrace :: result ++ [rbrace])
  else if bool_decide (1 < printed) then
    c ← at_0 result;
    if bool_decide (c = lbrace) then Done (lbrace :: result ++ [rbrace]) else Done result
  else Done result.

Definition SerializeVector {T} (config_options : ConfigOptions) (elem_info : OptionTypeInfo T)
    (separator : byte) (name : list byte) (vec : list T) (value : list byte) :
    outcome (Status * list byte) :=
  let embedded := set_delimiter (str ";") config_options in
  '(s, result, printed) ← serialize_loop embedded elem_info separator name vec [] 0;
  if negb (ok s) then Done (s, value)
  else value ← wrap result printed; Done (OK, value).

(** The loop over two sequences of one length. *)
Fixpoint elements_equal {T} (config_options : ConfigOptions) (elem_info : OptionTypeInfo T)
    (name : list byte) (vec1 vec2 : list T) (mismatch : list byte) : bool * list byte :=
  match vec1, vec2 with
  | x :: vec1', y :: vec2' =>
      let '(b, mismatch) := AreEqual elem_info config_options name x y mismatch in
      if (b : bool) then elements_equal config_options elem_info name vec1' vec2' mismatch
      else (false, mismatch)
  | _, _ => (true, mismatch)
  end.
Definition VectorsAreEqual {T} (config_options : ConfigOptions) (elem_info : OptionTypeInfo T)
    (name : list byte) (vec1 vec2 : list T) (mismatch : list byte) : bool * list byte :=
  if bool_decide (length vec1 ≠ length vec2) then (false, name)
  else elements_equal config_options elem_info name vec1 vec2 mismatch.

Definition Vector {T} (elem0 : T) (offset : Z) (verification : OptionVerificationType)
    (flags : OptionTypeFlags) (elem_info : OptionTypeInfo T) (separator : byte) :
    OptionTypeInfo (list T) :=
  SetEqualsFunc (λ opts name, VectorsAreEqual opts elem_info name)
    (SetSerializeFunc (λ opts name, SerializeVector opts elem_info separator name)
      (SetParseFunc (λ opts name value _, ParseVector elem0 opts elem_info separator name value)
        (new_OptionTypeInfo offset kVector verification flags None None None))).

(** ** Arrays of [kSize] elements *)

Fixpoint parse_array_loop {T} (fuel : nat) (kSize : nat) (config_options : ConfigOptions)
    (elem_info : OptionTypeInfo T) (separator : byte) (name value : list byte)
    (status : Status) (i start : nat) (end_ : option nat) (result : list T) :
    outcome (Status * nat * nat * option nat * list T) :=
  match fuel with
  | O => Undef WaitsForever
  | S fuel' =>
      if ok status && bool_decide (i < kSize)%nat && more value start end_ then
        let copy := set_ignore_unsupported false config_options in
        let '(status, end_, token) := NextToken value separator start in
        '(status, result) ←
          (if ok status then
             match result !! i with
             | Some elem =>
                 '(status, elem) ← Parse elem_info copy name token elem;
                 let result := <[i := elem]> result in
                 if ignore_unsupported_options config_options && IsNotSupported status
                 then Done (OK, result) else Done (status, result)
             | None => Undef OutOfBounds
             end
           else Done (status, result));
        parse_array_loop fuel' kSize config_options elem_info separator name value status
          (S i) (next_start end_) end_ result
      else Done (status, i, start, end_, result)
  end.

Definition ParseArray {T} (kSize : nat) (config_options : ConfigOptions)
    (elem_info : OptionTypeInfo T) (separator : byte) (name value : list byte) (result : list T) :
    outcome (Status * list T) :=
  '(status, i, start, end_, result) ←
    parse_array_loop (S (S (length value))) kSize config_options elem_info separator name value
      default_Status O O (Some O) result;
  if negb (ok status) then Done (status, result)
  else if bool_decide (i < kSize)%nat
  then Done (invalid_argument "Serialized value has less elements than array size" name, result)
  else if more value start end_
  then Done (invalid_argument "Serialized value has more elements than array size" name, result)
  else Done (status, result).

Definition SerializeArray {T} (config_options : ConfigOptions) (elem_info : OptionTypeInfo T)
    (separator : byte) (name : list byte) (array : list T) (value : list byte) :
    outcome (Status * list byte) :=
  let embedded := set_delimiter (str ";") config_options in
  '(s, result, printed) ← serialize_loop embedded elem_info separator name array [] 0;
  if negb (ok s) then Done (s, value)
  else value ← wrap result printed; Done (OK, value).

Definition ArraysAreEqual {T} (kSize : nat) (config_options : ConfigOptions)
    (elem_info : OptionTypeInfo T) (name : list byte) (array1 array2 : list T)
    (mismatch : list byte) : outcome (bool * list byte) :=
  assert_that (bool_decide (length array1 = kSize)) ≫= λ _,
  assert_that (bool_decide (length array2 = kSize)) ≫= λ _,
  Done (elements_equal config_options elem_info name array1 array2 mismatch).

(** The assertions hold of every [std::array<T, kSize>]. *)
Definition Array {T} (kSize : nat) (offset : Z) (verification : OptionVerificationType)
    (flags : OptionTypeFlags) (elem_info : OptionTypeInfo T) (separator : byte) :
    OptionTypeInfo (list T) :=
  SetEqualsFunc (λ opts name array1 array2 mismatch,
      match ArraysAreEqual kSize opts elem_info name array1 array2 mismatch with
      | Done r => r | Undef _ => (false, mismatch) end)
    (SetSerializeFunc (λ opts name, SerializeArray opts elem_info separator name)
      (SetParseFunc (λ opts name value result, ParseArray kSize opts elem_info separator name value result)
        (new_OptionTypeInfo offset kArray verification flags None None None))).

(** ** Maps of strings *)

(** [std::map] is walked in the order of its keys. *)
Definition key_le (a b : list byte * list byte) : Prop := lex a.1 b.1 ≠ Gt.
#[export] Instance key_le_dec a b : Decision (key_le a b).
Proof. unfold key_le. apply _. Defined.
Definition map_walk (m : gmap (list byte) (list byte)) : list (list byte * list byte) :=
  merge_sort key_le (map_to_list m).

(** [token.substr(0, pos)] and [token.substr(pos + 1)] for [pos = token.find(kv_separator)] *)
Fixpoint split_at_first (c : byte) (token : list byte) : option (list byte * list byte) :=
  match token with
  | [] => None
  | x :: token' =>
      if decide (x = c) then Some ([], token')
      else kv ← split_at_first c token'; Some (x :: kv.1, kv.2)
  end.

Fixpoint parse_map_loop (fuel : nat) (kv_separator item_separator : byte) (value : list byte)
    (s : Status) (start : nat) (end_ : option nat) (map : gmap (list byte) (list byte)) :
    outcome (Status * gmap (list byte) (list byte)) :=
  match fuel with
  | O => Undef WaitsForever
  | S fuel' =>
      if ok s && more value start end_ then
        let '(s, end_, token) := NextToken value item_separator start in
        map ←
          (if ok s && bool_decide (token ≠ []) then
             match split_at_first kv_separator token with
             | None => Undef AssertFailed
             | Some (k, v) =>
                 let decoded_key := (DecodeHex k).2 in
                 let decoded_value := (DecodeHex v).2 in
                 (* emplace keeps what is there *)
                 Done (match map !! decoded_key with
                       | Some _ => map
                       | None => <[decoded_key := decoded_value]> map
                       end)
             end
           else Done map);
        parse_map_loop fuel' kv_separator item_separator value s (next_start end_) end_ map
      else Done (s, map)
  end.
Definition string_map_parse (kv_separator item_separator : byte) :
    ParseFunc (gmap (list byte) (list byte)) :=
  λ _ _ value addr,
    '(s, map) ← parse_map_loop (S (S (length value))) kv_separator item_separator value
      default_Status O (Some O) ∅;
    Done (s, if ok s then map else addr).

Fixpoint string_map_entries (kv_separator item_separator : byte)
    (entries : list (list byte * list byte)) : list byte :=
  match entries with
  | [] => []
  | (k, v) :: entries' =>
      ToString_hex k ++ kv_separator :: ToString_hex v ++
        item_separator :: string_map_entries kv_separator item_separator entries'
  end.
Definition string_map_serialize (kv_separator item_separator : byte) :
    SerializeFunc (gmap (list byte) (list byte)) :=
  λ _ _ addr value,
    Done (OK, value ++ lbrace ::
      string_map_entries kv_separator item_separator (map_walk addr) ++ [rbrace]).
Definition string_map_equals : EqualsFunc (gmap (list byte) (list byte)) :=
  λ _ _ addr1 addr2 mismatch, (bool_decide (addr1 = addr2), mismatch).

Definition StringMap (offset : Z) (verification : OptionVerificationType)
    (flags : OptionTypeFlags) (kv_separator item_separator : byte) :
    OptionTypeInfo (gmap (list byte) (list byte)) :=
  SetEqualsFunc string_map_equals
    (SetSerializeFunc (string_map_serialize kv_separator item_separator)
      (SetParseFunc (string_map_parse kv_separator item_separator)
        (new_OptionTypeInfo offset kStringMap verification flags None None None))).

(** ** Customizable objects *)

Definition kIdPropName : list byte := str "id".
Definition kIdPropSuffix : list byte := str ".id".

Section Customizable.
(** [T::CreateFromString], on a pointer to an object: a shared, unique or raw one. *)
Context {P : Type} (CreateFromString : ConfigOptions → list byte → option P → Status * option P).

Definition custom_parse : ParseFunc (option P) :=
  λ opts name value addr,
    if bool_decide (name = kIdPropName) && bool_decide (value = []) then Done (OK, None)
    else Done (CreateFromString opts value addr).
Definition AsCustomSharedPtr (offset : Z) (ovt : OptionVerificationType) (flags : OptionTypeFlags)
    (serialize_func : option (SerializeFunc (option P)))
    (equals_func : option (EqualsFunc (option P))) : OptionTypeInfo (option P) :=
  new_OptionTypeInfo offset kCustomizable ovt (flags_or flags Flags.kShared) (Some custom_parse)
    serialize_func equals_func.
Definition AsCustomUniquePtr (offset : Z) (ovt : OptionVerificationType) (flags : OptionTypeFlags) :
    OptionTypeInfo (option P) :=
  SetParseFunc custom_parse
    (new_OptionTypeInfo offset kCustomizable ovt (flags_or flags Flags.kUnique) None None None).
Definition AsCustomUniquePtr_with (offset : Z) (ovt : OptionVerificationType)
    (flags : OptionTypeFlags) (serialize_func : SerializeFunc (option P))
    (equals_func : EqualsFunc (option P)) : OptionTypeInfo (option P) :=
  SetEqualsFunc equals_func
    (SetSerializeFunc serialize_func (AsCustomUniquePtr offset ovt flags)).
Definition AsCustomRawPtr (offset : Z) (ovt : OptionVerificationType) (flags : OptionTypeFlags) :
    OptionTypeInfo (option P) :=
  SetParseFunc custom_parse
    (new_OptionTypeInfo offset kCustomizable ovt (flags_or flags Flags.kRawPointer) None None None).
Definition AsCustomRawPtr_with (offset : Z) (ovt : OptionVerificationType)
    (flags : OptionTypeFlags) (serialize_func : SerializeFunc (option P))
    (equals_func : EqualsFunc (option P)) : OptionTypeInfo (option P) :=
  SetEqualsFunc equals_func (SetSerializeFunc serialize_func (AsCustomRawPtr offset ovt flags)).
End Customizable.
End Code.
