(* ===== verification/OptionsSpec.v ===== *)
(** Options read back from their text (OptionsType.v): what the declared parts are documented to
    do, [OptionsLaws], and the theorems on enumerations, vectors, arrays and maps of strings. *)
From stdpp Require Import sorting.
From S2P Require Import Prelude Slice RocksStatus OptionsType.

Local Open Scope Z_scope.

(** ** Texts *)

(** [isspace] *)
Definition is_space (c : byte) : bool :=
  bool_decide (byte_val c = 32) || (bool_decide (9 <= byte_val c) && bool_decide (byte_val c <= 13)).
Definition not_space (c : option byte) : Prop :=
  match c with Some c => is_space c = false | None => True end.
(** No blanks at either end *)
Definition trimmed (l : list byte) : Prop := not_space (head l) ∧ not_space (last l).

(** How many braces are open after a text; [None] when one is closed that was not open. *)
Fixpoint depth_after (n : nat) (l : list byte) : option nat :=
  match l with
  | [] => Some n
  | c :: l' =>
      if decide (c = lbrace) then depth_after (S n) l'
      else if decide (c = rbrace) then match n with O => None | S m => depth_after m l' end
      else depth_after n l'
  end.
Definition balanced (l : list byte) : Prop := depth_after 0 l = Some O.

(** A token that ends at the next delimiter. *)
Definition plain_token (d : byte) (tok : list byte) : Prop :=
  tok ≠ [] ∧ trimmed tok ∧ head tok ≠ Some lbrace ∧ d ∉ tok.
Definition at_end (e : option nat) (l : list byte) : Prop :=
  match e with Some n => (length l <= n)%nat | None => True end.

Definition semicolon : byte := Byte.x3b.
(** A character that separates and does nothing else. *)
Definition separator_ok (c : byte) : Prop :=
  c ≠ lbrace ∧ c ≠ rbrace ∧ is_space c = false.
Definition is_hex (c : byte) : bool :=
  let x := byte_val c in
  (bool_decide (48 <= x) && bool_decide (x <= 57)) || (bool_decide (65 <= x) && bool_decide (x <= 70)).

(** ** The documented behaviour of what the header only declares *)

Class OptionsLaws `{OptionsCode} : Prop := {
  umap_walk_perm {V} (m : gmap (list byte) V) : umap_walk m ≡ₚ map_to_list m;
  Status_msg_code c sc a b sev : code (Status_msg c sc a b sev) = c;
  (* the next token stops at the delimiter, or at the end of the text; a text in braces is one
     token, without them, and delimiters in it do not count *)
  next_plain pre tok rest d : plain_token d tok →
    NextToken (pre ++ tok ++ d :: rest) d (length pre) = (OK, Some (length pre + length tok)%nat, tok);
  next_plain_last pre tok d : plain_token d tok →
    ∃ e, NextToken (pre ++ tok) d (length pre) = (OK, e, tok) ∧ at_end e (pre ++ tok);
  next_braced pre tok rest d : trimmed tok → balanced tok →
    NextToken (pre ++ lbrace :: tok ++ rbrace :: d :: rest) d (length pre) =
      (OK, Some (length pre + length tok + 2)%nat, tok);
  next_braced_last pre tok d : trimmed tok → balanced tok →
    ∃ e, NextToken (pre ++ lbrace :: tok ++ [rbrace]) d (length pre) = (OK, e, tok) ∧
      at_end e (pre ++ lbrace :: tok ++ [rbrace]);
  next_forward opts d start st e tok :
    NextToken opts d start = (st, Some e, tok) → ok st = true → (start <= e)%nat;
  (* hexadecimal text, two digits for each byte *)
  DecodeHex_ToString s : DecodeHex (ToString_hex s) = (true, s);
  ToString_hex_digits s c : c ∈ ToString_hex s → is_hex c = true;
}.

(** ** Lemmas on texts *)

Lemma depth_after_app n a b :
  depth_after n (a ++ b) = match depth_after n a with Some m => depth_after m b | None => None end.
Proof.
  revert n. induction a as [|c a IH]; intros n; simpl; [done|].
  case_decide; [apply IH|]. case_decide; [|apply IH]. destruct n; [done|apply IH].
Qed.

Lemma depth_after_shift k n m l : depth_after n l = Some m → depth_after (n + k) l = Some (m + k)%nat.
Proof.
  revert n. induction l as [|c l IH]; intros n; simpl; [intros [= ->]; done|].
  case_decide; [apply (IH (S n))|]. case_decide; [|apply IH]. destruct n as [|n]; [done|]. apply IH.
Qed.

Lemma balanced_app a b : balanced a → balanced b → balanced (a ++ b).
Proof. unfold balanced. intros Ha Hb. by rewrite depth_after_app, Ha. Qed.

Lemma balanced_braces a : balanced a → balanced (lbrace :: a ++ [rbrace]).
Proof.
  unfold balanced. intros Ha. cbn [depth_after]. rewrite decide_True by done.
  rewrite depth_after_app, (depth_after_shift 1 0 0) by done. done.
Qed.

Lemma balanced_sep c a : separator_ok c → balanced a → balanced (c :: a).
Proof.
  intros (H1 & H2 & _) Ha. unfold balanced. cbn [depth_after].
  by rewrite decide_False, decide_False by done.
Qed.

Lemma no_braces_balanced l : (∀ c, c ∈ l → c ≠ lbrace ∧ c ≠ rbrace) → balanced l.
Proof.
  unfold balanced. induction l as [|c l IH]; intros H; [done|]. cbn [depth_after].
  destruct (H c (list_elem_of_here _ _)). rewrite decide_False, decide_False by done.
  apply IH. intros x Hx. apply H. by apply list_elem_of_further.
Qed.

Lemma trimmed_app a b : a ≠ [] → b ≠ [] → trimmed a → trimmed b → trimmed (a ++ b).
Proof.
  intros Ha Hb [Ha1 _] [_ Hb2]. split; [by destruct a|].
  rewrite last_app. destruct b as [|x b] using rev_ind; [done|]. by rewrite last_snoc in *.
Qed.

Lemma trimmed_braces a : trimmed (lbrace :: a ++ [rbrace]).
Proof. split; [done|]. rewrite app_comm_cons, last_snoc. done. Qed.

Lemma no_space_trimmed l : (∀ c, c ∈ l → is_space c = false) → trimmed l.
Proof.
  intros H. split.
  - destruct l as [|c l]; [done|]. apply H, list_elem_of_here.
  - destruct l as [|c l] using rev_ind; [done|]. rewrite last_snoc. apply H. set_solver.
Qed.

Lemma trimmed_cons_sep c a : is_space c = false → a ≠ [] → trimmed a → trimmed (c :: a).
Proof.
  intros Hc Ha Ht. apply (trimmed_app [c] a); [done|done| |done]. split; done.
Qed.

(** ** The tokens of a text, as the loops take them *)

Section Spec.
Context `{OL : OptionsLaws}.

Inductive tokens (d : byte) (value : list byte) : nat → option nat → list (list byte) → Prop :=
  | tokens_end start e : more value start e = false → tokens d value start e []
  | tokens_next start e0 e tok toks : more value start e0 = true →
      NextToken value d start = (OK, e, tok) → tokens d value (next_start e) e toks →
      tokens d value start e0 (tok :: toks).

Lemma more_true value start e : more value start e = true → (start < length value)%nat.
Proof. unfold more. intros [Hm _]%andb_true_iff. by apply bool_decide_eq_true in Hm. Qed.

Lemma tokens_length d value start e toks :
  tokens d value start e toks → (length toks <= length value - start)%nat.
Proof.
  induction 1 as [|start e0 e tok toks Hm HN Ht IH]; simpl; [lia|].
  apply more_true in Hm. destruct e as [n|]; simpl in *.
  - apply next_forward in HN; [|done]. lia.
  - inversion Ht as [|? ? ? ? ? Hm']; subst; simpl; [lia|]. unfold more in Hm'.
    by rewrite andb_false_r in Hm'.
Qed.

Lemma tokens_at_end d value e : at_end e value → tokens d value (next_start e) e [].
Proof.
  intros He. apply tokens_end. unfold more. destruct e as [n|]; simpl in *; [|by rewrite andb_false_r].
  rewrite bool_decide_false; [done|lia].
Qed.

(** The pieces of a text, separated. *)
Definition joined (sep : byte) (pieces : list (list byte)) : list byte :=
  match pieces with
  | [] => []
  | t :: pieces => t ++ concat ((λ t, sep :: t) <$> pieces)
  end.

(** What the text of an element must be like for the text of the whole to be read back. *)
Record elem_text (sep : byte) (t : list byte) : Prop := {
  et_nonempty : t ≠ [];
  et_trimmed : trimmed t;
  et_balanced : balanced t;
  et_head : head t ≠ Some lbrace;
  et_semicolon : semicolon ∈ t → equals_sign ∈ t;
}.

Lemma protect_plain sep t : sep ∉ t → protect sep t = t.
Proof. intros Ht. unfold protect. by rewrite bool_decide_false. Qed.
Lemma protect_braced sep t : sep ∈ t → protect sep t = lbrace :: t ++ [rbrace].
Proof. intros Ht. unfold protect. by rewrite bool_decide_true. Qed.

Lemma elem_plain sep t : elem_text sep t → sep ∉ t → plain_token sep t.
Proof. intros [] ?. done. Qed.

Lemma next_protected sep t pre rest :
  elem_text sep t →
  NextToken (pre ++ protect sep t ++ sep :: rest) sep (length pre) =
    (OK, Some (length pre + length (protect sep t))%nat, t).
Proof.
  intros Ht. destruct (decide (sep ∈ t)) as [Hs|Hs].
  - rewrite protect_braced by done. pose proof Ht as [].
    replace (pre ++ (lbrace :: t ++ [rbrace]) ++ sep :: rest)
      with (pre ++ lbrace :: t ++ rbrace :: sep :: rest) by (by rewrite <- app_comm_cons, <- app_assoc).
    rewrite next_braced by done. simpl length. rewrite length_app. simpl length.
    do 3 f_equal. lia.
  - rewrite protect_plain by done. apply next_plain. by apply elem_plain.
Qed.

Lemma next_protected_last sep t pre :
  elem_text sep t →
  ∃ e, NextToken (pre ++ protect sep t) sep (length pre) = (OK, e, t) ∧
    at_end e (pre ++ protect sep t).
Proof.
  intros Ht. destruct (decide (sep ∈ t)) as [Hs|Hs].
  - rewrite protect_braced by done. destruct Ht. by apply next_braced_last.
  - rewrite protect_plain by done. apply next_plain_last. by apply elem_plain.
Qed.

Lemma protect_nonempty sep t : elem_text sep t → protect sep t ≠ [].
Proof. intros []. unfold protect. by case_bool_decide. Qed.

Lemma tokens_joined sep pre ts e0 :
  Forall (elem_text sep) ts → ts ≠ [] →
  tokens sep (pre ++ joined sep (protect sep <$> ts)) (length pre) (Some e0) ts.
Proof.
  revert pre e0. induction ts as [|t ts IH]; intros pre e0 Hts Hne; [done|].
  apply Forall_cons in Hts as [Ht Hts]. pose proof (protect_nonempty sep t Ht) as Hp.
  assert (∀ rest, more (pre ++ protect sep t ++ rest) (length pre) (Some e0) = true) as Hm.
  { intros rest. unfold more. rewrite bool_decide_true; [done|]. rewrite !length_app.
    destruct (protect sep t); [done|]. simpl. lia. }
  destruct ts as [|t2 ts].
  - simpl. rewrite app_nil_r. destruct (next_protected_last sep t pre Ht) as (e & E & He).
    eapply tokens_next; [|exact E|by apply tokens_at_end]. rewrite <- (app_nil_r (protect sep t)). apply Hm.
  - specialize (IH (pre ++ protect sep t ++ [sep]) (length pre + length (protect sep t))%nat Hts ltac:(done)).
    set (R := joined sep (protect sep <$> t2 :: ts)) in *.
    assert (joined sep (protect sep <$> t :: t2 :: ts) = protect sep t ++ sep :: R) as -> by done.
    eapply tokens_next; [apply Hm|by apply next_protected|].
    rewrite <- !app_assoc in IH. cbn [next_start]. simpl app in IH.
    replace (S (length pre + length (protect sep t))) with (length (pre ++ protect sep t ++ [sep])); [done|].
    rewrite !length_app. simpl. lia.
Qed.

(** ** The loops over tokens *)

Lemma ok_OK : ok OK = true.
Proof. done. Qed.
Lemma outcome_bind_done {A B} (a : A) (f : A → outcome B) : (Done a ≫= f) = f a.
Proof. done. Qed.
(** Runs the steps of a loop that cannot fail. *)
Ltac steps := rewrite ?ok_OK, ?andb_true_l; cbn beta iota zeta; rewrite ?outcome_bind_done, ?andb_false_r.

(** The element's text is parsed to [x], whatever was in its place. *)
Definition parsed {T} (config_options : ConfigOptions) (elem_info : OptionTypeInfo T)
    (name : list byte) (x : T) (t : list byte) : Prop :=
  ∀ old, Parse elem_info (set_ignore_unsupported false config_options) name t old = Done (OK, x).

Lemma parse_vector_tokens {T} (elem0 : T) opts info sep name value start e toks vec fuel result :
  tokens sep value start e toks → Forall2 (parsed opts info name) vec toks →
  (length toks < fuel)%nat →
  parse_vector_loop fuel elem0 opts info sep name value OK start e result = Done (OK, result ++ vec).
Proof.
  intros Ht. revert vec fuel result.
  induction Ht as [start e Hm|start e0 e tok toks Hm HN Ht IH]; intros vec fuel result Hv Hf;
    (destruct fuel as [|fuel]; [simpl in Hf; lia|]); cbn [parse_vector_loop].
  - rewrite Hm. apply Forall2_nil_inv_r in Hv as ->. by rewrite app_nil_r.
  - rewrite Hm, HN. apply Forall2_cons_inv_r in Hv as (x & vec' & Hx & Hv & ->).
    steps. rewrite (Hx elem0). repeat steps.
    rewrite (IH vec') by (done || (simpl in Hf; lia)). by rewrite <- app_assoc.
Qed.

Lemma parse_array_tokens {T} kSize opts info sep name value start e toks vec fuel i done_ rest :
  tokens sep value start e toks → Forall2 (parsed opts info name) vec toks →
  (length toks < fuel)%nat → length done_ = i → kSize = (i + length (rest : list T))%nat →
  ∃ start' e', parse_array_loop fuel kSize opts info sep name value OK i start e (done_ ++ rest) =
    Done (OK, (i + min (length rest) (length vec))%nat, start', e',
          done_ ++ take (length rest) vec ++ drop (length vec) rest) ∧
    more value start' e' = bool_decide (length rest < length vec)%nat.
Proof.
  intros Ht. revert vec fuel i done_ rest.
  induction Ht as [start e Hm|start e0 e tok toks Hm HN Ht IH];
    intros vec fuel i done_ rest Hv Hf Hi Hk;
    (destruct fuel as [|fuel]; [simpl in Hf; lia|]); cbn [parse_array_loop].
  - apply Forall2_nil_inv_r in Hv as ->. rewrite Hm, andb_false_r. exists start, e.
    rewrite Nat.min_0_r, Nat.add_0_r, take_nil, bool_decide_false by (simpl; lia). done.
  - apply Forall2_cons_inv_r in Hv as (x & vec' & Hx & Hv & ->).
    destruct rest as [|old rest]; simpl in Hk.
    { rewrite (bool_decide_false (i < kSize)%nat) by lia. rewrite andb_false_r. exists start, e0.
      rewrite Nat.add_0_r. rewrite bool_decide_true by (simpl; lia). done. }
    rewrite Hm, HN, bool_decide_true by lia. repeat steps.
    rewrite list_lookup_middle by done. rewrite (Hx old). repeat steps.
    change (IsNotSupported OK) with false. repeat steps.
    replace (<[i:=x]> (done_ ++ old :: rest)) with ((done_ ++ [x]) ++ rest).
    2: { rewrite <- Hi, <- app_assoc. by rewrite insert_app_r_alt, Nat.sub_diag by lia. }
    destruct (IH vec' fuel (S i) (done_ ++ [x]) rest Hv) as (s' & e' & E & Hm');
      [simpl in Hf; lia|rewrite length_app; simpl; lia|lia|].
    exists s', e'. rewrite E, Hm', <- app_assoc. simpl length. rewrite <- Nat.succ_min_distr, Nat.add_succ_r.
    split; [done|]. by apply bool_decide_ext; lia.
Qed.

(** ** Writing a sequence *)

Definition printed {T} (opts : ConfigOptions) (info : OptionTypeInfo T) (name : list byte)
    (x : T) (t : list byte) : Prop :=
  Serialize info (set_delimiter (str ";") opts) name x [] = Done (OK, t).

Lemma serialize_loop_printed {T} opts (info : OptionTypeInfo T) sep name vec ts result n :
  Forall2 (printed opts info name) vec ts → Forall (elem_text sep) ts → 0 <= n →
  serialize_loop (set_delimiter (str ";") opts) info sep name vec result n =
    Done (OK, result ++
      (if bool_decide (0 < n) then concat ((λ t, sep :: protect sep t) <$> ts)
       else joined sep (protect sep <$> ts)), n + Z.of_nat (length ts)).
Proof.
  intros Hv. revert result n. induction Hv as [|x t vec ts Hx Hv IH]; intros result n Hts Hn.
  - simpl. case_bool_decide; by rewrite app_nil_r, Z.add_0_r.
  - apply Forall_cons in Hts as [Ht Hts]. cbn [serialize_loop]. rewrite Hx, outcome_bind_done.
    cbn beta iota zeta. rewrite ok_OK. cbn [negb]. cbn iota.
    rewrite (bool_decide_true (t ≠ [])) by apply Ht. rewrite IH by (done || lia).
    rewrite (bool_decide_true (0 < n + 1)) by lia. do 2 f_equal; [|simpl; lia]. f_equal.
    case_bool_decide; simpl; rewrite <- ?app_assoc; simpl; [done|]. do 2 f_equal.
    by rewrite <- list_fmap_compose.
Qed.

Lemma wrap_cases result n :
  (1 < n → result ≠ []) →
  ∃ value, wrap result n = Done value ∧
    (value = (lbrace :: (result ++ [rbrace])) ∨
     value = result ∧ (equals_sign ∉ result) ∧ (1 < n → head result ≠ Some lbrace)).
Proof.
  intros Hr. unfold wrap. case_bool_decide as He; [eauto|]. case_bool_decide as Hn.
  - destruct result as [|c result]; [by destruct (Hr Hn)|]. cbn [at_0]. rewrite outcome_bind_done.
    case_bool_decide as Hc'; [eauto|]. eexists. split; [done|]. right. split; [done|]. split; [done|].
    intros _ [= ->]. done.
  - eexists. split; [done|]. right. split; [done|]. split; [done|]. lia.
Qed.

(** The shape of the text of the whole. *)
Lemma joined_cons sep t ts : joined sep (t :: ts) = t ++ concat ((λ t, sep :: t) <$> ts).
Proof. done. Qed.

Lemma protect_balanced sep t : elem_text sep t → balanced (protect sep t).
Proof. intros []. unfold protect. case_bool_decide; [by apply balanced_braces|done]. Qed.
Lemma protect_trimmed sep t : elem_text sep t → trimmed (protect sep t).
Proof. intros []. unfold protect. case_bool_decide; [apply trimmed_braces|done]. Qed.
Lemma elem_of_protect sep t c : c ∈ protect sep t → c ∈ t ∨ c = lbrace ∨ c = rbrace.
Proof. unfold protect. case_bool_decide; set_solver. Qed.

Lemma tail_ok sep ts :
  separator_ok sep → Forall (elem_text sep) ts → ts ≠ [] →
  let R := concat ((λ t, sep :: protect sep t) <$> ts) in balanced R ∧ trimmed R ∧ R ≠ [].
Proof.
  intros Hs. induction ts as [|t ts IH]; intros Hts Hne; [done|]. apply Forall_cons in Hts as [Ht Hts].
  pose proof (protect_nonempty sep t Ht) as Hp. cbn.
  assert (trimmed (sep :: protect sep t)) as Htr.
  { apply trimmed_cons_sep; [apply Hs|done|by apply protect_trimmed]. }
  assert (balanced (sep :: protect sep t)) as Hb.
  { apply balanced_sep; [done|by apply protect_balanced]. }
  destruct ts as [|t2 ts]; [simpl; by rewrite app_nil_r|].
  destruct (IH Hts ltac:(done)) as (H1 & H2 & H3). rewrite app_comm_cons. split_and!; [| |done].
  - by apply balanced_app.
  - by apply trimmed_app.
Qed.

Lemma joined_ok sep ts :
  separator_ok sep → Forall (elem_text sep) ts → ts ≠ [] →
  let R := joined sep (protect sep <$> ts) in balanced R ∧ trimmed R ∧ R ≠ [].
Proof.
  intros Hs Hts Hne. destruct ts as [|t ts]; [done|]. apply Forall_cons in Hts as [Ht Hts].
  pose proof (protect_nonempty sep t Ht) as Hp. cbn zeta. rewrite fmap_cons, joined_cons.
  rewrite <- list_fmap_compose. unfold compose.
  destruct ts as [|t2 ts].
  { simpl. rewrite app_nil_r. split_and!; [by apply protect_balanced|by apply protect_trimmed|done]. }
  destruct (tail_ok sep (t2 :: ts) Hs Hts ltac:(done)) as (H1 & H2 & H3). split_and!.
  - apply balanced_app; [by apply protect_balanced|done].
  - apply trimmed_app; [done|done|by apply protect_trimmed|done].
  - intros [E _]%app_eq_nil. done.
Qed.

Lemma elem_of_tail sep ts c :
  c ∈ concat ((λ t, sep :: protect sep t) <$> ts) →
  c = sep ∨ c = lbrace ∨ c = rbrace ∨ ∃ t, t ∈ ts ∧ c ∈ t.
Proof.
  induction ts as [|t ts IH]; cbn; [by intros ?%elem_of_nil|].
  intros [->|[H1|H1]%elem_of_app]%elem_of_cons; [by left| |].
  - apply elem_of_protect in H1 as [?|[?|?]]; [|tauto..]. do 3 right. exists t. set_solver.
  - apply IH in H1 as [?|[?|[?|(t' & ? & ?)]]]; [tauto..|]. do 3 right. exists t'. set_solver.
Qed.

Lemma elem_of_joined sep ts c :
  c ∈ joined sep (protect sep <$> ts) → c = sep ∨ c = lbrace ∨ c = rbrace ∨ ∃ t, t ∈ ts ∧ c ∈ t.
Proof.
  destruct ts as [|t ts]; cbn; [by intros ?%elem_of_nil|]. rewrite <- list_fmap_compose.
  intros [H1|H1]%elem_of_app.
  - apply elem_of_protect in H1 as [?|[?|?]]; [|tauto..]. do 3 right. exists t. set_solver.
  - apply elem_of_tail in H1 as [?|[?|[?|(t' & ? & ?)]]]; [tauto..|]. do 3 right. exists t'. set_solver.
Qed.

Lemma joined_equals sep ts t :
  t ∈ ts → equals_sign ∈ t → equals_sign ∈ joined sep (protect sep <$> ts).
Proof.
  intros Ht He. assert (equals_sign ∈ protect sep t) as Hp by (unfold protect; case_bool_decide; set_solver).
  destruct ts as [|t1 ts]; [by apply elem_of_nil in Ht|]. cbn. apply elem_of_app.
  apply elem_of_cons in Ht as [->|Ht]; [by left|right]. apply list_elem_of_In, in_concat.
  exists (sep :: protect sep t). rewrite <- !list_elem_of_In. split; [|by apply list_elem_of_further].
  rewrite <- list_fmap_compose. apply list_elem_of_fmap. by exists t.
Qed.

(** ** Reading back *)

(** A sequence of one element whose text holds the separator must hold an equals sign too: see
    [single_element_is_split]. *)
Definition readable (sep : byte) (ts : list (list byte)) : Prop :=
  match ts with [t] => sep ∈ t → equals_sign ∈ t | _ => True end.

(** As an option of a longer text, the text of the whole is one token: what was printed. *)
Lemma outer_token sep ts value pre rest :
  separator_ok sep → sep ≠ semicolon → Forall (elem_text sep) ts → ts ≠ [] → readable sep ts →
  let R := joined sep (protect sep <$> ts) in
  value = (lbrace :: (R ++ [rbrace])) ∨
    value = R ∧ (equals_sign ∉ R) ∧ (1 < Z.of_nat (length ts) → head R ≠ Some lbrace) →
  ∃ e, NextToken (pre ++ value ++ semicolon :: rest) semicolon (length pre) = (OK, Some e, R).
Proof.
  intros Hs Hsemi Hts Hne Hr R Hv. destruct (joined_ok sep ts Hs Hts Hne) as (Hb & Ht & HR).
  destruct Hv as [->|(-> & He & Hh)].
  - exists (length pre + length R + 2)%nat.
    replace (pre ++ (lbrace :: R ++ [rbrace]) ++ semicolon :: rest)
      with (pre ++ lbrace :: R ++ rbrace :: semicolon :: rest)
      by (by rewrite <- app_comm_cons, <- app_assoc).
    by apply next_braced.
  - exists (length pre + length R)%nat. apply next_plain. split_and!; [done|done| |].
    + destruct ts as [|t [|t2 ts]]; [done| |apply Hh; simpl; lia]. simpl in Hr, Hts.
      apply Forall_cons in Hts as [Het _]. unfold R. simpl. rewrite app_nil_r.
      rewrite protect_plain; [apply Het|]. intros Hin. apply He.
      apply (joined_equals sep [t] t); [apply list_elem_of_here|by apply Hr].
    + intros Hin. apply elem_of_joined in Hin as [?|[?|[?|(t & Hin & Hc)]]]; [done..|].
      apply He. apply (joined_equals sep ts t Hin). rewrite Forall_forall in Hts.
      by apply (Hts t Hin).
Qed.

Lemma sequence_written {T} opts (info : OptionTypeInfo T) sep name vec ts pre rest :
  separator_ok sep → sep ≠ semicolon → vec ≠ [] → Forall2 (printed opts info name) vec ts →
  Forall (elem_text sep) ts → readable sep ts →
  ∃ value e, SerializeVector opts info sep name vec [] = Done (OK, value) ∧
    SerializeArray opts info sep name vec [] = Done (OK, value) ∧
    NextToken (pre ++ value ++ semicolon :: rest) semicolon (length pre) =
      (OK, Some e, joined sep (protect sep <$> ts)).
Proof.
  intros Hs Hsemi Hne Hv Hts Hr.
  assert (ts ≠ []) as Hne' by (intros ->; by apply Forall2_nil_inv_r in Hv).
  destruct (joined_ok sep ts Hs Hts Hne') as (_ & _ & HR).
  destruct (wrap_cases (joined sep (protect sep <$> ts)) (Z.of_nat (length ts))) as (value & Hw & Hc'); [done|].
  destruct (outer_token sep ts value pre rest Hs Hsemi Hts Hne' Hr Hc') as (e & He).
  exists value, e. unfold SerializeVector, SerializeArray. cbn zeta.
  rewrite (serialize_loop_printed opts info sep name vec ts [] 0) by done.
  rewrite bool_decide_false by lia. rewrite outcome_bind_done. cbn beta iota zeta.
  rewrite ok_OK. cbn [negb]. cbn iota. rewrite app_nil_l, Z.add_0_l, Hw. done.
Qed.

(** C20. A vector of options reads back as it was written, for a separator that is not a brace,
    a white-space character or the semicolon between options, a vector that is not empty, and
    elements whose texts parse to them and are not empty, not wrapped in white space, balanced
    in their braces, without a brace in front, and with an equals sign if they hold a
    semicolon: [SerializeVector] succeeds and, wherever the text it writes stands as an option
    of a longer text, the token taken there (braces around the whole dropped, separators inside
    elements protected) parses to the same vector. Of a vector of one element the text must
    hold an equals sign if it holds the separator: without one it is read back in pieces. *)
Theorem vector_round_trip {T} (elem0 : T) opts (info : OptionTypeInfo T) sep name vec ts pre rest :
  separator_ok sep → sep ≠ semicolon → vec ≠ [] →
  Forall2 (printed opts info name) vec ts → Forall2 (parsed opts info name) vec ts →
  Forall (elem_text sep) ts → readable sep ts →
  ∃ value e token, SerializeVector opts info sep name vec [] = Done (OK, value) ∧
    NextToken (pre ++ value ++ semicolon :: rest) semicolon (length pre) = (OK, Some e, token) ∧
    ParseVector elem0 opts info sep name token = Done (OK, vec).
Proof.
  intros Hs Hsemi Hne Hp Hq Hts Hr.
  destruct (sequence_written opts info sep name vec ts pre rest) as (value & e & E1 & _ & E2); [done..|].
  exists value, e, (joined sep (protect sep <$> ts)). split; [done|]. split; [done|].
  assert (ts ≠ []) as Hne' by (intros ->; by apply Forall2_nil_inv_r in Hq).
  pose proof (tokens_joined sep [] ts 0 Hts Hne') as Ht. simpl in Ht.
  unfold ParseVector. rewrite (parse_vector_tokens elem0 opts info sep name _ _ _ ts vec); [done..|].
  apply tokens_length in Ht. lia.
Qed.

(** An array of options reads back as it was written, into an array of the same size, whatever
    that held before; into one of another size the text is refused as an invalid argument. *)
Theorem array_round_trip {T} opts (info : OptionTypeInfo T) sep name vec ts old pre rest :
  separator_ok sep → sep ≠ semicolon → vec ≠ [] →
  Forall2 (printed opts info name) vec ts → Forall2 (parsed opts info name) vec ts →
  Forall (elem_text sep) ts → readable sep ts →
  ∃ value e token, SerializeArray opts info sep name vec [] = Done (OK, value) ∧
    NextToken (pre ++ value ++ semicolon :: rest) semicolon (length pre) = (OK, Some e, token) ∧
    ∃ st result, ParseArray (length old) opts info sep name token old = Done (st, result) ∧
      (length old = length vec → st = OK ∧ result = vec) ∧
      (length old ≠ length vec → code st = kInvalidArgument).
Proof.
  intros Hs Hsemi Hne Hp Hq Hts Hr.
  destruct (sequence_written opts info sep name vec ts pre rest) as (value & e & _ & E1 & E2); [done..|].
  exists value, e, (joined sep (protect sep <$> ts)). split; [done|]. split; [done|].
  assert (ts ≠ []) as Hne' by (intros ->; by apply Forall2_nil_inv_r in Hq).
  pose proof (tokens_joined sep [] ts 0 Hts Hne') as Ht. simpl in Ht. unfold ParseArray.
  destruct (parse_array_tokens (length old) opts info sep name _ _ _ ts vec
    (S (S (length (joined sep (protect sep <$> ts))))) 0 [] old Ht Hq) as (s' & e' & E & Hm); [|done..|].
  { apply tokens_length in Ht. lia. }
  simpl app in E. change default_Status with OK. rewrite E, outcome_bind_done. cbn beta iota zeta.
  rewrite ok_OK. cbn [negb]. cbn iota. rewrite Hm. simpl plus.
  repeat case_bool_decide; (eexists _, _; split; [done|]);
    (split; [intros Hl; try lia|intros Hl; try apply Status_msg_code; lia]).
  - split; [done|]. by rewrite Hl, firstn_all, drop_ge, app_nil_r by lia.
Qed.

(** Any text at all, well formed or not, is dealt with in as many steps as it has characters. *)
Lemma more_shrinks value start e d st e' tok fuel :
  more value start e = true → (length value - start < fuel)%nat →
  NextToken value d start = (st, e', tok) → ok st = true →
  (length value - next_start e' < Nat.pred fuel)%nat ∨ more value (next_start e') e' = false.
Proof.
  intros Hm Hf HN Hok. apply more_true in Hm. destruct e' as [n|].
  - left. apply next_forward in HN; [|done]. simpl. lia.
  - right. unfold more. by rewrite andb_false_r.
Qed.

Lemma parse_vector_stops {T} (elem0 : T) opts info sep name value st start e result fuel :
  (∀ t, is_done (Parse info (set_ignore_unsupported false opts) name t elem0) = true) →
  (length value - start < fuel)%nat ∨ more value start e = false ∧ fuel ≠ O →
  is_done (parse_vector_loop fuel elem0 opts info sep name value st start e result) = true.
Proof.
  intros HP. revert st start e result. induction fuel as [|fuel IH]; intros st start e result Hf; [lia|].
  cbn [parse_vector_loop]. destruct (ok st && more value start e) eqn:Hgo; [|done].
  apply andb_true_iff in Hgo as [_ Hm]. destruct Hf as [Hf|[Hf _]]; [|congruence].
  destruct (NextToken value sep start) as [[st' e'] tok] eqn:HN. destruct (ok st') eqn:Hok.
  - pose proof (HP tok) as Hd.
    destruct (Parse info _ name tok elem0) as [[s x]|]; [|done]. rewrite outcome_bind_done.
    assert (∀ s' r, is_done (parse_vector_loop fuel elem0 opts info sep name value s' (next_start e') e' r) = true) as HI.
    { intros s' r. apply IH. destruct (more_shrinks value start e sep st' e' tok (S fuel)) as [?|?]; auto.
      right. split; [done|]. apply more_true in Hm. lia. }
    destruct (ok s); [apply HI|]. by destruct (_ && _); apply HI.
  - rewrite outcome_bind_done. destruct fuel as [|fuel]; [apply more_true in Hm; lia|].
    cbn [parse_vector_loop]. by rewrite Hok.
Qed.

(** Parsing a vector ends on every text, however mis-formed, as long as parsing each of its
    tokens does: the loop takes at most as many steps as the text has characters. *)
Theorem parse_vector_terminates {T} (elem0 : T) opts info sep name value :
  (∀ t, is_done (Parse info (set_ignore_unsupported false opts) name t elem0) = true) →
  is_done (ParseVector elem0 opts info sep name value) = true.
Proof. intros HP. apply parse_vector_stops; [done|]. left. lia. Qed.

(** The braces that protect an element are lost when it is the only one: a vector of one
    element whose text holds the separator (and no equals sign) is written as that text in braces,
    an option parser takes the braces off, and what is left is parsed as several elements, its first
    piece among them, instead of the one. *)
Theorem single_element_is_split {T} opts (info : OptionTypeInfo T) sep name x a b pre rest :
  separator_ok sep → printed opts info name x (a ++ sep :: b) → elem_text sep (a ++ sep :: b) →
  equals_sign ∉ a ++ sep :: b → plain_token sep a →
  ∃ value e, SerializeVector opts info sep name [x] [] = Done (OK, value) ∧
    NextToken (pre ++ value ++ semicolon :: rest) semicolon (length pre) =
      (OK, Some e, a ++ sep :: b) ∧
    NextToken (a ++ sep :: b) sep 0 = (OK, Some (length a), a).
Proof.
  intros Hs Hp Ht He Ha. assert (sep ∈ a ++ sep :: b) as Hin by set_solver.
  exists (lbrace :: (a ++ sep :: b) ++ [rbrace]), (length pre + length (a ++ sep :: b) + 2)%nat. split.
  - unfold SerializeVector. cbn zeta.
    rewrite (serialize_loop_printed opts info sep name [x] [a ++ sep :: b] [] 0);
      [|by apply Forall2_cons|by apply Forall_singleton|done].
    rewrite bool_decide_false by lia. rewrite outcome_bind_done. cbn beta iota zeta.
    rewrite ok_OK. cbn [negb]. cbn iota. simpl joined. rewrite !app_nil_r.
    rewrite protect_braced by done. unfold wrap. rewrite bool_decide_false; [|set_solver].
    by rewrite bool_decide_false by (simpl; lia).
  - split; [|by apply (next_plain [])].
    replace (pre ++ (lbrace :: (a ++ sep :: b) ++ [rbrace]) ++ semicolon :: rest)
      with (pre ++ lbrace :: (a ++ sep :: b) ++ rbrace :: semicolon :: rest)
      by (rewrite <- !app_assoc; simpl; rewrite <- !app_assoc; simpl; by rewrite <- !app_assoc).
    apply next_braced; apply Ht.
Qed.

(** ** Enumerations *)

Lemma serialize_enum_loop_spec {T} `{EqDecision T} (pairs : list (list byte * T)) v text :
  (∃ name, serialize_enum_loop pairs v text = (true, name) ∧ (name, v) ∈ pairs) ∨
  (serialize_enum_loop pairs v text = (false, text) ∧ ∀ name, (name, v) ∉ pairs).
Proof.
  induction pairs as [|[name w] pairs IH]; simpl.
  { right. split; [done|]. intros ? []%elem_of_nil. }
  case_decide as Hw; [subst; left; exists name; split; [done|apply list_elem_of_here]|].
  destruct IH as [(n & E & Hn)|[E Hn]]; [left|right].
  - exists n. split; [done|]. by apply list_elem_of_further.
  - split; [done|]. intros n [[= <- <-]|Hin]%elem_of_cons; [done|]. by apply (Hn n).
Qed.

(** An enumeration option writes a value that has a name as one of its names, and reads that
    name back as the value, whatever order the map is walked in; a value without a name, and a text
    that is no name, are refused as invalid arguments and leave the result as it was. *)
Theorem enum_round_trip {T} `{EqDecision T} (m : gmap (list byte) T) opts name v old text :
  ((∃ n, m !! n = Some v) →
   ∃ n, enum_serialize (Some m) opts name v text = Done (OK, n) ∧ m !! n = Some v ∧
     enum_parse (Some m) opts name n old = Done (OK, v)) ∧
  ((∀ n, m !! n ≠ Some v) →
   ∃ s, enum_serialize (Some m) opts name v text = Done (s, text) ∧ code s = kInvalidArgument) ∧
  (m !! text = None →
   ∃ s, enum_parse (Some m) opts name text old = Done (s, old) ∧ code s = kInvalidArgument).
Proof.
  unfold enum_serialize, enum_parse, SerializeEnum, ParseEnum. split_and!.
  - intros [n0 Hn0]. destruct (serialize_enum_loop_spec (umap_walk m) v text) as [(n & -> & Hn)|[_ Hn]].
    + rewrite umap_walk_perm, elem_of_map_to_list in Hn. exists n. by rewrite Hn.
    + exfalso. apply (Hn n0). by rewrite umap_walk_perm, elem_of_map_to_list.
  - intros Hv. destruct (serialize_enum_loop_spec (umap_walk m) v text) as [(n & _ & Hn)|[-> _]].
    + rewrite umap_walk_perm, elem_of_map_to_list in Hn. by destruct (Hv n).
    + eexists. split; [done|apply Status_msg_code].
  - intros ->. eexists. split; [done|apply Status_msg_code].
Qed.

(** ** Maps of strings *)

Lemma split_at_first_app c k v : c ∉ k → split_at_first c (k ++ c :: v) = Some (k, v).
Proof.
  induction k as [|x k IH]; intros Hk; simpl; [by rewrite decide_True|].
  rewrite decide_False by set_solver. rewrite IH by set_solver. done.
Qed.

Lemma hex_not_space c : is_hex c = true → is_space c = false.
Proof.
  unfold is_hex, is_space. cbv zeta. intros Hc. apply not_true_is_false. intros Hs.
  apply orb_true_iff in Hc. apply orb_true_iff in Hs.
  rewrite !andb_true_iff, !bool_decide_eq_true in *. lia.
Qed.

Lemma hex_not_brace c : is_hex c = true → c ≠ lbrace ∧ c ≠ rbrace.
Proof. intros Hc. split; intros ->; done. Qed.

(** The characters between keys and values, and between entries. *)
Definition map_separators (kv item : byte) : Prop :=
  separator_ok kv ∧ separator_ok item ∧ kv ≠ item ∧ is_hex kv = false ∧ is_hex item = false.

Lemma entry_chars kv k v c :
  c ∈ ToString_hex k ++ kv :: ToString_hex v → c = kv ∨ is_hex c = true.
Proof.
  intros [Hc'|[->|Hc']%elem_of_cons]%elem_of_app; [right|by left|right]; by eapply ToString_hex_digits.
Qed.

Lemma entry_token kv item k v :
  map_separators kv item → plain_token item (ToString_hex k ++ kv :: ToString_hex v).
Proof.
  intros ((Hk1 & Hk2 & Hk3) & Hi & Hne & Hhk & Hhi). split_and!.
  - by intros [_ ?]%app_eq_nil.
  - apply no_space_trimmed. intros c [->|Hc']%(entry_chars kv); [done|by apply hex_not_space].
  - destruct (ToString_hex k) as [|c l] eqn:E; [by intros [= ->]|].
    intros [= ->]. assert (is_hex lbrace = true) by (apply (ToString_hex_digits k); rewrite E; set_solver). done.
  - intros [->|Hc']%(entry_chars kv); [done|congruence].
Qed.

Lemma entries_tokens kv item pre l e0 :
  map_separators kv item →
  tokens item (pre ++ string_map_entries kv item l) (length pre) (Some e0)
    ((λ p, ToString_hex p.1 ++ kv :: ToString_hex p.2) <$> l).
Proof.
  intros Hs. revert pre e0. induction l as [|[k v] l IH]; intros pre e0.
  { apply tokens_end. unfold more. simpl. rewrite app_nil_r, bool_decide_false by lia. done. }
  cbn [string_map_entries fmap list_fmap fst snd].
  set (t := ToString_hex k ++ kv :: ToString_hex v).
  replace (ToString_hex k ++ kv :: ToString_hex v ++ item :: string_map_entries kv item l)
    with (t ++ item :: string_map_entries kv item l)
    by (unfold t; by rewrite <- app_assoc).
  eapply tokens_next.
  - unfold more. rewrite bool_decide_true; [done|]. rewrite !length_app. simpl. lia.
  - by apply next_plain, entry_token.
  - specialize (IH (pre ++ t ++ [item]) (length pre + length t)%nat). cbn [next_start].
    rewrite <- !app_assoc in IH. simpl app in IH.
    replace (S (length pre + length t)) with (length (pre ++ t ++ [item])); [done|].
    rewrite !length_app. simpl. lia.
Qed.

Lemma entries_balanced kv item l :
  map_separators kv item → balanced (string_map_entries kv item l).
Proof.
  intros (Hk & Hi & _). assert (∀ s, balanced (ToString_hex s)) as Hh.
  { intros s. apply no_braces_balanced. intros c Hc'. by eapply hex_not_brace, ToString_hex_digits. }
  induction l as [|[k v] l IH]; [done|]. cbn [string_map_entries].
  apply balanced_app; [done|]. apply balanced_sep; [done|]. apply balanced_app; [done|]. by apply balanced_sep.
Qed.

Lemma entries_trimmed kv item l :
  map_separators kv item → trimmed (string_map_entries kv item l).
Proof.
  intros ((_ & _ & Hk) & (_ & _ & Hi) & _). apply no_space_trimmed.
  induction l as [|[k v] l IH]; cbn [string_map_entries]; intros c.
  { by intros ?%elem_of_nil. }
  intros [Hc'|[->|[Hc'|[->|Hc']%elem_of_cons]%elem_of_app]%elem_of_cons]%elem_of_app; [|done| |done|by apply IH];
    by eapply hex_not_space, ToString_hex_digits.
Qed.

Lemma parse_map_tokens kv item value start e l fuel map :
  map_separators kv item →
  tokens item value start e ((λ p, ToString_hex p.1 ++ kv :: ToString_hex p.2) <$> l) →
  (length l < fuel)%nat → NoDup l.*1 → (∀ p, p ∈ l → map !! p.1 = None) →
  parse_map_loop fuel kv item value OK start e map = Done (OK, list_to_map l ∪ map).
Proof.
  intros Hs. revert start e fuel map.
  induction l as [|[k v] l IH]; intros start e fuel map Ht Hf Hnd Hmap;
    (destruct fuel as [|fuel]; [simpl in Hf; lia|]); cbn [parse_map_loop].
  - inversion Ht as [? ? Hm|]; subst. rewrite Hm, andb_false_r. by rewrite list_to_map_nil, (left_id_L ∅ (∪)).
  - inversion Ht as [|? ? e1 tok toks Hm HN Ht']; subst. rewrite Hm, HN. repeat steps.
    rewrite bool_decide_true by (by intros [_ ?]%app_eq_nil). cbn [fst snd].
    rewrite split_at_first_app.
    2: { intros Hin%ToString_hex_digits. destruct Hs as (_ & _ & _ & Hk & _). congruence. }
    rewrite !DecodeHex_ToString. cbn [snd]. repeat steps.
    pose proof (Hmap (k, v) ltac:(apply list_elem_of_here)) as Hk. cbn [fst] in Hk. rewrite Hk. repeat steps.
    rewrite fmap_cons in Hnd. apply NoDup_cons in Hnd as [Hkl Hnd]. rewrite IH.
    + rewrite list_to_map_cons, <- insert_union_l, <- insert_union_r; [done|].
      by apply not_elem_of_list_to_map_1.
    + done.
    + simpl in Hf. lia.
    + done.
    + intros p Hp. rewrite lookup_insert_ne; [apply Hmap; by apply list_elem_of_further|].
      intros ->. apply Hkl. apply list_elem_of_fmap. by exists p.
Qed.

(** C21. A map of strings reads back as it was written: [string_map_serialize] appends, in braces,
    each key and value in hexadecimal; the option parser's token of it, wherever it stands, parses
    to the same map, whatever was there before and whatever bytes the strings hold, separators,
    braces and blanks included. *)
Theorem string_map_round_trip (kv item : byte) (opts opts' : ConfigOptions)
    (name name' : list byte) (m old : gmap (list byte) (list byte))
    pre rest :
  map_separators kv item →
  ∃ value e token, string_map_serialize kv item opts name m [] = Done (OK, value) ∧
    NextToken (pre ++ value ++ semicolon :: rest) semicolon (length pre) = (OK, Some e, token) ∧
    string_map_parse kv item opts' name' token old = Done (OK, m).
Proof.
  intros Hs. set (R := string_map_entries kv item (map_walk m)).
  exists (lbrace :: R ++ [rbrace]), (length pre + length R + 2)%nat, R. split; [done|]. split.
  - replace (pre ++ (lbrace :: R ++ [rbrace]) ++ semicolon :: rest)
      with (pre ++ lbrace :: R ++ rbrace :: semicolon :: rest) by (by rewrite <- app_comm_cons, <- app_assoc).
    apply next_braced; [by apply entries_trimmed|by apply entries_balanced].
  - assert (map_walk m ≡ₚ map_to_list m) as Hp by apply merge_sort_Permutation.
    pose proof (entries_tokens kv item [] (map_walk m) 0 Hs) as Ht. simpl in Ht.
    unfold string_map_parse. change default_Status with OK.
    rewrite (parse_map_tokens kv item _ _ _ (map_walk m)); [|done|done| | |done].
    + rewrite outcome_bind_done. cbn. rewrite (right_id_L ∅ (∪)). do 2 f_equal.
      rewrite (list_to_map_proper (map_walk m) (map_to_list m)); [apply list_to_map_to_list| |done].
      rewrite Hp. apply NoDup_fst_map_to_list.
    + apply tokens_length in Ht. rewrite length_fmap in Ht. fold R in Ht |- *. lia.
    + rewrite Hp. apply NoDup_fst_map_to_list.
Qed.
End Spec.
