(* ===== verification/KueueLink.v ===== *)
(** The two models of the queue agree: a call of KueueImpl.v on a queue nobody else uses is a run
    of the same call by one thread of KueueConc.v, with the same answer and the same queue
    afterwards; and the thread has no other runs of the call than those that the abstract queue
    allows. *)
From S2P Require Import Prelude Slice BigEndian RocksStatus StatusCode RocksDB KindImpl.
From S2P Require Import StoreImpl StoreLemmas StoreSpec MemDB StoreDemo KueueImpl KueueSpec KueueDemo.
From S2P Require Import KueueConc.

Local Open Scope Z_scope.

(** The keys and the counter have room for the queue [q] from the key [first] on. *)
Definition fits (first : Z) (q : list (list byte)) : Prop :=
  0 <= first ∧ first + Z.of_nat (length q) < 2 ^ 64 ∧ Z.of_nat (length q) < 2 ^ 63.

(** Thread [t] is at [p], the others are idle, and the store holds the queue [q] from the key [first]
    on, the accesses of [t] under way taken into account; [rs] are the calls that have returned. *)
Record at_point (t : nat) (p : pc) (first : Z) (q : list (list byte)) (rs : list (nat * answers))
    (c : conc) : Prop := {
  at_others : ∀ u, u ≠ t → pcs c u = Idle;
  at_pc : pcs c t = p;
  at_putLock : putLock c = if holds_put p then Some t else None;
  at_takeLock : takeLock c = if holds_take p then Some t else None;
  at_minKey : KueueConc.minKey c + unpassed p = first;
  at_maxKey : KueueConc.maxKey c = first + Z.of_nat (length q);
  at_count : KueueConc.count c = Z.of_nat (length q) - uncounted p + unremoved p;
  at_store : ∀ k, KueueConc.store c !! k = value_at first q k;
  at_returned : returned c = rs;
}.

(** Nobody uses the queue. *)
Definition resting (first : Z) (q : list (list byte)) (c : conc) : Prop :=
  ∀ t, at_point t Idle first q (returned c) c.

Lemma at_point_resting t first q rs c : at_point t Idle first q rs c → resting first q c.
Proof.
  intros [] u. split; try done.
  - intros v _. destruct (decide (v = t)) as [->|]; auto.
  - destruct (decide (u = t)) as [->|]; auto.
Qed.

(** A step of [t] inside a call; and a whole run of the call [op] by [t] that answers [a]. *)
Definition within (t : nat) (c c' : conc) : Prop := step t c c' ∧ pcs c t ≠ Idle.
Definition call_run (t : nat) (op : kop) (a : answers) (c c' : conc) : Prop :=
  pcs c t = Idle ∧ rtc (within t) (goes t (entry op) c) c' ∧ pcs c' t = Idle ∧
  returned c' = returned c ++ [(t, a)].

Lemma u64_back x : 0 <= x < 2 ^ 64 → u64 (u64 (x + 1) - 1) = x.
Proof. intros H. unfold u64. rewrite Zminus_mod_idemp_l, Z.mod_small; lia. Qed.

Section Runs.
Context (t : nat).
Implicit Types (c : conc) (q : list (list byte)) (v : list byte).
Abbreviation at_point := (at_point t).
Abbreviation within := (within t).

(** *** What one access makes of the queue *)

(** Only the program point and the locks change. *)
Lemma at_move p p' first q rs c c' :
  at_point p first q rs c → pcs c' = upd t p' (pcs c) →
  putLock c' = (if holds_put p' then Some t else None) → takeLock c' = (if holds_take p' then Some t else None) →
  KueueConc.store c' = KueueConc.store c → KueueConc.minKey c' = KueueConc.minKey c →
  KueueConc.maxKey c' = KueueConc.maxKey c → KueueConc.count c' = KueueConc.count c → returned c' = returned c →
  unpassed p' = unpassed p → uncounted p' = uncounted p → unremoved p' = unremoved p →
  at_point p' first q rs c'.
Proof.
  intros [] E1 E2 E3 E4 E5 E6 E7 E8 H1 H2 H3. split; rewrite ?E4, ?E5, ?E6, ?E7, ?H1, ?H2, ?H3; try done; try congruence.
  - intros u Hu. rewrite E1, upd_other by done. auto.
  - by rewrite E1, upd_same.
Qed.
Lemma at_returns p first q rs c c' a :
  at_point p first q rs c → unpassed p = 0 → uncounted p = 0 → unremoved p = 0 →
  putLock c' = None → takeLock c' = None → pcs c' = pcs c →
  KueueConc.store c' = KueueConc.store c → KueueConc.minKey c' = KueueConc.minKey c →
  KueueConc.maxKey c' = KueueConc.maxKey c → KueueConc.count c' = KueueConc.count c → returned c' = returned c →
  at_point Idle first q (rs ++ [(t, a)]) (returns t a c').
Proof.
  intros [] H1 H2 H3 E1 E2 E3 E4 E5 E6 E7 E8. rewrite H1, H2, H3 in *. split; simpl; rewrite ?E4, ?E5, ?E6, ?E7; try done.
  - intros u Hu. rewrite E3, upd_other by done. auto.
  - by rewrite upd_same.
  - by rewrite E8, at_returned0.
Qed.

Lemma at_put v first q rs c :
  fits first (q ++ [v]) → at_point (PStore v) first q rs c →
  at_point PCount first (q ++ [v]) rs (goes t PCount (log_put v (with_maxKey (u64 (KueueConc.maxKey c + 1))
    (with_store (<[KueueConc.maxKey c := v]> (KueueConc.store c)) c)))).
Proof.
  unfold fits. rewrite length_app. simpl length. intros Hf []. simpl in *. split; simpl; try done; rewrite ?length_app; simpl.
  - intros u Hu. rewrite upd_other by done. auto.
  - apply upd_same.
  - rewrite u64_small by lia. lia.
  - lia.
  - intros k. rewrite value_at_snoc, at_maxKey0. case_decide as Hk.
    + subst k. by rewrite lookup_insert_eq.
    + by rewrite lookup_insert_ne.
Qed.
Lemma at_put_failed v code first q rs c :
  fits first q → at_point (PStore v) first q rs c →
  at_point (PLeave (-1) (ACode code)) first q rs (goes t (PLeave (-1) (ACode code))
    (with_maxKey (u64 (u64 (KueueConc.maxKey c + 1) - 1)) c)).
Proof.
  intros Hf Ha. unfold fits in Hf. assert (u64 (u64 (KueueConc.maxKey c + 1) - 1) = KueueConc.maxKey c) as ->.
  { destruct Ha. apply u64_back. lia. }
  eapply at_move; [exact Ha|done || apply Ha..].
Qed.
Lemma at_count_on n a first q rs c :
  fits first q → at_point PCount first q rs c →
  at_point (PLeave n a) first q rs (goes t (PLeave n a) (with_count (i64 (KueueConc.count c + 1)) c)).
Proof.
  intros (Hf1 & Hf2 & Hf3) []. simpl in *. split; simpl; try done.
  - intros u Hu. rewrite upd_other by done. auto.
  - apply upd_same.
  - rewrite i64_small by lia. lia.
Qed.
(** The removal of the front, by any call. *)
Lemma at_remove p p' v first q rs c c' :
  at_point p first (v :: q) rs c → unpassed p = 0 → uncounted p = 0 → unremoved p = 0 →
  uncounted p' = 0 → unpassed p' = 1 → unremoved p' = 1 → holds_put p' = holds_put p → holds_take p' = holds_take p →
  c' = log_take v (with_store (delete (KueueConc.minKey c) (KueueConc.store c)) c) →
  at_point p' (first + 1) q rs (goes t p' c').
Proof.
  intros [] H1 H2 H3 H4 H5 H6 H7 H8 ->. rewrite H1, H2, H3 in *. simpl length in *.
  split; simpl; rewrite ?H4, ?H5, ?H6, ?H7, ?H8; try done; try lia.
  - intros u Hu. rewrite upd_other by done. auto.
  - apply upd_same.
  - intros k. rewrite (value_at_cons first v), lookup_delete, <- at_store0. repeat case_decide; subst; try done; lia.
Qed.
Lemma at_front p v first q rs c :
  at_point p first (v :: q) rs c → unpassed p = 0 → KueueConc.store c !! KueueConc.minKey c = Some v.
Proof. intros [] H. rewrite H, Z.add_0_r in *. by rewrite at_store0, at_minKey0, value_at_first. Qed.
Lemma at_single_removed p p' v key first q rs c :
  at_point p first (v :: q) rs c → unpassed p = 0 → uncounted p = 0 → unremoved p = 0 →
  uncounted p' = 0 → unpassed p' = 1 → unremoved p' = 1 → holds_put p' = holds_put p → holds_take p' = holds_take p →
  key = KueueConc.minKey c → at_point p' (first + 1) q rs (goes t p' (single_removed key c)).
Proof.
  intros Ha H1 H2 H3 H4 H5 H6 H7 H8 ->. eapply at_remove; [exact Ha|done..|].
  unfold single_removed. by rewrite (at_front p v first q rs c).
Qed.
Lemma at_pass p p' first q rs c :
  fits first q → at_point p first q rs c → unpassed p = 1 → uncounted p = 0 → unremoved p = 1 →
  uncounted p' = 0 → unpassed p' = 0 → unremoved p' = 1 → holds_put p' = holds_put p → holds_take p' = holds_take p →
  at_point p' first q rs (goes t p' (with_minKey (u64 (KueueConc.minKey c + 1)) c)).
Proof.
  intros (Hf1 & Hf2 & _) [] H1 H2 H3 H4 H5 H6 H7 H8. rewrite H1, H2, H3 in *.
  split; simpl; rewrite ?H4, ?H5, ?H6, ?H7, ?H8; try done; try lia.
  - intros u Hu. rewrite upd_other by done. auto.
  - apply upd_same.
  - rewrite u64_small by lia. lia.
Qed.
Lemma at_count_off p p' first q rs c :
  fits first q → at_point p first q rs c → unpassed p = 0 → uncounted p = 0 → unremoved p = 1 →
  uncounted p' = 0 → unpassed p' = 0 → unremoved p' = 0 → holds_put p' = holds_put p → holds_take p' = holds_take p →
  at_point p' first q rs (goes t p' (with_count (i64 (KueueConc.count c - 1)) c)).
Proof.
  intros (_ & _ & Hf3) [] H1 H2 H3 H4 H5 H6 H7 H8. rewrite H1, H2, H3 in *.
  split; simpl; rewrite ?H4, ?H5, ?H6, ?H7, ?H8; try done; try lia.
  - intros u Hu. rewrite upd_other by done. auto.
  - apply upd_same.
  - rewrite i64_small by lia. lia.
Qed.
(** Nobody else waits: a notification wakes nobody. *)
Lemma at_notify p first q rs c : at_point p first q rs c → (∀ k, p ≠ TWaiting k) → notify c c.
Proof.
  intros [] Hp. apply notify_none. intros u k E. destruct (decide (u = t)) as [->|Hu].
  - rewrite at_pc0 in E. by apply (Hp k).
  - by rewrite at_others0 in E.
Qed.
Lemma at_notified p first q rs c c' :
  at_point p first q rs c → (∀ k, p ≠ TWaiting k) → notify c c' → c' = c.
Proof.
  intros [] Hp [u k E|]; [|done]. destruct (decide (u = t)) as [->|Hu].
  - rewrite at_pc0 in E. by destruct (Hp k).
  - by rewrite at_others0 in E.
Qed.

(** *** Every answer of the abstract queue is that of a run *)

Definition ends (rs : list (nat * answers)) (a : answers) (first : Z) (q : list (list byte)) c : Prop :=
  ∃ c', rtc within c c' ∧ at_point Idle first q (rs ++ [(t, a)]) c'.

Lemma ends_step p f0 q0 rs0 rs a first q c c1 :
  at_point p f0 q0 rs0 c → p ≠ Idle → step t c c1 → ends rs a first q c1 → ends rs a first q c.
Proof.
  intros Ha Hp Hs (c' & Hr & Hc). exists c'. split; [|done]. eapply rtc_l; [|exact Hr].
  split; [done|]. by rewrite (at_pc _ _ _ _ _ _ Ha).
Qed.
(** The step [r] from where [H] says the thread is. *)
Ltac go H r := eapply (ends_step _ _ _ _ _ _ _ _ _ _ H);
  [done|eapply r; first [apply H|idtac]|].
(** A step that only moves the thread, and where it stands then. *)
Ltac moved H := eapply at_move; [exact H|first [done|apply H]..].

Tactic Notation "at_now" ident(H) constr(p) constr(f) constr(q) constr(rs) "by" tactic3(tac) :=
  match goal with
  | |- ends _ _ _ _ ?c1 =>
      assert (at_point p f q rs c1) as H by tac; revert H; generalize c1; let c := fresh "c" in intros c H
  end.

Lemma leave_ends a first q rs c : at_point (TLeave a) first q rs c → ends rs a first q c.
Proof.
  intros H. go H s_take_leave. eexists. split; [apply rtc_refl|].
  eapply at_returns; [exact H|first [done|apply H]..].
Qed.
Lemma notified_ends n a first q rs c : at_point (TNotify n a) first q rs c → ends rs a first q c.
Proof.
  intros H. destruct (decide (1 < n)) as [Hn|Hn].
  - go H s_take_notify; [done|by eapply at_notify|]. apply leave_ends. moved H.
  - go H s_take_quiet; [lia|]. apply leave_ends. moved H.
Qed.
Lemma removed_ends a first q rs c : fits first q → at_point (TMin a) first q rs c → ends rs a first q c.
Proof.
  intros Hf H. go H s_take_min.
  at_now H2 (TCount a) first q rs by (by eapply at_pass). go H2 s_take_count.
  eapply notified_ends, at_count_off; [exact Hf|exact H2|done..].
Qed.
Lemma put_ends n a first q rs c : at_point (PLeave n a) first q rs c → ends rs a first q c.
Proof.
  intros H. destruct (decide (n = 0)) as [->|Hn].
  - go H s_put_signal; [done|]. at_now H2 (SWant a) first q rs by (moved H).
    go H2 s_signal_lock. at_now H3 (SNotify a) first q rs by (moved H2).
    go H3 s_signal; [by eapply at_notify|].
    eexists. split; [apply rtc_refl|]. eapply at_returns; [exact H3|first [done|apply H3]..].
  - go H s_put_leave; [done|]. eexists. split; [apply rtc_refl|].
    eapply at_returns; [exact H|first [done|apply H]..].
Qed.

(** Where the calls that wait decide to go on, and where they give up. *)
Definition waiter_of (op : kop) : option waiter :=
  match op with
  | KTake => Some WTake
  | KTakeFor timeout => Some (WTakeFor timeout)
  | KReadNext timeout => Some (WRead timeout)
  | _ => None
  end.
Lemma may_take_front p k v first q rs c :
  at_point p first (v :: q) rs c → uncounted p = 0 → unremoved p = 0 → may_take k (KueueConc.count c) = true.
Proof.
  intros [] H1 H2. rewrite at_count0, H1, H2. simpl length. destruct k; apply bool_decide_eq_true; lia.
Qed.
Lemma may_take_none p k first rs c :
  at_point p first [] rs c → uncounted p = 0 → unremoved p = 0 → may_take k (KueueConc.count c) = false.
Proof. intros [] H1 H2. rewrite at_count0, H1, H2. by destruct k. Qed.

(** From the test on, a call that waits is like its operation. *)
Lemma waiter_ends k op first q a first' q' rs c :
  waiter_of op = Some k → fits first q → fifo first q op a first' q' → at_point (TTest k) first q rs c →
  ends rs a first' q' c.
Proof.
  intros Hk Hf Hop H. assert (∀ v q1, q = v :: q1 → may_take k (KueueConc.count c) = true) as Hgo.
  { intros v q1 ->. by eapply may_take_front. }
  inversion Hop; subst; try done.
  - (* taken *)
    specialize (Hgo v q' eq_refl). go H s_take_go; [exact Hgo|].
    at_now Hs TStore first (v :: q') rs by (destruct op; try done; injection Hk as <-; moved H).
    go Hs s_take_store; [by eapply at_front|]. apply removed_ends.
    { unfold fits in *. simpl length in *. lia. }
    by eapply at_remove.
  - (* not taken *)
    specialize (Hgo v q0 eq_refl). go H s_take_go; [exact Hgo|].
    at_now Hs TStore first' (v :: q0) rs by (destruct op; try done; injection Hk as <-; moved H).
    go Hs s_take_failed.
    { split; [done|]. match goal with H : _ ∨ _ |- _ => destruct H as [-> | ->] end; [right|by left]. exists v. split; [by eapply at_front|done]. }
    apply leave_ends. moved Hs.
  - (* read *)
    specialize (Hgo v q0 eq_refl). injection Hk as <-. go H s_take_go; [exact Hgo|].
    at_now Hs RStore first' (v :: q0) rs by (moved H).
    go Hs s_read; [by eapply at_front|].
    replace (KueueConc.minKey _) with first'; [|destruct Hs; simpl in *; lia]. apply leave_ends. moved Hs.
  - (* not read *)
    specialize (Hgo v q0 eq_refl). injection Hk as <-. go H s_take_go; [exact Hgo|].
    at_now Hs RStore first' (v :: q0) rs by (moved H).
    go Hs s_read_failed; [by split|]. apply leave_ends. moved Hs.
  - (* timed out *)
    go H s_take_timeout; [by eapply may_take_none| |].
    { destruct op; try done; injection Hk as <-; by apply bool_decide_eq_true. }
    apply leave_ends. moved H.
Qed.

Lemma store_ends v op first q a first' q' rs c :
  op = KPut v → fits first q → fits first' q' → fifo first q op a first' q' → at_point (PWant v) first q rs c →
  ends rs a first' q' c.
Proof.
  intros -> Hf Hf' Hop H. go H s_put_lock. at_now Hs (PStore v) first q rs by (moved H).
  inversion Hop; subst; try done.
  - go Hs s_put_store. at_now Hc PCount first' (q ++ [v]) rs by (by apply at_put).
    go Hc s_put_count. by eapply put_ends, at_count_on.
  - go Hs s_put_failed; [done|]. by eapply put_ends, at_put_failed.
Qed.

Lemma erase_ends key op first q a first' q' rs c :
  op = KErase key → fits first' q' → fifo first q op a first' q' → at_point (ESee key) first q rs c →
  ends rs a first' q' c.
Proof.
  intros -> Hf' Hop H. assert (KueueConc.minKey c = first) as Hmin by (destruct H; simpl in *; lia).
  destruct (decide (key = first)) as [->|Hne].
  - go H s_erase_seen; [done|]. at_now Hs (EWant first) first q rs by (moved H).
    go Hs s_erase_lock. at_now Ht (ETest first) first q rs by (moved Hs).
    go Ht s_erase_go; [destruct Ht; simpl in *; lia|]. at_now Hg (EStore first) first q rs by (moved Ht).
    inversion Hop; subst; try done.
    + go Hg s_erase_store. apply removed_ends; [done|].
      eapply (at_single_removed (EStore _)); [exact Hg|done..|]. destruct Hg; simpl in *; lia.
    + go Hg s_erase_failed. apply leave_ends. moved Hg.
  - go H s_erase_refused; [congruence|]. inversion Hop; subst; try done.
    eexists. split; [apply rtc_refl|]. eapply at_returns; [exact H|first [done|apply H]..].
Qed.

(** [clear], from its loop on: [a] is what it would answer now. *)
Lemma clear_leave_ends a first q rs c : at_point (CLeave a) first q rs c → ends rs a first q c.
Proof.
  intros H. go H s_clear_leave. eexists. split; [apply rtc_refl|].
  eapply at_returns; [exact H|first [done|apply H]..].
Qed.
Lemma clear_ends a0 a first q1 q2 rs c :
  fits first (q1 ++ q2) → at_point (CTest a0) first (q1 ++ q2) rs c →
  (q2 = [] ∧ a = (if decide (q1 = []) then a0 else ACode Status.Ok) ∨ ∃ code, code ≠ Status.Ok ∧ q2 ≠ [] ∧ a = ACode code) →
  ends rs a (first + Z.of_nat (length q1)) q2 c.
Proof.
  revert first a0 c. induction q1 as [|v q1 IH]; intros first a0 c Hf H Ha.
  - simpl in *. rewrite Z.add_0_r. destruct Ha as [[-> ->]|(code & Hc & Hne & ->)].
    + go H s_clear_done; [destruct H; simpl in *; lia|]. apply clear_leave_ends. moved H.
    + go H s_clear_go; [destruct H, q2; simpl in *; [done|lia]|]. at_now Hs CStore first q2 rs by (moved H).
      go Hs s_clear_failed; [done|]. apply clear_leave_ends. moved Hs.
  - unfold fits in Hf. simpl in *. assert (fits (first + 1) (q1 ++ q2)) as Hf2 by (unfold fits; lia).
    go H s_clear_go; [destruct H; simpl in *; lia|]. at_now Hs CStore first (v :: q1 ++ q2) rs by (moved H).
    go Hs s_clear_store. at_now Hm CMin (first + 1) (q1 ++ q2) rs by (by eapply (at_single_removed CStore)).
    go Hm s_clear_min. at_now Hc CCount (first + 1) (q1 ++ q2) rs by (by eapply (at_pass CMin)).
    go Hc s_clear_count. replace (first + Z.of_nat (S (length q1))) with (first + 1 + Z.of_nat (length q1)) by lia.
    apply (IH (first + 1) (ACode Status.Ok)); [done|by eapply (at_count_off CCount)|].
    destruct Ha as [[-> ->]|Ha]; [left|by right]. split; [done|]. simpl. by case_decide.
Qed.

Lemma fifo_ends op a first q first' q' rs c :
  fits first q → fits first' q' → fifo first q op a first' q' → at_point (entry op) first q rs c →
  ends rs a first' q' c.
Proof.
  intros Hf Hf' Hop H.
  destruct op as [v| |timeout|timeout|key|]; simpl entry in H;
    [by apply (store_ends v (KPut v) first q)
    |go H s_take_lock; (eapply waiter_ends; [|exact Hf|exact Hop|moved H]; reflexivity)..
    |by apply (erase_ends key (KErase key) first q)|].
  go H s_clear_put. at_now Hw CWantTake first q rs by (moved H).
  go Hw s_clear_take. at_now Ht (CTest ASilent) first q rs by (moved Hw).
  inversion Hop; subst; try done.
  - apply (clear_ends ASilent _ first q []); rewrite ?app_nil_r; [done..|left]. by rewrite decide_False.
  - pose proof (clear_ends ASilent ASilent first' [] [] rs) as E. simpl in E. rewrite Z.add_0_r in E. apply E; auto.
  - eapply (clear_ends ASilent); [done..|right]. eauto.
Qed.

(** *** Every run answers as the abstract queue may *)

Section Converse.
Context (op : kop) (first : Z) (q : list (list byte)) (rs : list (nat * answers)).

(** The answer is known, and the queue is as it will be left. *)
Definition decided (p : pc) (a : answers) c : Prop :=
  ∃ first' q', fifo first q op a first' q' ∧ fits first' q' ∧ at_point p first' q' rs c.
(** [clear] has removed [q1], and [a] is what it would answer. *)
Definition cleared (p : pc) (more : bool) (a : answers) c : Prop :=
  op = KClear ∧ ∃ q1 q2, q = q1 ++ q2 ∧ (more = true → q2 ≠ []) ∧
    a = (if decide (q1 = []) then ASilent else ACode Status.Ok) ∧ at_point p (first + Z.of_nat (length q1)) q2 rs c.

(** What holds at each point of a call of [op]. *)
Definition mid c : Prop :=
  let p := pcs c t in
  match p with
  | Idle => ∃ a first' q', fifo first q op a first' q' ∧ at_point Idle first' q' (rs ++ [(t, a)]) c
  | PWant v | PStore v => op = KPut v ∧ at_point p first q rs c
  | PCount => decided p (ACode Status.Ok) c
  | PLeave _ a | SWant a | SNotify a | TMin a | TCount a | TNotify _ a | TLeave a | CLeave a => decided p a c
  | TWant k | TTest k | TWaiting k | TWoken k => waiter_of op = Some k ∧ at_point p first q rs c
  | TStore => KueueSpec.takes op ∧ q ≠ [] ∧ at_point p first q rs c
  | RStore => (∃ timeout, op = KReadNext timeout) ∧ q ≠ [] ∧ at_point p first q rs c
  | ESee key => op = KErase key ∧ at_point p first q rs c
  | EWant key | ETest key | EStore key => op = KErase key ∧ key = first ∧ at_point p first q rs c
  | CWantPut | CWantTake => op = KClear ∧ at_point p first q rs c
  | CTest a => cleared p false a c
  | CStore => ∃ a, cleared p true a c
  | CMin | CCount => cleared p false (ACode Status.Ok) c
  end.

Hypothesis Hfits : fits first q.
Hypothesis Hready : ready first q op.

Lemma decided_move p p' a c c' :
  decided p a c → pcs c' = upd t p' (pcs c) →
  putLock c' = (if holds_put p' then Some t else None) → takeLock c' = (if holds_take p' then Some t else None) →
  KueueConc.store c' = KueueConc.store c → KueueConc.minKey c' = KueueConc.minKey c →
  KueueConc.maxKey c' = KueueConc.maxKey c → KueueConc.count c' = KueueConc.count c → returned c' = returned c →
  unpassed p' = unpassed p → uncounted p' = uncounted p → unremoved p' = unremoved p →
  decided p' a c'.
Proof. intros (f & q' & Hop & Hf & H). intros. exists f, q'. split; [done|]. split; [done|]. by eapply at_move. Qed.
Lemma decided_ends p a c c' :
  decided p a c → unpassed p = 0 → uncounted p = 0 → unremoved p = 0 →
  putLock c' = None → takeLock c' = None → pcs c' = pcs c →
  KueueConc.store c' = KueueConc.store c → KueueConc.minKey c' = KueueConc.minKey c →
  KueueConc.maxKey c' = KueueConc.maxKey c → KueueConc.count c' = KueueConc.count c → returned c' = returned c →
  mid (returns t a c').
Proof.
  intros (f & q' & Hop & Hf & H). intros. unfold mid. simpl. rewrite upd_same. exists a, f, q'.
  split; [done|]. by eapply at_returns.
Qed.

Ltac arrives := unfold mid; simpl; rewrite upd_same.
Ltac decided_on H := arrives; eapply decided_move; [exact H|done || (destruct H as (? & ? & _ & _ & H); apply H)..].
Ltac decided_end H := eapply decided_ends; [exact H|done || (destruct H as (? & ? & _ & _ & H); apply H)..].

Lemma at_count_now p c : at_point p first q rs c → uncounted p = 0 → unremoved p = 0 → KueueConc.count c = Z.of_nat (length q).
Proof. intros [] H1 H2. rewrite at_count0, H1, H2. lia. Qed.
Lemma at_min_now p f q1 c : at_point p f q1 rs c → unpassed p = 0 → KueueConc.minKey c = f.
Proof. intros [] H. rewrite H in *. lia. Qed.

(** *** The loop of [clear] *)

Lemma cleared_go a c : cleared (CTest a) false a c → 0 < KueueConc.count c → cleared CStore true a (goes t CStore c).
Proof.
  intros (Hop & q1 & q2 & Hq & _ & -> & H) Hc. split; [done|]. exists q1, q2. split; [done|].
  split; [|split; [done|moved H]]. intros _ ->. destruct H. simpl in *. lia.
Qed.
Lemma cleared_done a c : cleared (CTest a) false a c → KueueConc.count c <= 0 → decided (CLeave a) a (goes t (CLeave a) c).
Proof.
  unfold cleared, decided. intros (Hop & q1 & q2 & -> & _ & -> & H) Hc.
  destruct q2 as [|v q2]; [|destruct H; simpl in *; lia].
  exists (first + Z.of_nat (length q1)), []. rewrite app_nil_r in *. split; [|split; [|moved H]].
  - rewrite Hop. case_decide as Hq; [subst; simpl; rewrite Z.add_0_r; apply fifo_clear_empty|by apply fifo_clear].
  - unfold fits in *. simpl. lia.
Qed.
Lemma cleared_removed a c :
  cleared CStore true a c → cleared CMin false (ACode Status.Ok) (goes t CMin (single_removed (KueueConc.minKey c) c)).
Proof.
  intros (Hop & q1 & q2 & Hq & Hne & -> & H). destruct q2 as [|v q2]; [by destruct Hne|].
  split; [done|]. exists (q1 ++ [v]), q2. rewrite <-app_assoc. split; [done|]. split; [done|].
  split; [by rewrite decide_False by (by destruct q1)|]. rewrite length_app. simpl length.
  replace (first + Z.of_nat (length q1 + 1)) with (first + Z.of_nat (length q1) + 1) by lia.
  by eapply (at_single_removed CStore).
Qed.
Lemma cleared_failed a code c :
  cleared CStore true a c → code ≠ Status.Ok → decided (CLeave (ACode code)) (ACode code) (goes t (CLeave (ACode code)) c).
Proof.
  unfold cleared, decided. intros (Hop & q1 & q2 & -> & Hne & -> & H) Hc.
  exists (first + Z.of_nat (length q1)), q2. split; [rewrite Hop; apply fifo_clear_failed; auto|].
  split; [|moved H]. unfold fits in *. rewrite length_app in *. lia.
Qed.
Lemma cleared_passed a c :
  cleared CMin false a c → cleared CCount false a (goes t CCount (with_minKey (u64 (KueueConc.minKey c + 1)) c)).
Proof.
  intros (Hop & q1 & q2 & Hq & Hne & Ha & H). split; [done|]. exists q1, q2.
  split; [done|]. split; [done|]. split; [done|]. eapply (at_pass CMin); [|done..].
  revert Hfits. rewrite Hq. unfold fits. rewrite length_app. lia.
Qed.
Lemma cleared_counted a c :
  cleared CCount false a c → cleared (CTest a) false a (goes t (CTest a) (with_count (i64 (KueueConc.count c - 1)) c)).
Proof.
  intros (Hop & q1 & q2 & Hq & Hne & Ha & H). split; [done|]. exists q1, q2.
  split; [done|]. split; [done|]. split; [done|]. eapply (at_count_off CCount); [|done..].
  revert Hfits. rewrite Hq. unfold fits. rewrite length_app. lia.
Qed.

(** *** Waiting, taking, reading, erasing *)

Lemma goes_on k c :
  waiter_of op = Some k → at_point (TTest k) first q rs c → may_take k (KueueConc.count c) = true →
  mid (goes t (match k with WRead _ => RStore | _ => TStore end) c).
Proof.
  intros Hop H Hgo. assert (q ≠ []) as Hne.
  { revert H. destruct q; [|done]. intros H. by rewrite (may_take_none _ k _ _ _ H) in Hgo. }
  arrives; destruct k; destruct op; try done; (split; [first [done|eauto]|]); (split; [done|]); moved H.
Qed.
Lemma gives_up k c :
  waiter_of op = Some k → at_point (TTest k) first q rs c → may_take k (KueueConc.count c) = false → timed k = true →
  decided (TLeave (AValue Status.TimedOut None None)) (AValue Status.TimedOut None None)
    (goes t (TLeave (AValue Status.TimedOut None None)) c).
Proof.
  unfold decided. intros Hop H Hgo Htm. exists first, q. split; [|split; [done|moved H]]. revert H.
  destruct q as [|v q1]; [|intros H; by rewrite (may_take_front _ k v _ q1 rs _ H) in Hgo].
  intros _. apply fifo_timed_out. destruct k; try done; destruct op; try done; injection Hop as ->;
    by apply bool_decide_eq_true in Htm.
Qed.
Lemma front_is p v c :
  at_point p first q rs c → unpassed p = 0 → KueueConc.store c !! KueueConc.minKey c = Some v → ∃ q1, q = v :: q1.
Proof.
  intros [] Hp Hv. rewrite Hp, Z.add_0_r in *. rewrite at_store0, at_minKey0, value_at_first in Hv.
  destruct q as [|w q1]; [done|]. injection Hv as ->. by exists q1.
Qed.
Lemma taken v c :
  KueueSpec.takes op → at_point TStore first q rs c → KueueConc.store c !! KueueConc.minKey c = Some v →
  decided (TMin (AValue Status.Ok None (answer v))) (AValue Status.Ok None (answer v))
    (goes t (TMin (AValue Status.Ok None (answer v)))
      (log_take v (with_store (delete (KueueConc.minKey c) (KueueConc.store c)) c))).
Proof.
  unfold decided. intros Hop H Hv. destruct (front_is _ v _ H eq_refl Hv) as [q1 ->].
  exists (first + 1), q1. split; [by apply fifo_take|]. split; [unfold fits in *; simpl in *; lia|]. by eapply at_remove.
Qed.
Lemma not_taken_front code a c :
  KueueSpec.takes op → q ≠ [] → at_point TStore first q rs c → not_taken c code a →
  decided (TLeave (AValue code None a)) (AValue code None a) (goes t (TLeave (AValue code None a)) c).
Proof.
  unfold decided. intros Hop Hne H [Hc Ha]. exists first, q. split; [|split; [done|moved H]].
  destruct q as [|w q1]; [done|]. apply fifo_take_failed; [done|done|].
  destruct Ha as [->|(v & Hv & ->)]; [by right|left]. rewrite (at_front _ w _ _ _ _ H) in Hv by done. congruence.
Qed.
Lemma read v timeout c :
  op = KReadNext timeout → at_point RStore first q rs c → KueueConc.store c !! KueueConc.minKey c = Some v →
  decided (TLeave (AValue Status.Ok (Some (KueueConc.minKey c)) (answer v)))
    (AValue Status.Ok (Some (KueueConc.minKey c)) (answer v))
    (goes t (TLeave (AValue Status.Ok (Some (KueueConc.minKey c)) (answer v))) c).
Proof.
  unfold decided. intros Hop H Hv. exists first, q. split; [|split; [done|moved H]].
  destruct (front_is _ v _ H eq_refl Hv) as [q1 ->]. rewrite Hop.
  rewrite (at_min_now _ _ _ _ H) by done. apply fifo_read.
Qed.
Lemma not_read_front code timeout c :
  op = KReadNext timeout → q ≠ [] → at_point RStore first q rs c → not_read c code →
  decided (TLeave (AValue code None None)) (AValue code None None) (goes t (TLeave (AValue code None None)) c).
Proof.
  unfold decided. intros Hop Hne H [Hc Hn]. exists first, q. split; [|split; [done|moved H]].
  rewrite Hop. destruct q as [|w q1]; [done|]. apply fifo_read_failed; [done|]. intros E. specialize (Hn E).
  by rewrite (at_front _ w _ _ _ _ H) in Hn by done.
Qed.
Lemma erased c :
  op = KErase first → at_point (EStore first) first q rs c →
  decided (TMin (AFlag true)) (AFlag true) (goes t (TMin (AFlag true)) (single_removed first c)).
Proof.
  unfold decided. intros Hop H. destruct q as [|w q1].
  { exfalso. revert Hready. rewrite Hop. simpl. naive_solver. }
  exists (first + 1), q1. split; [rewrite Hop; apply fifo_erase|]. split; [unfold fits in *; simpl in *; lia|].
  eapply (at_single_removed (EStore first)); [exact H|done..|]. by rewrite (at_min_now _ _ _ _ H).
Qed.
Lemma stored v c :
  op = KPut v → at_point (PStore v) first q rs c →
  decided PCount (ACode Status.Ok) (goes t PCount (log_put v (with_maxKey (u64 (KueueConc.maxKey c + 1))
    (with_store (<[KueueConc.maxKey c := v]> (KueueConc.store c)) c)))).
Proof.
  intros Hop H. exists first, (q ++ [v]). assert (fits first (q ++ [v])) as Hf.
  { revert Hready. rewrite Hop. unfold fits in *. rewrite length_app. simpl. lia. }
  split; [rewrite Hop; apply fifo_put|]. split; [done|]. by apply at_put.
Qed.

Lemma mid_step c c' : mid c → within c c' → mid c'.
Proof.
  intros Hm [Hstep Hbusy].
  destruct Hstep; unfold mid in Hm; match goal with Hpc : pcs _ t = _ |- _ => rewrite Hpc in Hm, Hbusy end;
    try (by decided_on Hm); try (by decided_end Hm);
    try (by (destruct Hm as [Hop Hm]; arrives; split; [exact Hop|moved Hm]));
    try (by (destruct Hm as (Hop & Hk & Hm); arrives; split; [exact Hop|split; [exact Hk|moved Hm]])).
  - done.
  - destruct Hm as [Hop Hm]. arrives. by apply stored.
  - destruct Hm as [Hop Hm]. arrives. exists first, q. split; [rewrite Hop; by apply fifo_put_failed|].
    split; [done|]. by eapply at_put_failed.
  - destruct Hm as (f & q' & Hop & Hf & Hm). arrives. exists f, q'. split; [done|]. split; [done|]. by apply at_count_on.
  - pose proof Hm as (f & q' & _ & _ & Hat).
    assert (s' = c) as -> by (eapply at_notified; [exact Hat|done|eassumption]). by decided_end Hm.
  - destruct Hm as [Hop Hm]. by apply goes_on.
  - destruct Hm as [Hop Hm]. arrives. by eapply gives_up.
  - destruct Hm as (Hop & Hne & Hm). arrives. by apply taken.
  - destruct Hm as (Hop & Hne & Hm). arrives. by apply not_taken_front.
  - destruct Hm as ((timeout & Hop) & Hne & Hm). arrives. by eapply read.
  - destruct Hm as ((timeout & Hop) & Hne & Hm). arrives. by eapply not_read_front.
  - destruct Hm as (f & q' & Hop & Hf & Hm). arrives. exists f, q'. split; [done|]. split; [done|]. by eapply at_pass.
  - destruct Hm as (f & q' & Hop & Hf & Hm). arrives. exists f, q'. split; [done|]. split; [done|]. by eapply at_count_off.
  - pose proof Hm as (f & q' & _ & _ & Hat).
    assert (s' = c) as -> by (eapply at_notified; [exact Hat|done|eassumption]). by decided_on Hm.
  - destruct Hm as [Hop Hm]. arrives. split; [done|]. split; [by rewrite <-(at_min_now _ _ _ _ Hm)|]. moved Hm.
  - destruct Hm as [Hop Hm]. arrives. exists (AFlag false), first, q.
    split; [rewrite Hop; apply fifo_erase_failed|]. eapply at_returns; [exact Hm|first [done|apply Hm]..].
  - destruct Hm as (Hop & Hk & Hm). by rewrite (at_min_now _ _ _ _ Hm) in *.
  - destruct Hm as (Hop & -> & Hm). arrives. by apply erased.
  - destruct Hm as (Hop & -> & Hm). arrives. exists first, q. split; [rewrite Hop; apply fifo_erase_failed|].
    split; [done|]. moved Hm.
  - destruct Hm as [Hop Hm]. arrives. split; [done|]. exists [], q. split; [done|]. split; [done|]. split; [done|].
    simpl. rewrite Z.add_0_r. moved Hm.
  - arrives. eexists. by apply cleared_go.
  - arrives. by apply cleared_done.
  - destruct Hm as [a Hm]. arrives. by eapply cleared_removed.
  - destruct Hm as [a Hm]. arrives. by eapply cleared_failed.
  - arrives. by apply cleared_passed.
  - arrives. by apply cleared_counted.
Qed.

Lemma mid_start c : at_point Idle first q rs c → mid (goes t (entry op) c).
Proof. intros H. arrives. destruct op; (split; [done|moved H]). Qed.
Lemma mid_run c c' : rtc within c c' → mid c → mid c'.
Proof. induction 1; [done|]. intros H'. apply IHrtc. by eapply mid_step. Qed.
End Converse.
End Runs.

(** Every move of the abstract queue is a run of the call by any one thread. *)
Lemma fifo_is_a_run t op a first q first' q' c :
  fits first q → fits first' q' → fifo first q op a first' q' → resting first q c →
  ∃ c', call_run t op a c c' ∧ resting first' q' c'.
Proof.
  intros Hf Hf' Hop Hr. pose proof (Hr t) as H.
  destruct (fifo_ends t op a first q first' q' (returned c) (goes t (entry op) c)) as (c' & Hrun & Hat); [done..| |].
  { eapply at_move; [exact H|first [done|destruct op; first [done|apply H]]..]. }
  exists c'. split; [|by eapply at_point_resting]. unfold call_run. rewrite (at_pc _ _ _ _ _ _ H).
  split; [done|]. split; [exact Hrun|].
  split; [exact (at_pc _ _ _ _ _ _ Hat)|exact (at_returned _ _ _ _ _ _ Hat)].
Qed.
(** And every such run is a move of the abstract queue. *)
Lemma run_is_fifo t op a first q c c' :
  fits first q → ready first q op → resting first q c → call_run t op a c c' →
  ∃ first' q', fifo first q op a first' q' ∧ resting first' q' c'.
Proof.
  intros Hf Hready Hr (Hi & Hrun & Hi' & Hret).
  pose proof (mid_run t op first q (returned c) Hf Hready _ _ Hrun
    (mid_start t op first q (returned c) Hready c (Hr t))) as Hm.
  unfold mid in Hm. rewrite Hi' in Hm. destruct Hm as (a' & f & q' & Hop & Hat).
  assert (a' = a) as ->.
  { pose proof (at_returned _ _ _ _ _ _ Hat) as E. rewrite Hret in E. by simplify_list_eq. }
  exists f, q'. split; [done|]. by eapply at_point_resting.
Qed.


Lemma resting_initial : resting 0 [] initial.
Proof.
  intros t. constructor; try done. intros k. simpl. unfold value_at. by case_decide.
Qed.

