(* ===== verification/ObjectRegistry.v ===== *)
(** Objects made by name (include/rocksdb/utilities/object_registry.h): patterns of names and the
    factories under them, libraries of factories, and the registry that searches its libraries,
    makes objects with the ownership that was asked for, and shares the ones it manages.
    [PatternEntry::Matches] and the private members that look up managed objects are only declared
    in the header: they are arguments. *)
From S2P Require Import Prelude Slice RocksStatus RocksDB OptionsType.

Local Open Scope Z_scope.

(** ** [ObjectLibrary::PatternEntry] *)

Inductive Quantifier :=
  | kMatchZeroOrMore | kMatchAtLeastOne | kMatchExact | kMatchInteger | kMatchDecimal.

Record PatternEntry := mkPatternEntry {
  name_ : list byte;
  nlength_ : nat;
  names_ : list (list byte);
  optional_ : bool;
  slength_ : nat;
  separators_ : list (list byte * Quantifier);
}.

Definition new_PatternEntry (name : list byte) (optional : bool) : PatternEntry :=
  mkPatternEntry name (length name) [] optional 0 [].
Definition AddSuffix (suffix : list byte) (e : PatternEntry) : PatternEntry :=
  mkPatternEntry (name_ e) (nlength_ e) (names_ e) (optional_ e) (slength_ e + length suffix)
    (separators_ e ++ [(suffix, kMatchExact)]).
Definition AddSeparator (separator : list byte) (at_least_one : bool) (e : PatternEntry) : PatternEntry :=
  let slength := (slength_ e + length separator)%nat in
  if at_least_one then
    mkPatternEntry (name_ e) (nlength_ e) (names_ e) (optional_ e) (S slength)
      (separators_ e ++ [(separator, kMatchAtLeastOne)])
  else
    mkPatternEntry (name_ e) (nlength_ e) (names_ e) (optional_ e) slength
      (separators_ e ++ [(separator, kMatchZeroOrMore)]).
Definition AddNumber (separator : list byte) (is_int : bool) (e : PatternEntry) : PatternEntry :=
  mkPatternEntry (name_ e) (nlength_ e) (names_ e) (optional_ e) (slength_ e + (length separator + 1))
    (separators_ e ++ [(separator, if is_int then kMatchInteger else kMatchDecimal)]).
Definition AnotherName (alt : list byte) (e : PatternEntry) : PatternEntry :=
  mkPatternEntry (name_ e) (nlength_ e) (names_ e ++ [alt]) (optional_ e) (slength_ e) (separators_ e).
Definition SetOptional (optional : bool) (e : PatternEntry) : PatternEntry :=
  mkPatternEntry (name_ e) (nlength_ e) (names_ e) optional (slength_ e) (separators_ e).
Definition AsIndividualId (name : list byte) : PatternEntry :=
  AddSeparator (str "#") true (AddSeparator (str "@") true (new_PatternEntry name true)).

(** ** Objects *)

(** An object with what [Name()] and [GetId()] answer, and how many smart pointers own it: one for a
    [std::unique_ptr], any number for [std::shared_ptr]s, none for an object that is never deleted. *)
Record object := mkObject { object_name : list byte; object_id : list byte; owners : nat }.

(** [managed] is [managed_objects_]: weak pointers.  [used] are the objects there have ever been, so
    that a weak pointer never comes to mean another object. *)
Record state := mkState {
  objects : gmap ptr object;
  used : gset ptr;
  managed : gmap (list byte) ptr;
}.
Definition with_objects (f : gmap ptr object → gmap ptr object) (s : state) : state :=
  mkState (f (objects s)) (used s) (managed s).
Definition with_managed (f : gmap (list byte) ptr → gmap (list byte) ptr) (s : state) : state :=
  mkState (objects s) (used s) (f (managed s)).

Abbreviation MR := (M state).

Definition the_object (p : ptr) : MR object :=
  o ← gets (λ s, objects s !! p);
  match o with Some o => mret o | None => undef UseAfterFree end.
Definition set_owners (p : ptr) (n : nat) : MR unit :=
  o ← the_object p;
  modify (with_objects (<[p := mkObject (object_name o) (object_id o) n]>)).
(** A smart pointer is copied; it goes away, and the last one takes the object with it. *)
Definition retain (p : ptr) : MR unit := o ← the_object p; set_owners p (S (owners o)).
Definition release (p : option ptr) : MR unit :=
  match p with
  | None => mret tt
  | Some p =>
      o ← the_object p;
      match owners o with
      | O => undef DoubleFree
      | S O => modify (with_objects (delete p))
      | S n => set_owners p n
      end
  end.

(** ** Factories and libraries *)

(** What a factory gives: the object, the guard that owns it (or none), and a message. *)
Definition FactoryFunc : Type := list byte → MR (option ptr * option ptr * list byte).

Section Registry.
(** [Status(Code, SubCode, const Slice&, const Slice&, Severity)] and [PatternEntry::Matches] *)
Context (Status_msg : Code → SubCode → Slice → Slice → Severity → Status)
        (Matches : PatternEntry → list byte → bool).

(** A library is a value: what is added to it through another pointer after it was added to a
    registry is not seen.  [factories_] holds, for each type, its entries in the order they were added; a factory may be an
    empty function. *)
Record ObjectLibrary := mkObjectLibrary {
  id_ : list byte;
  factories_ : gmap (list byte) (list (PatternEntry * option FactoryFunc));
}.
Definition new_ObjectLibrary (id : list byte) : ObjectLibrary := mkObjectLibrary id ∅.
Definition AddFactoryEntry (type : list byte) (entry : PatternEntry * option FactoryFunc)
    (l : ObjectLibrary) : ObjectLibrary :=
  mkObjectLibrary (id_ l) (<[type := default [] (factories_ l !! type) ++ [entry]]> (factories_ l)).
Definition AddFactory_name (type name : list byte) (func : option FactoryFunc) (l : ObjectLibrary) :
    ObjectLibrary := AddFactoryEntry type (new_PatternEntry name true, func) l.
Definition AddFactory (type : list byte) (entry : PatternEntry) (func : option FactoryFunc)
    (l : ObjectLibrary) : ObjectLibrary := AddFactoryEntry type (entry, func) l.

(** The loop over the entries of a type: the factory of the first that matches. *)
Fixpoint first_match (entries : list (PatternEntry * option FactoryFunc)) (target : list byte) :
    option FactoryFunc :=
  match entries with
  | [] => None
  | (e, f) :: entries' => if Matches e target then f else first_match entries' target
  end.
Definition Library_FindFactory (type target : list byte) (l : ObjectLibrary) : option FactoryFunc :=
  match factories_ l !! type with
  | Some entries => first_match entries target
  | None => None
  end.

(** ** [ObjectRegistry] *)

(** Its managed objects are part of [state]. *)
#[warnings="-register-all"]
Inductive ObjectRegistry := mkObjectRegistry {
  libraries_ : list ObjectLibrary;
  parent_ : option ObjectRegistry;
}.
Definition new_ObjectRegistry (parent : option ObjectRegistry) : ObjectRegistry :=
  mkObjectRegistry [] parent.
Definition AddLibrary (library : ObjectLibrary) (r : ObjectRegistry) : ObjectRegistry :=
  mkObjectRegistry (libraries_ r ++ [library]) (parent_ r).
Definition AddLibrary_id (id : list byte) (r : ObjectRegistry) : ObjectRegistry :=
  AddLibrary (new_ObjectLibrary id) r.
(** The registrar adds its factories to the new library. *)
Definition AddLibrary_registrar (id : list byte) (registrar : ObjectLibrary → list byte → ObjectLibrary)
    (arg : list byte) (r : ObjectRegistry) : ObjectRegistry :=
  AddLibrary (registrar (new_ObjectLibrary id) arg) r.

(** The libraries, back to front. *)
Fixpoint search_libraries (type name : list byte) (libraries : list ObjectLibrary) : option FactoryFunc :=
  match libraries with
  | [] => None
  | l :: libraries' =>
      match Library_FindFactory type name l with
      | Some f => Some f
      | None => search_libraries type name libraries'
      end
  end.
Fixpoint FindFactory (type name : list byte) (r : ObjectRegistry) : option FactoryFunc :=
  match search_libraries type name (rev (libraries_ r)) with
  | Some f => Some f
  | None =>
      match parent_ r with
      | None => None
      | Some p => FindFactory type name p
      end
  end.

Definition invalid_argument (msg msg2 : list byte) : Status :=
  InvalidArgument_msg Status_msg (Slice_of_string msg) (Slice_of_string msg2).

(** The status, [*object] and [*guard]; the guard given is empty. *)
Definition NewObject (r : ObjectRegistry) (type target : list byte) :
    MR (Status * option ptr * option ptr) :=
  match FindFactory type target r with
  | Some factory =>
      '(object, guard, errmsg) ← factory target;
      match object with
      | Some _ => mret (OK, object, guard)
      | None =>
          if bool_decide (errmsg = [])
          then mret (invalid_argument (str "Could not load " ++ type) target, object, guard)
          else mret (invalid_argument errmsg target, object, guard)
      end
  | None =>
      mret (NotSupported_msg Status_msg (Slice_of_string (str "Could not load " ++ type))
              (Slice_of_string target), None, None)
  end.

(** [*result] before and after; a guard that is not released goes away with the call. *)
Definition NewUniqueObject (r : ObjectRegistry) (type target : list byte) (result : option ptr) :
    MR (Status * option ptr) :=
  '(s, p, guard) ← NewObject r type target;
  if negb (ok s) then release guard ;; mret (s, result)
  else
    match guard with
    | Some g => release result ;; mret (OK, Some g)
    | None =>
        mret (invalid_argument (str "Cannot make a unique " ++ type ++ str " from unguarded one ") target,
              result)
    end.
Definition NewSharedObject (r : ObjectRegistry) (type target : list byte) (result : option ptr) :
    MR (Status * option ptr) :=
  '(s, p, guard) ← NewObject r type target;
  if negb (ok s) then release guard ;; mret (s, result)
  else
    match guard with
    | Some g => release result ;; mret (OK, Some g)
    | None =>
        mret (invalid_argument (str "Cannot make a shared " ++ type ++ str " from unguarded one ") target,
              result)
    end.
Definition NewStaticObject (r : ObjectRegistry) (type target : list byte) (result : option ptr) :
    MR (Status * option ptr) :=
  '(s, p, guard) ← NewObject r type target;
  if negb (ok s) then release guard ;; mret (s, result)
  else
    match guard with
    | Some g =>
        release (Some g) ;;
        mret (invalid_argument (str "Cannot make a static " ++ type ++ str " from a guarded one ") target,
              result)
    | None => mret (OK, p)
    end.

(** ** Managed objects *)

Definition ToManagedObjectKey (type id : list byte) : list byte := type ++ str "://" ++ id.

(** [weak_ptr::lock]: the object, while there is one. *)
Definition lock (p : ptr) : MR (option ptr) :=
  o ← gets (λ s, objects s !! p); mret (match o with Some _ => Some p | None => None end).
(** [*result = object] for a shared pointer *)
Definition assign_shared (result : option ptr) (p : ptr) : MR (option ptr) :=
  retain p ;; release result ;; mret (Some p).

Section Managed.
(** The private members [GetManagedObject(type, id)] (of the parent, here),
    [SetManagedObject(type, id, c)] and [ListManagedObjects(type, pattern, results)]; the pointers the
    first and the last give are owners: the owner a call holds is handed on to its result. *)
Context (GetManagedObject : ObjectRegistry → list byte → list byte → MR (option ptr))
        (SetManagedObject : list byte → list byte → option ptr → MR Status)
        (ListManagedObjects : list byte → list byte → MR (Status * list ptr)).

Definition SetManagedObject_id (type id : list byte) (object : option ptr) : MR Status :=
  SetManagedObject type id object.
Definition SetManagedObject_own (type : list byte) (object : option ptr) : MR Status :=
  match object with
  | None => undef AssertFailed
  | Some p => o ← the_object p; SetManagedObject_id type (object_id o) object
  end.
Definition GetManagedObject_id (r : ObjectRegistry) (type id : list byte) : MR (option ptr) :=
  GetManagedObject r type id.

(** [results] before and after: cleared, and filled only when the listing worked; [customizables]
    goes away with the call. *)
Fixpoint retain_all (ps : list ptr) : MR unit :=
  match ps with [] => mret tt | p :: ps' => retain p ;; retain_all ps' end.
Fixpoint release_all (ps : list ptr) : MR unit :=
  match ps with [] => mret tt | p :: ps' => release (Some p) ;; release_all ps' end.
Definition ListManagedObjects_id (type id : list byte) (results : list ptr) : MR (Status * list ptr) :=
  release_all results ;;
  '(s, customizables) ← ListManagedObjects type id;
  if ok s then retain_all customizables ;; release_all customizables ;; mret (s, customizables)
  else release_all customizables ;; mret (s, []).
Definition ListManagedObjects_type (type : list byte) (results : list ptr) : MR (Status * list ptr) :=
  ListManagedObjects_id type [] results.

(** The object of the managed entry under a key, while it lives. *)
Definition find_managed (key : list byte) : MR (option ptr) :=
  w ← gets (λ s, managed s !! key);
  match w with Some p => lock p | None => mret None end.

(** The tail of [GetOrCreateManagedObject]: the object is made, configured and entered. *)
Definition create_managed (r : ObjectRegistry) (type id : list byte) (result : option ptr)
    (cfunc : option (ptr → MR Status)) : MR (Status * option ptr) :=
  let key := ToManagedObjectKey type id in
  '(s, object) ← NewSharedObject r type id None;
  s ←
    match cfunc, object with
    | Some f, Some p => if ok s then f p else mret s
    | Some f, None => if ok s then undef NullDeref else mret s
    | None, _ => mret s
    end;
  if ok s then
    p ← deref object;
    c ← the_object p;
    (if bool_decide (id ≠ object_name c) then modify (with_managed (<[key := p]>)) else mret tt) ;;
    (if bool_decide (id ≠ object_id c) && bool_decide (object_id c ≠ object_name c)
     then modify (with_managed (<[ToManagedObjectKey type (object_id c) := p]>)) else mret tt) ;;
    release result ;;
    mret (s, Some p)
  else release object ;; mret (s, result).

Definition GetOrCreateManagedObject (r : ObjectRegistry) (type id : list byte)
    (result : option ptr) (cfunc : option (ptr → MR Status)) : MR (Status * option ptr) :=
  from_parent ← match parent_ r with
                | Some p => GetManagedObject p type id
                | None => mret None
                end;
  match from_parent with
  | Some p => release result ;; mret (OK, Some p)
  | None =>
      found ← find_managed (ToManagedObjectKey type id);
      match found with
      | Some p => result ← assign_shared result p; mret (OK, result)
      | None => create_managed r type id result cfunc
      end
  end.
End Managed.
End Registry.
