(* ===== verification/RegistrySpec.v ===== *)
(** What the registry of ObjectRegistry.v does: which factory a name finds, who owns the objects
    that are made, and when an object is shared. *)
From S2P Require Import Prelude Slice RocksStatus RocksDB OptionsType ObjectRegistry.

Local Open Scope Z_scope.

(** ** Patterns *)

(** The fewest characters a separator and what must follow it take. *)
Definition least_length (p : list byte * Quantifier) : nat :=
  length p.1 + match p.2 with kMatchZeroOrMore | kMatchExact => 0 | kMatchAtLeastOne | kMatchInteger => 1 | kMatchDecimal => 3 end.
Definition entry_ok (e : PatternEntry) : Prop :=
  nlength_ e = length (name_ e) ∧ (slength_ e <= list_sum (least_length <$> separators_ e))%nat.

Lemma list_sum_snoc l x : list_sum (l ++ [x]) = (list_sum l + x)%nat.
Proof. induction l as [|y l IH]; simpl; lia. Qed.

Lemma sum_snoc l x :
  list_sum (least_length <$> (l ++ [x])) = (list_sum (least_length <$> l) + least_length x)%nat.
Proof. rewrite fmap_app. apply list_sum_snoc. Qed.

(** The builders keep [slength_] a lower bound, so that a shorter target can be turned down. *)
Lemma builders_keep_the_bound e s b :
  entry_ok e → entry_ok (AddSuffix s e) ∧ entry_ok (AddSeparator s b e) ∧ entry_ok (AddNumber s b e) ∧
  entry_ok (AnotherName s e) ∧ entry_ok (SetOptional b e).
Proof.
  intros [H1 H2]. unfold entry_ok, AddSuffix, AddSeparator, AddNumber, AnotherName, SetOptional.
  destruct b; cbn [name_ nlength_ names_ optional_ slength_ separators_];
    rewrite ?sum_snoc; generalize dependent (list_sum (least_length <$> separators_ e));
    intros n Hn; unfold least_length; cbn [fst snd]; split_and!; (done || lia).
Qed.

(** ** Searching *)

Section Search.
Context (Matches : PatternEntry → list byte → bool).

(** The library added last is asked first ... *)
Lemma latest_library_first type name l r :
  FindFactory Matches type name (AddLibrary l r) =
    match Library_FindFactory Matches type name l with
    | Some f => Some f
    | None => FindFactory Matches type name r
    end.
Proof.
  destruct r as [libs parent]. simpl. rewrite rev_app_distr. simpl.
  by destruct (Library_FindFactory Matches type name l).
Qed.

(** ... and within a library the entry added first. *)
Lemma earliest_entry_first type name e f l :
  Library_FindFactory Matches type name (AddFactory type e f l) =
    match factories_ l !! type with
    | Some entries =>
        if existsb (λ ef, Matches ef.1 name) entries then first_match Matches entries name
        else if Matches e name then f else None
    | None => if Matches e name then f else None
    end.
Proof.
  unfold Library_FindFactory, AddFactory, AddFactoryEntry. simpl. rewrite lookup_insert_eq.
  destruct (factories_ l !! type) as [entries|]; [|done]. simpl.
  induction entries as [|[e' f'] entries IH]; [done|]. simpl. by destruct (Matches e' name).
Qed.
End Search.

(** ** Making objects *)

Section Objects.
Context (Status_msg : Code → SubCode → Slice → Slice → Severity → Status)
        (Matches : PatternEntry → list byte → bool).
Hypothesis Status_msg_code : ∀ c sc a b sev, code (Status_msg c sc a b sev) = c.

(** Live objects and managed ones are objects there have been. *)
Definition state_ok (s : state) : Prop :=
  (∀ p, is_Some (objects s !! p) → p ∈ used s) ∧ (∀ k p, managed s !! k = Some p → p ∈ used s).

(** What a factory does: it makes an object, guarded (the caller owns it) or not (nobody does), or
    none at all. *)
Definition made (s : state) (p : ptr) (o : object) (s' : state) : Prop :=
  (p ∉ used s) ∧ s' = mkState (<[p := o]> (objects s)) ({[p]} ∪ used s) (managed s).
Definition factory_ok (f : FactoryFunc) : Prop :=
  ∀ target s, state_ok s → wp (f target) (λ '(obj, guard, _) s',
    (obj = None ∧ guard = None ∧ s' = s) ∨
    ∃ p o, obj = Some p ∧ made s p o s' ∧
      ((guard = Some p ∧ owners o = 1%nat) ∨ (guard = None ∧ owners o = 0%nat))) s.
Definition factories_ok (r : ObjectRegistry) (type : list byte) : Prop :=
  ∀ target f, FindFactory Matches type target r = Some f → factory_ok f.

Lemma invalid_not_ok a b : ok (invalid_argument Status_msg a b) = false.
Proof. unfold ok, invalid_argument, InvalidArgument_msg, Status_msg2. by rewrite Status_msg_code. Qed.
Lemma unsupported_not_ok a b : ok (NotSupported_msg Status_msg a b) = false.
Proof. unfold ok, NotSupported_msg, Status_msg2. by rewrite Status_msg_code. Qed.

(** [NewObject] fails with nothing made, or gives what the factory made. *)
Lemma NewObject_spec r type target s :
  factories_ok r type → state_ok s →
  wp (NewObject Status_msg Matches r type target) (λ '(st, obj, guard) s',
    (ok st = false ∧ obj = None ∧ guard = None ∧ s' = s) ∨
    st = OK ∧ ∃ p o, obj = Some p ∧ made s p o s' ∧
      ((guard = Some p ∧ owners o = 1%nat) ∨ (guard = None ∧ owners o = 0%nat))) s.
Proof.
  intros Hf Hs. unfold NewObject. destruct (FindFactory Matches type target r) as [f|] eqn:E.
  - apply wp_bind. eapply wp_mono; [by apply (Hf target f E target s)|].
    intros [[obj guard] msg] s' [(-> & -> & ->)|(p & o & -> & Hm & Hg)].
    + case_bool_decide; apply wp_ret; left; by rewrite invalid_not_ok.
    + apply wp_ret. right. split; [done|]. by exists p, o.
  - apply wp_ret. left. by rewrite unsupported_not_ok.
Qed.

Lemma wp_the_object p o Q s : objects s !! p = Some o → Q o s → wp (the_object p) Q s.
Proof. intros E HQ. unfold the_object. apply wp_bind, wp_gets. by rewrite E. Qed.

(** A pointer that is the only owner, or none. *)
Definition sole_owner (p : option ptr) (s : state) : Prop :=
  match p with Some q => ∃ o, objects s !! q = Some o ∧ owners o = 1%nat | None => True end.
Definition without (p : option ptr) (m : gmap ptr object) : gmap ptr object :=
  match p with Some q => delete q m | None => m end.

Lemma release_sole p Q s :
  sole_owner p s → Q tt (with_objects (without p) s) → wp (release p) Q s.
Proof.
  destruct p as [p|]; simpl.
  - intros (o & E & Ho) HQ. apply wp_bind. eapply wp_the_object; [done|]. rewrite Ho. by apply wp_modify.
  - intros _ HQ. apply wp_ret. by destruct s.
Qed.

Lemma made_keeps s p o s' q : made s p o s' → state_ok s → sole_owner q s → sole_owner q s' ∧ q ≠ Some p.
Proof.
  intros [Hp ->] Hs Hq. destruct q as [q|]; [|done]. destruct Hq as (oq & E & Hq).
  assert (q ≠ p) as Hne by (intros ->; apply Hp, Hs; by exists oq). split; [|congruence].
  exists oq. simpl. by rewrite lookup_insert_ne.
Qed.

(** What a call that makes an object leaves of the objects: the new one with one owner, the one the
    result held before gone; or nothing changed, an object nobody owns apart. *)
Definition owned_post (s : state) (result : option ptr) (out : Status * option ptr) (s' : state) : Prop :=
  (ok out.1 = true ∧ ∃ p o, out.2 = Some p ∧ (p ∉ used s) ∧ owners o = 1%nat ∧
     objects s' = <[p := o]> (without result (objects s))) ∨
  (ok out.1 = false ∧ out.2 = result ∧
     (objects s' = objects s ∨
      ∃ p o, (p ∉ used s) ∧ owners o = 0%nat ∧ objects s' = <[p := o]> (objects s))).

Lemma without_insert q p o m : q ≠ Some p → without q (<[p := o]> m) = <[p := o]> (without q m).
Proof. destruct q as [q|]; simpl; [|done]. intros Hne. rewrite delete_insert_ne; [done|congruence]. Qed.

Lemma owned_object_spec r type target result s (msg : list byte) :
  factories_ok r type → state_ok s → sole_owner result s →
  wp ('(st, p, guard) ← NewObject Status_msg Matches r type target;
      if negb (ok st) then release guard ;; mret (st, result)
      else match guard with
           | Some g => release result ;; mret (OK, Some g)
           | None => mret (invalid_argument Status_msg msg target, result)
           end) (owned_post s result) s.
Proof.
  intros Hf Hs Hres. apply wp_bind. eapply wp_mono; [by apply NewObject_spec|].
  intros [[st obj] guard] s' [(Hst & -> & -> & ->)|(-> & p & o & -> & Hm & Hg)].
  - rewrite Hst. simpl negb. apply wp_bind, release_sole; [done|]. apply wp_ret. right. simpl.
    split; [done|]. split; [done|]. by left.
  - change (negb (ok OK)) with false. cbn iota. destruct Hg as [[-> Ho]|[-> Ho]].
    + destruct (made_keeps s p o s' result Hm Hs Hres) as [Hres' Hne].
      apply wp_bind, release_sole; [done|]. apply wp_ret. left. split; [done|]. exists p, o.
      destruct Hm as [Hp ->]. simpl. split; [done|]. split; [done|]. split; [done|]. by apply without_insert.
    + apply wp_ret. right. cbn [fst snd]. rewrite invalid_not_ok. split; [done|]. split; [done|]. right.
      exists p, o. destruct Hm as [Hp ->]. done.
Qed.

(** Objects made by name have the ownership that was asked for.  A unique or shared object that
    is made has exactly one owner, the result, and the object the result held before is deleted; a
    static object has none and is never deleted; and a call that fails leaves the result as it was
    and no object behind, except that an unguarded object its factory made stays, as static ones
    do, when a unique or shared one was asked for. *)
Theorem new_objects_have_the_owner_asked_for r type target result s :
  factories_ok r type → state_ok s → sole_owner result s →
  wp (NewUniqueObject Status_msg Matches r type target result) (owned_post s result) s ∧
  wp (NewSharedObject Status_msg Matches r type target result) (owned_post s result) s ∧
  wp (NewStaticObject Status_msg Matches r type target result) (λ out s',
    (ok out.1 = true ∧ ∃ p o, out.2 = Some p ∧ (p ∉ used s) ∧ owners o = 0%nat ∧
       objects s' = <[p := o]> (objects s)) ∨
    (ok out.1 = false ∧ out.2 = result ∧ objects s' = objects s)) s.
Proof.
  intros Hf Hs Hres. split; [by apply owned_object_spec|]. split; [by apply owned_object_spec|].
  unfold NewStaticObject. apply wp_bind. eapply wp_mono; [by apply NewObject_spec|].
  intros [[st obj] guard] s' [(Hst & -> & -> & ->)|(-> & p & o & -> & [Hp ->] & [[-> Ho]|[-> Ho]])].
  - rewrite Hst. simpl negb. apply wp_bind, release_sole; [done|]. apply wp_ret. by right.
  - change (negb (ok OK)) with false. cbn iota. apply wp_bind, release_sole.
    { exists o. simpl. by rewrite lookup_insert_eq. }
    apply wp_ret. right. simpl. rewrite invalid_not_ok. split; [done|]. split; [done|].
    rewrite delete_insert_id; [done|]. apply eq_None_not_Some. intros Hsome. by apply Hp, Hs.
  - change (negb (ok OK)) with false. cbn iota. apply wp_ret. left. split; [done|]. by exists p, o.
Qed.

(** ** Sharing objects *)

(** Nothing known before has changed. *)
Definition undisturbed (s s' : state) : Prop :=
  state_ok s' ∧ managed s' = managed s ∧ used s ⊆ used s' ∧
  ∀ q, q ∈ used s → objects s' !! q = objects s !! q.

Lemma made_state_ok s p o s' : made s p o s' → state_ok s → state_ok s'.
Proof.
  intros [Hp ->] [H1 H2]. split; simpl.
  - intros q [x Hx]. destruct (decide (q = p)) as [->|Hne]; [set_solver|].
    rewrite lookup_insert_ne in Hx by done. apply elem_of_union_r, H1. by exists x.
  - intros k q Hq. apply H2 in Hq. set_solver.
Qed.

Lemma made_undisturbed s p o s' : made s p o s' → state_ok s → undisturbed s s'.
Proof.
  intros Hm Hs. split; [by eapply made_state_ok|]. destruct Hm as [Hp ->]. split; [done|]. simpl.
  split; [set_solver|]. intros q Hq. rewrite lookup_insert_ne; [done|]. by intros ->.
Qed.
Lemma undisturbed_refl s : state_ok s → undisturbed s s.
Proof. intros Hs. split; [exact Hs|]. split; [done|]. by split. Qed.

Lemma NewSharedObject_spec r type id s :
  factories_ok r type → state_ok s →
  wp (NewSharedObject Status_msg Matches r type id None) (λ out s',
    (ok out.1 = false ∧ out.2 = None ∧ undisturbed s s') ∨
    out.1 = OK ∧ ∃ p o, out.2 = Some p ∧ made s p o s' ∧ owners o = 1%nat) s.
Proof.
  intros Hf Hs. unfold NewSharedObject. apply wp_bind. eapply wp_mono; [by apply NewObject_spec|].
  intros [[st obj] guard] s' [(Hst & -> & -> & ->)|(-> & p & o & -> & Hm & [[-> Ho]|[-> Ho]])].
  - rewrite Hst. apply wp_bind, wp_ret, wp_ret. left. split_and!; by try apply undisturbed_refl.
  - apply wp_bind, wp_ret, wp_ret. right. split; [done|]. by exists p, o.
  - apply wp_ret. left. cbn [fst snd]. rewrite invalid_not_ok. split; [done|]. split; [done|].
    by eapply made_undisturbed.
Qed.

(** The entries a new object gets: under the identifier it was asked for by, unless that is the name
    of its class, and under its own identifier, unless that is one of the two. *)
Definition entered (type id : list byte) (p : ptr) (o : object) (m : gmap (list byte) ptr) :
    gmap (list byte) ptr :=
  let m := if bool_decide (id ≠ object_name o) then <[ToManagedObjectKey type id := p]> m else m in
  if bool_decide (id ≠ object_id o) && bool_decide (object_id o ≠ object_name o)
  then <[ToManagedObjectKey type (object_id o) := p]> m else m.

Lemma wp_when_modify (b : bool) f Q (s : state) :
  Q tt (if b then f s else s) → wp (if b then modify f else mret tt) Q s.
Proof. destruct b; [apply wp_modify|apply wp_ret]. Qed.

Lemma create_managed_spec r type id s :
  factories_ok r type → state_ok s →
  wp (create_managed Status_msg Matches r type id None None) (λ out s',
    (ok out.1 = false ∧ out.2 = None ∧ undisturbed s s') ∨
    out.1 = OK ∧ ∃ p o s1, out.2 = Some p ∧ made s p o s1 ∧ owners o = 1%nat ∧
      s' = with_managed (entered type id p o) s1) s.
Proof.
  intros Hf Hs. unfold create_managed. apply wp_bind. eapply wp_mono; [by apply NewSharedObject_spec|].
  intros [st obj] s' [(Hst & Hobj & Hu)|(Hst & p & o & Hobj & Hm & Ho)]; cbn [fst snd] in *; subst obj.
  - apply wp_bind, wp_ret. rewrite Hst. apply wp_bind, wp_ret, wp_ret. by left.
  - subst st. apply wp_bind, wp_ret. change (ok OK) with true. cbn iota.
    apply wp_bind. eapply wp_deref; [done|]. apply wp_bind.
    eapply (wp_the_object p o); [destruct Hm as [_ ->]; simpl; by rewrite lookup_insert_eq|].
    apply wp_bind, wp_when_modify, wp_bind, wp_when_modify, wp_bind, wp_ret, wp_ret. right. split; [done|].
    exists p, o, s'. split; [done|]. split; [done|]. split; [done|]. unfold entered.
    by destruct s', (_ && _), (bool_decide (id ≠ object_name o)).
Qed.

Lemma key_inj type id1 id2 : ToManagedObjectKey type id1 = ToManagedObjectKey type id2 → id1 = id2.
Proof. unfold ToManagedObjectKey. by intros ?%app_inv_head%app_inv_head. Qed.

(** The entry of the identifier asked for. *)
Lemma entered_lookup type id p o m :
  entered type id p o m !! ToManagedObjectKey type id =
    if bool_decide (id ≠ object_name o) then Some p else m !! ToManagedObjectKey type id.
Proof.
  unfold entered. assert (bool_decide (id ≠ object_id o) && bool_decide (object_id o ≠ object_name o) = true →
    ToManagedObjectKey type (object_id o) ≠ ToManagedObjectKey type id) as Hne.
  { intros [E _]%andb_true_iff. apply bool_decide_eq_true in E. intros ?%key_inj. by apply E. }
  destruct (_ && _); [rewrite lookup_insert_ne by (by apply Hne)|];
    (case_bool_decide; [by rewrite lookup_insert_eq|done]).
Qed.

Lemma wp_find_managed key Q s :
  Q (match managed s !! key with
     | Some p => match objects s !! p with Some _ => Some p | None => None end
     | None => None
     end) s → wp (find_managed key) Q s.
Proof.
  intros HQ. unfold find_managed. apply wp_bind, wp_gets.
  destruct (managed s !! key) as [p|]; [|by apply wp_ret]. unfold lock. by apply wp_bind, wp_gets, wp_ret.
Qed.

Section Sharing.
Context (GetManagedObject : ObjectRegistry → list byte → list byte → MR (option ptr)).
Abbreviation get_or_create r type id :=
  (GetOrCreateManagedObject Status_msg Matches GetManagedObject r type id None None).

Lemma get_or_create_wp r type id s Q :
  parent_ r = None →
  (∀ p o, managed s !! ToManagedObjectKey type id = Some p → objects s !! p = Some o →
     Q (OK, Some p) (with_objects (<[p := mkObject (object_name o) (object_id o) (S (owners o))]>) s)) →
  ((∀ p, managed s !! ToManagedObjectKey type id = Some p → objects s !! p = None) →
     wp (create_managed Status_msg Matches r type id None None) Q s) →
  wp (get_or_create r type id) Q s.
Proof.
  intros Hpar H1 H2. unfold GetOrCreateManagedObject. rewrite Hpar.
  apply wp_bind, wp_ret, wp_bind, wp_find_managed.
  destruct (managed s !! _) as [p|] eqn:Ep; [destruct (objects s !! p) as [o|] eqn:Eo|].
  - apply wp_bind. unfold assign_shared, retain, set_owners. apply wp_bind, wp_bind.
    eapply wp_the_object; [exact Eo|]. apply wp_bind. eapply wp_the_object; [exact Eo|].
    apply wp_modify. apply wp_bind, wp_ret, wp_ret, wp_ret. by eapply H1.
  - apply H2. intros q Hq. congruence.
  - apply H2. intros q Hq. congruence.
Qed.

Lemma get_or_create_finishes r type id s :
  parent_ r = None → factories_ok r type → state_ok s → wp (get_or_create r type id) (λ _ _, True) s.
Proof.
  intros Hpar Hf Hs. apply get_or_create_wp; [done|done|]. intros _.
  eapply wp_mono; [by apply create_managed_spec|done].
Qed.

(** C22. [GetOrCreateManagedObject] on a registry without a parent, for an identifier under which
    nothing lives: when it makes an object, that is one owned by the result alone; and a second call
    answers the same object, now with two owners and nothing made, unless the identifier is the
    object's class name: then each call makes an object of its own. *)
Theorem managed_objects_are_shared r type id s :
  parent_ r = None → factories_ok r type → state_ok s →
  (∀ p, managed s !! ToManagedObjectKey type id = Some p → objects s !! p = None) →
  wp (a ← get_or_create r type id; b ← get_or_create r type id; mret (a, b)) (λ '(a, b) s',
    ok a.1 = true → ∃ p o, a.2 = Some p ∧ objects s' !! p = Some o ∧
      (object_name o ≠ id → b = (OK, Some p) ∧ owners o = 2%nat ∧ dom (objects s') = {[p]} ∪ dom (objects s)) ∧
      (object_name o = id → owners o = 1%nat ∧ b.2 ≠ Some p)) s.
Proof.
  intros Hpar Hf Hs Hdead. apply wp_bind, get_or_create_wp; [done| |intros _].
  { intros p o Hp Ho. by rewrite (Hdead p Hp) in Ho. }
  eapply wp_mono; [by apply create_managed_spec|].
  intros [st1 res1] s' [(Hst & Hres & Hu)|(Hst & p & o & s1 & Hres & Hm & Ho & ->)]; cbn [fst snd] in *; subst.
  { apply wp_bind. eapply wp_mono; [apply get_or_create_finishes; [done|done|apply Hu]|].
    intros b s2 _. apply wp_ret. simpl. by rewrite Hst. }
  pose proof (made_state_ok _ _ _ _ Hm Hs) as Hs1. destruct Hm as [Hp ->].
  assert (state_ok (with_managed (entered type id p o)
    (mkState (<[p := o]> (objects s)) ({[p]} ∪ used s) (managed s)))) as Hs2.
  { destruct Hs1 as [H1 H2]. split; [exact H1|]. simpl in *. intros k q Hq. unfold entered in Hq.
    assert (q = p ∨ managed s !! k = Some q) as [->|Hk]; [|set_solver|by eapply H2].
    destruct (_ && _) in Hq; case_bool_decide;
      repeat (apply lookup_insert_Some in Hq as [[_ <-]|[_ Hq]]; [by left|]); by right. }
  apply wp_bind, get_or_create_wp; [done|intros p' o' Hp' Ho'|intros Hnone]; simpl in *;
    rewrite ?entered_lookup in *.
  - apply wp_ret. intros _. case_bool_decide as Hn.
    + injection Hp' as <-. rewrite lookup_insert_eq in Ho'. injection Ho' as <-.
      eexists p, _. split; [done|]. simpl. rewrite lookup_insert_eq. split; [done|]. split; [|by intros <-].
      intros _. simpl. rewrite Ho. split; [done|]. split; [done|].
      rewrite insert_insert_eq. by rewrite dom_insert_L.
    + pose proof (Hdead p' Hp') as Hd. rewrite lookup_insert_ne in Ho'; [congruence|].
      intros <-. apply Hp. by apply (proj2 Hs) in Hp'.
  - case_bool_decide as Hn; [by pose proof (Hnone p eq_refl) as Hp'; rewrite lookup_insert_eq in Hp'|].
    eapply wp_mono; [by apply create_managed_spec|].
    intros [st2 res2] s2 Hout. apply wp_ret. intros _. exists p, o. split; [done|].
    assert (id = object_name o) as <- by (destruct (decide (id = object_name o)); [done|by destruct Hn]).
    destruct Hout as [(_ & -> & Hu)|(_ & p2 & o2 & s3 & -> & [Hp2 ->] & _ & ->)]; cbn [fst snd] in *.
    + destruct Hu as (_ & _ & _ & Hu). rewrite Hu by (simpl; set_solver). simpl. rewrite lookup_insert_eq.
      split; [done|]. by split.
    + simpl in *. assert (p2 ≠ p) by set_solver. rewrite lookup_insert_ne by done. rewrite lookup_insert_eq.
      split; [done|]. split; [done|]. intros _. split; [done|]. congruence.
Qed.
End Sharing.
End Objects.
