(* ===== verification/Customizable.v ===== *)
(** Objects from their configuration (include/rocksdb/utilities/customizable_util.h): the registry
    makes an object and the options configure it.  The static members of [Customizable] and
    [ConfigureFromMap] are compiled elsewhere; [config_options.registry] is the registry [r]. *)
From S2P Require Import Prelude Slice RocksStatus RocksDB OptionsType ObjectRegistry RegistrySpec.

Local Open Scope Z_scope.

Abbreviation options_map := (gmap (list byte) (list byte)).

Section Customizable.
Context (Status_msg : Code → SubCode → Slice → Slice → Severity → Status)
        (Matches : PatternEntry → list byte → bool)
        (GetManagedObject : ObjectRegistry → list byte → list byte → MR (option ptr)).
Context (ConfigureNewObject : ConfigOptions → option ptr → options_map → MR Status)
        (GetOptionsMap : ConfigOptions → option ptr → list byte → MR (Status * list byte * options_map))
        (ConfigureFromMap : ptr → ConfigOptions → options_map → MR Status).
Context (r : ObjectRegistry) (type : list byte).

Definition cannot_reset : Status :=
  NotSupported_msg Status_msg (Slice_of_string (str "Cannot reset object ")) empty_slice.

(** Each function takes [*result] and gives the status and [*result] afterwards. *)
Definition NewSharedObject (config_options : ConfigOptions) (id : list byte) (opt_map : options_map)
    (result : option ptr) : MR (Status * option ptr) :=
  if bool_decide (id ≠ []) then
    '(status, result) ← ObjectRegistry.NewSharedObject Status_msg Matches r type id result;
    if ignore_unsupported_options config_options && IsNotSupported status then mret (OK, result)
    else if ok status then
      status ← ConfigureNewObject config_options result opt_map; mret (status, result)
    else mret (status, result)
  else if bool_decide (opt_map = ∅) then release result ;; mret (OK, None)
  else mret (cannot_reset, result).

Definition NewManagedObject (config_options : ConfigOptions) (id : list byte) (opt_map : options_map)
    (result : option ptr) : MR (Status * option ptr) :=
  if bool_decide (id ≠ []) then
    '(status, result) ← GetOrCreateManagedObject Status_msg Matches GetManagedObject r type id result
                          (Some (λ object, ConfigureFromMap object config_options opt_map));
    if ignore_unsupported_options config_options && IsNotSupported status then mret (OK, result)
    else mret (status, result)
  else mret (cannot_reset, result).

Definition LoadSharedObject (config_options : ConfigOptions) (value : list byte) (result : option ptr) :
    MR (Status * option ptr) :=
  '(status, id, opt_map) ← GetOptionsMap config_options result value;
  if negb (ok status) then mret (status, result)
  else NewSharedObject config_options id opt_map result.

Definition LoadManagedObject (config_options : ConfigOptions) (value : list byte) (result : option ptr) :
    MR (Status * option ptr) :=
  '(status, id, opt_map) ← GetOptionsMap config_options None value;
  if negb (ok status) then mret (status, result)
  else if bool_decide (value = []) then release result ;; mret (OK, None)
  else NewManagedObject config_options id opt_map result.

Definition NewUniqueObject (config_options : ConfigOptions) (id : list byte) (opt_map : options_map)
    (result : option ptr) : MR (Status * option ptr) :=
  if bool_decide (id ≠ []) then
    '(status, result) ← ObjectRegistry.NewUniqueObject Status_msg Matches r type id result;
    if ignore_unsupported_options config_options && IsNotSupported status then mret (OK, result)
    else if ok status then
      status ← ConfigureNewObject config_options result opt_map; mret (status, result)
    else mret (status, result)
  else if bool_decide (opt_map = ∅) then release result ;; mret (OK, None)
  else mret (cannot_reset, result).

Definition LoadUniqueObject (config_options : ConfigOptions) (value : list byte) (result : option ptr) :
    MR (Status * option ptr) :=
  '(status, id, opt_map) ← GetOptionsMap config_options result value;
  if negb (ok status) then mret (status, result)
  else NewUniqueObject config_options id opt_map result.

Definition NewStaticObject (config_options : ConfigOptions) (id : list byte) (opt_map : options_map)
    (result : option ptr) : MR (Status * option ptr) :=
  if bool_decide (id ≠ []) then
    '(status, result) ← ObjectRegistry.NewStaticObject Status_msg Matches r type id result;
    if ignore_unsupported_options config_options && IsNotSupported status then mret (OK, result)
    else if ok status then
      status ← ConfigureNewObject config_options result opt_map; mret (status, result)
    else mret (status, result)
  else if bool_decide (opt_map = ∅) then mret (OK, None)
  else mret (cannot_reset, result).

Definition LoadStaticObject (config_options : ConfigOptions) (value : list byte) (result : option ptr) :
    MR (Status * option ptr) :=
  '(status, id, opt_map) ← GetOptionsMap config_options result value;
  if negb (ok status) then mret (status, result)
  else NewStaticObject config_options id opt_map result.

(** ** What they do *)

Hypothesis Status_msg_code : ∀ c sc a b sev, code (Status_msg c sc a b sev) = c.
(** Configuring an object leaves the ownership of objects alone. *)
Context (verdict : ConfigOptions → option ptr → options_map → Status).
Hypothesis configure_verdict :
  ∀ o p m s, ConfigureNewObject o p m s = Done (verdict o p m, s).

(** A call of the registry, and the configuration after it. *)
Lemma configured_spec mk config_options opt_map result s :
  wp mk (owned_post s result) s →
  wp ('(status, res) ← mk;
      if ignore_unsupported_options config_options && IsNotSupported status then mret (OK, res)
      else if ok status then status ← ConfigureNewObject config_options res opt_map; mret (status, res)
      else mret (status, res)) (λ out s', ∃ st,
        owned_post s result (st, out.2) s' ∧
        out.1 = if ok st then verdict config_options out.2 opt_map
                else if ignore_unsupported_options config_options && IsNotSupported st then OK else st) s.
Proof.
  intros Hmk. apply wp_bind. eapply wp_mono; [done|]. intros [st res] s' Hpost. cbn iota beta.
  assert (IsNotSupported st = true → ok st = false) as Hns.
  { unfold IsNotSupported, ok. intros E%bool_decide_eq_true. by rewrite E. }
  destruct (ignore_unsupported_options config_options && IsNotSupported st) eqn:E.
  - apply wp_ret. exists st. split; [done|]. apply andb_true_iff in E as [E1 E2].
    cbn [fst snd]. by rewrite (Hns E2), E1, E2.
  - destruct (ok st) eqn:Ok.
    + apply wp_bind. eapply wp_done; [apply configure_verdict|]. apply wp_ret. exists st.
      split; [done|]. by rewrite Ok.
    + apply wp_ret. exists st. split; [done|]. by rewrite Ok, E.
Qed.

(** An object from its configuration, shared or unique.  With an identifier the registry makes the
    object; what it answers is passed on, except that an unsupported identifier may be ignored, and
    an object that was made is the result and has one owner, whatever its configuration says: the
    status is then the verdict of the configuration.  Without an identifier the result is cleared,
    or, when there are options, refused. *)
Theorem objects_are_made_and_then_configured config_options id opt_map result s :
  factories_ok Matches r type → state_ok s → sole_owner result s →
  let post (out : Status * option ptr) (s' : state) :=
    (id ≠ [] → ∃ st, owned_post s result (st, out.2) s' ∧
       out.1 = if ok st then verdict config_options out.2 opt_map
               else if ignore_unsupported_options config_options && IsNotSupported st then OK else st) ∧
    (id = [] → opt_map = ∅ → out = (OK, None) ∧ objects s' = without result (objects s)) ∧
    (id = [] → opt_map ≠ ∅ → IsNotSupported out.1 = true ∧ out.2 = result ∧ s' = s) in
  wp (NewSharedObject config_options id opt_map result) post s ∧
  wp (NewUniqueObject config_options id opt_map result) post s.
Proof.
  intros Hf Hs Hres post. unfold NewSharedObject, NewUniqueObject. case_bool_decide as Hid.
  - split; (eapply wp_mono; [apply configured_spec, owned_object_spec; done|]);
      intros out s' Hout; by split_and!.
  - assert (wp (if bool_decide (opt_map = ∅) then release result ;; mret (OK, None)
                else mret (cannot_reset, result)) post s); [|done].
    case_bool_decide as Hm.
    + apply wp_bind, release_sole; [done|]. apply wp_ret. by split_and!.
    + apply wp_ret. split_and!; [done|done|]. intros _ _. split; [|done].
      apply bool_decide_eq_true, Status_msg_code.
Qed.
End Customizable.
