(* ===== verification/RegistryDemo.v ===== *)
(** One tokenizer and one hexadecimal code that do what OptionsSpec.v asks for, with the theorems of that file on
    concrete options; and the theorems on the registry at a concrete one: a library with a cache under
    two names, one made guarded, the other an object that is never deleted. *)
From S2P Require Import Prelude Slice RocksStatus RocksDB OptionsType OptionsSpec ObjectRegistry RegistrySpec Customizable.

Local Open Scope Z_scope.

(** ** A tokenizer *)

(** The text up to the brace that closes, and the text after it. *)
Fixpoint close_brace (n : nat) (l : list byte) : option (list byte * list byte) :=
  match l with
  | [] => None
  | c :: l' =>
      if decide (c = lbrace) then r ← close_brace (S n) l'; Some (c :: r.1, r.2)
      else if decide (c = rbrace)
      then match n with O => Some ([], l') | S m => r ← close_brace m l'; Some (c :: r.1, r.2) end
      else r ← close_brace n l'; Some (c :: r.1, r.2)
  end.
(** The text up to the delimiter, and whether there is one. *)
Fixpoint until (d : byte) (l : list byte) : list byte * bool :=
  match l with
  | [] => ([], false)
  | c :: l' => if decide (c = d) then ([], true) else let '(t, b) := until d l' in (c :: t, b)
  end.

Definition demo_plain (d : byte) (start : nat) (l : list byte) : Status * option nat * list byte :=
  let '(t, b) := until d l in
  (OK, if (b : bool) then Some (start + length t)%nat else None, t).
Definition demo_next (opts : list byte) (d : byte) (start : nat) : Status * option nat * list byte :=
  match drop start opts with
  | c :: l =>
      if decide (c = lbrace) then
        match close_brace 0 l with
        | Some (t, rest) =>
            match rest with
            | [] => (OK, Some (start + length t + 2)%nat, t)
            | c :: _ =>
                if decide (c = d) then (OK, Some (start + length t + 2)%nat, t)
                else (InvalidArgument kNone, None, [])
            end
        | None => (InvalidArgument kNone, None, [])
        end
      else demo_plain d start (c :: l)
  | [] => (OK, None, [])
  end.

Lemma close_brace_app n t rest :
  depth_after n t = Some O → close_brace n (t ++ rbrace :: rest) = Some (t, rest).
Proof.
  revert n. induction t as [|c t IH]; intros n; cbn [depth_after]; simpl app; cbn [close_brace].
  { by intros [= ->]. }
  case_decide; [by intros ->%IH|]. case_decide; [|by intros ->%IH]. destruct n; [done|by intros ->%IH].
Qed.

Lemma until_app d t rest : d ∉ t → until d (t ++ d :: rest) = (t, true).
Proof.
  induction t as [|c t IH]; intros Hd; simpl; [by rewrite decide_True|].
  rewrite decide_False by set_solver. by rewrite IH by set_solver.
Qed.
Lemma until_end d t : d ∉ t → until d t = (t, false).
Proof.
  induction t as [|c t IH]; intros Hd; simpl; [done|]. rewrite decide_False by set_solver.
  by rewrite IH by set_solver.
Qed.

Lemma demo_next_plain d pre tok rest :
  plain_token d tok → demo_next (pre ++ tok ++ rest) d (length pre) = demo_plain d (length pre) (tok ++ rest).
Proof.
  intros (Hne & _ & Hh & _). unfold demo_next. rewrite drop_app_length.
  destruct tok as [|c tok]; [done|]. cbn [app]. rewrite decide_False; [done|]. by intros ->.
Qed.

(** ** Hexadecimal text *)

Definition hex_digit (x : Z) : byte := byte_of_Z (if bool_decide (x < 10) then 48 + x else 55 + x).
Definition hex_value (c : byte) : Z :=
  if bool_decide (byte_val c < 58) then byte_val c - 48 else byte_val c - 55.
Definition demo_to_hex (s : list byte) : list byte :=
  concat ((λ c, [hex_digit (byte_val c / 16); hex_digit (byte_val c mod 16)]) <$> s).
Fixpoint demo_of_hex (l : list byte) : list byte :=
  match l with
  | a :: b :: l' => byte_of_Z (16 * hex_value a + hex_value b) :: demo_of_hex l'
  | _ => []
  end.

Lemma hex_digit_ok x : 0 <= x < 16 → is_hex (hex_digit x) = true ∧ hex_value (hex_digit x) = x.
Proof.
  intros Hx. assert (x ∈ seqZ 0 16) as Hin by (apply elem_of_seqZ; lia). revert x Hx Hin.
  assert (Forall (λ x, is_hex (hex_digit x) = true ∧ hex_value (hex_digit x) = x) (seqZ 0 16)) as HF.
  { repeat (constructor; [by vm_compute|]). constructor. }
  rewrite Forall_forall in HF. intros x _ Hin. by apply HF.
Qed.

Lemma demo_hex_round_trip s : demo_of_hex (demo_to_hex s) = s.
Proof.
  induction s as [|c s IH]; [done|]. unfold demo_to_hex in *. cbn. rewrite IH.
  pose proof (byte_val_bound c) as Hb.
  rewrite (proj2 (hex_digit_ok (byte_val c / 16) ltac:(split; [apply Z.div_pos|apply Z.div_lt_upper_bound]; lia))).
  rewrite (proj2 (hex_digit_ok (byte_val c mod 16) ltac:(apply Z.mod_pos_bound; lia))).
  rewrite <- Z.div_mod by lia. by rewrite byte_of_Z_val.
Qed.

Lemma demo_hex_digits s c : c ∈ demo_to_hex s → is_hex c = true.
Proof.
  induction s as [|x s IH]; [by intros ?%elem_of_nil|]. unfold demo_to_hex in *. cbn.
  pose proof (byte_val_bound x). intros [->|[->|Hc]%elem_of_cons]%elem_of_cons; [| |by apply IH];
    apply hex_digit_ok; [split; [apply Z.div_pos|apply Z.div_lt_upper_bound]; lia|apply Z.mod_pos_bound; lia].
Qed.

(** ** The instance *)

#[export] Instance demo_code : OptionsCode := {
  Status_msg c sc _ _ sev := mkStatus c sc sev false false 0 None;
  umap_walk V m := map_to_list m;
  NextToken := demo_next;
  Parse T info opts name value old :=
    match parse_func_ info with
    | Some f => f opts name value old
    | None => Done (NotSupported kNone, old)
    end;
  Serialize T info opts name x value :=
    match serialize_func_ info with
    | Some f => f opts name x value
    | None => Done (NotSupported kNone, value)
    end;
  AreEqual T info opts name x y mismatch :=
    match equals_func_ info with
    | Some f => f opts name x y mismatch
    | None => (true, mismatch)
    end;
  struct_map _ := unit;
  ParseStruct T _ _ _ _ _ old := Done (NotSupported kNone, old);
  SerializeStruct T _ _ _ _ _ value := Done (NotSupported kNone, value);
  StructsAreEqual T _ _ _ _ _ _ mismatch := (true, mismatch);
  DecodeHex s := (true, demo_of_hex s);
  ToString_hex := demo_to_hex;
}.

#[export] Instance demo_laws : OptionsLaws.
Proof.
  split; try done.
  - intros pre tok rest d Ht. simpl. rewrite demo_next_plain by done. unfold demo_plain.
    by rewrite until_app by apply Ht.
  - intros pre tok d Ht. exists None. split; [|done]. simpl. pose proof (demo_next_plain d pre tok [] Ht) as E.
    rewrite app_nil_r in E. rewrite E. unfold demo_plain. by rewrite until_end by apply Ht.
  - intros pre tok rest d _ Hb. simpl. unfold demo_next. rewrite drop_app_length, decide_True by done.
    rewrite close_brace_app by done. by rewrite decide_True.
  - intros pre tok d _ Hb. exists (Some (length pre + length tok + 2)%nat). split.
    + simpl. unfold demo_next. rewrite drop_app_length, decide_True by done. by rewrite close_brace_app.
    + simpl. rewrite !length_app. simpl. rewrite length_app. simpl. lia.
  - intros opts d start st e tok E Hok. simpl in E. unfold demo_next, demo_plain in E.
    repeat (case_match; simplify_eq/=); lia.
  - intros s. simpl. by rewrite demo_hex_round_trip.
  - intros s c. apply demo_hex_digits.
Qed.

(** ** Options that are strings *)

Definition string_option : OptionTypeInfo (list byte) :=
  new_OptionTypeInfo 0 kString kNormal Flags.kNone
    (Some (λ _ _ value _, Done (OK, value))) (Some (λ _ _ x _, Done (OK, x))) None.

Definition colon : byte := Byte.x3a.

Lemma string_printed opts name x : printed opts string_option name x x.
Proof. done. Qed.
Lemma string_parsed opts name x : parsed opts string_option name x x.
Proof. done. Qed.

Lemma colon_ok : separator_ok colon ∧ colon ≠ semicolon.
Proof. done. Qed.

Definition demo_vec : list (list byte) := [str "x:y=1"; str "z"].

Lemma demo_vec_texts : Forall (elem_text colon) demo_vec.
Proof.
  assert (∀ t, t ≠ [] ∧ trimmed t ∧ balanced t ∧ head t ≠ Some lbrace ∧ bool_decide (semicolon ∈ t) = false →
    elem_text colon t) as H.
  { intros t (? & ? & ? & ? & Hs). apply bool_decide_eq_false in Hs. by split. }
  apply Forall_cons; split; [|apply Forall_singleton]; apply H; split_and!; by vm_compute.
Qed.

Lemma Forall2_same {A} (P : A → A → Prop) l : (∀ x, P x x) → Forall2 P l l.
Proof. intros HP. induction l; by constructor. Qed.

Example demo_vector_text :
  SerializeVector new_ConfigOptions string_option colon (str "v") demo_vec [] =
    Done (OK, str "{{x:y=1}:z}") ∧
  ParseVector [] new_ConfigOptions string_option colon (str "v") (str "{x:y=1}:z") =
    Done (OK, demo_vec).
Proof. split; by vm_compute. Qed.

Lemma vector_round_trip_witness :
  ∃ value e token,
    SerializeVector new_ConfigOptions string_option colon (str "v") demo_vec [] = Done (OK, value) ∧
    NextToken (str "a=" ++ value ++ semicolon :: str "b=2;") semicolon (length (str "a=")) =
      (OK, Some e, token) ∧
    ParseVector [] new_ConfigOptions string_option colon (str "v") token = Done (OK, demo_vec).
Proof.
  apply (vector_round_trip [] new_ConfigOptions string_option colon (str "v") demo_vec demo_vec).
  - apply colon_ok.
  - apply colon_ok.
  - done.
  - apply Forall2_same, string_printed.
  - apply Forall2_same, string_parsed.
  - apply demo_vec_texts.
  - exact I.
Defined.

Lemma array_round_trip_witness :
  ∃ value e token,
    SerializeArray new_ConfigOptions string_option colon (str "v") demo_vec [] = Done (OK, value) ∧
    NextToken (str "a=" ++ value ++ semicolon :: str "b=2;") semicolon (length (str "a=")) =
      (OK, Some e, token) ∧
    ∃ st result, ParseArray 3 new_ConfigOptions string_option colon (str "v") token [[]; []; []] =
        Done (st, result) ∧
      (3%nat = length demo_vec → st = OK ∧ result = demo_vec) ∧
      (3%nat ≠ length demo_vec → code st = kInvalidArgument).
Proof.
  apply (array_round_trip new_ConfigOptions string_option colon (str "v") demo_vec demo_vec [[]; []; []]).
  - apply colon_ok.
  - apply colon_ok.
  - done.
  - apply Forall2_same, string_printed.
  - apply Forall2_same, string_parsed.
  - apply demo_vec_texts.
  - exact I.
Defined.

Lemma parse_vector_terminates_witness :
  is_done (ParseVector [] new_ConfigOptions string_option colon (str "v") (str "{a::{b")) = true.
Proof. apply parse_vector_terminates. done. Defined.

Definition demo_path : list byte := str "/a:b".

Lemma single_element_is_split_witness :
  ∃ value e,
    SerializeVector new_ConfigOptions string_option colon (str "v") [demo_path] [] = Done (OK, value) ∧
    NextToken (str "a=" ++ value ++ semicolon :: []) semicolon (length (str "a=")) =
      (OK, Some e, str "/a" ++ colon :: str "b") ∧
    NextToken (str "/a" ++ colon :: str "b") colon 0 = (OK, Some (length (str "/a")), str "/a").
Proof.
  apply (single_element_is_split new_ConfigOptions string_option colon (str "v") demo_path).
  - apply colon_ok.
  - apply string_printed.
  - split; try by vm_compute. intros Hs. exfalso. revert Hs.
    apply (bool_decide_unpack (semicolon ∉ str "/a" ++ colon :: str "b")). by vm_compute.
  - apply (bool_decide_unpack _). by vm_compute.
  - split_and!; try by vm_compute. apply (bool_decide_unpack (colon ∉ str "/a")). by vm_compute.
Defined.

(** A map of strings *)
Definition demo_map : gmap (list byte) (list byte) := {[ str "a;b" := str "}" ; str "=" := str "" ]}.

Lemma string_map_round_trip_witness :
  ∃ value e token,
    string_map_serialize equals_sign semicolon new_ConfigOptions (str "m") demo_map [] = Done (OK, value) ∧
    NextToken (str "a=" ++ value ++ semicolon :: str "b=2;") semicolon (length (str "a=")) =
      (OK, Some e, token) ∧
    string_map_parse equals_sign semicolon new_ConfigOptions (str "m") token ∅ = Done (OK, demo_map).
Proof. apply string_map_round_trip. by vm_compute. Defined.

(** An enumeration *)
Definition demo_enum : gmap (list byte) Z := {[ str "none" := 0; str "lz4" := 4; str "LZ4" := 4 ]}.

Lemma enum_round_trip_witness :
  (∃ n, enum_serialize (Some demo_enum) new_ConfigOptions (str "c") 4 [] = Done (OK, n) ∧
     demo_enum !! n = Some 4 ∧ enum_parse (Some demo_enum) new_ConfigOptions (str "c") n 0 = Done (OK, 4)) ∧
  ∃ s, enum_parse (Some demo_enum) new_ConfigOptions (str "c") (str "zip") 0 = Done (s, 0) ∧
    code s = kInvalidArgument.
Proof.
  split.
  - apply (enum_round_trip demo_enum new_ConfigOptions (str "c") 4 0 []). by exists (str "lz4").
  - apply (enum_round_trip demo_enum new_ConfigOptions (str "c") 4 0 (str "zip")). by vm_compute.
Defined.

(** ** A registry *)

Definition demo_status (c : Code) (sc : SubCode) (_ _ : Slice) (sev : Severity) : Status :=
  mkStatus c sc sev false false 0 None.
Definition demo_matches (e : PatternEntry) (target : list byte) : bool := bool_decide (name_ e = target).

(** The factories: an object at a new place, with an owner or without. *)
Definition demo_new (n : nat) : MR ptr :=
  u ← gets used;
  let p := fresh u in
  modify (λ s, mkState (<[p := mkObject (str "Cache") (str "Cache@1") n]> (objects s))
                 ({[p]} ∪ used s) (managed s)) ;;
  mret p.
Definition demo_guarded : FactoryFunc := λ _, p ← demo_new 1; mret (Some p, Some p, []).
Definition demo_static : FactoryFunc := λ _, p ← demo_new 0; mret (Some p, None, []).

Definition demo_library : ObjectLibrary :=
  AddFactory_name (str "T") (str "static") (Some demo_static)
    (AddFactory_name (str "T") (str "lru") (Some demo_guarded) (new_ObjectLibrary (str "lib"))).
Definition demo_registry : ObjectRegistry := AddLibrary demo_library (new_ObjectRegistry None).
Definition demo_state : state := mkState ∅ ∅ ∅.

Lemma demo_state_ok : state_ok demo_state.
Proof. split; simpl; [intros p|intros k p]; rewrite lookup_empty; [by intros []|done]. Defined.

Lemma demo_new_made n s (Q : ptr → state → Prop) :
  (∀ p o, owners o = n → p ∉ used s → Q p (mkState (<[p := o]> (objects s)) ({[p]} ∪ used s) (managed s))) →
  wp (demo_new n) Q s.
Proof. intros HQ. unfold demo_new. apply wp_bind, wp_gets, wp_bind, wp_modify, wp_ret, HQ; [done|apply is_fresh]. Qed.

Lemma demo_guarded_ok : factory_ok demo_guarded.
Proof.
  intros target s Hs. apply wp_bind, demo_new_made. intros p o Ho Hp. apply wp_ret. right.
  exists p, o. split; [done|]. split; [by split|]. by left.
Qed.
Lemma demo_static_ok : factory_ok demo_static.
Proof.
  intros target s Hs. apply wp_bind, demo_new_made. intros p o Ho Hp. apply wp_ret. right.
  exists p, o. split; [done|]. split; [by split|]. by right.
Qed.
Lemma demo_factories_ok : factories_ok demo_matches demo_registry (str "T").
Proof.
  intros target f Hf.
  assert (f = demo_guarded ∨ f = demo_static) as [-> | ->];
    [|apply demo_guarded_ok|apply demo_static_ok].
  set (entries := [(new_PatternEntry (str "lru") true, Some demo_guarded);
                   (new_PatternEntry (str "static") true, Some demo_static)]).
  assert (factories_ demo_library !! str "T" = Some entries) as E by reflexivity.
  assert (first_match demo_matches entries target = Some f) as Hm.
  { revert Hf. cbn [FindFactory demo_registry AddLibrary new_ObjectRegistry libraries_ parent_ app rev
      search_libraries]. unfold Library_FindFactory. rewrite E. by destruct (first_match _ _ _). }
  revert Hm. simpl. destruct (demo_matches _ _); [intros [= <-]; by left|].
  destruct (demo_matches _ _); [intros [= <-]; by right|done].
Qed.

(** By name: the status, whether the result holds an object, and how many there are. *)
Definition demo_make (name : list byte) : option (Code * bool * nat) :=
  match ObjectRegistry.NewUniqueObject demo_status demo_matches demo_registry (str "T") name None demo_state with
  | Done (st, p, s) => Some (code st, bool_decide (is_Some p), length (map_to_list (objects s)))
  | Undef _ => None
  end.
Example demo_make_guarded : demo_make (str "lru") = Some (kOk, true, 1%nat).
Proof. by vm_compute. Qed.
Example demo_make_unguarded : demo_make (str "static") = Some (kInvalidArgument, false, 1%nat).
Proof. by vm_compute. Qed.
Example demo_make_unknown : demo_make (str "other") = Some (kNotSupported, false, 0%nat).
Proof. by vm_compute. Qed.

Lemma new_objects_have_the_owner_asked_for_witness :
  wp (ObjectRegistry.NewUniqueObject demo_status demo_matches demo_registry (str "T") (str "lru") None)
    (owned_post demo_state None) demo_state.
Proof.
  apply (new_objects_have_the_owner_asked_for demo_status demo_matches (λ _ _ _ _ _, eq_refl)
           demo_registry (str "T") (str "lru") None demo_state);
    [exact demo_factories_ok|exact demo_state_ok|exact I].
Defined.

Lemma managed_objects_are_shared_witness :
  wp (a ← GetOrCreateManagedObject demo_status demo_matches (λ _ _ _, mret None) demo_registry
            (str "T") (str "lru") None None;
      b ← GetOrCreateManagedObject demo_status demo_matches (λ _ _ _, mret None) demo_registry
            (str "T") (str "lru") None None;
      mret (a, b)) (λ '(a, b) s', ok a.1 = true → ∃ p o, a.2 = Some p ∧ objects s' !! p = Some o ∧
        (object_name o ≠ str "lru" →
           b = (OK, Some p) ∧ owners o = 2%nat ∧ dom (objects s') = {[p]} ∪ dom (objects demo_state)) ∧
        (object_name o = str "lru" → owners o = 1%nat ∧ b.2 ≠ Some p)) demo_state.
Proof.
  apply (managed_objects_are_shared demo_status demo_matches (λ _ _ _ _ _, eq_refl)
           (λ _ _ _, mret None) demo_registry (str "T") (str "lru") demo_state);
    [reflexivity|exact demo_factories_ok|exact demo_state_ok|].
  intros p. simpl. rewrite lookup_empty. discriminate.
Defined.

(** Made and configured; the configuration is refused. *)
Lemma objects_are_made_and_then_configured_witness :
  wp (Customizable.NewSharedObject demo_status demo_matches
        (λ _ _ _, mret (InvalidArgument kNone)) demo_registry (str "T") new_ConfigOptions (str "lru") ∅ None)
    (λ out s', ∃ st, owned_post demo_state None (st, out.2) s' ∧
       out.1 = if ok st then InvalidArgument kNone
               else if ignore_unsupported_options new_ConfigOptions && IsNotSupported st then OK else st)
    demo_state.
Proof.
  eapply wp_mono; [apply (proj1 (objects_are_made_and_then_configured demo_status demo_matches
    (λ _ _ _, mret (InvalidArgument kNone)) demo_registry (str "T") (λ _ _ _ _ _, eq_refl)
    (λ _ _ _, InvalidArgument kNone) (λ _ _ _ _, eq_refl) new_ConfigOptions (str "lru") ∅ None demo_state
    demo_factories_ok demo_state_ok I))|].
  intros out s' Hout. apply Hout. discriminate.
Defined.
