(* ===== verification/MultiScan.v ===== *)
(** Scans over several ranges (include/rocksdb/multi_scan.h; [ScanOptions] and [MultiScanArgs] of
    options.h): the input iterators a range-based [for] runs on, with their exceptions, their copies
    of the status and what their destructors check. *)
From S2P Require Import Prelude Slice RocksStatus RocksDB.

Local Open Scope Z_scope.

(** ** The iterator of the database

    [class Iterator] is abstract; an implementation is a type of states with these methods. *)
Class DBIterator (It : Type) := {
  Valid : It → bool;
  key : It → Slice;
  value : It → Slice;
  Next : It → It;
  Seek : Slice → It → It;
  status : It → Status;
}.

(** ** [ScanOptions] and [MultiScanArgs] *)

Record ScanOptions := mkScanOptions {
  range_start : OptSlice;
  range_limit : OptSlice;
  property_bag : option (gmap (list byte) (list byte));
}.
Definition new_ScanOptions (start : Slice) : ScanOptions :=
  mkScanOptions (OptSlice_of start) OptSlice_none None.
Definition new_ScanOptions_bounded (start upper_bound : Slice) : ScanOptions :=
  mkScanOptions (OptSlice_of start) (OptSlice_of upper_bound) None.

Record MultiScanArgs := mkMultiScanArgs {
  io_coalesce_threshold : Z;
  max_prefetch_size : Z;
  use_async_io : bool;
  comp_ : option ptr;
  original_ranges_ : list ScanOptions;
}.
Definition new_MultiScanArgs (comparator : option ptr) : MultiScanArgs :=
  mkMultiScanArgs (16 * 2 ^ 10) 0 false comparator [].
(** The copy constructor, from the default values, and copy assignment. *)
Definition MultiScanArgs_copy (other : MultiScanArgs) : MultiScanArgs :=
  mkMultiScanArgs (io_coalesce_threshold other) (max_prefetch_size other) (use_async_io other)
    (comp_ other) (original_ranges_ other).
Definition MultiScanArgs_copy_assign (self other : MultiScanArgs) : MultiScanArgs :=
  mkMultiScanArgs (io_coalesce_threshold other) (max_prefetch_size other) (use_async_io other)
    (comp_ other) (original_ranges_ other).
(** The moved-from vector is empty; the object and what is left of the other. *)
Definition MultiScanArgs_move (other : MultiScanArgs) : MultiScanArgs * MultiScanArgs :=
  (MultiScanArgs_copy other,
   mkMultiScanArgs (io_coalesce_threshold other) (max_prefetch_size other) (use_async_io other)
     (comp_ other) []).
(** [None]: the object is assigned to itself. *)
Definition MultiScanArgs_move_assign (self : MultiScanArgs) (other : option MultiScanArgs) :
    MultiScanArgs * option MultiScanArgs :=
  match other with
  | Some other => let '(self, other) := MultiScanArgs_move other in (self, Some other)
  | None => (self, None)
  end.
Definition add_range (o : ScanOptions) (a : MultiScanArgs) : MultiScanArgs :=
  mkMultiScanArgs (io_coalesce_threshold a) (max_prefetch_size a) (use_async_io a) (comp_ a)
    (original_ranges_ a ++ [o]).
Definition with_bag (bag : option (gmap (list byte) (list byte))) (o : ScanOptions) : ScanOptions :=
  mkScanOptions (range_start o) (range_limit o) bag.
Definition insert_bounded (s b : Slice) (a : MultiScanArgs) : MultiScanArgs :=
  add_range (new_ScanOptions_bounded s b) a.
Definition insert_bounded_bag (s b : Slice) bag (a : MultiScanArgs) : MultiScanArgs :=
  add_range (with_bag bag (new_ScanOptions_bounded s b)) a.
Definition insert_from (s : Slice) (a : MultiScanArgs) : MultiScanArgs := add_range (new_ScanOptions s) a.
Definition insert_from_bag (s : Slice) bag (a : MultiScanArgs) : MultiScanArgs :=
  add_range (with_bag bag (new_ScanOptions s)) a.
Definition args_size (a : MultiScanArgs) : nat := length (original_ranges_ a).
Definition args_empty (a : MultiScanArgs) : bool := bool_decide (original_ranges_ a = []).
Definition GetScanRanges (a : MultiScanArgs) : list ScanOptions := original_ranges_ a.
Definition GetComparator (a : MultiScanArgs) : option ptr := comp_ a.
Definition CopyConfigFrom (self other : MultiScanArgs) : MultiScanArgs :=
  mkMultiScanArgs (io_coalesce_threshold other) (max_prefetch_size other) (use_async_io other)
    (comp_ self) (original_ranges_ self).

(** ** Exceptions *)

Inductive exn :=
  | logic_error (what : list byte)
  | MultiScanException (s : Status).
Definition exn_status (e : exn) : option Status :=
  match e with MultiScanException s => Some s | logic_error _ => None end.

(** ** [Scan] and [Scan::ScanIterator] *)

Section Scans.
(** [asserts]: the program is built without [NDEBUG]. *)
Context {It : Type} `{DBIterator It} (asserts : bool).

(** The database's iterators by their addresses. *)
Abbreviation MI := (M (gmap ptr It)).

Definition the_iter (p : option ptr) : MI It :=
  p ← deref p;
  i ← gets (λ s, s !! p);
  match i with Some i => mret i | None => undef UseAfterFree end.
Definition move_iter (p : option ptr) (f : It → It) : MI unit :=
  i ← the_iter p; q ← deref p; modify <[q := f i]>.

Definition value_type : Type := Slice * Slice.

Record ScanIterator := mkScanIterator {
  db_iter_ : option ptr;
  valid_ : bool;
  status_ : Status;
  result_ : value_type;
}.

Definition new_ScanIterator (db_iter : option ptr) : MI ScanIterator :=
  i ← the_iter db_iter;
  if Valid i then mret (mkScanIterator db_iter true default_Status (key i, value i))
  else mret (mkScanIterator db_iter false default_Status (empty_slice, empty_slice)).
Definition default_ScanIterator : ScanIterator :=
  mkScanIterator None false default_Status (empty_slice, empty_slice).

(** The destructor; what it writes to [stderr] is left out. *)
Definition delete_ScanIterator (i : ScanIterator) : MI unit :=
  if negb (ok (status_ i)) then (if asserts then undef AssertFailed else mret tt) else mret tt.

(** [operator++]: the object afterwards and what was thrown. *)
Definition increment (i : ScanIterator) : MI (ScanIterator * option exn) :=
  if negb (valid_ i) then mret (i, Some (logic_error (str "Trying to advance invalid iterator")))
  else
    move_iter (db_iter_ i) Next ;;
    it ← the_iter (db_iter_ i);
    let st := status it in
    if negb (ok st)
    then mret (mkScanIterator (db_iter_ i) (valid_ i) st (result_ i), Some (MultiScanException st))
    else if Valid it then mret (mkScanIterator (db_iter_ i) true st (key it, value it), None)
    else mret (mkScanIterator (db_iter_ i) false st (result_ i), None).

(** Comparison with [nullptr], and access. *)
Definition at_end (i : ScanIterator) : bool := negb (valid_ i).
Definition not_at_end (i : ScanIterator) : bool := valid_ i.
Definition star (i : ScanIterator) : exn + value_type :=
  if negb (valid_ i) then inl (logic_error (str "Trying to deref invalid iterator")) else inr (result_ i).
Definition arrow (i : ScanIterator) : exn + value_type :=
  if negb (valid_ i) then inl (logic_error (str "Trying to deref invalid iterator")) else inr (result_ i).

Record Scan := mkScan { scan_db_iter : option ptr }.
Definition new_Scan (db_iter : option ptr) : Scan := mkScan db_iter.
Definition Scan_Reset (_ : Scan) (db_iter : option ptr) : Scan := mkScan db_iter.
Definition Scan_begin (s : Scan) : MI ScanIterator := new_ScanIterator (scan_db_iter s).

(** [for (auto it : scan)] with a body that keeps each pair: what was visited, and the exception that
    ended the loop.  The iterator of the loop is destroyed either way. *)
Fixpoint scan_loop (fuel : nat) (i : ScanIterator) (visited : list value_type) :
    MI (list value_type * option exn * ScanIterator) :=
  match fuel with
  | O => undef WaitsForever
  | S fuel =>
      if not_at_end i then
        match star i with
        | inl e => mret (visited, Some e, i)
        | inr kv =>
            '(i, e) ← increment i;
            match e with
            | Some e => mret (visited ++ [kv], Some e, i)
            | None => scan_loop fuel i (visited ++ [kv])
            end
        end
      else mret (visited, None, i)
  end.
Definition for_scan (fuel : nat) (s : Scan) : MI (list value_type * option exn) :=
  i ← Scan_begin s;
  '(visited, e, i) ← scan_loop fuel i [];
  delete_ScanIterator i ;;
  mret (visited, e).

(** ** [MultiScan] and [MultiScan::MultiScanIterator] *)

(** [ms_db_iter] is what the [std::unique_ptr] holds; [db_] and [cfh_] stay unset in the constructor of
    the header.  The read options, and the pointer to the bound an iterator over the ranges has, are
    left out: only code that is compiled elsewhere looks at them. *)
Record MultiScan := mkMultiScan {
  scan_opts_ : MultiScanArgs;
  ms_db : option ptr;
  ms_cfh : option ptr;
  upper_bound_ : Slice;
  ms_db_iter : option ptr;
}.
Definition new_MultiScan (comp : option ptr) (db_iter : option ptr) : MultiScan :=
  mkMultiScan (new_MultiScanArgs comp) None None empty_slice db_iter.

Record MultiScanIterator := mkMultiScanIterator {
  msi_scan_opts : list ScanOptions;
  msi_db : option ptr;
  msi_cfh : option ptr;
  idx_ : nat;
  msi_db_iter : option ptr;
  msi_status : Status;
  scan_ : Scan;
}.

(** The constructor: the object, or what was thrown (no destructor runs then). *)
Definition new_MultiScanIterator (scan_opts : list ScanOptions) (db cfh db_iter : option ptr) :
    MI (exn + MultiScanIterator) :=
  match scan_opts with
  | [] => mret (inl (logic_error (str "Zero scans in multi-scan")))
  | first :: _ =>
      it ← the_iter db_iter;
      if negb (ok (status it)) then mret (inl (MultiScanException (status it)))
      else
        start ← lift_outcome (Slice.value (range_start first));
        move_iter db_iter (Seek start) ;;
        it ← the_iter db_iter;
        if negb (ok (status it)) then mret (inl (MultiScanException (status it)))
        else mret (inr (mkMultiScanIterator scan_opts db cfh 0 db_iter (status it) (new_Scan db_iter)))
  end.
Definition delete_MultiScanIterator (m : MultiScanIterator) : MI unit :=
  if asserts && negb (ok (msi_status m)) then undef AssertFailed else mret tt.
Definition multi_at_end (m : MultiScanIterator) : bool := bool_decide (length (msi_scan_opts m) <= idx_ m)%nat.
Definition multi_not_at_end (m : MultiScanIterator) : bool := bool_decide (idx_ m < length (msi_scan_opts m))%nat.
Definition multi_star (m : MultiScanIterator) : Scan := scan_ m.
Definition MultiScan_begin (m : MultiScan) : MI (exn + MultiScanIterator) :=
  new_MultiScanIterator (GetScanRanges (scan_opts_ m)) (ms_db m) (ms_cfh m) (ms_db_iter m).

(** [MultiScanIterator::operator++] is compiled elsewhere. *)
Context (multi_increment : MultiScanIterator → MI (MultiScanIterator * option exn)).

(** [for (auto scan : *iter) for (auto it : scan)], keeping the pairs of each range. *)
Fixpoint multi_loop (outer fuel : nat) (m : MultiScanIterator) (visited : list (list value_type)) :
    MI (list (list value_type) * option exn * MultiScanIterator) :=
  match outer with
  | O => undef WaitsForever
  | S outer =>
      if multi_not_at_end m then
        '(kvs, e) ← for_scan fuel (multi_star m);
        match e with
        | Some e => mret (visited ++ [kvs], Some e, m)
        | None =>
            '(m, e) ← multi_increment m;
            match e with
            | Some e => mret (visited ++ [kvs], Some e, m)
            | None => multi_loop outer fuel m (visited ++ [kvs])
            end
        end
      else mret (visited, None, m)
  end.
Definition for_multi_scan (outer fuel : nat) (m : MultiScan) :
    MI (list (list value_type) * option exn) :=
  b ← MultiScan_begin m;
  match b with
  | inl e => mret ([], Some e)
  | inr b =>
      '(visited, e, b) ← multi_loop outer fuel b [];
      delete_MultiScanIterator b ;;
      mret (visited, e)
  end.
End Scans.
