(* ===== verification/MultiScanSpec.v ===== *)
(** What a range-based [for] over the scans of MultiScan.v visits, and how its failures end. *)
From S2P Require Import Prelude Slice RocksStatus RocksDB MultiScan.

Local Open Scope Z_scope.

(** What iterator_base.h says of an iterator: [remaining] are the entries from where it stands to the
    end of its range. *)
Class DBIteratorSpec (It : Type) `{DBIterator It} := {
  remaining : It → list (Slice * Slice);
  valid_ok it : Valid it = true → ok (status it) = true;
  valid_remaining it : ok (status it) = true → Valid it = bool_decide (remaining it ≠ []);
  at_current it kv r : ok (status it) = true → remaining it = kv :: r → (key it, value it) = kv;
  next_remaining it kv r :
    ok (status it) = true → remaining it = kv :: r → ok (status (Next it)) = true → remaining (Next it) = r;
}.

Section Specs.
Context {It : Type} `{DBIteratorSpec It} (asserts : bool).
Implicit Types (s : gmap ptr It) (p : ptr) (it : It) (kvs : list (Slice * Slice)).

(** The iterator after [k] steps. *)
Fixpoint steps (k : nat) (it : It) : It := match k with O => it | S k => steps k (Next it) end.
(** It does not fail before step [k]. *)
Definition sound_until (k : nat) (it : It) : Prop := ∀ j, (j < k)%nat → ok (status (steps j it)) = true.

Lemma sound_until_next k it : sound_until (S k) it → sound_until k (Next it).
Proof. intros Hs j Hj. apply (Hs (S j)). lia. Qed.
Lemma sound_until_le k n it : (k <= n)%nat → sound_until n it → sound_until k it.
Proof. intros Hle Hs j Hj. apply Hs. lia. Qed.

Lemma valid_nil it : ok (status it) = true → remaining it = [] → Valid it = false.
Proof. intros Hok E. rewrite valid_remaining by done. by rewrite E. Qed.
Lemma valid_cons it kv r : ok (status it) = true → remaining it = kv :: r → Valid it = true.
Proof. intros Hok E. rewrite valid_remaining by done. by rewrite E. Qed.
Lemma invalid_failed it : ok (status it) = false → Valid it = false.
Proof. intros E. destruct (Valid it) eqn:V; [|done]. apply valid_ok in V. congruence. Qed.

Lemma wp_the_iter p it Q s : s !! p = Some it → Q it s → wp (the_iter (Some p)) Q s.
Proof. intros E HQ. unfold the_iter. wp_steps. by rewrite E. Qed.
Lemma wp_move_iter p it f Q s : s !! p = Some it → Q tt (<[p := f it]> s) → wp (move_iter (Some p) f) Q s.
Proof. intros E HQ. unfold move_iter. apply wp_bind. eapply wp_the_iter; [done|]. by wp_steps. Qed.

(** The object of the loop when the iterator stands at the head of [kvs]. *)
Definition standing (p : ptr) (kvs : list value_type) (i : ScanIterator) : Prop :=
  db_iter_ i = Some p ∧ ok (status_ i) = true ∧
  match kvs with [] => valid_ i = false | kv :: _ => valid_ i = true ∧ result_ i = kv end.

Lemma new_ScanIterator_ok p it s Q :
  s !! p = Some it → ok (status it) = true → (∀ i, standing p (remaining it) i → Q i s) →
  wp (new_ScanIterator (Some p)) Q s.
Proof.
  intros Hp Hok HQ. unfold new_ScanIterator. apply wp_bind. eapply wp_the_iter; [done|].
  destruct (remaining it) as [|kv r] eqn:E.
  - rewrite (valid_nil it Hok E). apply wp_ret, HQ. by repeat split.
  - rewrite (valid_cons it kv r Hok E). apply wp_ret, HQ. split; [done|]. split; [done|]. split; [done|].
    by eapply at_current.
Qed.

Lemma increment_ok p it s kv r i Q :
  s !! p = Some it → ok (status it) = true → remaining it = kv :: r → standing p (kv :: r) i →
  ok (status (Next it)) = true →
  (∀ i', standing p r i' → Q (i', None) (<[p := Next it]> s)) → wp (increment i) Q s.
Proof.
  intros Hp Hok E (Hd & _ & Hv & _) Hn HQ. unfold increment. rewrite Hv, Hd. cbn [negb].
  apply wp_bind. eapply wp_move_iter; [done|]. apply wp_bind. eapply wp_the_iter; [by rewrite lookup_insert_eq|].
  rewrite Hn. cbn [negb]. pose proof (next_remaining it kv r Hok E Hn) as E'.
  destruct r as [|kv' r].
  - rewrite (valid_nil _ Hn E'). apply wp_ret, HQ. by repeat split.
  - rewrite (valid_cons _ _ _ Hn E'). apply wp_ret, HQ. repeat split; [done|]. by eapply at_current.
Qed.

Lemma increment_fails p it s kv r i Q :
  s !! p = Some it → standing p (kv :: r) i → ok (status (Next it)) = false →
  (∀ i', status_ i' = status (Next it) →
     Q (i', Some (MultiScanException (status (Next it)))) (<[p := Next it]> s)) → wp (increment i) Q s.
Proof.
  intros Hp (Hd & _ & Hv & _) Hn HQ. unfold increment. rewrite Hv, Hd. cbn [negb].
  apply wp_bind. eapply wp_move_iter; [done|]. apply wp_bind. eapply wp_the_iter; [by rewrite lookup_insert_eq|].
  rewrite Hn. cbn [negb]. by apply wp_ret, HQ.
Qed.

(** The loop up to the end of the range, or up to the step that fails. *)
Lemma scan_loop_spec fuel p kvs it s i visited Q :
  s !! p = Some it → ok (status it) = true → remaining it = kvs → standing p kvs i →
  (length kvs < fuel)%nat →
  (∀ i', sound_until (S (length kvs)) it → ok (status_ i') = true →
     Q (visited ++ kvs, None, i') (<[p := steps (length kvs) it]> s)) →
  (∀ i' k, (k < length kvs)%nat → sound_until (S k) it → ok (status (steps (S k) it)) = false →
     status_ i' = status (steps (S k) it) →
     Q (visited ++ take (S k) kvs, Some (MultiScanException (status (steps (S k) it))), i')
       (<[p := steps (S k) it]> s)) →
  wp (scan_loop fuel i visited) Q s.
Proof.
  revert fuel it s i visited. induction kvs as [|kv r IH];
    intros [|fuel] it s i visited Hp Hok E Hi Hf H1 H2; simpl in Hf; [lia| |lia|]; cbn [scan_loop].
  - destruct Hi as (_ & Hs & Hv). unfold not_at_end. rewrite Hv. apply wp_ret. simpl in H1.
    rewrite insert_id in H1 by done. rewrite app_nil_r in H1. apply H1; [|done].
    intros j Hj. by replace j with 0%nat by lia.
  - destruct Hi as (Hd & Hs & Hv & Hr). unfold not_at_end, star. rewrite Hv, Hr. cbn [negb].
    apply wp_bind. assert (standing p (kv :: r) i) as Hi by done.
    destruct (ok (status (Next it))) eqn:En.
    + eapply increment_ok; [done|done|done|done|done|]. intros i' Hi'. cbn iota.
      eapply IH; [by rewrite lookup_insert_eq|done|by eapply next_remaining|done|lia| |].
      * intros i2 Hs2 Hi2. rewrite insert_insert_eq, <-app_assoc. apply H1; [|done].
        intros [|j] Hj; [done|]. apply (Hs2 j). simpl in Hj. lia.
      * intros i2 k Hk Hs2 Hf2 Hi2. rewrite insert_insert_eq, <-app_assoc. apply (H2 i2 (S k)); [simpl; lia| |done|done].
        intros [|j] Hj; [done|]. apply (Hs2 j). lia.
    + eapply increment_fails; [done|done|done|]. intros i' Hi'. apply wp_ret.
      apply (H2 i' 0%nat); [simpl; lia| |done|done]. intros j Hj. by replace j with 0%nat by lia.
Qed.

(** A destructor finds an error and stops a program that checks its assertions. *)
Lemma delete_ok i Q s : ok (status_ i) = true → Q tt s → wp (delete_ScanIterator asserts i) Q s.
Proof. intros Hs HQ. unfold delete_ScanIterator. rewrite Hs. by apply wp_ret. Qed.

Lemma for_scan_ok fuel p it s Q :
  s !! p = Some it → sound_until (S (length (remaining it))) it → (length (remaining it) < fuel)%nat →
  Q (remaining it, None) (<[p := steps (length (remaining it)) it]> s) →
  wp (for_scan asserts fuel (new_Scan (Some p))) Q s.
Proof.
  intros Hp Hs Hf HQ. pose proof (Hs 0%nat ltac:(lia)) as Hok.
  apply wp_bind. eapply new_ScanIterator_ok; [done|done|]. intros i Hi.
  apply wp_bind. eapply scan_loop_spec; [done|done|done|done|done| |].
  - intros i' _ Hi'. apply wp_bind, delete_ok; [done|]. by apply wp_ret.
  - intros i' k Hk _ Hfail _. rewrite (Hs (S k)) in Hfail; [done|lia].
Qed.

(** A range-based [for] over a scan visits, in order, exactly the entries from where the database's
    iterator stands to the end of its range, when no step of it fails; it ends without an exception,
    after as many steps as there are entries. *)
Theorem scan_visits_the_range fuel p it s :
  s !! p = Some it → sound_until (S (length (remaining it))) it → (length (remaining it) < fuel)%nat →
  for_scan asserts fuel (new_Scan (Some p)) s =
    Done (remaining it, None, <[p := steps (length (remaining it)) it]> s).
Proof. intros Hp Hs Hf. by apply wp_eq, (for_scan_ok fuel p it). Qed.

(** When a step of the iterator fails, the header promises an exception with the status.  It is
    thrown, after the entries before the failure were visited; but leaving the loop destroys the
    loop's own iterator, whose destructor asserts that its status is good: in a program built with
    assertions no handler sees the exception. *)
Theorem failed_scan_stops_the_program fuel p it s k :
  s !! p = Some it → (k < length (remaining it))%nat → (length (remaining it) < fuel)%nat →
  sound_until (S k) it → ok (status (steps (S k) it)) = false →
  for_scan asserts fuel (new_Scan (Some p)) s =
    if asserts then Undef AssertFailed
    else Done (take (S k) (remaining it), Some (MultiScanException (status (steps (S k) it))),
               <[p := steps (S k) it]> s).
Proof.
  intros Hp Hk Hf Hs Hfail. pose proof (Hs 0%nat ltac:(lia)) as Hok. unfold for_scan, Scan_begin. simpl.
  assert (wp (i ← new_ScanIterator (Some p); scan_loop fuel i []) (λ '(v, e, i) s',
    status_ i = status (steps (S k) it) ∧ v = take (S k) (remaining it) ∧
    e = Some (MultiScanException (status (steps (S k) it))) ∧ s' = <[p := steps (S k) it]> s) s) as Hrun.
  { apply wp_bind. eapply new_ScanIterator_ok; [done|done|]. intros i Hi.
    eapply scan_loop_spec; [done|done|done|done|done| |].
    - intros i' Hs' _. rewrite (Hs' (S k)) in Hfail; [done|lia].
    - intros i' j Hj Hsj Hfj Hi'. assert (j = k) as ->; [|done].
      destruct (decide (j < k)%nat); [rewrite (Hs (S j)) in Hfj; [done|lia]|].
      destruct (decide (k < j)%nat); [rewrite (Hsj (S k)) in Hfail; [done|lia]|lia]. }
  apply wp_bind_inv, wp_elim in Hrun as (i & s1 & E1 & Hrun). rewrite (bind_done _ _ _ _ _ E1).
  apply wp_elim in Hrun as ([[v e] i'] & s2 & E2 & Hi' & -> & -> & ->).
  rewrite (bind_done _ _ _ _ _ E2). unfold delete_ScanIterator. rewrite Hi', Hfail. by destruct asserts.
Qed.

(** A scan over an iterator that has failed already is empty: the status is not looked at. *)
Lemma scan_of_a_failed_iterator_is_empty fuel p it s :
  s !! p = Some it → ok (status it) = false →
  for_scan asserts (S fuel) (new_Scan (Some p)) s = Done ([], None, s).
Proof.
  intros Hp Hf. apply wp_eq. unfold for_scan, Scan_begin, new_ScanIterator. simpl.
  apply wp_bind, wp_bind. eapply wp_the_iter; [done|]. rewrite (invalid_failed it Hf).
  apply wp_ret, wp_bind, wp_ret, wp_bind, delete_ok; [done|]. by apply wp_ret.
Qed.
(** ** Several ranges *)

Section Ranges.
Context (multi_increment : MultiScanIterator → M (gmap ptr It) (MultiScanIterator * option exn)).
(** What the database holds in a range. *)
Context (entries : ScanOptions → list value_type).

(** The database's iterator stands at the start of a range and no step through it fails. *)
Definition placed (o : ScanOptions) (it : It) : Prop :=
  remaining it = entries o ∧ sound_until (S (length (entries o))) it.

(** The object of the outer loop at range [k]. *)
Definition at_range (opts : list ScanOptions) (p : ptr) (k : nat) (m : MultiScanIterator) : Prop :=
  msi_scan_opts m = opts ∧ msi_db_iter m = Some p ∧ scan_ m = new_Scan (Some p) ∧ idx_ m = k ∧
  ok (msi_status m) = true.

(** What the header says of [operator++]: it goes on to the next range, if there is one. *)
Definition advances (opts : list ScanOptions) (p : ptr) : Prop :=
  ∀ k m s it, at_range opts p k m → (k < length opts)%nat → s !! p = Some it →
    ∃ m' it', multi_increment m s = Done (m', None, <[p := it']> s) ∧ at_range opts p (S k) m' ∧
      ∀ o, opts !! S k = Some o → placed o it'.

Lemma multi_loop_ok outer fuel opts p k m it s visited Q :
  advances opts p → (∀ o, o ∈ opts → length (entries o) < fuel)%nat → (length opts < outer + k)%nat →
  (k <= length opts)%nat → at_range opts p k m → s !! p = Some it → (∀ o, opts !! k = Some o → placed o it) →
  (∀ m' s', ok (msi_status m') = true → Q (visited ++ (entries <$> drop k opts), None, m') s') →
  wp (multi_loop asserts multi_increment outer fuel m visited) Q s.
Proof.
  intros Hadv Hf. revert k m it s visited.
  induction outer as [|outer IH]; intros k m it s visited Ho Hk Hm Hp Hplaced HQ; [simpl in Ho; lia|].
  cbn [multi_loop]. unfold multi_not_at_end.
  destruct Hm as (Hopts & Hd & Hscan & Hidx & Hst). rewrite Hopts, Hidx.
  destruct (opts !! k) as [o|] eqn:Eo.
  - pose proof (lookup_lt_Some _ _ _ Eo) as Hlt. rewrite bool_decide_true by done.
    destruct (Hplaced o eq_refl) as [Hrem Hsound]. rewrite <-Hrem in Hsound.
    apply wp_bind. unfold multi_star. rewrite Hscan. eapply for_scan_ok; [exact Hp|done| |].
    { rewrite Hrem. apply Hf. by eapply list_elem_of_lookup_2. }
    apply wp_bind.
    edestruct (Hadv k m) as (m' & it' & E & Hm' & Hnext);
      [done|done|by rewrite lookup_insert_eq|]. eapply wp_done; [exact E|]. cbn iota beta.
    eapply (IH (S k)); [lia|lia|exact Hm'|by rewrite lookup_insert_eq|exact Hnext|].
    intros m2 s2 Hm2. rewrite Hrem, <-app_assoc. specialize (HQ m2 s2 Hm2).
    by rewrite (drop_S _ _ _ Eo) in HQ.
  - apply lookup_ge_None in Eo. rewrite bool_decide_false by lia. apply wp_ret.
    specialize (HQ m s Hst). rewrite drop_ge in HQ by done. by rewrite app_nil_r in HQ.
Qed.

(** C38. The nested loops of the header's example visit every range, in the order of the scan options,
    and in each exactly the entries the database holds there, when the database answers without an
    error; they end without an exception. *)
Theorem multi_scan_visits_every_range outer fuel ms p it s first rest start :
  let opts := GetScanRanges (scan_opts_ ms) in
  opts = first :: rest → ms_db_iter ms = Some p → s !! p = Some it → ok (status it) = true →
  Slice.value (range_start first) = Done start → placed first (Seek start it) → advances opts p →
  (∀ o, o ∈ opts → length (entries o) < fuel)%nat → (length opts < outer)%nat →
  ∃ s', for_multi_scan asserts multi_increment outer fuel ms s = Done (entries <$> opts, None, s').
Proof.
  intros opts Hopts Hd Hp Hok Hstart Hplaced Hadv Hf Ho.
  assert (wp (for_multi_scan asserts multi_increment outer fuel ms)
            (λ out _, out = (entries <$> opts, None)) s) as (out & s' & E & ->)%wp_elim; [|by exists s'].
  unfold for_multi_scan, MultiScan_begin. fold opts. rewrite Hopts, Hd. apply wp_bind. cbn [new_MultiScanIterator].
  apply wp_bind. eapply wp_the_iter; [done|]. rewrite Hok. cbn [negb].
  apply wp_bind. eapply wp_lift_outcome; [done|]. apply wp_bind. eapply wp_move_iter; [done|].
  apply wp_bind. eapply wp_the_iter; [by rewrite lookup_insert_eq|].
  pose proof (proj2 Hplaced 0%nat ltac:(lia)) as Hseek. simpl in Hseek. rewrite Hseek. cbn [negb].
  apply wp_ret, wp_bind. rewrite <-Hopts.
  eapply (multi_loop_ok outer fuel opts p 0); [done|done|lia|lia|done|by rewrite lookup_insert_eq| |].
  - intros o. rewrite Hopts. by intros [= <-].
  - intros m' s' Hm'. apply wp_bind. unfold delete_MultiScanIterator. rewrite Hm', andb_false_r.
    by apply wp_ret, wp_ret.
Qed.

(** A scan over several ranges that cannot start throws, and the exception reaches its handler,
    with or without assertions: no ranges are a logic error; an iterator that has failed, or that
    fails when it seeks the first range, is reported with its status. *)
Theorem multi_scan_reports_a_failed_start outer fuel ms p it s :
  ms_db_iter ms = Some p → s !! p = Some it →
  match GetScanRanges (scan_opts_ ms) with
  | [] => for_multi_scan asserts multi_increment outer fuel ms s =
            Done ([], Some (logic_error (str "Zero scans in multi-scan")), s)
  | first :: _ =>
      (ok (status it) = false →
       for_multi_scan asserts multi_increment outer fuel ms s =
         Done ([], Some (MultiScanException (status it)), s)) ∧
      ∀ start, ok (status it) = true → Slice.value (range_start first) = Done start →
        ok (status (Seek start it)) = false →
        for_multi_scan asserts multi_increment outer fuel ms s =
          Done ([], Some (MultiScanException (status (Seek start it))), <[p := Seek start it]> s)
  end.
Proof.
  intros Hd Hp. unfold for_multi_scan, MultiScan_begin. rewrite Hd.
  destruct (GetScanRanges _) as [|first rest]; [done|]. split.
  - intros Hok. apply wp_eq, wp_bind, wp_bind. eapply wp_the_iter; [done|]. rewrite Hok. by do 2 apply wp_ret.
  - intros start Hok Hstart Hseek. apply wp_eq, wp_bind, wp_bind. eapply wp_the_iter; [done|]. rewrite Hok.
    cbn [negb]. apply wp_bind. eapply wp_lift_outcome; [done|]. apply wp_bind. eapply wp_move_iter; [done|].
    apply wp_bind. eapply wp_the_iter; [by rewrite lookup_insert_eq|]. rewrite Hseek. by do 2 apply wp_ret.
Qed.
End Ranges.
End Specs.
