(* ===== verification/WideColumns.v ===== *)
(** Wide columns (include/rocksdb/wide_columns.h), with the parts of slice.h they use.  Columns are
    slices into the value they were read from, so pointers are addresses here: an array and an
    offset, in a memory of arrays.  What is compiled elsewhere (moving a [PinnableSlice], handing
    cleanups over, taking a serialized entity apart, printing a slice) and what an implementation of
    [std::string] may choose (where the characters of an assigned or moved string are) are arguments. *)
From S2P Require Import Prelude RocksStatus RocksDB.

(** ** Memory and slices *)

Abbreviation mem := (gmap ptr (list byte)).
Abbreviation MW := (M mem).

Record Slice := mkSlice { data_ : option (ptr * nat); size_ : nat }.
Definition empty_slice : Slice := mkSlice None 0.
Definition empty (s : Slice) : bool := bool_decide (size_ s = 0).

(** The bytes a slice shows; nothing is read of an empty one. *)
Definition read (m : mem) (s : Slice) : option (list byte) :=
  if decide (size_ s = 0) then Some []
  else
    match data_ s with
    | Some (a, off) =>
        match m !! a with
        | Some l => if decide (off + size_ s <= length l) then Some (take (size_ s) (drop off l)) else None
        | None => None
        end
    | None => None
    end.
Definition read_slice (s : Slice) : MW (list byte) :=
  b ← gets (λ m, read m s);
  match b with Some b => mret b | None => undef UseAfterFree end.
Definition slice_eq (x y : Slice) : MW bool :=
  if decide (size_ x = size_ y) then
    a ← read_slice x; b ← read_slice y; mret (bool_decide (a = b))
  else mret false.

(** ** [class PinnableSlice]

    [buf_] is the array of the string [*buf_] points to; a cleanup gives an array back. *)
Record PinnableSlice := mkPinnable {
  p_slice : Slice;
  cleanup_ : list ptr;
  buf_ : ptr;
  pinned_ : bool;
}.

Section PinnableSlices.
Context (string_assign : ptr → list byte → MW ptr)
        (DelegateCleanupsTo : list ptr → list ptr → list ptr * list ptr).

Definition PinSelf (p : PinnableSlice) : MW PinnableSlice :=
  if pinned_ p then undef AssertFailed
  else
    l ← gets (λ m, m !! buf_ p);
    match l with
    | Some l => mret (mkPinnable (mkSlice (Some (buf_ p, 0)) (length l)) (cleanup_ p) (buf_ p) (pinned_ p))
    | None => undef UseAfterFree
    end.
Definition PinSelf_slice (slice : Slice) (p : PinnableSlice) : MW PinnableSlice :=
  if pinned_ p then undef AssertFailed
  else
    b ← read_slice slice;
    buf ← string_assign (buf_ p) b;
    PinSelf (mkPinnable (p_slice p) (cleanup_ p) buf (pinned_ p)).
(** What is left of [*cleanable] comes second. *)
Definition PinSlice (s : Slice) (cleanable : list ptr) (p : PinnableSlice) : MW (PinnableSlice * list ptr) :=
  if pinned_ p then undef AssertFailed
  else
    let '(theirs, mine) := DelegateCleanupsTo cleanable (cleanup_ p) in
    mret (mkPinnable s mine (buf_ p) true, theirs).
Definition pin_Reset (p : PinnableSlice) : MW PinnableSlice :=
  modify (λ m, foldl (λ m a, delete a m) m (cleanup_ p)) ;;
  mret (mkPinnable (mkSlice (data_ (p_slice p)) 0) [] (buf_ p) false).

(** ** [class WideColumn] *)

Record WideColumn := mkWideColumn { name_ : Slice; col_value_ : Slice }.
Definition new_WideColumn : WideColumn := mkWideColumn empty_slice empty_slice.
Definition WideColumn_of (name value : Slice) : WideColumn := mkWideColumn name value.
Definition column_eq (lhs rhs : WideColumn) : MW bool :=
  e ← slice_eq (name_ lhs) (name_ rhs);
  if (e : bool) then slice_eq (col_value_ lhs) (col_value_ rhs) else mret false.
Definition column_ne (lhs rhs : WideColumn) : MW bool := e ← column_eq lhs rhs; mret (negb e).

(** [os << column] with [hex] the base of the stream; [Slice::ToString] is an argument. *)
Definition print_column (ToString : Slice → bool → MW (list byte)) (hex : bool) (column : WideColumn) :
    MW (list byte) :=
  let print (s : Slice) : MW (list byte) :=
    if negb (empty s) then t ← ToString s hex; mret ((if hex then str "0x" else []) ++ t) else mret [] in
  n ← print (name_ column);
  v ← print (col_value_ column);
  mret (n ++ str ":" ++ v).

Definition kDefaultWideColumnName : Slice := empty_slice.

(** ** [class PinnableWideColumns] *)

Record PinnableWideColumns := mkWide { value_ : PinnableSlice; columns_ : list WideColumn }.

Definition columns (w : PinnableWideColumns) : list WideColumn := columns_ w.
Definition serialized_size (w : PinnableWideColumns) : nat := size_ (p_slice (value_ w)).

Context (move_pinnable : PinnableSlice → PinnableSlice → MW (PinnableSlice * PinnableSlice))
        (string_move : ptr → ptr → MW (ptr * ptr))
        (CreateIndexForWideColumns : PinnableWideColumns → MW (Status * PinnableWideColumns)).

Definition Reset (w : PinnableWideColumns) : MW PinnableWideColumns :=
  v ← pin_Reset (value_ w); mret (mkWide v []).

Definition CopyValue (value : Slice) (w : PinnableWideColumns) : MW PinnableWideColumns :=
  v ← PinSelf_slice value (value_ w); mret (mkWide v (columns_ w)).
Definition PinOrCopyValue (value : Slice) (cleanable : option (list ptr)) (w : PinnableWideColumns) :
    MW (PinnableWideColumns * option (list ptr)) :=
  match cleanable with
  | None => w ← CopyValue value w; mret (w, None)
  | Some c => '(v, c) ← PinSlice value c (value_ w); mret (mkWide v (columns_ w), Some c)
  end.
(** The moved-from value comes second. *)
Definition MoveValue (value : PinnableSlice) (w : PinnableWideColumns) :
    MW (PinnableWideColumns * PinnableSlice) :=
  '(v, value) ← move_pinnable (value_ w) value; mret (mkWide v (columns_ w), value).
Definition MoveValue_string (value : ptr) (w : PinnableWideColumns) : MW (PinnableWideColumns * ptr) :=
  let v := value_ w in
  '(buf, value) ← string_move (buf_ v) value;
  v ← PinSelf (mkPinnable (p_slice v) (cleanup_ v) buf (pinned_ v));
  mret (mkWide v (columns_ w), value).

Definition CreateIndexForPlainValue (w : PinnableWideColumns) : PinnableWideColumns :=
  mkWide (value_ w) [mkWideColumn kDefaultWideColumnName (p_slice (value_ w))].

(** Whether [columns_] is the one column of a plain value. *)
Definition is_plain_value (other : PinnableWideColumns) : MW bool :=
  match columns_ other with
  | [c] =>
      e ← slice_eq (name_ c) kDefaultWideColumnName;
      if (e : bool) then slice_eq (col_value_ c) (p_slice (value_ other)) else mret false
  | _ => mret false
  end.
(** [this] and [other] afterwards *)
Definition Move (this other : PinnableWideColumns) : MW (PinnableWideColumns * PinnableWideColumns) :=
  match columns_ this with
  | _ :: _ => undef AssertFailed
  | [] =>
      match columns_ other with
      | [] => mret (this, other)
      | cols =>
          let data := data_ (p_slice (value_ other)) in
          plain ← is_plain_value other;
          '(this, v) ← MoveValue (value_ other) this;
          '(this, cols) ←
            (if decide (data_ (p_slice (value_ this)) = data) then mret (mkWide (value_ this) cols, [])
             else if (plain : bool) then mret (CreateIndexForPlainValue this, cols)
             else '(s, this) ← CreateIndexForWideColumns this;
                  if ok s then mret (this, cols) else undef AssertFailed);
          other ← Reset (mkWide v cols);
          mret (this, other)
      end
  end.

Definition SetPlainValue (value : Slice) (w : PinnableWideColumns) : MW PinnableWideColumns :=
  w ← CopyValue value w; mret (CreateIndexForPlainValue w).
Definition SetPlainValue_pinned (value : Slice) (cleanable : option (list ptr)) (w : PinnableWideColumns) :
    MW (PinnableWideColumns * option (list ptr)) :=
  '(w, c) ← PinOrCopyValue value cleanable w; mret (CreateIndexForPlainValue w, c).
Definition SetPlainValue_moved (value : PinnableSlice) (w : PinnableWideColumns) :
    MW (PinnableWideColumns * PinnableSlice) :=
  '(w, value) ← MoveValue value w; mret (CreateIndexForPlainValue w, value).
Definition SetPlainValue_string (value : ptr) (w : PinnableWideColumns) : MW (PinnableWideColumns * ptr) :=
  '(w, value) ← MoveValue_string value w; mret (CreateIndexForPlainValue w, value).

(** What the four [SetWideColumnValue] end with. *)
Definition index_or_reset (w : PinnableWideColumns) : MW (Status * PinnableWideColumns) :=
  '(s, w) ← CreateIndexForWideColumns w;
  if negb (ok s) then w ← Reset w; mret (s, w) else mret (s, w).
Definition SetWideColumnValue (value : Slice) (w : PinnableWideColumns) : MW (Status * PinnableWideColumns) :=
  w ← CopyValue value w; index_or_reset w.
Definition SetWideColumnValue_pinned (value : Slice) (cleanable : option (list ptr))
    (w : PinnableWideColumns) : MW (Status * PinnableWideColumns * option (list ptr)) :=
  '(w, c) ← PinOrCopyValue value cleanable w; '(s, w) ← index_or_reset w; mret (s, w, c).
Definition SetWideColumnValue_moved (value : PinnableSlice) (w : PinnableWideColumns) :
    MW (Status * PinnableWideColumns * PinnableSlice) :=
  '(w, value) ← MoveValue value w; '(s, w) ← index_or_reset w; mret (s, w, value).
Definition SetWideColumnValue_string (value : ptr) (w : PinnableWideColumns) :
    MW (Status * PinnableWideColumns * ptr) :=
  '(w, value) ← MoveValue_string value w; '(s, w) ← index_or_reset w; mret (s, w, value).

(** A new object, whose string's array is [buf]; the move constructor; move assignment, from itself
    for [None]. *)
Definition new_PinnableWideColumns (buf : ptr) : PinnableWideColumns :=
  mkWide (mkPinnable empty_slice [] buf false) [].
Definition move_construct (buf : ptr) (other : PinnableWideColumns) :
    MW (PinnableWideColumns * PinnableWideColumns) := Move (new_PinnableWideColumns buf) other.
Definition move_assign (this : PinnableWideColumns) (other : option PinnableWideColumns) :
    MW (PinnableWideColumns * option PinnableWideColumns) :=
  match other with
  | Some other => this ← Reset this; '(this, other) ← Move this other; mret (this, Some other)
  | None => mret (this, None)
  end.

(** [std::vector]'s equality, which the comparison of two objects is. *)
Fixpoint columns_eq (lhs rhs : list WideColumn) : MW bool :=
  match lhs, rhs with
  | [], [] => mret true
  | l :: lhs, r :: rhs => e ← column_eq l r; if (e : bool) then columns_eq lhs rhs else mret false
  | _, _ => mret false
  end.
Definition wide_eq (lhs rhs : PinnableWideColumns) : MW bool :=
  if decide (length (columns lhs) = length (columns rhs)) then columns_eq (columns lhs) (columns rhs)
  else mret false.
Definition wide_ne (lhs rhs : PinnableWideColumns) : MW bool := e ← wide_eq lhs rhs; mret (negb e).
End PinnableSlices.
