(* ===== verification/WideColumnsSpec.v ===== *)
(** What the objects of WideColumns.v hold: the columns always show bytes of the object's own value,
    whichever way the value came in, and a move takes them along. *)
From S2P Require Import Prelude RocksStatus RocksDB WideColumns.

(** ** Reading *)

Lemma read_length m s b : read m s = Some b → length b = size_ s.
Proof.
  unfold read. case_decide; [by intros [= <-]|]. destruct (data_ s) as [[a off]|]; [|done].
  destruct (m !! a); [|done]. case_decide; [|done]. intros [= <-]. rewrite length_take, length_drop. lia.
Qed.
Lemma read_empty m d : read m (mkSlice d 0) = Some [].
Proof. done. Qed.

(** Everything the columns say, as bytes. *)
Definition column_bytes (m : mem) (c : WideColumn) : option (list byte * list byte) :=
  n ← read m (name_ c); v ← read m (col_value_ c); Some (n, v).
Definition contents (m : mem) (w : PinnableWideColumns) : option (list (list byte * list byte)) :=
  mapM (column_bytes m) (columns_ w).

(** A slice of what starts at [d]. *)
Definition sub (d : option (ptr * nat)) (off len : nat) : Slice :=
  mkSlice (prod_map id (λ o, o + off) <$> d) len.
Lemma read_sub m d b off len :
  read m (mkSlice d (length b)) = Some b → off + len <= length b →
  read m (sub d off len) = Some (take len (drop off b)).
Proof.
  unfold read, sub. cbn [size_ data_]. intros Hb Hle. destruct (decide (len = 0)) as [->|Hl]; [done|].
  destruct (decide (length b = 0)); [lia|]. destruct d as [[a o]|]; [|done]. simpl in *.
  destruct (m !! a) as [l|]; [|done]. case_decide as Ho; [|done]. injection Hb as Hb.
  rewrite decide_True by lia. f_equal. rewrite <-Hb, skipn_firstn_comm, take_take, drop_drop. do 2 f_equal; lia.
Qed.

Lemma column_bytes_sub m d b no nl vo vl :
  read m (mkSlice d (length b)) = Some b → no + nl <= length b → vo + vl <= length b →
  column_bytes m (mkWideColumn (sub d no nl) (sub d vo vl)) =
    Some (take nl (drop no b), take vl (drop vo b)).
Proof.
  intros Hb H1 H2. unfold column_bytes. cbn [name_ col_value_].
  by rewrite (read_sub _ _ _ _ _ Hb H1), (read_sub _ _ _ _ _ Hb H2).
Qed.

Lemma read_keeps m m' s :
  (∀ a l, fst <$> data_ s = Some a → m !! a = Some l → m' !! a = Some l) →
  ∀ b, read m s = Some b → read m' s = Some b.
Proof.
  intros Hk b. unfold read. case_decide; [done|]. destruct (data_ s) as [[a off]|]; [|done].
  destruct (m !! a) as [l|] eqn:E; [|done]. by rewrite (Hk a l eq_refl E).
Qed.

Lemma wp_read s b Q m : read m s = Some b → Q b m → wp (read_slice s) Q m.
Proof. intros E HQ. unfold read_slice. wp_steps. rewrite E. by wp_steps. Qed.
Lemma wp_slice_eq x y bx by_ (Q : bool → mem → Prop) m :
  read m x = Some bx → read m y = Some by_ → Q (bool_decide (bx = by_)) m → wp (slice_eq x y) Q m.
Proof.
  intros Hx Hy HQ. unfold slice_eq. destruct (decide (size_ x = size_ y)) as [Hs|Hs].
  - apply wp_bind. eapply wp_read; [done|]. apply wp_bind. eapply wp_read; [done|]. by apply wp_ret.
  - apply wp_ret. rewrite bool_decide_false in HQ; [done|]. intros ->.
    apply read_length in Hx, Hy. congruence.
Qed.

(** ** The object *)

(** A value owns its buffer, which it does not give back when it is reset; when it is not pinned it
    shows the buffer and has nothing to give back. *)
Definition pin_ok (m : mem) (p : PinnableSlice) : Prop :=
  is_Some (m !! buf_ p) ∧ (buf_ p ∉ cleanup_ p) ∧
  (pinned_ p = false →
     cleanup_ p = [] ∧ (size_ (p_slice p) = 0 ∨ data_ (p_slice p) = Some (buf_ p, 0))).
Definition shows (m : mem) (p : PinnableSlice) (b : list byte) : Prop := read m (p_slice p) = Some b.
(** What [p] gives back when it is reset is of no use to [q], and [q] does not give back [p]'s buffer. *)
Definition separate (p q : PinnableSlice) : Prop :=
  buf_ p ≠ buf_ q ∧ (buf_ p ∉ cleanup_ q) ∧
  ∀ a, a ∈ cleanup_ p → a ≠ buf_ q ∧ fst <$> data_ (p_slice q) ≠ Some a.

Lemma shows_buffer m a b : m !! a = Some b → read m (mkSlice (Some (a, 0)) (length b)) = Some b.
Proof.
  intros E. unfold read. cbn [size_ data_]. case_decide as Hl; [by apply nil_length_inv in Hl as ->|].
  rewrite E, decide_True by lia. by rewrite drop_0, firstn_all.
Qed.
Lemma cleanups_keep (l : list ptr) (m : mem) a : a ∉ l → foldl (λ m a, delete a m) m l !! a = m !! a.
Proof.
  revert m. induction l as [|x l IH]; intros m Ha; [done|]. simpl.
  rewrite IH by set_solver. apply lookup_delete_ne. set_solver.
Qed.
Lemma cleanups_gone (l : list ptr) (m : mem) a :
  a ∈ l → foldl (λ m a, delete a m) m l !! a = None.
Proof.
  revert m. induction l as [|x l IH]; intros m Ha; [by apply not_elem_of_nil in Ha|]. simpl.
  destruct (decide (a ∈ l)) as [Hin|Hin]; [by apply IH|]. rewrite cleanups_keep by done.
  apply elem_of_cons in Ha as [->|?]; [apply lookup_delete_eq|done].
Qed.
Lemma empty_pin_ok m buf : is_Some (m !! buf) → pin_ok m (mkPinnable empty_slice [] buf false).
Proof. intros Hbuf. split; [done|]. split; [apply not_elem_of_nil|]. by intros _; split; [|left]. Qed.

(** Offset and length of name and value of each column. *)
Abbreviation places := (list (nat * nat * (nat * nat))).
Definition index (d : option (ptr * nat)) (l : places) : list WideColumn :=
  (λ '(no, nl, (vo, vl)), mkWideColumn (sub d no nl) (sub d vo vl)) <$> l.

(** ** What is compiled elsewhere, and what [std::string] promises *)

Definition kept (X : list ptr) (m m' : mem) : Prop := ∀ a l, a ∉ X → m !! a = Some l → m' !! a = Some l.

(** No array has come to be. *)
Definition nothing_new (m m' : mem) : Prop := ∀ a, m !! a = None → m' !! a = None.

Class WideSpec (string_assign : ptr → list byte → MW ptr)
    (DelegateCleanupsTo : list ptr → list ptr → list ptr * list ptr)
    (move_pinnable : PinnableSlice → PinnableSlice → MW (PinnableSlice * PinnableSlice))
    (string_move : ptr → ptr → MW (ptr * ptr))
    (CreateIndexForWideColumns : PinnableWideColumns → MW (Status * PinnableWideColumns))
    (parse : list byte → Status * places) := {
  string_assign_ok buf b m Q :
    is_Some (m !! buf) → (∀ buf' m', m' !! buf' = Some b → kept [buf] m m' → Q buf' m') →
    wp (string_assign buf b) Q m;
  string_move_ok t s b m Q :
    t ≠ s → is_Some (m !! t) → m !! s = Some b →
    (∀ t' s' m', m' !! t' = Some b → kept [t; s] m m' → Q (t', s') m') → wp (string_move t s) Q m;
  delegate_ok theirs mine a :
    a ∈ (DelegateCleanupsTo theirs mine).2 → a ∈ theirs ∨ a ∈ mine;
  (** A move allocates nothing. *)
  move_pinnable_ok this other b m Q :
    pin_ok m this → pin_ok m other → separate this other → shows m other b →
    (∀ this' other' m', pin_ok m' this' → pin_ok m' other' → shows m' this' b → cleanup_ other' = [] →
       nothing_new m m' → Q (this', other') m') → wp (move_pinnable this other) Q m;
  (** An entity is taken apart by its bytes; its columns are within it, and no value is all of it. *)
  create_index_ok w b m Q :
    shows m (value_ w) b → columns_ w = [] →
    (∀ cols, (ok (parse b).1 = true → cols = index (data_ (p_slice (value_ w))) (parse b).2) →
       Q ((parse b).1, mkWide (value_ w) cols) m) → wp (CreateIndexForWideColumns w) Q m;
  parse_within b no nl vo vl :
    ok (parse b).1 = true → (no, nl, (vo, vl)) ∈ (parse b).2 →
    no + nl <= length b ∧ vo + vl <= length b ∧ vl < length b;
}.

Section Specs.
Context {string_assign : ptr → list byte → MW ptr}
        {DelegateCleanupsTo : list ptr → list ptr → list ptr * list ptr}
        {move_pinnable : PinnableSlice → PinnableSlice → MW (PinnableSlice * PinnableSlice)}
        {string_move : ptr → ptr → MW (ptr * ptr)}
        {CreateIndexForWideColumns : PinnableWideColumns → MW (Status * PinnableWideColumns)}
        {parse : list byte → Status * places}
        `{WS : !WideSpec string_assign DelegateCleanupsTo move_pinnable string_move
           CreateIndexForWideColumns parse}.

(** The columns of an object, and what they say: none, a plain value, or an entity. *)
Inductive kind := nothing | plain | entity.
Definition indexed (k : kind) (b : list byte) (w : PinnableWideColumns) : Prop :=
  match k with
  | nothing => columns_ w = []
  | plain => columns_ w = [mkWideColumn kDefaultWideColumnName (p_slice (value_ w))]
  | entity => ok (parse b).1 = true ∧ columns_ w = index (data_ (p_slice (value_ w))) (parse b).2
  end.
Definition entity_columns (b : list byte) : list (list byte * list byte) :=
  (λ '(no, nl, (vo, vl)), (take nl (drop no b), take vl (drop vo b))) <$> (parse b).2.
Definition denotes (k : kind) (b : list byte) : list (list byte * list byte) :=
  match k with nothing => [] | plain => [([], b)] | entity => entity_columns b end.

(** The invariant: the columns are slices of the object's own value. *)
Definition wide_ok (m : mem) (w : PinnableWideColumns) : Prop :=
  pin_ok m (value_ w) ∧ ∃ k b, shows m (value_ w) b ∧ indexed k b w.

Lemma shows_slice m p b : shows m p b → read m (mkSlice (data_ (p_slice p)) (length b)) = Some b.
Proof. unfold shows. intros E. rewrite (read_length _ _ _ E). by destruct (p_slice p). Qed.

Lemma indexed_contents m w k b :
  shows m (value_ w) b → indexed k b w → contents m w = Some (denotes k b).
Proof.
  unfold contents. intros Hb Hk. destruct k; simpl in Hk.
  - by rewrite Hk.
  - rewrite Hk. simpl. unfold column_bytes. cbn [name_ col_value_]. by rewrite Hb.
  - destruct Hk as [Hok ->]. simpl. unfold entity_columns, index.
    apply mapM_Some_2. rewrite Forall2_fmap. apply Forall_Forall2_diag, Forall_forall.
    intros [[no nl] [vo vl]] Hin. destruct (parse_within b no nl vo vl Hok Hin) as (H1 & H2 & _).
    by apply column_bytes_sub; [apply shows_slice|..].
Qed.
(** ** The ways a value comes in *)

(** The value holds [b] afterwards; the columns are those from before. *)
Definition stored (b : list byte) (w w' : PinnableWideColumns) (m' : mem) : Prop :=
  pin_ok m' (value_ w') ∧ shows m' (value_ w') b ∧ columns_ w' = columns_ w.

Lemma PinSelf_ok p b m Q :
  pinned_ p = false → m !! buf_ p = Some b →
  Q (mkPinnable (mkSlice (Some (buf_ p, 0)) (length b)) (cleanup_ p) (buf_ p) false) m →
  wp (PinSelf p) Q m.
Proof. intros Hp Hb HQ. unfold PinSelf. rewrite Hp. wp_steps. rewrite Hb. by apply wp_ret. Qed.

Lemma stored_buffer b w m buf :
  m !! buf = Some b → cleanup_ (value_ w) = [] →
  stored b w (mkWide (mkPinnable (mkSlice (Some (buf, 0)) (length b)) (cleanup_ (value_ w)) buf false)
                (columns_ w)) m.
Proof.
  intros Hb Hc. rewrite Hc. split; [|split; [by apply shows_buffer|done]].
  split; [by exists b|]. split; [apply not_elem_of_nil|]. by intros _; split; [|right].
Qed.

Lemma CopyValue_ok v b w m :
  pin_ok m (value_ w) → pinned_ (value_ w) = false → read m v = Some b →
  wp (CopyValue string_assign v w) (stored b w) m.
Proof.
  intros (Hbuf & _ & Hun) Hp Hv. unfold CopyValue, PinSelf_slice. rewrite Hp. wp_steps.
  eapply wp_read; [done|]. apply wp_bind, string_assign_ok; [done|]. intros buf' m' Hb' _.
  eapply PinSelf_ok; [done|done|]. wp_steps. by apply stored_buffer, Hun.
Qed.

Lemma PinOrCopyValue_ok v c b w m :
  pin_ok m (value_ w) → pinned_ (value_ w) = false → read m v = Some b →
  buf_ (value_ w) ∉ default [] c →
  wp (PinOrCopyValue string_assign DelegateCleanupsTo v c w) (λ out m', stored b w out.1 m') m.
Proof.
  intros Hpin Hp Hv Hc. destruct c as [c|]; cbn [PinOrCopyValue].
  - unfold PinSlice. rewrite Hp. destruct (DelegateCleanupsTo _ _) as [theirs mine] eqn:E. wp_steps.
    split; [|by split]. split; [apply Hpin|]. split; [|done]. simpl. intros Hin.
    destruct (delegate_ok c (cleanup_ (value_ w)) (buf_ (value_ w))) as [?|?]; [by rewrite E|done|].
    by apply (proj1 (proj2 Hpin)).
  - apply wp_bind. eapply wp_mono; [by apply CopyValue_ok|]. intros w' m' Hs. by apply wp_ret.
Qed.

Lemma MoveValue_ok p b w m :
  pin_ok m (value_ w) → pin_ok m p → separate (value_ w) p → shows m p b →
  wp (MoveValue move_pinnable p w) (λ out m', stored b w out.1 m') m.
Proof.
  intros Hw Hp Hsep Hb. unfold MoveValue. apply wp_bind. eapply move_pinnable_ok; [done..|].
  intros this' other' m' H1 _ H2 _ _. wp_steps. by split.
Qed.

Lemma MoveValue_string_ok a b w m :
  pin_ok m (value_ w) → pinned_ (value_ w) = false → buf_ (value_ w) ≠ a → m !! a = Some b →
  wp (MoveValue_string string_move a w) (λ out m', stored b w out.1 m') m.
Proof.
  intros (Hbuf & _ & Hun) Hp Hne Ha. unfold MoveValue_string. apply wp_bind.
  eapply string_move_ok; [done|done|done|]. intros t' s' m' Ht _. wp_steps.
  eapply PinSelf_ok; [done|done|]. wp_steps. by apply stored_buffer, Hun.
Qed.

(** ** The index *)

(** The columns are those of a plain value, or of an entity. *)
Definition holds_plain (b : list byte) (w : PinnableWideColumns) (m : mem) : Prop :=
  wide_ok m w ∧ contents m w = Some [([], b)].
Definition holds_entity (b : list byte) (s : Status) (w : PinnableWideColumns) (m : mem) : Prop :=
  wide_ok m w ∧ s = (parse b).1 ∧
  if ok s then contents m w = Some (entity_columns b) else columns_ w = [] ∧ serialized_size w = 0.

Lemma plain_index_ok b w w' m : stored b w w' m → holds_plain b (CreateIndexForPlainValue w') m.
Proof.
  intros (H1 & H2 & _). split.
  - split; [done|]. by exists plain, b.
  - by apply (indexed_contents _ _ plain).
Qed.

(** A reset leaves an empty object that still owns its buffer, and the memory others use. *)
Lemma Reset_ok w m Q :
  pin_ok m (value_ w) →
  (∀ w' m', pin_ok m' (value_ w') → columns_ w' = [] → serialized_size w' = 0 → cleanup_ (value_ w') = [] →
     buf_ (value_ w') = buf_ (value_ w) → pinned_ (value_ w') = false →
     (∀ a, a ∈ cleanup_ (value_ w) → m' !! a = None) →
     (∀ a, a ∉ cleanup_ (value_ w) → m' !! a = m !! a) → Q w' m') →
  wp (Reset w) Q m.
Proof.
  intros (Hbuf & Hni & _) HQ. unfold Reset, pin_Reset. wp_steps. apply HQ; try done.
  - split; [|split; [apply not_elem_of_nil|by intros _; split; [|left]]]. cbn [value_ buf_].
    by rewrite cleanups_keep.
  - intros a Ha. by apply cleanups_gone.
  - intros a Ha. by apply cleanups_keep.
Qed.

Lemma empty_ok m w : pin_ok m (value_ w) → columns_ w = [] → serialized_size w = 0 → wide_ok m w.
Proof.
  intros Hp Hc Hs. split; [done|]. exists nothing, []. split; [|done]. unfold shows, read.
  by rewrite decide_True.
Qed.

Lemma index_or_reset_ok b w w' m :
  stored b w w' m → columns_ w = [] →
  wp (index_or_reset CreateIndexForWideColumns w') (λ out m', holds_entity b out.1 out.2 m') m.
Proof.
  intros (Hp & Hb & Hc) Hw. rewrite Hw in Hc. unfold index_or_reset. apply wp_bind.
  eapply create_index_ok; [done|done|]. intros cols Hcols. destruct (ok (parse b).1) eqn:E; cbn [negb].
  - apply wp_ret. assert (indexed entity b (mkWide (value_ w') cols)) as Hi by (split; [done|by apply Hcols]).
    split; [split; [done|by exists entity, b]|]. split; [done|]. cbn [fst snd]. rewrite E.
    by apply (indexed_contents _ _ entity).
  - apply wp_bind. apply Reset_ok; [done|]. intros w2 m2 H1 H2 H3 _ _ _ _ _. apply wp_ret.
    split; [by apply empty_ok|]. split; [done|]. cbn [fst snd]. by rewrite E.
Qed.
(** ** Moving *)

Definition is_plain (k : kind) : bool := match k with plain => true | _ => false end.

Lemma is_plain_value_ok m w k b (Q : bool → mem → Prop) :
  shows m (value_ w) b → indexed k b w → columns_ w ≠ [] → Q (is_plain k) m → wp (is_plain_value w) Q m.
Proof.
  intros Hb Hk Hne HQ. unfold is_plain_value. destruct k; simpl in Hk.
  - by rewrite Hk in Hne.
  - rewrite Hk. apply wp_bind. eapply wp_slice_eq; [done|done|]. cbn [name_ col_value_].
    rewrite bool_decide_true by done. eapply wp_slice_eq; [exact Hb|exact Hb|]. by rewrite bool_decide_true.
  - destruct Hk as [Hok Hk]. rewrite Hk.
    pose proof (parse_within b) as Hin. unfold index. destruct (parse b).2 as [|[[no nl] [vo vl]] [|? ?]];
      [by apply wp_ret| |by apply wp_ret]. csimpl.
    destruct (Hin no nl vo vl Hok) as (H1 & H2 & H3); [by left|]. pose proof (shows_slice _ _ _ Hb) as Hs.
    apply wp_bind. eapply wp_slice_eq; [by eapply read_sub|done|].
    destruct (bool_decide _); [|by apply wp_ret]. eapply wp_slice_eq; [by eapply read_sub|exact Hb|].
    rewrite bool_decide_false; [done|]. intros E%(f_equal length).
    rewrite length_take, length_drop in E. lia.
Qed.

(** The index of the other object fits this one when the bytes did not move. *)
Lemma indexed_here k b w w' :
  p_slice (value_ w') = p_slice (value_ w) → columns_ w' = columns_ w → indexed k b w → indexed k b w'.
Proof. intros Hs Hc. destruct k; simpl; by rewrite Hc, ?Hs. Qed.

(** Either the bytes are where they were, and the columns are moved; or the index is built again. *)
Lemma Move_ok this other m :
  columns_ this = [] → wide_ok m this → wide_ok m other → separate (value_ this) (value_ other) →
  wp (Move move_pinnable CreateIndexForWideColumns this other)
    (λ out m', wide_ok m' out.1 ∧ contents m' out.1 = contents m other ∧ columns_ out.2 = [] ∧
      nothing_new m m') m.
Proof.
  intros Hthis Hok (Hpin & k & b & Hb & Hk) Hsep. unfold Move. rewrite Hthis.
  destruct (columns_ other) as [|c cols] eqn:Hcols.
  { apply wp_ret. split; [done|]. split; [|by split; [|intros a]]. unfold contents. cbn [fst]. by rewrite Hthis, Hcols. }
  apply wp_bind. eapply is_plain_value_ok; [done|done|by rewrite Hcols|].
  apply wp_bind. unfold MoveValue. apply wp_bind. eapply move_pinnable_ok; [apply Hok|done..|].
  intros v' o' m' Hv Ho Hb' Hnil Hnew. apply wp_ret. cbn iota beta. rewrite Hthis. cbn [value_].
  rewrite (indexed_contents m other k b Hb Hk).
  assert (∀ w (cs : list WideColumn), pin_ok m' (value_ w) → shows m' (value_ w) b → indexed k b w →
    wp (o ← Reset (mkWide o' cs); mret (w, o)) (λ out m2, wide_ok m2 out.1 ∧
      contents m2 out.1 = Some (denotes k b) ∧ columns_ out.2 = [] ∧ nothing_new m m2) m') as Hfinish.
  { intros w cs Hp Hs Hi. apply wp_bind, Reset_ok; [done|]. intros o2 m2 _ Hc2 _ _ _ _ _ Hkeep.
    apply wp_ret. cbn [value_] in Hkeep. rewrite Hnil in Hkeep.
    assert (m2 = m') as -> by (apply map_eq; intros a; apply Hkeep, not_elem_of_nil).
    split; [split; [done|by exists k, b]|]. split; [by apply indexed_contents|by split]. }
  assert (p_slice v' = p_slice (value_ other) ∨ data_ (p_slice v') ≠ data_ (p_slice (value_ other))) as Hcase.
  { destruct (decide (data_ (p_slice v') = data_ (p_slice (value_ other)))) as [E|]; [left|by right].
    unfold shows in Hb, Hb'. apply read_length in Hb, Hb'. destruct (p_slice v'), (p_slice (value_ other)).
    simpl in *. congruence. }
  apply wp_bind. case_decide as Hd.
  - apply wp_ret, Hfinish; [done|done|]. destruct Hcase as [E|]; [|done].
    by apply (indexed_here k b other).
  - destruct (is_plain k) eqn:Hpl.
    + apply wp_ret, Hfinish; [done|done|]. by destruct k.
    + assert (k = entity) as -> by (destruct k; [by simpl in Hk; congruence|done|done]).
      destruct Hk as [Hparse Hk]. apply wp_bind. eapply create_index_ok; [done|done|]. intros cs Hcs.
      rewrite Hparse. apply wp_ret, Hfinish; [done|done|]. split; [done|by apply Hcs].
Qed.

(** C23. The columns of an object are slices into its own value, and a move does not leave them
    behind: assigned or constructed from another object, an object has the other's columns,
    byte for byte, as slices of its own value, whether the bytes of the other came along
    (pinned ones, or a long string) or were copied to a new place (a short string) and the
    index had to be built again; the other is left without columns. When an object is assigned
    to, every array its old value was to give back has been given back; assigned from itself,
    it stays as it is. *)
Theorem moved_columns_show_their_own_value this other buf m :
  wide_ok m other →
  (wide_ok m this → separate (value_ this) (value_ other) →
   wp (move_assign move_pinnable CreateIndexForWideColumns this (Some other)) (λ out m',
     wide_ok m' out.1 ∧ contents m' out.1 = contents m other ∧
     (∃ o, out.2 = Some o ∧ columns_ o = []) ∧ ∀ a, a ∈ cleanup_ (value_ this) → m' !! a = None) m) ∧
  move_assign move_pinnable CreateIndexForWideColumns this None m = Done (this, None, m) ∧
  (is_Some (m !! buf) → buf ≠ buf_ (value_ other) → buf ∉ cleanup_ (value_ other) →
   wp (move_construct move_pinnable CreateIndexForWideColumns buf other) (λ out m',
     wide_ok m' out.1 ∧ contents m' out.1 = contents m other ∧ columns_ out.2 = []) m).
Proof.
  intros Hother. split; [|split; [done|]].
  - intros [Hpin _] (Hne & Hnq & Hsep). apply wp_bind, Reset_ok; [done|].
    intros this' m' H1 H2 H3 H4 H5 _ Hgone Hkeep. apply wp_bind.
    assert (∀ s bs, fst <$> data_ s = fst <$> data_ (p_slice (value_ other)) →
      read m s = Some bs → read m' s = Some bs) as Hread.
    { intros s bs Hs. apply read_keeps. intros a l Ha Hl. rewrite Hkeep; [done|]. intros Hin.
      apply Hsep in Hin as [_ Hin]. congruence. }
    destruct Hother as ((Hbuf & Hni & Hun) & k & b & Hb & Hk).
    assert (wide_ok m' other) as Hother'.
    { split; [|exists k, b; split; [by apply Hread|done]]. split; [|by split].
      rewrite Hkeep; [done|]. intros Hin. by apply Hsep in Hin as [? _]. }
    assert (contents m' other = contents m other) as <-.
    { rewrite (indexed_contents m other k b Hb Hk). apply indexed_contents; [by apply Hread|done]. }
    eapply wp_mono; [apply Move_ok; [done|by apply empty_ok|done|]|].
    + split; [congruence|]. split; [congruence|]. intros a Ha. rewrite H4 in Ha. by apply not_elem_of_nil in Ha.
    + intros [t o] m2 (Ha & Hb2 & Hc & Hnew). apply wp_ret. split; [done|]. split; [done|].
      split; [by exists o|]. intros a Hin. by apply Hnew, Hgone.
  - intros Hbuf Hne Hnq. eapply wp_mono; [apply Move_ok; [done| |done|]|by intros out m' (? & ? & ? & _)].
    + apply empty_ok; [by apply empty_pin_ok|done|done].
    + split; [done|]. split; [done|]. intros a Ha. by apply not_elem_of_nil in Ha.
Qed.
(** ** Storing *)

Lemma wp_pair_plain {X} (mk : MW (PinnableWideColumns * X)) b w m :
  wp mk (λ out m', stored b w out.1 m') m →
  wp ('(w, x) ← mk; mret (CreateIndexForPlainValue w, x)) (λ out m', holds_plain b out.1 m') m.
Proof.
  intros Hmk. apply wp_bind. eapply wp_mono; [done|]. intros [w' x] m' Hs. apply wp_ret. by eapply plain_index_ok.
Qed.
Lemma wp_pair_entity {X} (mk : MW (PinnableWideColumns * X)) b w m :
  columns_ w = [] → wp mk (λ out m', stored b w out.1 m') m →
  wp ('(w, x) ← mk; '(s, w) ← index_or_reset CreateIndexForWideColumns w; mret (s, w, x))
    (λ out m', holds_entity b out.1.1 out.1.2 m') m.
Proof.
  intros Hw Hmk. apply wp_bind. eapply wp_mono; [done|]. intros [w' x] m' Hs. apply wp_bind.
  eapply wp_mono; [by eapply index_or_reset_ok|]. intros [st w2] m2 H2. by apply wp_ret.
Qed.

(** However a plain value comes in (copied from a slice, pinned with its cleanups, moved from
    another [PinnableSlice] or from a string), the object then has one column, without a name, that
    shows exactly the bytes of the value. *)
Theorem plain_value_is_one_column w v c p a b m :
  pin_ok m (value_ w) →
  (pinned_ (value_ w) = false → read m v = Some b →
     wp (SetPlainValue string_assign v w) (holds_plain b) m ∧
     (buf_ (value_ w) ∉ default [] c →
      wp (SetPlainValue_pinned string_assign DelegateCleanupsTo v c w) (λ out, holds_plain b out.1) m)) ∧
  (pin_ok m p → separate (value_ w) p → shows m p b →
     wp (SetPlainValue_moved move_pinnable p w) (λ out, holds_plain b out.1) m) ∧
  (pinned_ (value_ w) = false → buf_ (value_ w) ≠ a → m !! a = Some b →
     wp (SetPlainValue_string string_move a w) (λ out, holds_plain b out.1) m).
Proof.
  intros Hw. split; [intros Hp Hv; split|split].
  - apply wp_bind. eapply wp_mono; [by apply CopyValue_ok|]. intros w' m' Hs. apply wp_ret. by eapply plain_index_ok.
  - intros Hc. by eapply wp_pair_plain, PinOrCopyValue_ok.
  - intros Hp Hsep Hb. by eapply wp_pair_plain, MoveValue_ok.
  - intros Hp Hne Ha. by eapply wp_pair_plain, MoveValue_string_ok.
Qed.

(** However the bytes of an entity come in, into an object without columns, the object then has
    the columns they are taken apart into, each showing its bytes of the object's own value; when
    they cannot be taken apart, the error is returned and the object is empty. *)
Theorem entity_is_its_columns w v c p a b m :
  pin_ok m (value_ w) → columns_ w = [] →
  (pinned_ (value_ w) = false → read m v = Some b →
     wp (SetWideColumnValue string_assign CreateIndexForWideColumns v w) (λ out, holds_entity b out.1 out.2) m ∧
     (buf_ (value_ w) ∉ default [] c →
      wp (SetWideColumnValue_pinned string_assign DelegateCleanupsTo CreateIndexForWideColumns v c w)
        (λ out, holds_entity b out.1.1 out.1.2) m)) ∧
  (pin_ok m p → separate (value_ w) p → shows m p b →
     wp (SetWideColumnValue_moved move_pinnable CreateIndexForWideColumns p w)
       (λ out, holds_entity b out.1.1 out.1.2) m) ∧
  (pinned_ (value_ w) = false → buf_ (value_ w) ≠ a → m !! a = Some b →
     wp (SetWideColumnValue_string string_move CreateIndexForWideColumns a w)
       (λ out, holds_entity b out.1.1 out.1.2) m).
Proof.
  intros Hw Hnil. split; [intros Hp Hv; split|split].
  - apply wp_bind. eapply wp_mono; [by apply CopyValue_ok|]. intros w' m' Hs. by eapply index_or_reset_ok.
  - intros Hc. by eapply wp_pair_entity, PinOrCopyValue_ok.
  - intros Hp Hsep Hb. by eapply wp_pair_entity, MoveValue_ok.
  - intros Hp Hne Ha. by eapply wp_pair_entity, MoveValue_string_ok.
Qed.
End Specs.
