(* ===== verification/WideDemo.v ===== *)
(** The theorems on scans at a concrete iterator, over three entries, that fails after a given number of
    steps; and those on wide columns at concrete parameters: strings of fewer than 16 characters are
    copied when they are moved, longer ones change hands; an entity is a character for the name of its
    only column and the rest for its value. *)
From S2P Require Import Prelude RocksStatus RocksDB WideColumns WideColumnsSpec.

(** ** Wide columns *)

Definition demo_assign (buf : ptr) (b : list byte) : MW ptr := modify <[buf := b]> ;; mret buf.
Definition demo_delegate (theirs mine : list ptr) : list ptr * list ptr := ([], mine ++ theirs).
Definition demo_string_move (t s : ptr) : MW (ptr * ptr) :=
  b ← gets (λ m, m !! s);
  match b with
  | Some b =>
      if decide (length b < 16) then modify (λ m, <[s := []]> (<[t := b]> m)) ;; mret (t, s)
      else mret (s, t)
  | None => undef UseAfterFree
  end.
Definition demo_move (this other : PinnableSlice) : MW (PinnableSlice * PinnableSlice) :=
  b ← read_slice (p_slice other);
  modify (λ m, foldl (λ m a, delete a m) m (cleanup_ this)) ;;
  if pinned_ other then
    mret (mkPinnable (p_slice other) (cleanup_ other) (buf_ this) true,
          mkPinnable empty_slice [] (buf_ other) false)
  else if decide (length b < 16) then
    modify <[buf_ this := b]> ;;
    mret (mkPinnable (mkSlice (Some (buf_ this, 0)) (length b)) [] (buf_ this) false,
          mkPinnable empty_slice [] (buf_ other) false)
  else
    mret (mkPinnable (p_slice other) [] (buf_ other) false, mkPinnable empty_slice [] (buf_ this) false).
Definition demo_parse (b : list byte) : Status * places :=
  match b with
  | [] => (Status_code kCorruption kNone, [])
  | _ :: r => (default_Status, [(0, 1, (1, length r))])
  end.
Definition demo_create_index (w : PinnableWideColumns) : MW (Status * PinnableWideColumns) :=
  b ← read_slice (p_slice (value_ w));
  mret ((demo_parse b).1, mkWide (value_ w) (index (data_ (p_slice (value_ w))) (demo_parse b).2)).

Lemma demo_move_ok this other b m (Q : PinnableSlice * PinnableSlice → mem → Prop) :
  pin_ok m this → pin_ok m other → separate this other → shows m other b →
  (∀ this' other' m', pin_ok m' this' → pin_ok m' other' → shows m' this' b → cleanup_ other' = [] →
     nothing_new m m' → Q (this', other') m') → wp (demo_move this other) Q m.
Proof.
  intros (Hbt & Hnt & Ht) (Hbo & Hno & Ho) (Hne & Hnq & Hsep) Hb HQ.
  unfold demo_move. apply wp_bind. eapply wp_read; [exact Hb|]. wp_steps.
  set (m' := foldl (λ m a, delete a m) m (cleanup_ this)).
  assert (∀ a, a ∉ cleanup_ this → m' !! a = m !! a) as Hkeep by (intros a; apply cleanups_keep).
  assert (nothing_new m m') as Hnew.
  { intros a Ha. unfold m'. destruct (decide (a ∈ cleanup_ this)); [by apply cleanups_gone|].
    by rewrite cleanups_keep. }
  assert (is_Some (m' !! buf_ other)) as Hbo'.
  { rewrite Hkeep; [done|]. intros Hin. by apply Hsep in Hin as [? _]. }
  assert (is_Some (m' !! buf_ this)) as Hbt' by (by rewrite Hkeep).
  assert (shows m' other b) as Hb'.
  { eapply read_keeps; [|exact Hb]. intros a l Ha Hl. rewrite Hkeep; [done|]. intros Hin. by apply Hsep in Hin as [_ ?]. }
  destruct (pinned_ other) eqn:Hp; [|case_decide].
  - apply wp_ret, HQ; [by split|by apply empty_pin_ok|done|done|done].
  - wp_steps. apply HQ; [|apply empty_pin_ok; by rewrite lookup_insert_ne
      |apply shows_buffer; by rewrite lookup_insert_eq|done|].
    2: { intros a Ha. rewrite lookup_insert_ne; [by apply Hnew|]. intros <-. destruct Hbt. congruence. }
    split; [by rewrite lookup_insert_eq|]. split; [apply not_elem_of_nil|]. by intros _; split; [|right].
  - apply wp_ret, HQ; [|by apply empty_pin_ok|done|done|done]. split; [done|].
    split; [apply not_elem_of_nil|]. intros _. split; [done|]. by apply Ho.
Qed.

#[export] Instance demo_wide_spec :
  WideSpec demo_assign demo_delegate demo_move demo_string_move demo_create_index demo_parse.
Proof.
  split.
  - intros buf b m Q _ HQ. unfold demo_assign. wp_steps. apply HQ; [by rewrite lookup_insert_eq|].
    intros a l Ha Hl. rewrite lookup_insert_ne; [done|]. set_solver.
  - intros t s b m Q Hne _ Hs HQ. unfold demo_string_move. wp_steps. rewrite Hs. case_decide.
    + wp_steps. apply HQ.
      * rewrite lookup_insert_ne by done. by rewrite lookup_insert_eq.
      * intros a l Ha Hl. rewrite !lookup_insert_ne by set_solver. done.
    + apply wp_ret, HQ; [done|]. by intros a l _ Hl.
  - intros theirs mine a. simpl. set_solver.
  - apply demo_move_ok.
  - intros w b m Q Hb _ HQ. unfold demo_create_index. apply wp_bind. eapply wp_read; [exact Hb|].
    by apply wp_ret, HQ.
  - intros [|x b] no nl vo vl; [done|]. simpl. intros _ Hin.
    apply list_elem_of_singleton in Hin. injection Hin as -> -> -> ->. lia.
Qed.

(** An object that holds a short entity and one without anything. *)
Definition demo_bytes : list byte := str "kvalue".
Definition demo_mem : mem :=
  <[3%positive := str "pinned"]> (<[2%positive := demo_bytes]> (<[1%positive := []]> ∅)).
Definition demo_entity : PinnableWideColumns :=
  mkWide (mkPinnable (mkSlice (Some (2%positive, 0)) 6) [] 2 false)
    [mkWideColumn (mkSlice (Some (2%positive, 0)) 1) (mkSlice (Some (2%positive, 1)) 5)].
Definition demo_none : PinnableWideColumns := new_PinnableWideColumns 1.
(** An object with a plain value, pinned, that gives the array back when it is reset. *)
Definition demo_pinned : PinnableWideColumns :=
  mkWide (mkPinnable (mkSlice (Some (3%positive, 0)) 6) [3%positive] 1 true)
    [mkWideColumn kDefaultWideColumnName (mkSlice (Some (3%positive, 0)) 6)].

Lemma demo_none_ok : wide_ok (parse := demo_parse) demo_mem demo_none.
Proof. apply empty_ok; [|done|done]. apply empty_pin_ok. by eexists. Qed.
Lemma demo_pin_ok : pin_ok demo_mem (value_ demo_none).
Proof. apply demo_none_ok. Qed.
Lemma demo_entity_ok : wide_ok (parse := demo_parse) demo_mem demo_entity.
Proof.
  split.
  - split; [by eexists|]. split; [apply not_elem_of_nil|]. intros _. split; [done|by right].
  - exists entity, demo_bytes. by split.
Qed.
Lemma demo_pinned_ok : wide_ok (parse := demo_parse) demo_mem demo_pinned.
Proof.
  split; [|by exists plain, (str "pinned")]. split; [by eexists|]. split; [|done].
  intros ?%list_elem_of_singleton. done.
Qed.
Lemma demo_separate : separate (value_ demo_pinned) (value_ demo_entity).
Proof.
  split; [done|]. split; [apply not_elem_of_nil|]. by intros a ->%list_elem_of_singleton.
Qed.

(** The short string was copied to the buffer of the object that is assigned to. *)
Example demo_moved :
  match move_assign demo_move demo_create_index demo_pinned (Some demo_entity) demo_mem with
  | Done (this, _, m) => Some (columns_ this, contents m this, m !! 3%positive)
  | Undef _ => None
  end = Some ([mkWideColumn (mkSlice (Some (1%positive, 0)) 1) (mkSlice (Some (1%positive, 1)) 5)],
              Some [(str "k", str "value")], None).
Proof. by vm_compute. Qed.

Lemma moved_columns_show_their_own_value_witness :
  demo_mem !! 3%positive = Some (str "pinned") ∧
  wp (move_assign demo_move demo_create_index demo_pinned (Some demo_entity)) (λ out m',
    wide_ok (parse := demo_parse) m' out.1 ∧ contents m' out.1 = contents demo_mem demo_entity ∧
    (∃ o, out.2 = Some o ∧ columns_ o = []) ∧
    ∀ a, a ∈ [3%positive] → m' !! a = None) demo_mem.
Proof.
  split; [reflexivity|].
  apply (proj1 (moved_columns_show_their_own_value (WS := demo_wide_spec) demo_pinned demo_entity 1
                  demo_mem demo_entity_ok) demo_pinned_ok demo_separate).
Defined.

Lemma plain_value_is_one_column_witness :
  wp (SetPlainValue demo_assign (mkSlice (Some (2%positive, 1)) 5) demo_none)
    (holds_plain (parse := demo_parse) (str "value")) demo_mem.
Proof.
  apply (proj1 (proj1 (plain_value_is_one_column (WS := demo_wide_spec) demo_none
    (mkSlice (Some (2%positive, 1)) 5) None (value_ demo_none) 2 (str "value") demo_mem demo_pin_ok)
    eq_refl eq_refl)).
Defined.

Lemma entity_is_its_columns_witness :
  wp (SetWideColumnValue_string demo_string_move demo_create_index 2 demo_none)
    (λ out, holds_entity (parse := demo_parse) demo_bytes out.1.1 out.1.2) demo_mem.
Proof.
  apply (proj2 (proj2 (entity_is_its_columns (WS := demo_wide_spec) demo_none
    (mkSlice (Some (2%positive, 1)) 5) None (value_ demo_none) 2 demo_bytes demo_mem demo_pin_ok eq_refl)));
    [reflexivity|discriminate|reflexivity].
Defined.

(** ** Scans *)

From S2P Require Import Slice MultiScan MultiScanSpec.

Local Open Scope Z_scope.

Record DemoIt := mkDemoIt { rest : list (Slice * Slice); good : nat; failed : bool }.

Definition demo_entry (k v : string) : Slice * Slice := (Slice_of_string (str k), Slice_of_string (str v)).
Definition demo_db : list (Slice * Slice) := [demo_entry "a" "1"; demo_entry "b" "2"; demo_entry "c" "3"].

Fixpoint seek_in (target : list byte) (l : list (Slice * Slice)) : list (Slice * Slice) :=
  match l with
  | [] => []
  | kv :: l' => if lex (contents kv.1) target is Lt then seek_in target l' else l
  end.

#[export] Instance demo_iterator : DBIterator DemoIt := {
  Valid i := negb (failed i) && bool_decide (rest i ≠ []);
  key i := match rest i with [] => empty_slice | kv :: _ => kv.1 end;
  value i := match rest i with [] => empty_slice | kv :: _ => kv.2 end;
  Next i := match good i with
            | O => mkDemoIt (rest i) 0 true
            | S n => mkDemoIt (tail (rest i)) n (failed i)
            end;
  Seek target i := mkDemoIt (seek_in (contents target) demo_db) (good i) false;
  status i := if failed i then Status_code kIOError kNone else default_Status;
}.

#[export] Program Instance demo_iterator_spec : DBIteratorSpec DemoIt := { remaining := rest }.
Next Obligation. intros it. simpl. by destruct (failed it). Qed.
Next Obligation. intros it. simpl. by destruct (failed it). Qed.
Next Obligation. intros it [k v] r _ E. simpl in *. by rewrite E. Qed.
Next Obligation. intros it kv r _ E. simpl. destruct (good it); [done|]. simpl. by rewrite E. Qed.

(** The whole database, an iterator that fails at its second step, and two ranges. *)
Definition demo_it (n : nat) : DemoIt := mkDemoIt demo_db n false.
Definition demo_heap (n : nat) : gmap ptr DemoIt := {[ 1%positive := demo_it n ]}.
Definition demo_opts : list ScanOptions :=
  [new_ScanOptions (Slice_of_string (str "b")); new_ScanOptions (Slice_of_string (str "c"))].
Definition demo_multi : MultiScan :=
  mkMultiScan (mkMultiScanArgs 0 0 false None demo_opts) None None empty_slice (Some 1%positive).
Definition demo_entries (o : ScanOptions) : list (Slice * Slice) :=
  seek_in (contents (slice_ (range_start o))) demo_db.
Definition demo_increment (m : MultiScanIterator) :
    M (gmap ptr DemoIt) (MultiScanIterator * option exn) :=
  p ← deref (msi_db_iter m);
  (match msi_scan_opts m !! S (idx_ m) with
   | Some o => modify <[p := mkDemoIt (demo_entries o) 10 false]>
   | None => modify <[p := mkDemoIt [] 10 false]>
   end) ;;
  mret (mkMultiScanIterator (msi_scan_opts m) (msi_db m) (msi_cfh m) (S (idx_ m)) (msi_db_iter m)
          default_Status (scan_ m), None).

Example demo_nested_loops :
  match for_multi_scan true demo_increment 3 4 demo_multi (demo_heap 10) with
  | Done (v, e, _) => Some (v, e)
  | Undef _ => None
  end = Some ([[demo_entry "b" "2"; demo_entry "c" "3"]; [demo_entry "c" "3"]], None).
Proof. by vm_compute. Qed.

Ltac each_step j := do 5 (destruct j as [|j]; [try reflexivity; try lia|]); lia.

Lemma demo_sound : sound_until 4 (demo_it 10).
Proof. intros j Hj. each_step j. Defined.
Lemma demo_sound_one : sound_until 2 (demo_it 1).
Proof. intros j Hj. each_step j. Defined.

Lemma scan_visits_the_range_witness :
  for_scan true 5 (new_Scan (Some 1%positive)) (demo_heap 10) =
    Done (demo_db, None, <[1%positive := steps 3 (demo_it 10)]> (demo_heap 10)).
Proof. refine (scan_visits_the_range true 5 1 (demo_it 10) (demo_heap 10) _ _ _); [reflexivity|exact demo_sound|simpl; lia]. Defined.

Lemma failed_scan_stops_the_program_witness :
  for_scan true 5 (new_Scan (Some 1%positive)) (demo_heap 1) = Undef AssertFailed.
Proof.
  refine (failed_scan_stops_the_program true 5 1 (demo_it 1) (demo_heap 1) 1 _ _ _ _ _);
    [reflexivity|simpl; lia|simpl; lia|exact demo_sound_one|reflexivity].
Defined.

Lemma demo_opts_cases o :
  o ∈ demo_opts → o = new_ScanOptions (Slice_of_string (str "b")) ∨ o = new_ScanOptions (Slice_of_string (str "c")).
Proof. unfold demo_opts. set_solver. Qed.
Lemma demo_placed o : o ∈ demo_opts → placed demo_entries o (mkDemoIt (demo_entries o) 10 false).
Proof.
  intros Ho. apply demo_opts_cases in Ho as [-> | ->];
    (split; [done|]); intros j Hj; simpl in Hj; each_step j.
Defined.
Lemma demo_advances : advances demo_increment demo_entries demo_opts 1.
Proof.
  intros k m s it (Hopts & Hd & Hscan & Hidx & _) Hk Hp. unfold demo_increment.
  rewrite Hd, Hopts, Hidx. destruct (demo_opts !! S k) as [o|] eqn:E;
    (do 2 eexists; split; [reflexivity|]; split; [by repeat split|]); [|done].
  intros o' [= <-]. apply demo_placed. by eapply list_elem_of_lookup_2.
Defined.

Lemma multi_scan_visits_every_range_witness :
  ∃ s', for_multi_scan true demo_increment 3 4 demo_multi (demo_heap 10) =
          Done (demo_entries <$> demo_opts, None, s').
Proof.
  eapply (multi_scan_visits_every_range true demo_increment demo_entries 3 4 demo_multi 1 (demo_it 10));
    [reflexivity|reflexivity|reflexivity|reflexivity|reflexivity| |exact demo_advances| |simpl; lia].
  - apply (demo_placed (new_ScanOptions (Slice_of_string (str "b")))). by left.
  - intros o Ho. apply demo_opts_cases in Ho as [-> | ->]; simpl; lia.
Defined.

Lemma multi_scan_reports_a_failed_start_witness :
  for_multi_scan true demo_increment 3 4 demo_multi {[ 1%positive := mkDemoIt demo_db 10 true ]} =
    Done ([], Some (MultiScanException (Status_code kIOError kNone)),
          {[ 1%positive := mkDemoIt demo_db 10 true ]}).
Proof.
  refine (proj1 (multi_scan_reports_a_failed_start true demo_increment 3 4 demo_multi 1
    (mkDemoIt demo_db 10 true) {[ 1%positive := mkDemoIt demo_db 10 true ]} _ _) _); reflexivity.
Defined.
