(* ===== verification/Dispatch.v ===== *)
(** Objects with virtual methods, seen by a client: the calls of an interface with the types of their
    answers, an object as what it does at each call, a client as a program of calls that may depend on
    the answers, and simulations between objects.  A wrapper, or a mirror, of an object is another
    object of the same interface; that no client can tell them apart is a simulation. *)
From S2P Require Import Prelude.

Section Dispatch.
Context {E : Type → Type}.

(** An object: the dynamic type of [this], over the states of everything it reaches. *)
Definition object (S : Type) : Type := ∀ A, E A → M S A.

Inductive client (B : Type) : Type :=
  | Finish (b : B)
  | Call {A : Type} (c : E A) (k : A → client B).
Arguments Finish {B} _.
Arguments Call {B A} _ _.

Fixpoint run {S B} (o : object S) (p : client B) : M S B :=
  match p with
  | Finish b => mret b
  | Call c k => a ← o _ c; run o (k a)
  end.

(** One client after another. *)
Fixpoint client_bind {B C} (p : client B) (q : B → client C) : client C :=
  match p with
  | Finish b => q b
  | Call c k => Call c (λ a, client_bind (k a) q)
  end.

(** A client that makes only some calls. *)
Fixpoint only {B} (P : ∀ A, E A → bool) (p : client B) : Prop :=
  match p with
  | Finish _ => True
  | Call c k => P _ c = true ∧ ∀ a, only P (k a)
  end.

Lemma only_bind {B C} P (p : client B) (q : B → client C) :
  only P p → (∀ b, only P (q b)) → only P (client_bind p q).
Proof. intros Hp Hq. induction p as [b|A c k IH]; [apply Hq|]. destruct Hp as [Hc Hk]. split; [done|]. auto. Qed.

(** The same end: both fail alike, or both answer alike in related states. *)
Definition same_end {S1 S2 A} (R : S1 → S2 → Prop) (x : outcome (A * S1)) (y : outcome (A * S2)) : Prop :=
  match x, y with
  | Done (a1, s1), Done (a2, s2) => a1 = a2 ∧ R s1 s2
  | Undef f1, Undef f2 => f1 = f2
  | _, _ => False
  end.

Definition simulates {S1 S2} (P : ∀ A, E A → bool) (R : S1 → S2 → Prop) (o1 : object S1) (o2 : object S2) : Prop :=
  ∀ A (c : E A) s1 s2, P A c = true → R s1 s2 → same_end R (o1 A c s1) (o2 A c s2).

Lemma run_simulates {S1 S2 B} P (R : S1 → S2 → Prop) o1 o2 (p : client B) s1 s2 :
  simulates P R o1 o2 → only P p → R s1 s2 → same_end R (run o1 p s1) (run o2 p s2).
Proof.
  intros Hsim. revert s1 s2. induction p as [b|A c k IH]; intros s1 s2 Hp HR; [done|].
  destruct Hp as [Hc Hk]. specialize (Hsim A c s1 s2 Hc HR). cbn [run].
  unfold mbind, M_bind. destruct (o1 A c s1) as [[a1 s1']|f1], (o2 A c s2) as [[a2 s2']|f2]; [|done..].
  destruct Hsim as [-> HR']. by apply IH.
Qed.

(** ** Delegation

    The state of a wrapper is its own and that of what it wraps. *)
Definition on_target {S T A} (m : M T A) : M (S * T) A := λ '(s, t),
  match m t with Done (a, t') => Done (a, (s, t')) | Undef f => Undef f end.
Definition on_self {S T A} (m : M S A) : M (S * T) A := λ '(s, t),
  match m s with Done (a, s') => Done (a, (s', t)) | Undef f => Undef f end.

(** Wrapper and target are in step: the wrapper's own state is the one given. *)
Definition wraps {S T} (own : S) (st : S * T) (t : T) : Prop := st = (own, t).

Lemma on_target_same {S T A} (own : S) (m : M T A) st t :
  wraps own st t → same_end (wraps own) (on_target m st) (m t).
Proof. intros ->. unfold on_target. by destruct (m t) as [[a t']|f]. Qed.

(** A wrapper that hands on every call is, to every client, what it wraps. *)
Lemma run_forwards {S T B} (wrapper : object (S * T)) (target : object T) (p : client B) own t :
  (∀ A (c : E A), wrapper A c = on_target (target A c)) →
  run wrapper p (own, t) = on_target (run target p) (own, t).
Proof.
  intros Hfw. revert t. induction p as [b|A c k IH]; intros t; [done|]. cbn [run].
  unfold mbind, M_bind. rewrite Hfw. unfold on_target.
  destruct (target A c t) as [[a t']|f]; [|done]. rewrite IH. done.
Qed.
(** ** Delegation with other arguments

    A wrapper may change a call before it hands it on. *)
Fixpoint rename {B} (f : ∀ A, E A → E A) (p : client B) : client B :=
  match p with
  | Finish b => Finish b
  | Call c k => Call (f _ c) (λ a, rename f (k a))
  end.

Lemma run_renames {S T B} (P : ∀ A, E A → bool) (f : ∀ A, E A → E A) (wrapper : object (S * T))
    (target : object T) (p : client B) own t :
  (∀ A (c : E A) t, P A c = true → wrapper A c (own, t) = on_target (target A (f A c)) (own, t)) →
  only P p → run wrapper p (own, t) = on_target (run target (rename f p)) (own, t).
Proof.
  intros Hfw. revert t. induction p as [b|A c k IH]; intros t Hp; [done|]. destruct Hp as [Hc Hk].
  cbn [run rename]. unfold mbind, M_bind. rewrite (Hfw A c t Hc). unfold on_target.
  destruct (target A (f A c) t) as [[a t']|e]; [|done]. by rewrite IH.
Qed.

(** The same object may answer two calls alike. *)
Lemma run_rename {S B} (f : ∀ A, E A → E A) (o1 o2 : object S) (p : client B) s :
  (∀ A (c : E A) s, o1 A c s = o2 A (f A c) s) → run o1 p s = run o2 (rename f p) s.
Proof.
  intros Hf. revert s. induction p as [b|A c k IH]; intros s; [done|]. cbn [run rename].
  unfold mbind, M_bind. rewrite Hf. destruct (o2 A (f A c) s) as [[a s']|]; [apply IH|done].
Qed.

(** A client some of whose calls are answered before they reach the object. *)
Fixpoint answered {B} (answer : ∀ A, E A → option A) (p : client B) : client B :=
  match p with
  | Finish b => Finish b
  | Call c k =>
      match answer _ c with
      | Some a => answered answer (k a)
      | None => Call c (λ a, answered answer (k a))
      end
  end.
Lemma run_answered {S B} (answer : ∀ A, E A → option A) (o1 o2 : object S) (p : client B) s :
  (∀ A (c : E A) s, o1 A c s = match answer A c with Some a => Done (a, s) | None => o2 A c s end) →
  run o1 p s = run o2 (answered answer p) s.
Proof.
  intros Ho. revert s. induction p as [b|A c k IH]; intros s; [done|]. cbn [run answered].
  unfold mbind, M_bind. rewrite Ho. destruct (answer A c) as [a|]; [apply IH|]. cbn [run].
  unfold mbind, M_bind. destruct (o2 A c s) as [[a s']|]; [apply IH|done].
Qed.

(** ** Virtual methods

    A method is the one a class overrides, or the one it inherits; an inherited method may call the
    object's own methods, as deep as the fuel. *)
Definition overriding (S : Type) : Type := ∀ A, E A → option (M S A).
Fixpoint virtual {S} (defaults : object S → object S) (overrides : overriding S) (fuel : nat) : object S := λ A c,
  match overrides A c with
  | Some m => m
  | None =>
      match fuel with
      | O => undef WaitsForever
      | Datatypes.S fuel => defaults (virtual defaults overrides fuel) A c
      end
  end.

Lemma virtual_inherits {S} (defaults : object S → object S) overrides n A (c : E A) s :
  overrides A c = None → virtual defaults overrides (Datatypes.S n) A c s = defaults (virtual defaults overrides n) A c s.
Proof. intros H. cbn [virtual]. by rewrite H. Qed.
Lemma virtual_overrides {S} (defaults : object S → object S) (overrides : overriding S) n A (c : E A) m :
  overrides A c = Some m → virtual defaults overrides n A c = m.
Proof. intros H. destruct n; cbn [virtual]; by rewrite H. Qed.

(** [level] bounds the depth of the calls of inherited methods: such a method calls only methods of a
    lower level. *)
Definition descends {S} (defaults : object S → object S) (level : ∀ A, E A → nat) : Prop :=
  ∀ (o1 o2 : object S) A (c : E A) s,
    (∀ B (d : E B) s, (level B d < level A c)%nat → o1 B d s = o2 B d s) → defaults o1 A c s = defaults o2 A c s.
Lemma virtual_enough {S} (defaults : object S → object S) level overrides :
  descends defaults level → ∀ n m A (c : E A) s, (level A c < n)%nat → (level A c < m)%nat →
  virtual defaults overrides n A c s = virtual defaults overrides m A c s.
Proof.
  intros Hd. induction n as [|n IH]; intros m A c s Hn Hm; [lia|]. destruct m as [|m]; [lia|].
  cbn [virtual]. destruct (overrides A c); [done|]. apply Hd. intros B d s' Hlt. apply IH; lia.
Qed.

(** With as much fuel as that, more makes no difference, whatever a class overrides. *)
Definition settles {S} (defaults : object S → object S) (n : nat) : Prop :=
  ∀ (overrides : overriding S) m A (c : E A) s, (n <= m)%nat →
    virtual defaults overrides m A c s = virtual defaults overrides n A c s.
Lemma settles_by {S} (level : ∀ A, E A → nat) (defaults : object S → object S) n :
  (∀ A (c : E A), (level A c < n)%nat) → descends defaults level → settles defaults n.
Proof.
  intros Hl Hd overrides m A c s Hm. apply (virtual_enough _ level); [done| |apply Hl].
  specialize (Hl A c). lia.
Qed.
End Dispatch.
Arguments object E S : clear implicits.
Arguments client E B : clear implicits.
Arguments Finish {E B} _.
Arguments Call {E B A} _ _.
Arguments overriding E S : clear implicits.

(** [descend]: inherited methods call only methods of a lower level, call by call. *)
Ltac descend :=
  let Hlow := fresh "Hlow" in
  let c := fresh "c" in
  intros ? ? ? c ? Hlow; destruct c; try done; cbn; unfold mbind, M_bind;
  repeat first [done | rewrite Hlow by (cbn; lia) |
    match goal with |- match ?m with _ => _ end = match ?m with _ => _ end => destruct m as [[? ?]|] end |
    case_match].
(** The fuel of a class is as deep as its inherited methods call each other. *)
Ltac settle level :=
  apply (settles_by level); [intros ? []; cbn; lia|descend].
