(* ===== verification/FsFiles.v ===== *)
(** Files and directories of a file system (include/rocksdb/file_system.h): the virtual methods of
    each class as calls, what the base classes do by default, and the wrappers that forward the calls
    to another object.  A default method that calls a virtual method takes it as an argument.  Pointers
    to buffers ([scratch]), debug contexts, callbacks and handles are passed on as they are. *)
From S2P Require Import Prelude Slice RocksStatus IOStatus RocksDB Dispatch.

Local Open Scope Z_scope.

(** ** Options *)

Inductive IOPriority := kIOLow | kIOHigh | kIOTotal.
Inductive IOType := kData | kFilter | kIndex | kMetadata | kWAL | kManifest | kLog | kUnknown | kInvalid.
Inductive EnvIOPriority := IO_LOW | IO_MID | IO_HIGH | IO_USER | IO_TOTAL.
Inductive WriteLifeTimeHint := WLTH_NOT_SET | WLTH_NONE | WLTH_SHORT | WLTH_MEDIUM | WLTH_LONG | WLTH_EXTREME.
Inductive Temperature := kTempUnknown | kHot | kWarm | kCool | kCold | kIce | kLastTemperature.

Record IOOptions := mkIOOptions {
  timeout : Z;
  prio : IOPriority;
  rate_limiter_priority : EnvIOPriority;
  type : IOType;
  property_bag : gmap (list byte) (list byte);
  force_dir_fsync : bool;
  do_not_recurse : bool;
  verify_and_reconstruct_read : bool;
  io_activity : Z;
}.
(** [Env::IOActivity::kUnknown], the last enumerator *)
Definition kUnknownActivity : Z := 255.
Definition new_IOOptions_fsync (force_dir_fsync_ : bool) : IOOptions :=
  mkIOOptions 0 kIOLow IO_TOTAL kUnknown ∅ force_dir_fsync_ false false kUnknownActivity.
Definition new_IOOptions : IOOptions := new_IOOptions_fsync false.

Definition kDefaultPageSize : Z := 4 * 1024.

Abbreviation dbg_ptr := (option ptr).

(** [IOStatus::NotSupported(msg)]: the message is a literal. *)
Definition not_supported {S} (msg : string) : M S Status :=
  lift_outcome (IOStatus.NotSupported_msg (Slice_of_string (str msg)) empty_slice).

(** ** [FSSequentialFile] *)

Inductive sequential : Type → Type :=
  | sf_Read (n : Z) (options : IOOptions) (scratch : option ptr) (dbg : dbg_ptr) : sequential (Status * Slice)
  | sf_Skip (n : Z) : sequential Status
  | sf_use_direct_io : sequential bool
  | sf_GetRequiredBufferAlignment : sequential Z
  | sf_InvalidateCache (offset length : Z) : sequential Status
  | sf_PositionedRead (offset n : Z) (options : IOOptions) (scratch : option ptr) (dbg : dbg_ptr) :
      sequential (Status * Slice)
  | sf_GetTemperature : sequential Temperature.

Section Sequential.
Context {S : Type}.
(** The two methods that a file must have. *)
Context (Read : Z → IOOptions → option ptr → dbg_ptr → M S (Status * Slice)) (Skip : Z → M S Status).

(** A file that overrides nothing else; a result that is not set stays as it was, empty here. *)
Definition FSSequentialFile : object sequential S := λ A c,
  match c with
  | sf_Read n options scratch dbg => Read n options scratch dbg
  | sf_Skip n => Skip n
  | sf_use_direct_io => mret false
  | sf_GetRequiredBufferAlignment => mret kDefaultPageSize
  | sf_InvalidateCache _ _ => not_supported "InvalidateCache not supported."
  | sf_PositionedRead _ _ _ _ _ => s ← not_supported "PositionedRead"; mret (s, empty_slice)
  | sf_GetTemperature => mret kTempUnknown
  end.
End Sequential.

(** The wrapper has no state of its own. *)
Definition FSSequentialFileWrapper {T} (target_ : object sequential T) : object sequential (unit * T) :=
  λ A c,
  match c with
  | sf_Read n options scratch dbg => on_target (target_ _ (sf_Read n options scratch dbg))
  | sf_Skip n => on_target (target_ _ (sf_Skip n))
  | sf_use_direct_io => on_target (target_ _ sf_use_direct_io)
  | sf_GetRequiredBufferAlignment => on_target (target_ _ sf_GetRequiredBufferAlignment)
  | sf_InvalidateCache offset length => on_target (target_ _ (sf_InvalidateCache offset length))
  | sf_PositionedRead offset n options scratch dbg =>
      on_target (target_ _ (sf_PositionedRead offset n options scratch dbg))
  | sf_GetTemperature => on_target (target_ _ sf_GetTemperature)
  end.

(** ** [FSRandomAccessFile] *)

Record FSReadRequest := mkRequest {
  offset : Z;
  len : Z;
  scratch : option ptr;
  result : Slice;
  req_status : Status;
}.
Definition answered (req : FSReadRequest) (s : Status) (r : Slice) : FSReadRequest :=
  mkRequest (offset req) (len req) (scratch req) r s.

Inductive AccessPattern := kNormal | kRandom | kSequential | kWillNeed | kWontNeed.

(** What [ReadAsync] leaves: its status, the request, the requests its callback was called with before
    it returned, and the handle, if it set one. *)
Record async := mkAsync {
  async_status : Status;
  async_req : FSReadRequest;
  called_back : list FSReadRequest;
  io_handle : option ptr;
}.

(** [GetUniqueId] answers the bytes it writes. *)
Inductive random_access : Type → Type :=
  | ra_Read (offset n : Z) (options : IOOptions) (scratch : option ptr) (dbg : dbg_ptr) :
      random_access (Status * Slice)
  | ra_Prefetch (offset n : Z) (options : IOOptions) (dbg : dbg_ptr) : random_access Status
  | ra_MultiRead (reqs : list FSReadRequest) (options : IOOptions) (dbg : dbg_ptr) :
      random_access (Status * list FSReadRequest)
  | ra_GetUniqueId (max_size : Z) : random_access (list byte)
  | ra_Hint (pattern : AccessPattern) : random_access unit
  | ra_use_direct_io : random_access bool
  | ra_GetRequiredBufferAlignment : random_access Z
  | ra_InvalidateCache (offset length : Z) : random_access Status
  | ra_ReadAsync (req : FSReadRequest) (opts : IOOptions) (cb cb_arg : option ptr) (dbg : dbg_ptr) :
      random_access async
  | ra_GetTemperature : random_access Temperature
  | ra_GetFileSize : random_access (Status * option Z).

Section RandomAccess.
Context {S : Type} (Read : Z → Z → IOOptions → option ptr → dbg_ptr → M S (Status * Slice)).

(** The loop of [MultiRead]: every request gets the status of its own read. *)
Fixpoint multi_read_loop (reqs : list FSReadRequest) (options : IOOptions) (dbg : dbg_ptr) :
    M S (list FSReadRequest) :=
  match reqs with
  | [] => mret []
  | req :: reqs =>
      '(s, r) ← Read (offset req) (len req) options (scratch req) dbg;
      reqs ← multi_read_loop reqs options dbg;
      mret (answered req s r :: reqs)
  end.
Definition MultiRead (reqs : list FSReadRequest) (options : IOOptions) (dbg : dbg_ptr) :
    M S (Status * list FSReadRequest) :=
  reqs ← multi_read_loop reqs options dbg; mret (IOStatus.OK, reqs).
Definition ReadAsync (req : FSReadRequest) (opts : IOOptions) (dbg : dbg_ptr) : M S async :=
  '(s, r) ← Read (offset req) (len req) opts (scratch req) dbg;
  let req := answered req s r in
  mret (mkAsync IOStatus.OK req [req] None).

Definition FSRandomAccessFile : object random_access S := λ A c,
  match c with
  | ra_Read offset n options scratch dbg => Read offset n options scratch dbg
  | ra_Prefetch _ _ _ _ => not_supported "Prefetch"
  | ra_MultiRead reqs options dbg => MultiRead reqs options dbg
  | ra_GetUniqueId _ => mret []
  | ra_Hint _ => mret tt
  | ra_use_direct_io => mret false
  | ra_GetRequiredBufferAlignment => mret kDefaultPageSize
  | ra_InvalidateCache _ _ => not_supported "InvalidateCache not supported."
  | ra_ReadAsync req opts _ _ dbg => ReadAsync req opts dbg
  | ra_GetTemperature => mret kTempUnknown
  | ra_GetFileSize => s ← not_supported "GetFileSize Not Supported"; mret (s, None)
  end.
End RandomAccess.

Definition FSRandomAccessFileWrapper {T} (target_ : object random_access T) :
    object random_access (unit * T) := λ A c,
  match c with
  | ra_Read offset n options scratch dbg => on_target (target_ _ (ra_Read offset n options scratch dbg))
  | ra_MultiRead reqs options dbg => on_target (target_ _ (ra_MultiRead reqs options dbg))
  | ra_Prefetch offset n options dbg => on_target (target_ _ (ra_Prefetch offset n options dbg))
  | ra_GetUniqueId max_size => on_target (target_ _ (ra_GetUniqueId max_size))
  | ra_Hint pattern => on_target (target_ _ (ra_Hint pattern))
  | ra_use_direct_io => on_target (target_ _ ra_use_direct_io)
  | ra_GetRequiredBufferAlignment => on_target (target_ _ ra_GetRequiredBufferAlignment)
  | ra_InvalidateCache offset length => on_target (target_ _ (ra_InvalidateCache offset length))
  | ra_ReadAsync req opts cb cb_arg dbg => on_target (target_ _ (ra_ReadAsync req opts cb cb_arg dbg))
  | ra_GetTemperature => on_target (target_ _ ra_GetTemperature)
  | ra_GetFileSize => on_target (target_ _ ra_GetFileSize)
  end.

(** ** [FSWritableFile] *)

(** The checksum that comes with the data *)
Record DataVerificationInfo := mkVerification { checksum : Slice }.

Inductive writable : Type → Type :=
  | wf_Append (data : Slice) (options : IOOptions) (dbg : dbg_ptr) : writable Status
  | wf_Append_verified (data : Slice) (options : IOOptions) (info : DataVerificationInfo) (dbg : dbg_ptr) :
      writable Status
  | wf_PositionedAppend (data : Slice) (offset : Z) (options : IOOptions) (dbg : dbg_ptr) : writable Status
  | wf_PositionedAppend_verified (data : Slice) (offset : Z) (options : IOOptions)
      (info : DataVerificationInfo) (dbg : dbg_ptr) : writable Status
  | wf_Truncate (size : Z) (options : IOOptions) (dbg : dbg_ptr) : writable Status
  | wf_Close (options : IOOptions) (dbg : dbg_ptr) : writable Status
  | wf_Flush (options : IOOptions) (dbg : dbg_ptr) : writable Status
  | wf_Sync (options : IOOptions) (dbg : dbg_ptr) : writable Status
  | wf_Fsync (options : IOOptions) (dbg : dbg_ptr) : writable Status
  | wf_IsSyncThreadSafe : writable bool
  | wf_use_direct_io : writable bool
  | wf_GetRequiredBufferAlignment : writable Z
  | wf_SetWriteLifeTimeHint (hint : WriteLifeTimeHint) : writable unit
  | wf_SetIOPriority (pri : EnvIOPriority) : writable unit
  | wf_GetIOPriority : writable EnvIOPriority
  | wf_GetWriteLifeTimeHint : writable WriteLifeTimeHint
  | wf_GetFileSize (options : IOOptions) (dbg : dbg_ptr) : writable Z
  | wf_SetPreallocationBlockSize (size : Z) : writable unit
  | wf_GetPreallocationStatus : writable (Z * Z)
  | wf_GetUniqueId (max_size : Z) : writable (list byte)
  | wf_InvalidateCache (offset length : Z) : writable Status
  | wf_RangeSync (offset nbytes : Z) (options : IOOptions) (dbg : dbg_ptr) : writable Status
  | wf_PrepareWrite (offset len : Z) (options : IOOptions) (dbg : dbg_ptr) : writable unit
  | wf_Allocate (offset len : Z) (options : IOOptions) (dbg : dbg_ptr) : writable Status.

(** The members of the base class. *)
Record FSWritableFile := mkWritable {
  last_preallocated_block_ : Z;
  preallocation_block_size_ : Z;
  io_priority_ : EnvIOPriority;
  write_hint_ : WriteLifeTimeHint;
  strict_bytes_per_sync_ : bool;
}.
Definition new_FSWritableFile : FSWritableFile := mkWritable 0 0 IO_TOTAL WLTH_NOT_SET false.
(** From [FileOptions], of which only one field is used. *)
Definition FSWritableFile_of (strict_bytes_per_sync : bool) : FSWritableFile :=
  mkWritable 0 0 IO_TOTAL WLTH_NOT_SET strict_bytes_per_sync.
Definition set_last_block (n : Z) (b : FSWritableFile) : FSWritableFile :=
  mkWritable n (preallocation_block_size_ b) (io_priority_ b) (write_hint_ b) (strict_bytes_per_sync_ b).
Definition set_block_size (n : Z) (b : FSWritableFile) : FSWritableFile :=
  mkWritable (last_preallocated_block_ b) n (io_priority_ b) (write_hint_ b) (strict_bytes_per_sync_ b).
Definition set_priority (pri : EnvIOPriority) (b : FSWritableFile) : FSWritableFile :=
  mkWritable (last_preallocated_block_ b) (preallocation_block_size_ b) pri (write_hint_ b)
    (strict_bytes_per_sync_ b).
Definition set_hint (hint : WriteLifeTimeHint) (b : FSWritableFile) : FSWritableFile :=
  mkWritable (last_preallocated_block_ b) (preallocation_block_size_ b) (io_priority_ b) hint
    (strict_bytes_per_sync_ b).

Section Writable.
(** The state is that of the base class and that of the class derived from it. *)
Context {X : Type}.
Abbreviation MF := (M (FSWritableFile * X)).

Definition PrepareWrite (Allocate : Z → Z → IOOptions → dbg_ptr → MF Status)
    (offset len : Z) (options : IOOptions) (dbg : dbg_ptr) : MF unit :=
  b ← gets fst;
  let block_size := preallocation_block_size_ b in
  if decide (block_size = 0) then mret tt
  else
    let new_last := u64 (offset + len + block_size - 1) `div` block_size in
    if decide (last_preallocated_block_ b < new_last) then
      Allocate (u64 (block_size * last_preallocated_block_ b))
        (u64 (block_size * (new_last - last_preallocated_block_ b))) options dbg ;;
      modify (prod_map (set_last_block new_last) id)
    else mret tt.
Definition RangeSync (Sync : IOOptions → dbg_ptr → MF Status) (options : IOOptions) (dbg : dbg_ptr) : MF Status :=
  b ← gets fst; if strict_bytes_per_sync_ b then Sync options dbg else mret IOStatus.OK.

(** A file that has its own [Append], [Close], [Flush], [Sync], [GetFileSize] and [Allocate], and for
    the rest what the base class does. *)
Definition FSWritableFile_derived (Append : Slice → IOOptions → dbg_ptr → MF Status)
    (Close Flush Sync : IOOptions → dbg_ptr → MF Status) (GetFileSize : IOOptions → dbg_ptr → MF Z)
    (Allocate : Z → Z → IOOptions → dbg_ptr → MF Status) : object writable (FSWritableFile * X) := λ A c,
  match c with
  | wf_Append data options dbg => Append data options dbg
  | wf_Append_verified data options _ dbg => Append data options dbg
  | wf_PositionedAppend _ _ _ _ => not_supported "PositionedAppend"
  | wf_PositionedAppend_verified _ _ _ _ _ => not_supported "PositionedAppend"
  | wf_Truncate _ _ _ => mret IOStatus.OK
  | wf_Close options dbg => Close options dbg
  | wf_Flush options dbg => Flush options dbg
  | wf_Sync options dbg => Sync options dbg
  | wf_Fsync options dbg => Sync options dbg
  | wf_IsSyncThreadSafe => mret false
  | wf_use_direct_io => mret false
  | wf_GetRequiredBufferAlignment => mret kDefaultPageSize
  | wf_SetWriteLifeTimeHint hint => modify (prod_map (set_hint hint) id)
  | wf_SetIOPriority pri => modify (prod_map (set_priority pri) id)
  | wf_GetIOPriority => gets (λ s, io_priority_ s.1)
  | wf_GetWriteLifeTimeHint => gets (λ s, write_hint_ s.1)
  | wf_GetFileSize options dbg => GetFileSize options dbg
  | wf_SetPreallocationBlockSize size => modify (prod_map (set_block_size size) id)
  | wf_GetPreallocationStatus => gets (λ s, (preallocation_block_size_ s.1, last_preallocated_block_ s.1))
  | wf_GetUniqueId _ => mret []
  | wf_InvalidateCache _ _ => not_supported "InvalidateCache not supported."
  | wf_RangeSync _ _ options dbg => RangeSync Sync options dbg
  | wf_PrepareWrite offset len options dbg => PrepareWrite Allocate offset len options dbg
  | wf_Allocate offset len options dbg => Allocate offset len options dbg
  end.
(** [Allocate] of the base class *)
Definition Allocate (_ _ : Z) (_ : IOOptions) (_ : dbg_ptr) : MF Status := mret IOStatus.OK.
End Writable.

(** The wrapper is itself an [FSWritableFile]; what it does not override is done on its own members. *)
Definition FSWritableFileWrapper {T} (target_ : object writable T) :
    object writable (FSWritableFile * T) := λ A c,
  match c with
  | wf_Append data options dbg => on_target (target_ _ (wf_Append data options dbg))
  | wf_Append_verified data options info dbg => on_target (target_ _ (wf_Append_verified data options info dbg))
  | wf_PositionedAppend data offset options dbg =>
      on_target (target_ _ (wf_PositionedAppend data offset options dbg))
  | wf_PositionedAppend_verified data offset options info dbg =>
      on_target (target_ _ (wf_PositionedAppend_verified data offset options info dbg))
  | wf_Truncate size options dbg => on_target (target_ _ (wf_Truncate size options dbg))
  | wf_Close options dbg => on_target (target_ _ (wf_Close options dbg))
  | wf_Flush options dbg => on_target (target_ _ (wf_Flush options dbg))
  | wf_Sync options dbg => on_target (target_ _ (wf_Sync options dbg))
  | wf_Fsync options dbg => on_target (target_ _ (wf_Fsync options dbg))
  | wf_IsSyncThreadSafe => on_target (target_ _ wf_IsSyncThreadSafe)
  | wf_use_direct_io => on_target (target_ _ wf_use_direct_io)
  | wf_GetRequiredBufferAlignment => on_target (target_ _ wf_GetRequiredBufferAlignment)
  | wf_SetWriteLifeTimeHint hint => on_target (target_ _ (wf_SetWriteLifeTimeHint hint))
  | wf_GetWriteLifeTimeHint => on_target (target_ _ wf_GetWriteLifeTimeHint)
  | wf_GetFileSize options dbg => on_target (target_ _ (wf_GetFileSize options dbg))
  | wf_SetPreallocationBlockSize size => on_target (target_ _ (wf_SetPreallocationBlockSize size))
  | wf_GetPreallocationStatus => on_target (target_ _ wf_GetPreallocationStatus)
  | wf_GetUniqueId max_size => on_target (target_ _ (wf_GetUniqueId max_size))
  | wf_InvalidateCache offset length => on_target (target_ _ (wf_InvalidateCache offset length))
  | wf_RangeSync offset nbytes options dbg => on_target (target_ _ (wf_RangeSync offset nbytes options dbg))
  | wf_PrepareWrite offset len options dbg => on_target (target_ _ (wf_PrepareWrite offset len options dbg))
  | wf_Allocate offset len options dbg => on_target (target_ _ (wf_Allocate offset len options dbg))
  | wf_SetIOPriority pri => modify (prod_map (set_priority pri) id)
  | wf_GetIOPriority => gets (λ s, io_priority_ s.1)
  end.

(** ** [FSRandomRWFile] *)

Inductive random_rw : Type → Type :=
  | rw_use_direct_io : random_rw bool
  | rw_GetRequiredBufferAlignment : random_rw Z
  | rw_Write (offset : Z) (data : Slice) (options : IOOptions) (dbg : dbg_ptr) : random_rw Status
  | rw_Read (offset n : Z) (options : IOOptions) (scratch : option ptr) (dbg : dbg_ptr) :
      random_rw (Status * Slice)
  | rw_Flush (options : IOOptions) (dbg : dbg_ptr) : random_rw Status
  | rw_Sync (options : IOOptions) (dbg : dbg_ptr) : random_rw Status
  | rw_Fsync (options : IOOptions) (dbg : dbg_ptr) : random_rw Status
  | rw_Close (options : IOOptions) (dbg : dbg_ptr) : random_rw Status
  | rw_GetTemperature : random_rw Temperature.

Definition FSRandomRWFile {S} (Write : Z → Slice → IOOptions → dbg_ptr → M S Status)
    (Read : Z → Z → IOOptions → option ptr → dbg_ptr → M S (Status * Slice))
    (Flush Sync Close : IOOptions → dbg_ptr → M S Status) : object random_rw S := λ A c,
  match c with
  | rw_use_direct_io => mret false
  | rw_GetRequiredBufferAlignment => mret kDefaultPageSize
  | rw_Write offset data options dbg => Write offset data options dbg
  | rw_Read offset n options scratch dbg => Read offset n options scratch dbg
  | rw_Flush options dbg => Flush options dbg
  | rw_Sync options dbg => Sync options dbg
  | rw_Fsync options dbg => Sync options dbg
  | rw_Close options dbg => Close options dbg
  | rw_GetTemperature => mret kTempUnknown
  end.
Definition FSRandomRWFileWrapper {T} (target_ : object random_rw T) : object random_rw (unit * T) := λ A c,
  match c with
  | rw_use_direct_io => on_target (target_ _ rw_use_direct_io)
  | rw_GetRequiredBufferAlignment => on_target (target_ _ rw_GetRequiredBufferAlignment)
  | rw_Write offset data options dbg => on_target (target_ _ (rw_Write offset data options dbg))
  | rw_Read offset n options scratch dbg => on_target (target_ _ (rw_Read offset n options scratch dbg))
  | rw_Flush options dbg => on_target (target_ _ (rw_Flush options dbg))
  | rw_Sync options dbg => on_target (target_ _ (rw_Sync options dbg))
  | rw_Fsync options dbg => on_target (target_ _ (rw_Fsync options dbg))
  | rw_Close options dbg => on_target (target_ _ (rw_Close options dbg))
  | rw_GetTemperature => on_target (target_ _ rw_GetTemperature)
  end.

(** ** [FSDirectory] *)

Inductive FsyncReason := kNewFileSynced | kFileRenamed | kDirRenamed | kFileDeleted | kDefault.
Record DirFsyncOptions := mkDirFsync { reason : FsyncReason; renamed_new_name : list byte }.

Inductive directory : Type → Type :=
  | dir_Fsync (options : IOOptions) (dbg : dbg_ptr) : directory Status
  | dir_FsyncWithDirOptions (options : IOOptions) (dbg : dbg_ptr) (dir_fsync_options : DirFsyncOptions) :
      directory Status
  | dir_Close (options : IOOptions) (dbg : dbg_ptr) : directory Status
  | dir_GetUniqueId (max_size : Z) : directory (list byte).

Definition FSDirectory {S} (Fsync : IOOptions → dbg_ptr → M S Status) : object directory S := λ A c,
  match c with
  | dir_Fsync options dbg => Fsync options dbg
  | dir_FsyncWithDirOptions options dbg _ => Fsync options dbg
  | dir_Close _ _ => not_supported "Close"
  | dir_GetUniqueId _ => mret []
  end.
Definition FSDirectoryWrapper {T} (target_ : object directory T) : object directory (unit * T) := λ A c,
  match c with
  | dir_Fsync options dbg => on_target (target_ _ (dir_Fsync options dbg))
  | dir_FsyncWithDirOptions options dbg dir_fsync_options =>
      on_target (target_ _ (dir_FsyncWithDirOptions options dbg dir_fsync_options))
  | dir_Close options dbg => on_target (target_ _ (dir_Close options dbg))
  | dir_GetUniqueId max_size => on_target (target_ _ (dir_GetUniqueId max_size))
  end.
