(* ===== verification/FsFilesSpec.v ===== *)
(** What FsFiles.v promises: no client tells a wrapper from what it wraps, priorities apart; a batch of
    reads is the reads; and the preallocated part of a file grows in whole blocks, without gaps. *)
From S2P Require Import Prelude Slice RocksStatus IOStatus RocksDB Dispatch FsFiles.

Local Open Scope Z_scope.

(** ** Wrappers *)

(** Every call but the two about the priority. *)
Definition not_priority (A : Type) (c : writable A) : bool :=
  match c with wf_SetIOPriority _ | wf_GetIOPriority => false | _ => true end.

Lemma wrapper_simulates {T} (target : object writable T) own :
  simulates not_priority (wraps own) (FSWritableFileWrapper target) target.
Proof. intros A c s1 s2 Hc HR. destruct c; try done; by apply on_target_same. Qed.

(** Only the calls of the priority: what a client asks of the wrapper itself. *)
Lemma wrapper_keeps_the_priority {T} (target : object writable T) pri own (t : T) :
  FSWritableFileWrapper target _ (wf_SetIOPriority pri) (own, t) = Done (tt, (set_priority pri own, t)) ∧
  FSWritableFileWrapper target _ wf_GetIOPriority (own, t) = Done (io_priority_ own, (own, t)).
Proof. done. Qed.

(** C32. No client tells a wrapped file from the file itself, whatever it does with the answers, as long
    as it leaves the priority of the file alone: both runs answer alike, fail alike, and leave the file
    in the same state and the members of the wrapper as they were.  The priority is the exception to
    the rule that wrappers forward every call: the wrapper keeps it for itself, so the file is left
    with the priority it had, and answers it. *)
Theorem wrapped_files_are_the_files {T B} (target : object writable T) (p : client writable B) own (t : T) :
  only not_priority p →
  run (FSWritableFileWrapper target) p (own, t) = on_target (run target p) (own, t) ∧
  ∀ pri, (FSWritableFileWrapper target _ (wf_SetIOPriority pri) ≫= λ _,
          run (FSWritableFileWrapper target) p) (own, t) = on_target (run target p) (set_priority pri own, t).
Proof.
  intros Hp. assert (∀ own, run (FSWritableFileWrapper target) p (own, t) =
    on_target (run target p) (own, t)) as Hrun; [|split; [apply Hrun|intros pri; apply Hrun]].
  clear own. intros own.
  pose proof (run_simulates not_priority (wraps own) _ _ p (own, t) t (wrapper_simulates target own) Hp eq_refl)
    as Hsim. unfold same_end, on_target in *.
  destruct (run (FSWritableFileWrapper target) p (own, t)) as [[b [own' t']]|f], (run target p t) as [[b2 t2]|f2];
    [|done..|by subst]. destruct Hsim as [-> Hw]. by inversion Hw.
Qed.

(** The other wrappers have no members of their own and forward every call. *)
Definition any (E : Type → Type) (A : Type) (c : E A) : bool := true.
Lemma sequential_wrapper_simulates {T} (target : object sequential T) :
  simulates (any _) (wraps tt) (FSSequentialFileWrapper target) target.
Proof. intros A c s1 s2 _ HR. destruct c; by apply on_target_same. Qed.
Lemma random_access_wrapper_simulates {T} (target : object random_access T) :
  simulates (any _) (wraps tt) (FSRandomAccessFileWrapper target) target.
Proof. intros A c s1 s2 _ HR. destruct c; by apply on_target_same. Qed.
Lemma random_rw_wrapper_simulates {T} (target : object random_rw T) :
  simulates (any _) (wraps tt) (FSRandomRWFileWrapper target) target.
Proof. intros A c s1 s2 _ HR. destruct c; by apply on_target_same. Qed.
Lemma directory_wrapper_simulates {T} (target : object directory T) :
  simulates (any _) (wraps tt) (FSDirectoryWrapper target) target.
Proof. intros A c s1 s2 _ HR. destruct c; by apply on_target_same. Qed.

(** ** Reads *)

(** The client that reads request by request. *)
Fixpoint read_each (reqs : list FSReadRequest) (options : IOOptions) (dbg : dbg_ptr)
    (done : list FSReadRequest) : client random_access (Status * list FSReadRequest) :=
  match reqs with
  | [] => Finish (IOStatus.OK, done)
  | req :: reqs =>
      Call (ra_Read (offset req) (len req) options (scratch req) dbg)
        (λ sr, read_each reqs options dbg (done ++ [answered req sr.1 sr.2]))
  end.

(** A batch of reads, where a file has no better way, is the reads one after the other: the same
    effects in the same order, each request with the status and the result of its own read, none of
    the other fields touched; it stops at nothing but undefined behaviour, and answers OK whatever the
    reads answered. *)
Theorem multi_read_is_the_reads {S} (Read : Z → Z → IOOptions → option ptr → dbg_ptr → M S (Status * Slice))
    reqs options dbg (s : S) :
  FSRandomAccessFile Read _ (ra_MultiRead reqs options dbg) s =
  run (FSRandomAccessFile Read) (read_each reqs options dbg []) s.
Proof.
  cbn [FSRandomAccessFile]. unfold MultiRead. change reqs with ([] ++ reqs) at 1.
  assert (∀ done, (rs ← multi_read_loop Read reqs options dbg; mret (IOStatus.OK, done ++ rs)) s =
    run (FSRandomAccessFile Read) (read_each reqs options dbg done) s) as Hloop; [|apply (Hloop [])].
  revert s. induction reqs as [|req reqs IH]; intros s done; cbn [multi_read_loop read_each run].
  - unfold mbind, M_bind, mret, M_ret. by rewrite app_nil_r.
  - cbn [FSRandomAccessFile]. unfold mbind, M_bind.
    destruct (Read _ _ _ _ _ s) as [[[st r] s']|f]; [|done]. cbn [fst snd]. rewrite <-(IH s').
    unfold mbind, M_bind, mret, M_ret.
    destruct (multi_read_loop Read reqs options dbg s') as [[rs s2]|f]; [|done]. by rewrite <-app_assoc.
Qed.

(** ** Preallocation *)

Section Preallocation.
Context {X : Type} (Allocate : Z → Z → IOOptions → dbg_ptr → M (FSWritableFile * X) Status).
(** [Allocate] of the file, which may fail, keeps account of what it was asked for. *)
Context (asked : X → list (Z * Z)).
Hypothesis allocate_asked : ∀ o l options dbg b x, ∃ st x',
  Allocate o l options dbg (b, x) = Done (st, (b, x')) ∧ asked x' = asked x ++ [(o, l)].

(** Pieces without gaps or overlaps from [a] to [b]. *)
Fixpoint tiles (a : Z) (l : list (Z * Z)) (b : Z) : Prop :=
  match l with
  | [] => a = b
  | (o, n) :: l => o = a ∧ 0 < n ∧ tiles (a + n) l b
  end.
Lemma tiles_app a l b l' c : tiles a l b → tiles b l' c → tiles a (l ++ l') c.
Proof.
  revert a. induction l as [|[o n] l IH]; intros a; simpl; [by intros ->|].
  intros (-> & Hn & Hl) Hl'. split; [done|]. split; [done|]. by apply IH.
Qed.

(** The blocks that hold the first [n] bytes. *)
Definition blocks (bs n : Z) : Z := (n + bs - 1) `div` bs.
Lemma blocks_cover bs n : 0 < bs → n <= bs * blocks bs n < n + bs.
Proof. intros Hbs. unfold blocks. pose proof (Z.div_mod (n + bs - 1) bs). pose proof (Z.mod_pos_bound (n + bs - 1) bs). lia. Qed.

Definition prepared (bs : Z) (b : FSWritableFile) : Prop :=
  preallocation_block_size_ b = bs ∧ 0 <= last_preallocated_block_ b ∧ bs * last_preallocated_block_ b < 2 ^ 64.

Lemma prepare_one bs o l options dbg b x :
  0 < bs → prepared bs b → 0 <= o → 0 <= l → o + l + bs - 1 < 2 ^ 64 →
  ∃ b' x' new, PrepareWrite Allocate o l options dbg (b, x) = Done (tt, (b', x')) ∧
    prepared bs b' ∧ last_preallocated_block_ b' = Z.max (last_preallocated_block_ b) (blocks bs (o + l)) ∧
    asked x' = asked x ++ new ∧
    tiles (bs * last_preallocated_block_ b) new (bs * last_preallocated_block_ b').
Proof.
  intros Hbs (Hb & H0 & Hlast) Ho Hl Hfit. unfold PrepareWrite.
  unfold mbind at 1, M_bind at 1. unfold gets at 1. cbn [fst]. rewrite Hb, decide_False by lia.
  rewrite u64_small by lia. fold (blocks bs (o + l)).
  pose proof (blocks_cover bs (o + l) Hbs) as Hcov.
  case_decide as Hlt.
  - assert (0 < bs * (blocks bs (o + l) - last_preallocated_block_ b)) by nia.
    rewrite !u64_small by nia.
    destruct (allocate_asked (bs * last_preallocated_block_ b)
      (bs * (blocks bs (o + l) - last_preallocated_block_ b)) options dbg b x) as (st & x' & E & Ha).
    rewrite (bind_done _ _ _ _ _ E). eexists _, x', [_]. split; [reflexivity|]. unfold prepared.
    cbn [prod_map fst snd set_last_block last_preallocated_block_ preallocation_block_size_ id].
    split; [repeat split; [done|lia|lia]|]. split; [lia|]. split; [exact Ha|]. simpl. split; [done|]. lia.
  - exists b, x, []. split; [done|]. split; [done|]. split; [lia|]. by rewrite app_nil_r.
Qed.

Fixpoint prepare_all (writes : list (Z * Z)) (options : IOOptions) (dbg : dbg_ptr) :
    M (FSWritableFile * X) unit :=
  match writes with
  | [] => mret tt
  | (o, l) :: writes => PrepareWrite Allocate o l options dbg ;; prepare_all writes options dbg
  end.

(** C33. Whatever writes a file is prepared for, in any order, while its block size stays the same, what
    it asks to allocate are whole blocks that follow one another without gaps or overlaps from where
    the allocation stood; together they reach exactly the end of the last block a write needs, so
    every write lies in allocated blocks; and no computation wraps around, when the writes end a
    block before 2^64. *)
Theorem preallocation_has_no_gaps bs writes options dbg b x :
  0 < bs → prepared bs b →
  Forall (λ w, 0 <= w.1 ∧ 0 <= w.2 ∧ w.1 + w.2 + bs - 1 < 2 ^ 64) writes →
  ∃ b' x' new, prepare_all writes options dbg (b, x) = Done (tt, (b', x')) ∧ prepared bs b' ∧
    asked x' = asked x ++ new ∧
    tiles (bs * last_preallocated_block_ b) new (bs * last_preallocated_block_ b') ∧
    last_preallocated_block_ b' =
      foldl Z.max (last_preallocated_block_ b) ((λ w, blocks bs (w.1 + w.2)) <$> writes) ∧
    Forall (λ w, w.1 + w.2 <= bs * last_preallocated_block_ b') writes.
Proof.
  intros Hbs. revert b x. induction writes as [|[o l] writes IH]; intros b x Hb Hw.
  - exists b, x, []. split; [done|]. split; [done|]. rewrite app_nil_r. by split_and!.
  - apply Forall_cons in Hw as [(Ho & Hl & Hfit) Hw]. cbn [fst snd] in *.
    destruct (prepare_one bs o l options dbg b x Hbs Hb Ho Hl Hfit) as (b1 & x1 & n1 & E1 & Hb1 & L1 & A1 & T1).
    destruct (IH b1 x1 Hb1 Hw) as (b2 & x2 & n2 & E2 & Hb2 & A2 & T2 & L2 & C2).
    exists b2, x2, (n1 ++ n2). split; [cbn [prepare_all]; by rewrite (bind_done _ _ _ _ _ E1)|].
    split; [done|]. split; [by rewrite A2, A1, app_assoc|]. split; [by eapply tiles_app|].
    split; [rewrite L2, L1; done|]. constructor; [|done]. cbn [fst snd].
    pose proof (blocks_cover bs (o + l) Hbs) as Hcov.
    assert (last_preallocated_block_ b1 <= last_preallocated_block_ b2) as Hle.
    { rewrite L2. generalize (last_preallocated_block_ b1). clear. induction writes as [|w ws IH]; intros n; simpl; [lia|].
      etransitivity; [|apply IH]. lia. }
    nia.
Qed.
End Preallocation.
