(* ===== verification/FileSystem.v ===== *)
(** File systems (include/rocksdb/file_system.h): the debug context that goes with a request and how it
    is copied, the calls of a [FileSystem] with what they do by default, the listing of the files of a
    directory with their attributes, and the wrapper. *)
From stdpp Require Import pretty.
From S2P Require Import Prelude Slice RocksStatus IOStatus RocksDB Dispatch FsFiles.

Local Open Scope Z_scope.

(** ** [IODebugContext] *)

(** A pointer to a string: to the context's own [_request_id], or elsewhere. *)
Inductive string_ptr := own_id | id_at (a : ptr).

(** [cost_info] is a [std::any]. *)
Record IODebugContext (cost : Type) := mkDebug {
  file_path : list byte;
  counters : list (list byte * Z);
  msg : list byte;
  request_id : option string_ptr;
  trace_data : Z;
  cost_info : option cost;
  _request_id : list byte;
}.
Arguments mkDebug {_} _ _ _ _ _ _ _.
Arguments file_path {_} _.
Arguments counters {_} _.
Arguments msg {_} _.
Arguments request_id {_} _.
Arguments trace_data {_} _.
Arguments cost_info {_} _.
Arguments _request_id {_} _.

Section Debug.
Context {cost : Type}.
Abbreviation strings := (gmap ptr (list byte)).

Definition new_IODebugContext : IODebugContext cost := mkDebug [] [] [] None 0 None [].
(** The string [*request_id]. *)
Definition request_string (heap : strings) (d : IODebugContext cost) (p : string_ptr) : outcome (list byte) :=
  match p with
  | own_id => Done (_request_id d)
  | id_at a => from_option Done (Undef UseAfterFree) (heap !! a)
  end.
(** The copy constructor; and assignment, [None] from the object itself. *)
Definition IODebugContext_copy (heap : strings) (other : IODebugContext cost) :
    outcome (IODebugContext cost) :=
  id ← match request_id other with Some p => request_string heap other p | None => Done [] end;
  Done (mkDebug (file_path other) (counters other) (msg other)
          (match request_id other with Some _ => Some own_id | None => None end)
          (trace_data other) (cost_info other) id).
Definition IODebugContext_assign (heap : strings) (this : IODebugContext cost)
    (other : option (IODebugContext cost)) : outcome (IODebugContext cost) :=
  match other with Some other => IODebugContext_copy heap other | None => Done this end.

(** [std::map::emplace]: the keys in order, and the first value of each stays. *)
Fixpoint emplace (name : list byte) (value : Z) (l : list (list byte * Z)) : list (list byte * Z) :=
  match l with
  | [] => [(name, value)]
  | (n, v) :: l' =>
      match lex name n with
      | Lt => (name, value) :: l
      | Eq => l
      | Gt => (n, v) :: emplace name value l'
      end
  end.
Definition AddCounter (name : list byte) (value : Z) (d : IODebugContext cost) : IODebugContext cost :=
  mkDebug (file_path d) (emplace name value (counters d)) (msg d) (request_id d) (trace_data d)
    (cost_info d) (_request_id d).
Definition kRequestID : Z := 0.
Definition SetRequestId (updated_request_id : option string_ptr) (d : IODebugContext cost) :
    IODebugContext cost :=
  mkDebug (file_path d) (counters d) (msg d) updated_request_id
    (Z.lor (trace_data d) (Z.shiftl 1 kRequestID)) (cost_info d) (_request_id d).
Definition IODebugContext_ToString (d : IODebugContext cost) : list byte :=
  file_path d ++ str ", " ++
  concat ((λ c, c.1 ++ str " = " ++ str (pretty (Z.to_N c.2)) ++ str ",") <$> counters d) ++ msg d.
End Debug.

(** ** [FileSystem] *)

Record FileAttributes := mkAttributes { name : list byte; size_bytes : Z; temperature : Temperature }.
Definition new_FileAttributes : FileAttributes := mkAttributes [] 0 kTempUnknown.

Section FileSystem.
(** The options of [EnvOptions] and [DBOptions] are only handed on. *)
Context {EnvOptions DBOptions : Type}.

Record FileOptions := mkFileOptions {
  env_options : EnvOptions;
  io_options : IOOptions;
  file_temperature : Temperature;
  handoff_checksum_type : Z;
  write_hint : WriteLifeTimeHint;
}.
(** [ChecksumType::kCRC32c] *)
Definition kCRC32c : Z := 1.
Definition FileOptions_of (opts : EnvOptions) : FileOptions :=
  mkFileOptions opts new_IOOptions kTempUnknown kCRC32c WLTH_NOT_SET.
Definition FileOptions_of_db (env_of : DBOptions → EnvOptions)
    (metadata_write_temperature : DBOptions → Temperature) (opts : DBOptions) : FileOptions :=
  mkFileOptions (env_of opts) new_IOOptions (metadata_write_temperature opts) kCRC32c WLTH_NOT_SET.
Definition FileOptions_copy (opts : FileOptions) : FileOptions :=
  mkFileOptions (env_options opts) (io_options opts) (file_temperature opts) (handoff_checksum_type opts)
    (write_hint opts).

Abbreviation path := (list byte).

(** A file, a lock or a logger that a call makes is a pointer; a number that a call may leave unset is
    an option. *)
Inductive file_system : Type → Type :=
  | fs_RegisterDbPaths (paths : list path) : file_system Status
  | fs_UnregisterDbPaths (paths : list path) : file_system Status
  | fs_NewSequentialFile (f : path) (o : FileOptions) (dbg : dbg_ptr) : file_system (Status * option ptr)
  | fs_NewRandomAccessFile (f : path) (o : FileOptions) (dbg : dbg_ptr) : file_system (Status * option ptr)
  | fs_NewWritableFile (f : path) (o : FileOptions) (dbg : dbg_ptr) : file_system (Status * option ptr)
  | fs_ReopenWritableFile (f : path) (o : FileOptions) (dbg : dbg_ptr) : file_system (Status * option ptr)
  | fs_ReuseWritableFile (f old : path) (o : FileOptions) (dbg : dbg_ptr) : file_system (Status * option ptr)
  | fs_NewRandomRWFile (f : path) (o : FileOptions) (dbg : dbg_ptr) : file_system (Status * option ptr)
  | fs_NewMemoryMappedFileBuffer (f : path) : file_system (Status * option ptr)
  | fs_NewDirectory (d : path) (o : IOOptions) (dbg : dbg_ptr) : file_system (Status * option ptr)
  | fs_FileExists (f : path) (o : IOOptions) (dbg : dbg_ptr) : file_system Status
  | fs_GetChildren (dir : path) (o : IOOptions) (dbg : dbg_ptr) : file_system (Status * list path)
  | fs_GetChildrenFileAttributes (dir : path) (o : IOOptions) (before : list FileAttributes) (dbg : dbg_ptr) :
      file_system (Status * list FileAttributes)
  | fs_DeleteFile (f : path) (o : IOOptions) (dbg : dbg_ptr) : file_system Status
  | fs_Truncate (f : path) (size : Z) (o : IOOptions) (dbg : dbg_ptr) : file_system Status
  | fs_CreateDir (d : path) (o : IOOptions) (dbg : dbg_ptr) : file_system Status
  | fs_CreateDirIfMissing (d : path) (o : IOOptions) (dbg : dbg_ptr) : file_system Status
  | fs_DeleteDir (d : path) (o : IOOptions) (dbg : dbg_ptr) : file_system Status
  | fs_GetFileSize (f : path) (o : IOOptions) (dbg : dbg_ptr) : file_system (Status * option Z)
  | fs_GetFileModificationTime (f : path) (o : IOOptions) (dbg : dbg_ptr) : file_system (Status * option Z)
  | fs_GetAbsolutePath (p : path) (o : IOOptions) (dbg : dbg_ptr) : file_system (Status * path)
  | fs_RenameFile (s t : path) (o : IOOptions) (dbg : dbg_ptr) : file_system Status
  | fs_LinkFile (s t : path) (o : IOOptions) (dbg : dbg_ptr) : file_system Status
  | fs_NumFileLinks (f : path) (o : IOOptions) (dbg : dbg_ptr) : file_system (Status * option Z)
  | fs_AreFilesSame (f g : path) (o : IOOptions) (dbg : dbg_ptr) : file_system (Status * option bool)
  | fs_LockFile (f : path) (o : IOOptions) (dbg : dbg_ptr) : file_system (Status * option ptr)
  | fs_UnlockFile (l : option ptr) (o : IOOptions) (dbg : dbg_ptr) : file_system Status
  | fs_GetTestDirectory (o : IOOptions) (dbg : dbg_ptr) : file_system (Status * path)
  | fs_NewLogger (f : path) (o : IOOptions) (dbg : dbg_ptr) : file_system (Status * option ptr)
  | fs_SanitizeFileOptions (opts : FileOptions) : file_system FileOptions
  | fs_OptimizeForLogRead (o : FileOptions) : file_system FileOptions
  | fs_OptimizeForManifestRead (o : FileOptions) : file_system FileOptions
  | fs_OptimizeForLogWrite (o : FileOptions) (db : DBOptions) : file_system FileOptions
  | fs_OptimizeForManifestWrite (o : FileOptions) : file_system FileOptions
  | fs_OptimizeForCompactionTableWrite (o : FileOptions) (db : DBOptions) : file_system FileOptions
  | fs_OptimizeForCompactionTableRead (o : FileOptions) (db : DBOptions) : file_system FileOptions
  | fs_OptimizeForBlobFileRead (o : FileOptions) (db : DBOptions) : file_system FileOptions
  | fs_GetFreeSpace (p : path) (o : IOOptions) (dbg : dbg_ptr) : file_system (Status * option Z)
  | fs_IsDirectory (p : path) (o : IOOptions) (dbg : dbg_ptr) : file_system (Status * option bool)
  | fs_Poll (io_handles : list (option ptr)) (min_completions : Z) : file_system Status
  | fs_AbortIO (io_handles : list (option ptr)) : file_system Status
  | fs_DiscardCacheForDirectory (p : path) : file_system unit
  | fs_SupportedOps : file_system Z.

Section Defaults.
Context {S : Type}.

(** [std::vector::resize] *)
Definition resize (n : nat) (l : list FileAttributes) : list FileAttributes :=
  take n l ++ replicate (n - length l) new_FileAttributes.
Definition set_size (n : Z) (a : FileAttributes) : FileAttributes := mkAttributes (name a) n (temperature a).
Definition set_name (f : path) (a : FileAttributes) : FileAttributes := mkAttributes f (size_bytes a) (temperature a).
(** [dir + "/" + child] *)
Definition child_path (dir child : path) : path := dir ++ str "/" ++ child.

Section Children.
(** The virtual methods of the same object. *)
Context (GetChildren : path → M S (Status * list path)) (FileExists : path → M S Status)
        (GetFileSize : path → M S (Status * option Z)).

(** The loop: [result_size] entries of [result] are filled. *)
Fixpoint attributes_loop (dir : path) (child_fnames : list path) (result : list FileAttributes)
    (result_size : nat) : M S (Status * list FileAttributes) :=
  match child_fnames with
  | [] => mret (IOStatus.OK, resize result_size result)
  | child :: child_fnames =>
      '(s, size) ← GetFileSize (child_path dir child);
      let result := match size with Some n => alter (set_size n) result_size result | None => result end in
      if negb (ok s) then
        e ← FileExists (child_path dir child);
        if IsNotFound e then attributes_loop dir child_fnames result result_size
        else mret (s, result)
      else attributes_loop dir child_fnames (alter (set_name child) result_size result) (Datatypes.S result_size)
  end.
Definition GetChildrenFileAttributes (dir : path) (result : list FileAttributes) :
    M S (Status * list FileAttributes) :=
  '(s, child_fnames) ← GetChildren dir;
  if negb (ok s) then mret (s, result)
  else attributes_loop dir child_fnames (resize (length child_fnames) result) 0.
End Children.

(** [FSSupportedOps] *)
Definition kAsyncIO : Z := 0.
Definition kFSBuffer : Z := 1.
Definition kVerifyAndReconstructRead : Z := 2.
Definition kFSPrefetch : Z := 3.
Definition SupportedOps : Z := Z.lor (Z.shiftl 1 kAsyncIO) (Z.shiftl 1 kFSPrefetch).

(** A file system that overrides only the methods without a body in the header; an argument that a call
    leaves alone is not set. *)
Definition FileSystem (implemented : object file_system S) : object file_system S := λ A c,
  match c with
  | fs_RegisterDbPaths _ => mret RocksStatus.OK
  | fs_UnregisterDbPaths _ => mret RocksStatus.OK
  | fs_ReopenWritableFile _ _ _ => s ← not_supported "ReopenWritableFile"; mret (s, None)
  | fs_NewRandomRWFile _ _ _ =>
      s ← not_supported "RandomRWFile is not implemented in this FileSystem"; mret (s, None)
  | fs_NewMemoryMappedFileBuffer _ =>
      s ← not_supported "MemoryMappedFileBuffer is not implemented in this FileSystem"; mret (s, None)
  | fs_GetChildrenFileAttributes dir o before dbg =>
      GetChildrenFileAttributes (λ d, implemented _ (fs_GetChildren d o dbg))
        (λ f, implemented _ (fs_FileExists f o dbg)) (λ f, implemented _ (fs_GetFileSize f o dbg)) dir before
  | fs_Truncate _ _ _ _ => not_supported "Truncate is not supported for this FileSystem"
  | fs_LinkFile _ _ _ _ => not_supported "LinkFile is not supported for this FileSystem"
  | fs_NumFileLinks _ _ _ =>
      s ← not_supported "Getting number of file links is not supported for this FileSystem"; mret (s, None)
  | fs_AreFilesSame _ _ _ _ => s ← not_supported "AreFilesSame is not supported for this FileSystem"; mret (s, None)
  | fs_SanitizeFileOptions opts => mret opts
  | fs_GetFreeSpace _ _ _ => s ← not_supported "GetFreeSpace"; mret (s, None)
  | fs_Poll _ _ => mret IOStatus.OK
  | fs_AbortIO _ => mret IOStatus.OK
  | fs_DiscardCacheForDirectory _ => mret tt
  | fs_SupportedOps => mret SupportedOps
  | c => implemented _ c
  end.
End Defaults.

(** The wrapper forwards the calls it overrides; the two about the paths of a database it inherits. *)
Definition FileSystemWrapper {T} (target_ : object file_system T) : object file_system (unit * T) := λ A c,
  match c with
  | fs_RegisterDbPaths _ => mret RocksStatus.OK
  | fs_UnregisterDbPaths _ => mret RocksStatus.OK
  | c => on_target (target_ _ c)
  end.
End FileSystem.
Arguments FileOptions : clear implicits.
Arguments file_system : clear implicits.
