(* ===== verification/FileSystemSpec.v ===== *)
(** What FileSystem.v promises: a copied debug context owns the request id it shows; the listing of the
    attributes of a directory is the one a caller would make file by file; and no client tells a
    wrapped file system from the file system, unless it names the paths of its databases. *)
From Stdlib Require Import Sorted.
From S2P Require Import Prelude Slice RocksStatus IOStatus RocksDB Dispatch FsFiles FileSystem.

Local Open Scope Z_scope.

(** ** Debug contexts *)

Section Debug.
Context {cost : Type}.
Implicit Types (d c : IODebugContext cost).

Definition id_read (heap : gmap ptr (list byte)) d : outcome (option (list byte)) :=
  match request_id d with
  | Some p => s ← request_string heap d p; Done (Some s)
  | None => Done None
  end.
(** What the caller sees apart from the request id. *)
Definition rest_of d := (file_path d, counters d, msg d, trace_data d, cost_info d).

Lemma copy_of_own heap d :
  request_id d ≠ None ∨ _request_id d = [] → (∀ a, request_id d ≠ Some (id_at a)) →
  IODebugContext_copy heap d = Done d.
Proof.
  destruct d as [f cs m [[|a]|] t k r]; unfold IODebugContext_copy; cbn; intros Hn Ha; [done|by destruct (Ha a)|].
  by destruct Hn as [? | ->].
Qed.

(** A debug context can be copied, or assigned, whenever the request id it points to is alive; then
    the copy shows the same request id, or none, and the same of everything else, and owns it: it
    shows that id whatever becomes of the original and of every other string, and can be copied again
    at any time, with no change.  Otherwise the copy reads a string that is gone. *)
Theorem a_copied_context_owns_its_id heap d :
  match IODebugContext_copy heap d with
  | Done c => rest_of c = rest_of d ∧ (∀ heap', id_read heap' c = id_read heap d) ∧
      ∀ heap' this, IODebugContext_copy heap' c = Done c ∧ IODebugContext_assign heap' this (Some c) = Done c
  | Undef f => f = UseAfterFree ∧ ∃ a, request_id d = Some (id_at a) ∧ heap !! a = None
  end.
Proof.
  unfold IODebugContext_assign, id_read.
  destruct d as [f cs m [[|a]|] t k r]; unfold IODebugContext_copy; cbn; [done| |done].
  destruct (heap !! a) as [s|] eqn:Ha; cbn; [done|eauto].
Qed.
End Debug.

(** ** Counters *)

Definition key_lt (a b : list byte * Z) : Prop := lex a.1 b.1 = Lt.
(** The first value that goes with a name. *)
Fixpoint first_value (n : list byte) (l : list (list byte * Z)) : option Z :=
  match l with
  | [] => None
  | (m, v) :: l => if decide (m = n) then Some v else first_value n l
  end.

Lemma emplace_in n v l x : x ∈ emplace n v l → x = (n, v) ∨ x ∈ l.
Proof.
  induction l as [|[m w] l IH]; cbn; [set_solver|].
  destruct (lex n m); set_solver.
Qed.
Lemma emplace_sorted n v l : StronglySorted key_lt l → StronglySorted key_lt (emplace n v l).
Proof.
  induction 1 as [|[m w] l Hl IH Hm]; [repeat constructor|]. cbn.
  destruct (lex n m) eqn:E; [by constructor| |].
  - constructor; [by constructor|]. constructor; [done|].
    eapply Forall_impl; [exact Hm|]. intros x Hx. by eapply lex_lt_trans.
  - constructor; [done|]. apply Forall_forall. intros x [->|Hx]%emplace_in.
    + unfold key_lt. cbn. by rewrite lex_antisym, E.
    + by eapply Forall_forall in Hm.
Qed.
Lemma first_value_above n l : Forall (key_lt (n, 0)) l → first_value n l = None.
Proof.
  induction 1 as [|[m w] l Hm Hl IH]; [done|]. cbn. rewrite decide_False; [done|].
  intros ->. unfold key_lt in Hm. cbn in Hm. by rewrite lex_refl in Hm.
Qed.
Lemma emplace_value n v k l : StronglySorted key_lt l →
  first_value k (emplace n v l) =
    match first_value k l with Some w => Some w | None => if decide (n = k) then Some v else None end.
Proof.
  induction 1 as [|[m w] l Hl IH Hm]; [done|]. cbn.
  destruct (lex n m) eqn:E; cbn.
  - apply lex_eq in E as ->. case_decide; [done|]. by destruct (first_value k l).
  - destruct (decide (n = k)) as [->|Hn]; [|by destruct (decide (m = k)); [|destruct (first_value k l)]].
    rewrite decide_False by (intros ->; by rewrite lex_refl in E).
    rewrite first_value_above; [done|]. eapply Forall_impl; [exact Hm|]. intros x Hx.
    by apply (lex_lt_trans k m x.1).
  - rewrite IH. by destruct (decide (m = k)).
Qed.

(** The counters of a debug context are a map: whatever is added, each name appears once, the names
    are in order, and a name keeps the value it was first added with. *)
Theorem counters_are_a_map {cost : Type} (adds : list (list byte * Z)) :
  let d := foldl (λ d a, AddCounter a.1 a.2 d) (new_IODebugContext (cost := cost)) adds in
  StronglySorted key_lt (counters d) ∧ ∀ n, first_value n (counters d) = first_value n adds.
Proof.
  cbn zeta.
  assert (∀ d : IODebugContext cost, StronglySorted key_lt (counters d) →
    StronglySorted key_lt (counters (foldl (λ d a, AddCounter a.1 a.2 d) d adds)) ∧
    ∀ n, first_value n (counters (foldl (λ d a, AddCounter a.1 a.2 d) d adds)) =
      match first_value n (counters d) with Some v => Some v | None => first_value n adds end) as Hall.
  { induction adds as [|[m v] adds IH]; intros d Hd; cbn [foldl first_value].
    - split; [done|]. intros n. by destruct (first_value n _).
    - destruct (IH (AddCounter m v d)) as [Hs Hv]; [by apply emplace_sorted|]. split; [done|].
      intros n. rewrite Hv. cbn [AddCounter counters fst snd]. rewrite (emplace_value m v n) by done.
      destruct (first_value n (counters d)); [done|]. by case_decide. }
  apply (Hall new_IODebugContext). constructor.
Qed.

(** ** The attributes of the files of a directory *)

Section Children.
Context {S : Type}.
Context (GetChildren : list byte → M S (Status * list (list byte))) (FileExists : list byte → M S Status)
        (GetFileSize : list byte → M S (Status * option Z)).
(** A size that is answered is set. *)
Hypothesis size_set : ∀ f s st n s', GetFileSize f s = Done ((st, n), s') → ok st = true → n ≠ None.

(** The names and the sizes, asked for file by file: a file without a size that does not exist is left
    out, another failure ends the listing. *)
Fixpoint sizes (dir : list byte) (fs : list (list byte)) : M S (Status * list (list byte * Z)) :=
  match fs with
  | [] => mret (IOStatus.OK, [])
  | f :: fs =>
      '(st, size) ← GetFileSize (child_path dir f);
      if ok st then '(st', l) ← sizes dir fs; mret (st', (f, default 0 size) :: l)
      else e ← FileExists (child_path dir f); if IsNotFound e then sizes dir fs else mret (st, [])
  end.
Definition listed (dir : list byte) : M S (Status * list (list byte * Z)) :=
  '(st, fs) ← GetChildren dir; if ok st then sizes dir fs else mret (st, []).

(** What a caller may look at: the list is of use when the status is OK. *)
Definition seen {A} (x : Status * A) : Status * option A := (x.1, if ok x.1 then Some x.2 else None).
(** The listing laid over what the caller's list held. *)
Definition laid_over (ts : list Temperature) (l : list (list byte * Z)) : list FileAttributes :=
  zip_with (λ f t, mkAttributes f.1 f.2 t) l ts.
Definition temperatures (l : list FileAttributes) : list Temperature := temperature <$> l.

Lemma lay_one f n l k result : (k < length result)%nat →
  let result' := alter (set_name f) k (alter (set_size n) k result) in
  take (Datatypes.S k) result' ++ laid_over (drop (Datatypes.S k) (temperatures result')) l =
  take k result ++ laid_over (drop k (temperatures result)) ((f, n) :: l).
Proof.
  intros Hk. cbn zeta. destruct (lookup_lt_is_Some_2 result k Hk) as [a Ha].
  rewrite <-(take_drop_middle _ _ _ Ha). assert (length (take k result) = k) as Hlen by (rewrite length_take; lia).
  revert Hlen. generalize (take k result) (drop (Datatypes.S k) result). intros p q <-. clear.
  rewrite !alter_app_r_alt, Nat.sub_diag by lia. cbn [alter list_alter].
  unfold temperatures, laid_over. rewrite !fmap_app, !fmap_cons, take_app_length.
  replace (Datatypes.S (length p)) with (length p + 1)%nat by lia. rewrite take_app_add, drop_app_add' by by rewrite length_fmap.
  rewrite drop_app_length' by by rewrite length_fmap. cbn. by rewrite <-app_assoc.
Qed.
Lemma size_not_kept k result size :
  let result' := match size with Some n => alter (set_size n) k result | None => result end in
  take k result' = take k result ∧ temperatures result' = temperatures result ∧ length result' = length result.
Proof.
  cbn zeta. destruct size as [n|]; [|done]. rewrite length_alter. split; [by apply take_alter_ge|]. split; [|done].
  unfold temperatures. apply list_eq. intros i. rewrite !list_lookup_fmap, list_lookup_alter.
  case_decide as Hi; [|done]. subst. by destruct (result !! _).
Qed.

Lemma attributes_loop_seen dir fs result k s :
  (k + length fs <= length result)%nat →
  (seen <$> attributes_loop FileExists GetFileSize dir fs result k) s =
  ((λ x, seen (x.1, take k result ++ laid_over (drop k (temperatures result)) x.2)) <$> sizes dir fs) s.
Proof.
  revert result k s. induction fs as [|f fs IH]; intros result k s Hlen; cbn [attributes_loop sizes length] in *.
  { unfold fmap, M_fmap, mret, M_ret, seen, resize, laid_over. cbn.
    by replace (k - length result)%nat with 0%nat by lia. }
  unfold fmap, M_fmap, mbind, M_bind in *.
  destruct (GetFileSize _ s) as [[[st size] s1]|flt] eqn:Esize; [|done].
  destruct (ok st) eqn:Hok; cbn [negb].
  - destruct size as [n|]; [|by destruct (size_set _ _ _ _ _ Esize Hok)].
    rewrite IH by (rewrite !length_alter; lia).
    destruct (sizes dir fs s1) as [[[st' l] s2]|flt2]; [|done]. cbn [fst snd mret M_ret default].
    by rewrite lay_one by lia.
  - destruct (FileExists _ s1) as [[e s2]|flt2]; [|done]. destruct (IsNotFound e).
    + destruct (size_not_kept k result size) as (Ht & Htm & Hl). rewrite IH by lia. by rewrite Ht, Htm.
    + unfold mret, M_ret, seen. cbn. by rewrite Hok.
Qed.

Lemma sizes_length dir fs s st l s' : sizes dir fs s = Done ((st, l), s') → (length l <= length fs)%nat.
Proof.
  revert s st l. induction fs as [|f fs IH]; intros s st l; cbn [sizes length]; [by intros [= _ <- _]|].
  unfold mbind, M_bind. destruct (GetFileSize _ s) as [[[st1 size] s1]|flt]; [|done]. destruct (ok st1).
  - destruct (sizes dir fs s1) as [[[st2 l2] s2]|flt] eqn:E; [|done]. intros [= _ <- <-].
    apply IH in E. simpl. lia.
  - destruct (FileExists _ s1) as [[e s2]|flt]; [|done]. destruct (IsNotFound e); [|by intros [= _ <- _]; simpl; lia].
    intros E. apply IH in E. lia.
Qed.
Lemma laid_over_ext ts1 ts2 l : take (length l) ts1 = take (length l) ts2 → laid_over ts1 l = laid_over ts2 l.
Proof.
  unfold laid_over. revert ts1 ts2. induction l as [|f l IH]; intros [|t1 ts1] [|t2 ts2]; try done.
  cbn. intros [= -> H]. f_equal. by apply IH.
Qed.
Lemma resize_temperatures n m before : (m <= n)%nat →
  take m (temperatures (resize n before)) = take m (temperatures before ++ replicate m kTempUnknown).
Proof.
  intros Hm. unfold temperatures, resize. rewrite fmap_app, fmap_replicate, fmap_take, !take_app, take_take.
  rewrite length_take, !length_fmap, !take_replicate. replace (m `min` n)%nat with m by lia.
  f_equal. cbn. f_equal. lia.
Qed.

(** The attributes of the files of a directory are what a caller would find who asks for the names
    and then, in order, for each size: the same calls, the same failures and the same status; files
    that are gone by then are left out, and any other failure ends it.  When it is OK, the list holds
    exactly those names and sizes.  The third attribute of each is not from the file system: it is
    whatever the caller's list held at that place, or unknown. *)
Theorem attributes_are_the_names_and_sizes dir before s :
  (seen <$> FileSystem.GetChildrenFileAttributes GetChildren FileExists GetFileSize dir before) s =
  ((λ x, seen (x.1, laid_over (temperatures before ++ replicate (length x.2) kTempUnknown) x.2)) <$> listed dir) s.
Proof.
  unfold GetChildrenFileAttributes, listed, fmap at 1 2, M_fmap, mbind, M_bind.
  destruct (GetChildren dir s) as [[[st fs] s1]|flt]; [|done]. destruct (ok st) eqn:Hok; cbn [negb];
    [|unfold mret, M_ret, seen; cbn; by rewrite Hok].
  pose proof (attributes_loop_seen dir fs (resize (length fs) before) 0 s1) as H.
  unfold fmap, M_fmap in H. rewrite H by (unfold resize; rewrite length_app, length_take, length_replicate; lia).
  destruct (sizes dir fs s1) as [[[st' l] s2]|flt] eqn:E; [|done]. cbn [fst snd take app drop].
  rewrite (laid_over_ext _ (temperatures before ++ replicate (length l) kTempUnknown) l); [done|].
  by apply resize_temperatures, (sizes_length _ _ _ _ _ _ E).
Qed.
End Children.

(** ** The wrapper *)

Section Wrapper.
Context {EnvOptions DBOptions : Type}.
Abbreviation fs := (file_system EnvOptions DBOptions).

(** The paths of the databases a client names. *)
Definition names_paths (A : Type) (c : fs A) : bool :=
  match c with fs_RegisterDbPaths _ | fs_UnregisterDbPaths _ => true | _ => false end.

(** The client without the calls that name paths, each answered OK. *)
Fixpoint unnamed {B} (p : client fs B) : client fs B :=
  match p with
  | Finish b => Finish b
  | Call c k =>
      match c in file_system _ _ A return (A → client fs B) → client fs B with
      | fs_RegisterDbPaths _ => λ k, k RocksStatus.OK
      | fs_UnregisterDbPaths _ => λ k, k RocksStatus.OK
      | c => λ k, Call c k
      end (λ a, unnamed (k a))
  end.

(** To any client a wrapped file system is the file system as it would be without the two calls that
    name the paths of a database: every other call reaches it, once and in order, with the same answer
    and the same failure; these two are answered OK and never reach it. *)
Theorem wrapped_file_system_misses_the_paths {T B} (target : object fs T) (p : client fs B) (t : T) :
  run (FileSystemWrapper target) p (tt, t) = on_target (run target (unnamed p)) (tt, t).
Proof.
  revert t. induction p as [b|A c k IH]; intros t; [done|].
  cbn [run unnamed]. unfold mbind, M_bind.
  destruct c; cbn [FileSystemWrapper]; try apply IH; cbn [run]; unfold on_target, mbind, M_bind;
    (destruct (target _ _ t) as [[a t']|flt]; [apply IH|done]).
Qed.
End Wrapper.
