(* ===== verification/EnvFiles.v ===== *)
(** The files, directories and loggers of an [Env] (include/rocksdb/env.h), an interface older than
    that of file_system.h: the virtual methods of each class as calls, what the base classes do by
    default, and the wrappers.  Conventions as in FsFiles.v. *)
From S2P Require Import Prelude Slice RocksStatus RocksDB Dispatch FsFiles.

Local Open Scope Z_scope.

Section Files.
(** The compiled constructor of a status with a message. *)
Context (Status_msg : Code → SubCode → Slice → Slice → Severity → Status).

(** [Status::NotSupported(msg)]: the message is a literal. *)
Definition unsupported (msg : string) : Status := NotSupported_msg Status_msg (Slice_of_string (str msg)) empty_slice.

(** ** [SequentialFile] *)

Inductive env_sequential : Type → Type :=
  | es_Read (n : Z) (scratch : option ptr) : env_sequential (Status * Slice)
  | es_Skip (n : Z) : env_sequential Status
  | es_use_direct_io : env_sequential bool
  | es_GetRequiredBufferAlignment : env_sequential Z
  | es_InvalidateCache (offset length : Z) : env_sequential Status
  | es_PositionedRead (offset n : Z) (scratch : option ptr) : env_sequential (Status * Slice).

Definition SequentialFile {S} (Read : Z → option ptr → M S (Status * Slice)) (Skip : Z → M S Status) :
    object env_sequential S := λ A c,
  match c with
  | es_Read n scratch => Read n scratch
  | es_Skip n => Skip n
  | es_use_direct_io => mret false
  | es_GetRequiredBufferAlignment => mret kDefaultPageSize
  | es_InvalidateCache _ _ => mret (unsupported "SequentialFile::InvalidateCache not supported.")
  | es_PositionedRead _ _ _ =>
      mret (unsupported "SequentialFile::PositionedRead() not supported.", empty_slice)
  end.
Definition SequentialFileWrapper {T} (target_ : object env_sequential T) :
    object env_sequential (unit * T) := λ A c,
  match c with
  | es_Read n scratch => on_target (target_ _ (es_Read n scratch))
  | es_Skip n => on_target (target_ _ (es_Skip n))
  | es_use_direct_io => on_target (target_ _ es_use_direct_io)
  | es_GetRequiredBufferAlignment => on_target (target_ _ es_GetRequiredBufferAlignment)
  | es_InvalidateCache offset length => on_target (target_ _ (es_InvalidateCache offset length))
  | es_PositionedRead offset n scratch => on_target (target_ _ (es_PositionedRead offset n scratch))
  end.

(** ** [RandomAccessFile] *)

(** [ReadRequest] has the fields of [FSReadRequest]. *)
Abbreviation ReadRequest := FSReadRequest.

Inductive env_random_access : Type → Type :=
  | er_Read (offset n : Z) (scratch : option ptr) : env_random_access (Status * Slice)
  | er_Prefetch (offset n : Z) : env_random_access Status
  | er_MultiRead (reqs : list ReadRequest) : env_random_access (Status * list ReadRequest)
  | er_GetUniqueId (max_size : Z) : env_random_access (list byte)
  | er_Hint (pattern : AccessPattern) : env_random_access unit
  | er_use_direct_io : env_random_access bool
  | er_GetRequiredBufferAlignment : env_random_access Z
  | er_InvalidateCache (offset length : Z) : env_random_access Status
  | er_GetFileSize : env_random_access (Status * option Z).

Section RandomAccess.
Context {S : Type} (Read : Z → Z → option ptr → M S (Status * Slice)).

Fixpoint multi_read_loop (reqs : list ReadRequest) : M S (list ReadRequest) :=
  match reqs with
  | [] => mret []
  | req :: reqs =>
      '(s, r) ← Read (offset req) (len req) (scratch req);
      reqs ← multi_read_loop reqs;
      mret (answered req s r :: reqs)
  end.
Definition MultiRead (reqs : list ReadRequest) : M S (Status * list ReadRequest) :=
  reqs ← multi_read_loop reqs; mret (RocksStatus.OK, reqs).

Definition RandomAccessFile : object env_random_access S := λ A c,
  match c with
  | er_Read offset n scratch => Read offset n scratch
  | er_Prefetch _ _ => mret RocksStatus.OK
  | er_MultiRead reqs => MultiRead reqs
  | er_GetUniqueId _ => mret []
  | er_Hint _ => mret tt
  | er_use_direct_io => mret false
  | er_GetRequiredBufferAlignment => mret kDefaultPageSize
  | er_InvalidateCache _ _ => mret (unsupported "RandomAccessFile::InvalidateCache not supported.")
  | er_GetFileSize => mret (unsupported "RandomAccessFile::GetFileSize not supported.", None)
  end.
End RandomAccess.
Definition RandomAccessFileWrapper {T} (target_ : object env_random_access T) :
    object env_random_access (unit * T) := λ A c,
  match c with
  | er_Read offset n scratch => on_target (target_ _ (er_Read offset n scratch))
  | er_MultiRead reqs => on_target (target_ _ (er_MultiRead reqs))
  | er_Prefetch offset n => on_target (target_ _ (er_Prefetch offset n))
  | er_GetUniqueId max_size => on_target (target_ _ (er_GetUniqueId max_size))
  | er_Hint pattern => on_target (target_ _ (er_Hint pattern))
  | er_use_direct_io => on_target (target_ _ er_use_direct_io)
  | er_GetRequiredBufferAlignment => on_target (target_ _ er_GetRequiredBufferAlignment)
  | er_InvalidateCache offset length => on_target (target_ _ (er_InvalidateCache offset length))
  | er_GetFileSize => on_target (target_ _ er_GetFileSize)
  end.

(** ** [WritableFile] *)

Inductive env_writable : Type → Type :=
  | ew_Append (data : Slice) : env_writable Status
  | ew_Append_verified (data : Slice) (info : DataVerificationInfo) : env_writable Status
  | ew_PositionedAppend (data : Slice) (offset : Z) : env_writable Status
  | ew_PositionedAppend_verified (data : Slice) (offset : Z) (info : DataVerificationInfo) : env_writable Status
  | ew_Truncate (size : Z) : env_writable Status
  | ew_Close : env_writable Status
  | ew_Flush : env_writable Status
  | ew_Sync : env_writable Status
  | ew_Fsync : env_writable Status
  | ew_IsSyncThreadSafe : env_writable bool
  | ew_use_direct_io : env_writable bool
  | ew_GetRequiredBufferAlignment : env_writable Z
  | ew_SetIOPriority (pri : EnvIOPriority) : env_writable unit
  | ew_GetIOPriority : env_writable EnvIOPriority
  | ew_SetWriteLifeTimeHint (hint : WriteLifeTimeHint) : env_writable unit
  | ew_GetWriteLifeTimeHint : env_writable WriteLifeTimeHint
  | ew_GetFileSize : env_writable Z
  | ew_SetPreallocationBlockSize (size : Z) : env_writable unit
  | ew_GetPreallocationStatus : env_writable (Z * Z)
  | ew_GetUniqueId (max_size : Z) : env_writable (list byte)
  | ew_InvalidateCache (offset length : Z) : env_writable Status
  | ew_RangeSync (offset nbytes : Z) : env_writable Status
  | ew_PrepareWrite (offset len : Z) : env_writable unit
  | ew_Allocate (offset len : Z) : env_writable Status.

(** The members of the base class are those of [FSWritableFile]. *)
Abbreviation WritableFile := FSWritableFile.
Definition new_WritableFile : WritableFile := mkWritable 0 0 IO_TOTAL WLTH_NOT_SET false.
Definition WritableFile_of (strict_bytes_per_sync : bool) : WritableFile :=
  mkWritable 0 0 IO_TOTAL WLTH_NOT_SET strict_bytes_per_sync.

Section Writable.
Context {X : Type}.
Abbreviation MF := (M (WritableFile * X)).

Definition PrepareWrite (Allocate : Z → Z → MF Status) (offset len : Z) : MF unit :=
  b ← gets fst;
  let block_size := preallocation_block_size_ b in
  if decide (block_size = 0) then mret tt
  else
    let new_last := u64 (offset + len + block_size - 1) `div` block_size in
    if decide (last_preallocated_block_ b < new_last) then
      Allocate (u64 (block_size * last_preallocated_block_ b))
        (u64 (block_size * (new_last - last_preallocated_block_ b))) ;;
      modify (prod_map (set_last_block new_last) id)
    else mret tt.
Definition RangeSync (Sync : MF Status) : MF Status :=
  b ← gets fst; if strict_bytes_per_sync_ b then Sync else mret RocksStatus.OK.

(** A file that has its own [Append], [Close], [Flush], [Sync], [GetFileSize] and [Allocate]. *)
Definition WritableFile_derived (Append : Slice → MF Status) (Close Flush Sync : MF Status)
    (GetFileSize : MF Z) (Allocate : Z → Z → MF Status) : object env_writable (WritableFile * X) := λ A c,
  match c with
  | ew_Append data => Append data
  | ew_Append_verified data _ => Append data
  | ew_PositionedAppend _ _ => mret (unsupported "WritableFile::PositionedAppend() not supported.")
  | ew_PositionedAppend_verified _ _ _ => mret (unsupported "PositionedAppend")
  | ew_Truncate _ => mret RocksStatus.OK
  | ew_Close => Close
  | ew_Flush => Flush
  | ew_Sync => Sync
  | ew_Fsync => Sync
  | ew_IsSyncThreadSafe => mret false
  | ew_use_direct_io => mret false
  | ew_GetRequiredBufferAlignment => mret kDefaultPageSize
  | ew_SetIOPriority pri => modify (prod_map (set_priority pri) id)
  | ew_GetIOPriority => gets (λ s, io_priority_ s.1)
  | ew_SetWriteLifeTimeHint hint => modify (prod_map (set_hint hint) id)
  | ew_GetWriteLifeTimeHint => gets (λ s, write_hint_ s.1)
  | ew_GetFileSize => GetFileSize
  | ew_SetPreallocationBlockSize size => modify (prod_map (set_block_size size) id)
  | ew_GetPreallocationStatus => gets (λ s, (preallocation_block_size_ s.1, last_preallocated_block_ s.1))
  | ew_GetUniqueId _ => mret []
  | ew_InvalidateCache _ _ => mret (unsupported "WritableFile::InvalidateCache not supported.")
  | ew_RangeSync _ _ => RangeSync Sync
  | ew_PrepareWrite offset len => PrepareWrite Allocate offset len
  | ew_Allocate offset len => Allocate offset len
  end.
(** [Allocate] of the base class *)
Definition Allocate (_ _ : Z) : MF Status := mret RocksStatus.OK.
End Writable.

(** The wrapper is a [WritableFile] too, but overrides every method. *)
Definition WritableFileWrapper {T} (target_ : object env_writable T) :
    object env_writable (WritableFile * T) := λ A c,
  match c with
  | ew_Append data => on_target (target_ _ (ew_Append data))
  | ew_Append_verified data info => on_target (target_ _ (ew_Append_verified data info))
  | ew_PositionedAppend data offset => on_target (target_ _ (ew_PositionedAppend data offset))
  | ew_PositionedAppend_verified data offset info =>
      on_target (target_ _ (ew_PositionedAppend_verified data offset info))
  | ew_Truncate size => on_target (target_ _ (ew_Truncate size))
  | ew_Close => on_target (target_ _ ew_Close)
  | ew_Flush => on_target (target_ _ ew_Flush)
  | ew_Sync => on_target (target_ _ ew_Sync)
  | ew_Fsync => on_target (target_ _ ew_Fsync)
  | ew_IsSyncThreadSafe => on_target (target_ _ ew_IsSyncThreadSafe)
  | ew_use_direct_io => on_target (target_ _ ew_use_direct_io)
  | ew_GetRequiredBufferAlignment => on_target (target_ _ ew_GetRequiredBufferAlignment)
  | ew_SetIOPriority pri => on_target (target_ _ (ew_SetIOPriority pri))
  | ew_GetIOPriority => on_target (target_ _ ew_GetIOPriority)
  | ew_SetWriteLifeTimeHint hint => on_target (target_ _ (ew_SetWriteLifeTimeHint hint))
  | ew_GetWriteLifeTimeHint => on_target (target_ _ ew_GetWriteLifeTimeHint)
  | ew_GetFileSize => on_target (target_ _ ew_GetFileSize)
  | ew_SetPreallocationBlockSize size => on_target (target_ _ (ew_SetPreallocationBlockSize size))
  | ew_GetPreallocationStatus => on_target (target_ _ ew_GetPreallocationStatus)
  | ew_GetUniqueId max_size => on_target (target_ _ (ew_GetUniqueId max_size))
  | ew_InvalidateCache offset length => on_target (target_ _ (ew_InvalidateCache offset length))
  | ew_RangeSync offset nbytes => on_target (target_ _ (ew_RangeSync offset nbytes))
  | ew_PrepareWrite offset len => on_target (target_ _ (ew_PrepareWrite offset len))
  | ew_Allocate offset len => on_target (target_ _ (ew_Allocate offset len))
  end.

(** ** [RandomRWFile] *)

Inductive env_random_rw : Type → Type :=
  | ex_use_direct_io : env_random_rw bool
  | ex_GetRequiredBufferAlignment : env_random_rw Z
  | ex_Write (offset : Z) (data : Slice) : env_random_rw Status
  | ex_Read (offset n : Z) (scratch : option ptr) : env_random_rw (Status * Slice)
  | ex_Flush : env_random_rw Status
  | ex_Sync : env_random_rw Status
  | ex_Fsync : env_random_rw Status
  | ex_Close : env_random_rw Status.

Definition RandomRWFile {S} (Write : Z → Slice → M S Status) (Read : Z → Z → option ptr → M S (Status * Slice))
    (Flush Sync Close : M S Status) : object env_random_rw S := λ A c,
  match c with
  | ex_use_direct_io => mret false
  | ex_GetRequiredBufferAlignment => mret kDefaultPageSize
  | ex_Write offset data => Write offset data
  | ex_Read offset n scratch => Read offset n scratch
  | ex_Flush => Flush
  | ex_Sync => Sync
  | ex_Fsync => Sync
  | ex_Close => Close
  end.
Definition RandomRWFileWrapper {T} (target_ : object env_random_rw T) : object env_random_rw (unit * T) := λ A c,
  match c with
  | ex_use_direct_io => on_target (target_ _ ex_use_direct_io)
  | ex_GetRequiredBufferAlignment => on_target (target_ _ ex_GetRequiredBufferAlignment)
  | ex_Write offset data => on_target (target_ _ (ex_Write offset data))
  | ex_Read offset n scratch => on_target (target_ _ (ex_Read offset n scratch))
  | ex_Flush => on_target (target_ _ ex_Flush)
  | ex_Sync => on_target (target_ _ ex_Sync)
  | ex_Fsync => on_target (target_ _ ex_Fsync)
  | ex_Close => on_target (target_ _ ex_Close)
  end.

(** ** [MemoryMappedFileBuffer] *)

Record MemoryMappedFileBuffer := mkMapped { base_ : option ptr; length_ : Z }.
Definition GetBase (b : MemoryMappedFileBuffer) : option ptr := base_ b.
Definition GetLen (b : MemoryMappedFileBuffer) : Z := length_ b.

(** ** [Directory] *)

Inductive env_directory : Type → Type :=
  | ed_Fsync : env_directory Status
  | ed_Close : env_directory Status
  | ed_GetUniqueId (max_size : Z) : env_directory (list byte).

Definition Directory {S} (Fsync : M S Status) : object env_directory S := λ A c,
  match c with
  | ed_Fsync => Fsync
  | ed_Close => mret (unsupported "Close")
  | ed_GetUniqueId _ => mret []
  end.
Definition DirectoryWrapper {T} (target_ : object env_directory T) : object env_directory (unit * T) := λ A c,
  match c with
  | ed_Fsync => on_target (target_ _ ed_Fsync)
  | ed_Close => on_target (target_ _ ed_Close)
  | ed_GetUniqueId max_size => on_target (target_ _ (ed_GetUniqueId max_size))
  end.

(** ** [Logger] *)

(** All the levels, [InfoLogLevel]; the arguments of a format are handed on. *)
Inductive LogLevel := DEBUG | INFO | WARN | ERROR | FATAL | HEADER | NUM_LEVELS.
Section Loggers.
Context {va_list : Type}.

Inductive logger : Type → Type :=
  | lg_Close : logger Status
  | lg_LogHeader (format : list byte) (ap : va_list) : logger unit
  | lg_Logv (format : list byte) (ap : va_list) : logger unit
  | lg_Logv_level (log_level : LogLevel) (format : list byte) (ap : va_list) : logger unit
  | lg_GetLogFileSize : logger Z
  | lg_Flush : logger unit
  | lg_GetInfoLogLevel : logger LogLevel
  | lg_SetInfoLogLevel (log_level : LogLevel) : logger unit.

(** The members of the base class. *)
Record BaseLogger := mkLogger { closed_ : bool; log_level_ : LogLevel }.
Definition new_Logger (log_level : LogLevel) : BaseLogger := mkLogger false log_level.
Definition kDoNotSupportGetLogFileSize : Z := 2 ^ 64 - 1.

(** A logger of which [Close] and the message with a level are given: theirs are not in the header;
    [Logv], which [LogHeader] does not call, is one the base class asserts is overridden. *)
Definition BaseLogger_derived {X} (Close : M (BaseLogger * X) Status)
    (Logv_level : LogLevel → list byte → va_list → M (BaseLogger * X) unit) :
    object logger (BaseLogger * X) := λ A c,
  match c with
  | lg_Close => Close
  | lg_LogHeader format ap => Logv_level INFO format ap
  | lg_Logv _ _ => undef AssertFailed
  | lg_Logv_level log_level format ap => Logv_level log_level format ap
  | lg_GetLogFileSize => mret kDoNotSupportGetLogFileSize
  | lg_Flush => mret tt
  | lg_GetInfoLogLevel => gets (λ s, log_level_ s.1)
  | lg_SetInfoLogLevel log_level => modify (prod_map (λ b, mkLogger (closed_ b) log_level) id)
  end.
Definition LoggerWrapper {T} (target_ : object logger T) : object logger (BaseLogger * T) := λ A c,
  match c with
  | lg_Close => on_target (target_ _ lg_Close)
  | lg_LogHeader format ap => on_target (target_ _ (lg_LogHeader format ap))
  | lg_Logv format ap => on_target (target_ _ (lg_Logv format ap))
  | lg_Logv_level log_level format ap => on_target (target_ _ (lg_Logv_level log_level format ap))
  | lg_GetLogFileSize => on_target (target_ _ lg_GetLogFileSize)
  | lg_Flush => on_target (target_ _ lg_Flush)
  | lg_GetInfoLogLevel => on_target (target_ _ lg_GetInfoLogLevel)
  | lg_SetInfoLogLevel log_level => on_target (target_ _ (lg_SetInfoLogLevel log_level))
  end.
End Loggers.
End Files.
Arguments logger : clear implicits.
