(* ===== verification/Env.v ===== *)
(** The environment (include/rocksdb/env.h): the calls of an [Env], to the operating system and to its
    threads, with what they do by default; and the wrapper, with how it finds its target. *)
From S2P Require Import Prelude Slice RocksStatus RocksDB Dispatch FsFiles FileSystem EnvFiles.

Local Open Scope Z_scope.

Inductive Priority := BOTTOM | LOW | HIGH | USER | TOTAL.
Inductive CpuPriority := cpu_kIdle | cpu_kLow | cpu_kNormal | cpu_kHigh.

Section Env.
(** Options are only handed on; the status of a thread is compiled code's. *)
Context {EnvOptions DBOptions ImmutableDBOptions ThreadStatus : Type}.
Abbreviation path := (list byte).

(** A function, its argument, a tag, an object that a call makes are pointers; a number that a call may
    leave unset is an option; [FileAttributes] has the fields of those of a file system. *)
Inductive env : Type → Type :=
  | env_Name : env (list byte)
  | env_RegisterDbPaths (paths : list path) : env Status
  | env_UnregisterDbPaths (paths : list path) : env Status
  | env_NewSequentialFile (f : path) (options : EnvOptions) : env (Status * option ptr)
  | env_NewRandomAccessFile (f : path) (options : EnvOptions) : env (Status * option ptr)
  | env_NewWritableFile (f : path) (options : EnvOptions) : env (Status * option ptr)
  | env_ReopenWritableFile (f : path) (options : EnvOptions) : env (Status * option ptr)
  | env_ReuseWritableFile (f old : path) (options : EnvOptions) : env (Status * option ptr)
  | env_NewRandomRWFile (f : path) (options : EnvOptions) : env (Status * option ptr)
  | env_NewMemoryMappedFileBuffer (f : path) : env (Status * option ptr)
  | env_NewDirectory (d : path) : env (Status * option ptr)
  | env_FileExists (f : path) : env Status
  | env_GetChildren (dir : path) : env (Status * list path)
  | env_GetChildrenFileAttributes (dir : path) (before : list FileAttributes) : env (Status * list FileAttributes)
  | env_DeleteFile (f : path) : env Status
  | env_Truncate (f : path) (size : Z) : env Status
  | env_CreateDir (d : path) : env Status
  | env_CreateDirIfMissing (d : path) : env Status
  | env_DeleteDir (d : path) : env Status
  | env_GetFileSize (f : path) : env (Status * option Z)
  | env_GetFileModificationTime (f : path) : env (Status * option Z)
  | env_RenameFile (s t : path) : env Status
  | env_LinkFile (s t : path) : env Status
  | env_NumFileLinks (f : path) : env (Status * option Z)
  | env_AreFilesSame (f g : path) : env (Status * option bool)
  | env_LockFile (f : path) : env (Status * option ptr)
  | env_UnlockFile (l : option ptr) : env Status
  | env_IsDirectory (p : path) : env (Status * option bool)
  | env_LoadLibrary (lib_name search_path : list byte) : env (Status * option ptr)
  | env_Schedule (function arg : option ptr) (pri : Priority) (tag unsched : option ptr) : env unit
  | env_UnSchedule (arg : option ptr) (pri : Priority) : env Z
  | env_StartThread (function arg : option ptr) : env unit
  | env_WaitForJoin : env unit
  | env_GetThreadPoolQueueLen (pri : Priority) : env Z
  | env_ReserveThreads (n : Z) (pri : Priority) : env Z
  | env_ReleaseThreads (n : Z) (pri : Priority) : env Z
  | env_GetTestDirectory : env (Status * path)
  | env_NewLogger (f : path) : env (Status * option ptr)
  | env_NowMicros : env Z
  | env_NowNanos : env Z
  | env_NowCPUNanos : env Z
  | env_SleepForMicroseconds (micros : Z) : env unit
  | env_GetHostName (len : Z) : env (Status * list byte)
  | env_GetHostNameString : env (Status * list byte)
  | env_GetCurrentTime : env (Status * option Z)
  | env_GetAbsolutePath (p : path) : env (Status * path)
  | env_SetBackgroundThreads (n : Z) (pri : Priority) : env unit
  | env_GetBackgroundThreads (pri : Priority) : env Z
  | env_SetAllowNonOwnerAccess (allow : bool) : env Status
  | env_IncBackgroundThreadsIfNeeded (n : Z) (pri : Priority) : env unit
  | env_LowerThreadPoolIOPriority (pool : Priority) : env unit
  | env_LowerThreadPoolCPUPriority (pool : Priority) : env unit
  | env_LowerThreadPoolCPUPriority_to (pool : Priority) (pri : CpuPriority) : env Status
  | env_TimeToString (time : Z) : env (list byte)
  | env_GetThreadList : env (Status * list ThreadStatus)
  | env_GetThreadStatusUpdater : env (option ptr)
  | env_GetThreadID : env Z
  | env_GenerateUniqueId : env (list byte)
  | env_OptimizeForLogRead (o : EnvOptions) : env EnvOptions
  | env_OptimizeForManifestRead (o : EnvOptions) : env EnvOptions
  | env_OptimizeForLogWrite (o : EnvOptions) (db : DBOptions) : env EnvOptions
  | env_OptimizeForManifestWrite (o : EnvOptions) : env EnvOptions
  | env_OptimizeForCompactionTableWrite (o : EnvOptions) (db : ImmutableDBOptions) : env EnvOptions
  | env_OptimizeForCompactionTableRead (o : EnvOptions) (db : ImmutableDBOptions) : env EnvOptions
  | env_OptimizeForBlobFileRead (o : EnvOptions) (db : ImmutableDBOptions) : env EnvOptions
  | env_GetFreeSpace (p : path) : env (Status * option Z)
  | env_SanitizeEnvOptions (o : EnvOptions) : env EnvOptions.

Section Defaults.
Context {S : Type}.
(** The compiled constructor of a status with a message. *)
Context (Status_msg : Code → SubCode → Slice → Slice → Severity → Status).
Abbreviation unsupp := (unsupported Status_msg).

(** An environment that overrides the methods without a body in the header, and no others;
    [thread_status_updater_] is a member. *)
Definition Env (thread_status_updater_ : option ptr) (implemented : object env S) : object env S := λ A c,
  match c with
  | env_Name => mret []
  | env_RegisterDbPaths _ => mret RocksStatus.OK
  | env_UnregisterDbPaths _ => mret RocksStatus.OK
  | env_ReopenWritableFile _ _ => mret (unsupp "Env::ReopenWritableFile() not supported.", None)
  | env_NewRandomRWFile _ _ => mret (unsupp "RandomRWFile is not implemented in this Env", None)
  | env_NewMemoryMappedFileBuffer _ => mret (unsupp "MemoryMappedFileBuffer is not implemented in this Env", None)
  | env_Truncate _ _ => mret (unsupp "Truncate is not supported for this Env")
  | env_LinkFile _ _ => mret (unsupp "LinkFile is not supported for this Env")
  | env_NumFileLinks _ => mret (unsupp "Getting number of file links is not supported for this Env", None)
  | env_AreFilesSame _ _ => mret (unsupp "AreFilesSame is not supported for this Env", None)
  | env_IsDirectory _ => mret (unsupp "Env::IsDirectory() not supported.", None)
  | env_LoadLibrary _ _ => mret (unsupp "LoadLibrary is not implemented in this Env", None)
  | env_UnSchedule _ _ => mret 0
  | env_WaitForJoin => mret tt
  | env_GetThreadPoolQueueLen _ => mret 0
  | env_ReserveThreads _ _ => mret 0
  | env_ReleaseThreads _ _ => mret 0
  | env_NowNanos => t ← implemented _ env_NowMicros; mret (u64 (t * 1000))
  | env_NowCPUNanos => mret 0
  | env_SetAllowNonOwnerAccess _ => mret (unsupp "Env::SetAllowNonOwnerAccess() not supported.")
  | env_LowerThreadPoolIOPriority _ => mret tt
  | env_LowerThreadPoolCPUPriority _ => mret tt
  | env_LowerThreadPoolCPUPriority_to _ _ => mret (unsupp "Env::LowerThreadPoolCPUPriority(Priority, CpuPriority) not supported")
  | env_GetThreadList => mret (unsupp "Env::GetThreadList() not supported.", [])
  | env_GetThreadStatusUpdater => mret thread_status_updater_
  | env_GetFreeSpace _ => mret (unsupp "Env::GetFreeSpace() not supported.", None)
  | env_SanitizeEnvOptions o => mret o
  | c => implemented _ c
  end.
End Defaults.

(** ** [EnvWrapper] *)

(** [EnvWrapper::Target]: the raw pointer and the guarded one. *)
Record Target := mkTarget { target_env : option ptr; guard : option ptr }.
(** From a pointer that is not owned. *)
Definition Target_raw (t : option ptr) : Target := mkTarget t None.
(** From a [unique_ptr], which is released, or from a [shared_ptr]. *)
Definition Target_owned (t : option ptr) : Target := mkTarget t t.
(** [Default] is [Env::Default()]. *)
Definition Prepare (Default : ptr) (t : Target) : Target :=
  match guard t with
  | Some g => mkTarget (Some g) (guard t)
  | None => match target_env t with None => mkTarget (Some Default) None | Some _ => t end
  end.

(** [GetHostNameString] of [Env], which the wrapper does not override, is compiled code: what it makes
    of the wrapper's [GetHostName] is an argument. *)
Definition EnvWrapper {T} (GetHostNameString : (Z → M (unit * T) (Status * list byte)) → M (unit * T) (Status * list byte))
    (target_ : object env T) : object env (unit * T) := λ A c,
  match c with
  | env_Name => on_target (target_ _ env_Name)
  | env_RegisterDbPaths paths => on_target (target_ _ (env_RegisterDbPaths paths))
  | env_UnregisterDbPaths paths => on_target (target_ _ (env_UnregisterDbPaths paths))
  | env_NewSequentialFile f options => on_target (target_ _ (env_NewSequentialFile f options))
  | env_NewRandomAccessFile f options => on_target (target_ _ (env_NewRandomAccessFile f options))
  | env_NewWritableFile f options => on_target (target_ _ (env_NewWritableFile f options))
  | env_ReopenWritableFile f options => on_target (target_ _ (env_ReopenWritableFile f options))
  | env_ReuseWritableFile f old options => on_target (target_ _ (env_ReuseWritableFile f old options))
  | env_NewRandomRWFile f options => on_target (target_ _ (env_NewRandomRWFile f options))
  | env_NewMemoryMappedFileBuffer f => on_target (target_ _ (env_NewMemoryMappedFileBuffer f))
  | env_NewDirectory d => on_target (target_ _ (env_NewDirectory d))
  | env_FileExists f => on_target (target_ _ (env_FileExists f))
  | env_GetChildren dir => on_target (target_ _ (env_GetChildren dir))
  | env_GetChildrenFileAttributes dir before =>
      on_target (target_ _ (env_GetChildrenFileAttributes dir before))
  | env_DeleteFile f => on_target (target_ _ (env_DeleteFile f))
  | env_Truncate f size => on_target (target_ _ (env_Truncate f size))
  | env_CreateDir d => on_target (target_ _ (env_CreateDir d))
  | env_CreateDirIfMissing d => on_target (target_ _ (env_CreateDirIfMissing d))
  | env_DeleteDir d => on_target (target_ _ (env_DeleteDir d))
  | env_GetFileSize f => on_target (target_ _ (env_GetFileSize f))
  | env_GetFileModificationTime f => on_target (target_ _ (env_GetFileModificationTime f))
  | env_RenameFile s t => on_target (target_ _ (env_RenameFile s t))
  | env_LinkFile s t => on_target (target_ _ (env_LinkFile s t))
  | env_NumFileLinks f => on_target (target_ _ (env_NumFileLinks f))
  | env_AreFilesSame f g => on_target (target_ _ (env_AreFilesSame f g))
  | env_LockFile f => on_target (target_ _ (env_LockFile f))
  | env_UnlockFile l => on_target (target_ _ (env_UnlockFile l))
  | env_IsDirectory p => on_target (target_ _ (env_IsDirectory p))
  | env_LoadLibrary lib_name search_path => on_target (target_ _ (env_LoadLibrary lib_name search_path))
  | env_Schedule function arg pri tag unsched =>
      on_target (target_ _ (env_Schedule function arg pri tag unsched))
  | env_UnSchedule arg pri => on_target (target_ _ (env_UnSchedule arg pri))
  | env_StartThread function arg => on_target (target_ _ (env_StartThread function arg))
  | env_WaitForJoin => on_target (target_ _ env_WaitForJoin)
  | env_GetThreadPoolQueueLen pri => on_target (target_ _ (env_GetThreadPoolQueueLen pri))
  | env_ReserveThreads n pri => on_target (target_ _ (env_ReserveThreads n pri))
  | env_ReleaseThreads n pri => on_target (target_ _ (env_ReleaseThreads n pri))
  | env_GetTestDirectory => on_target (target_ _ env_GetTestDirectory)
  | env_NewLogger f => on_target (target_ _ (env_NewLogger f))
  | env_NowMicros => on_target (target_ _ env_NowMicros)
  | env_NowNanos => on_target (target_ _ env_NowNanos)
  | env_NowCPUNanos => on_target (target_ _ env_NowCPUNanos)
  | env_SleepForMicroseconds micros => on_target (target_ _ (env_SleepForMicroseconds micros))
  | env_GetHostName len => on_target (target_ _ (env_GetHostName len))
  | env_GetHostNameString => GetHostNameString (λ len, on_target (target_ _ (env_GetHostName len)))
  | env_GetCurrentTime => on_target (target_ _ env_GetCurrentTime)
  | env_GetAbsolutePath p => on_target (target_ _ (env_GetAbsolutePath p))
  | env_SetBackgroundThreads n pri => on_target (target_ _ (env_SetBackgroundThreads n pri))
  | env_GetBackgroundThreads pri => on_target (target_ _ (env_GetBackgroundThreads pri))
  | env_SetAllowNonOwnerAccess allow => on_target (target_ _ (env_SetAllowNonOwnerAccess allow))
  | env_IncBackgroundThreadsIfNeeded n pri => on_target (target_ _ (env_IncBackgroundThreadsIfNeeded n pri))
  | env_LowerThreadPoolIOPriority pool => on_target (target_ _ (env_LowerThreadPoolIOPriority pool))
  | env_LowerThreadPoolCPUPriority pool => on_target (target_ _ (env_LowerThreadPoolCPUPriority pool))
  | env_LowerThreadPoolCPUPriority_to pool pri =>
      on_target (target_ _ (env_LowerThreadPoolCPUPriority_to pool pri))
  | env_TimeToString time => on_target (target_ _ (env_TimeToString time))
  | env_GetThreadList => on_target (target_ _ env_GetThreadList)
  | env_GetThreadStatusUpdater => on_target (target_ _ env_GetThreadStatusUpdater)
  | env_GetThreadID => on_target (target_ _ env_GetThreadID)
  | env_GenerateUniqueId => on_target (target_ _ env_GenerateUniqueId)
  | env_OptimizeForLogRead o => on_target (target_ _ (env_OptimizeForLogRead o))
  | env_OptimizeForManifestRead o => on_target (target_ _ (env_OptimizeForManifestRead o))
  | env_OptimizeForLogWrite o db => on_target (target_ _ (env_OptimizeForLogWrite o db))
  | env_OptimizeForManifestWrite o => on_target (target_ _ (env_OptimizeForManifestWrite o))
  | env_OptimizeForCompactionTableWrite o db =>
      on_target (target_ _ (env_OptimizeForCompactionTableWrite o db))
  | env_OptimizeForCompactionTableRead o db => on_target (target_ _ (env_OptimizeForCompactionTableRead o db))
  | env_OptimizeForBlobFileRead o db => on_target (target_ _ (env_OptimizeForBlobFileRead o db))
  | env_GetFreeSpace p => on_target (target_ _ (env_GetFreeSpace p))
  | env_SanitizeEnvOptions o => on_target (target_ _ (env_SanitizeEnvOptions o))
  end.
End Env.
Arguments env : clear implicits.
