(* ===== verification/EnvMirror.v ===== *)
(** The mirror of two environments (include/rocksdb/utilities/env_mirror.h): what it does with files is
    done in both, and the answers are asserted to match.  Assertions are those of a debug build. *)
From stdpp Require Import sorting.
From S2P Require Import Prelude Slice RocksStatus RocksDB Dispatch FsFiles FileSystem EnvFiles Env.

Local Open Scope Z_scope.

(** The order of [std::sort] on strings. *)
Definition bytes_le (a b : list byte) : Prop := lex a b ≠ Gt.
#[export] Instance bytes_le_dec : RelDecision bytes_le.
Proof. intros a b. unfold bytes_le. apply _. Defined.
Definition sort (l : list (list byte)) : list (list byte) := merge_sort bytes_le l.

(** [EnvMirror::FileLockMirror] *)
Record FileLockMirror := mkLockMirror { lock_a : option ptr; lock_b : option ptr }.

Section Mirror.
Context {EnvOptions DBOptions ImmutableDBOptions ThreadStatus : Type}.
Abbreviation env := (env EnvOptions DBOptions ImmutableDBOptions ThreadStatus).
Context {A B : Type}.

(** The two environments, and the locks that are held. *)
Record mirror := mkMirror { side_a : A; side_b : B; locks : gmap ptr FileLockMirror }.
Definition set_locks (l : gmap ptr FileLockMirror) (m : mirror) : mirror := mkMirror (side_a m) (side_b m) l.

Context (a_ : object env A) (b_ : object env B).

Definition in_a {T} (c : env T) : M mirror T := λ m,
  match a_ T c (side_a m) with
  | Done (x, a) => Done (x, mkMirror a (side_b m) (locks m))
  | Undef f => Undef f
  end.
Definition in_b {T} (c : env T) : M mirror T := λ m,
  match b_ T c (side_b m) with
  | Done (x, b) => Done (x, mkMirror (side_a m) b (locks m))
  | Undef f => Undef f
  end.
(** [assert(as == bs)] *)
Definition assert_same (s t : Status) : M mirror unit := lift_outcome (assert_that (Status_eqb s t)).

(** The methods that answer only a status. *)
Definition mirrored (c : env Status) : M mirror Status :=
  s ← in_a c; t ← in_b c; assert_same s t ;; mret s.

Definition GetChildren (dir : list byte) : M mirror (Status * list (list byte)) :=
  '(s, ar) ← in_a (env_GetChildren dir);
  '(t, br) ← in_b (env_GetChildren dir);
  assert_same s t ;;
  let ar := sort ar in let br := sort br in
  (if (negb (ok s) || negb (bool_decide (ar = br)) : bool) then undef AssertFailed else mret tt) ;;
  mret (s, ar).

(** The comparison of two numbers that are set: reading one that is not is undefined, and modelled as a
    failure of the assertion. *)
Definition assert_numbers (close : Z → Z → bool) (s : Status) (x y : option Z) : M mirror unit :=
  if (ok s : bool) then
    match x, y with
    | Some x, Some y => lift_outcome (assert_that (close x y))
    | _, _ => undef AssertFailed
    end
  else mret tt.
Definition GetFileSize (f : list byte) : M mirror (Status * option Z) :=
  '(s, asize) ← in_a (env_GetFileSize f);
  '(t, bsize) ← in_b (env_GetFileSize f);
  assert_same s t ;;
  assert_numbers Z.eqb s asize bsize ;;
  mret (s, asize).
(** The differences wrap around. *)
Definition near (amtime bmtime : Z) : bool := (u64 (amtime - bmtime) <? 10000) || (u64 (bmtime - amtime) <? 10000).
Definition GetFileModificationTime (f : list byte) : M mirror (Status * option Z) :=
  '(s, amtime) ← in_a (env_GetFileModificationTime f);
  '(t, bmtime) ← in_b (env_GetFileModificationTime f);
  assert_same s t ;;
  assert_numbers near s amtime bmtime ;;
  mret (s, amtime).

(** The directory of [b] is dropped. *)
Definition NewDirectory (name : list byte) : M mirror (Status * option ptr) :=
  '(s, r) ← in_a (env_NewDirectory name);
  '(t, _) ← in_b (env_NewDirectory name);
  assert_same s t ;; mret (s, r).

(** The lock answered is the pair of the two; it is set when the status is OK. *)
Definition LockFile (f : list byte) : M mirror (Status * option ptr) :=
  '(s, al) ← in_a (env_LockFile f);
  '(t, bl) ← in_b (env_LockFile f);
  assert_same s t ;;
  if (ok s : bool) then
    m ← gets locks;
    let l := fresh (dom m) in
    modify (set_locks (<[l := mkLockMirror al bl]> m)) ;;
    mret (s, Some l)
  else mret (s, None).
Definition UnlockFile (l : option ptr) : M mirror Status :=
  p ← deref l;
  m ← gets locks;
  match m !! p with
  | None => undef UseAfterFree
  | Some ml =>
      s ← in_a (env_UnlockFile (lock_a ml));
      t ← in_b (env_UnlockFile (lock_b ml));
      assert_same s t ;;
      modify (λ m, set_locks (delete p (locks m)) m) ;;
      mret s
  end.

(** The files that the mirror opens are those of compiled code, [files]; what it does not override is
    the wrapper's, and goes to [a]. *)
Definition EnvMirror (files wrapper : object env mirror) : object env mirror := λ T c,
  match c with
  | env_NewSequentialFile f options => files _ (env_NewSequentialFile f options)
  | env_NewRandomAccessFile f options => files _ (env_NewRandomAccessFile f options)
  | env_NewWritableFile f options => files _ (env_NewWritableFile f options)
  | env_ReuseWritableFile f old options => files _ (env_ReuseWritableFile f old options)
  | env_NewDirectory name => NewDirectory name
  | env_FileExists f => mirrored (env_FileExists f)
  | env_GetChildren dir => GetChildren dir
  | env_DeleteFile f => mirrored (env_DeleteFile f)
  | env_CreateDir d => mirrored (env_CreateDir d)
  | env_CreateDirIfMissing d => mirrored (env_CreateDirIfMissing d)
  | env_DeleteDir d => mirrored (env_DeleteDir d)
  | env_GetFileSize f => GetFileSize f
  | env_GetFileModificationTime f => GetFileModificationTime f
  | env_RenameFile s t => mirrored (env_RenameFile s t)
  | env_LinkFile s t => mirrored (env_LinkFile s t)
  | env_LockFile f => LockFile f
  | env_UnlockFile l => UnlockFile l
  | c => wrapper _ c
  end.
(** [EnvWrapper(a)]: every other call goes to [a]. *)
Definition wrapper_of_a : object env mirror := λ T c, in_a c.
End Mirror.
Arguments mirror : clear implicits.
