(* ===== verification/EnvMirrorSpec.v ===== *)
(** What the mirror of two environments promises: over twins it is the first of them, and never stops
    the program unless a directory cannot be listed; over any two, whatever it answers is what the
    first answers and the second confirms; and each environment gets its own locks back. *)
From stdpp Require Import sorting.
From S2P Require Import Prelude Slice RocksStatus RocksDB Dispatch FsFiles FileSystem EnvFiles Env EnvMirror.

Local Open Scope Z_scope.

(** ** Sorting *)

#[export] Instance bytes_le_trans : Transitive bytes_le.
Proof.
  intros a b c. unfold bytes_le. destruct (lex a b) eqn:Hab; [apply lex_eq in Hab as ->; done| |done].
  destruct (lex b c) eqn:Hbc; [apply lex_eq in Hbc as ->; by rewrite Hab| |done].
  by rewrite (lex_lt_trans a b c).
Qed.
#[export] Instance bytes_le_total : Total bytes_le.
Proof. intros a b. unfold bytes_le. rewrite (lex_antisym a b). destruct (lex a b); [left|left|right]; done. Qed.
#[export] Instance bytes_le_antisym : AntiSymm (=) bytes_le.
Proof.
  intros a b. unfold bytes_le. rewrite (lex_antisym a b). destruct (lex a b) eqn:E; [|done..].
  by apply lex_eq in E.
Qed.
Lemma sort_unique l k : l ≡ₚ k → sort l = sort k.
Proof.
  intros H. apply (StronglySorted_unique bytes_le); [apply StronglySorted_merge_sort; apply _..|].
  unfold sort. by rewrite !merge_sort_Permutation.
Qed.

Section Spec.
Context {EnvOptions DBOptions ImmutableDBOptions ThreadStatus : Type}.
Abbreviation env := (env EnvOptions DBOptions ImmutableDBOptions ThreadStatus).
Context {A B : Type} (a_ : object env A) (b_ : object env B) (files wrapper : object env (mirror A B)).

(** The calls that are done on both sides, those of locks apart. *)
Definition on_both (T : Type) (c : env T) : bool :=
  match c with
  | env_NewDirectory _ | env_FileExists _ | env_GetChildren _ | env_DeleteFile _ | env_CreateDir _
  | env_CreateDirIfMissing _ | env_DeleteDir _ | env_GetFileSize _ | env_GetFileModificationTime _
  | env_RenameFile _ _ | env_LinkFile _ _ => true
  | _ => false
  end.

Definition numbers_match (close : Z → Z → bool) (x y : Status * option Z) : bool :=
  Status_eqb x.1 y.1 &&
  (negb (ok x.1) || match x.2, y.2 with Some n, Some m => close n m | _, _ => false end).
(** When the mirror takes the answer [y] of the second for that of the first, [x]. *)
Definition accepts {T} (c : env T) : T → T → bool :=
  match c in Env.env _ _ _ _ T return T → T → bool with
  | env_NewDirectory _ => λ x y, Status_eqb x.1 y.1
  | env_FileExists _ => Status_eqb
  | env_GetChildren _ => λ x y, Status_eqb x.1 y.1 && (ok x.1 && bool_decide (sort x.2 = sort y.2))
  | env_DeleteFile _ => Status_eqb
  | env_CreateDir _ => Status_eqb
  | env_CreateDirIfMissing _ => Status_eqb
  | env_DeleteDir _ => Status_eqb
  | env_GetFileSize _ => numbers_match Z.eqb
  | env_GetFileModificationTime _ => numbers_match near
  | env_RenameFile _ _ => Status_eqb
  | env_LinkFile _ _ => Status_eqb
  | _ => λ _ _, true
  end.
(** What a client is shown: lists are sorted. *)
Definition shown {T} (c : env T) : T → T :=
  match c in Env.env _ _ _ _ T return T → T with
  | env_GetChildren _ => λ x, (x.1, sort x.2)
  | _ => λ x, x
  end.

Lemma mirror_call {T} (c : env T) (m : mirror A B) : on_both T c = true →
  EnvMirror a_ b_ files wrapper T c m =
  match a_ T c (side_a m) with
  | Undef f => Undef f
  | Done (x, a) =>
      match b_ T c (side_b m) with
      | Undef f => Undef f
      | Done (y, b) => if accepts c x y then Done (shown c x, mkMirror a b (locks m)) else Undef AssertFailed
      end
  end.
Proof.
  intros Hc. destruct c; try done; cbn [EnvMirror];
    unfold mirrored, GetChildren, GetFileSize, GetFileModificationTime, NewDirectory, assert_same, assert_numbers,
      lift_outcome, assert_that, in_a, in_b, mbind, M_bind; cbn [accepts shown]; unfold numbers_match;
    (destruct (a_ _ _ (side_a m)) as [[x a']|]; [|done]); try (destruct x as [s r]); cbn [side_a side_b locks fst snd];
    (destruct (b_ _ _ (side_b m)) as [[y b']|]; [|done]); try (destruct y as [t r2]); cbn [side_a side_b locks fst snd];
    destruct (Status_eqb _ _); try done.
  - destruct (ok s); [|done]. by destruct (bool_decide _).
  - destruct (ok s); [|done]. cbn. destruct r as [n|], r2 as [k|]; try done. by destruct (n =? k).
  - destruct (ok s); [|done]. cbn. destruct r as [n|], r2 as [k|]; try done. by destruct (near n k).
Qed.

(** The first environment, with sorted listings, that will not go on without one. *)
Definition listing : object env A := λ T c,
  match c in Env.env _ _ _ _ T return M A T with
  | env_GetChildren dir =>
      '(s, l) ← a_ _ (env_GetChildren dir);
      if (ok s : bool) then mret (s, sort l) else undef AssertFailed
  | c => a_ _ c
  end.
Definition listable {T} (c : env T) : T → bool :=
  match c in Env.env _ _ _ _ T return T → bool with
  | env_GetChildren _ => λ x, ok x.1
  | _ => λ _, true
  end.
Lemma listing_call {T} (c : env T) a :
  listing T c a =
  match a_ T c a with
  | Undef f => Undef f
  | Done (x, a') => if listable c x then Done (shown c x, a') else Undef AssertFailed
  end.
Proof.
  destruct c; cbn [listing listable shown]; try (by destruct (a_ _ _ a) as [[x a']|]).
  unfold mbind, M_bind. destruct (a_ _ _ a) as [[[s l] a']|]; [|done]. cbn. by destruct (ok s).
Qed.
Lemma accepts_listable {T} (c : env T) x y : accepts c x y = true → listable c x = true.
Proof. destruct c; cbn; try done. intros H. by destruct (ok x.1), (Status_eqb x.1 y.1). Qed.

(** ** Any two environments *)

(** The second environment confirms every answer of the first, along the run of a client that is shown
    the answers of the first. *)
Fixpoint confirmed {X} (p : client env X) (a : A) (b : B) : Prop :=
  match p with
  | Finish _ => True
  | Call c k =>
      match a_ _ c a, b_ _ c b with
      | Done (x, a'), Done (y, b') => accepts c x y = true ∧ confirmed (k (shown c x)) a' b'
      | _, _ => False
      end
  end.

(** Over any two environments, the mirror finishes what a client does exactly when the second
    environment confirms each answer of the first: the same code, the same names, the same size, a time
    less than 10000 away; and then the client has had the answers of the first, with its
    listings sorted, and no others.  A mirror never answers for the second, and never hides a
    difference. *)
Theorem mirror_answers_what_is_confirmed {X} (p : client env X) (m : mirror A B) :
  only on_both p →
  match run (EnvMirror a_ b_ files wrapper) p m with
  | Done (x, m') => confirmed p (side_a m) (side_b m) ∧ locks m' = locks m ∧
      run listing p (side_a m) = Done (x, side_a m')
  | Undef _ => ¬ confirmed p (side_a m) (side_b m)
  end.
Proof.
  revert m. induction p as [b|T c k IH]; intros m Hp; [done|].
  destruct Hp as [Hc Hk]. cbn [run confirmed]. unfold mbind, M_bind. rewrite (mirror_call c m Hc).
  rewrite listing_call.
  destruct (a_ T c (side_a m)) as [[x a']|]; [|tauto].
  destruct (b_ T c (side_b m)) as [[y b']|]; [|tauto].
  destruct (accepts c x y) eqn:Hacc; [|naive_solver].
  rewrite (accepts_listable _ _ _ Hacc). specialize (IH (shown c x) (mkMirror a' b' (locks m)) (Hk _)).
  destruct (run _ (k (shown c x)) _) as [[z m']|]; naive_solver.
Qed.

(** ** Twins *)

Definition codes_agree (s t : Status) : Prop := code_ s = code_ t.
(** Answers that only differ as those of two copies of an environment may: in the text of a status, in
    the order of a listing, and a little in time. *)
Definition alike {T} (c : env T) : T → T → Prop :=
  match c in Env.env _ _ _ _ T return T → T → Prop with
  | env_NewDirectory _ => λ x y, codes_agree x.1 y.1
  | env_FileExists _ => codes_agree
  | env_GetChildren _ => λ x y, codes_agree x.1 y.1 ∧ x.2 ≡ₚ y.2
  | env_DeleteFile _ => codes_agree
  | env_CreateDir _ => codes_agree
  | env_CreateDirIfMissing _ => codes_agree
  | env_DeleteDir _ => codes_agree
  | env_GetFileSize _ => λ x y, codes_agree x.1 y.1 ∧ (ok x.1 = true → ∃ n, x.2 = Some n ∧ y.2 = Some n)
  | env_GetFileModificationTime _ => λ x y, codes_agree x.1 y.1 ∧
      (ok x.1 = true → ∃ n k, x.2 = Some n ∧ y.2 = Some k ∧ Z.abs (n - k) < 10000)
  | env_RenameFile _ _ => codes_agree
  | env_LinkFile _ _ => codes_agree
  | _ => λ _ _, True
  end.

Context (R : A → B → Prop).
(** Two copies, in step: what the first does, the second does alike. *)
Hypothesis twins : ∀ T (c : env T) a b x a', on_both T c = true → R a b → a_ T c a = Done (x, a') →
  ∃ y b', b_ T c b = Done (y, b') ∧ alike c x y ∧ R a' b'.

Lemma near_close n k : Z.abs (n - k) < 10000 → near n k = true.
Proof.
  intros H. unfold near. destruct (decide (k <= n)).
  - rewrite u64_small by lia. apply orb_true_iff. left. lia.
  - rewrite (u64_small (k - n)) by lia. apply orb_true_iff. right. lia.
Qed.
Lemma alike_accepted {T} (c : env T) x y : alike c x y → listable c x = true → accepts c x y = true.
Proof.
  assert (∀ s t, codes_agree s t → Status_eqb s t = true) as Heq by (intros s t H; by apply bool_decide_eq_true).
  destruct c; cbn; auto.
  - intros [Hs Hp] ->. rewrite Heq by done. cbn. by apply bool_decide_eq_true, sort_unique.
  - intros [Hs Hn] _. unfold numbers_match. rewrite Heq by done. destruct (ok x.1); [|done].
    destruct Hn as (n & -> & ->); [done|]. cbn. by apply Z.eqb_refl.
  - intros [Hs Hn] _. unfold numbers_match. rewrite Heq by done. destruct (ok x.1); [|done].
    destruct Hn as (n & k & -> & -> & H); [done|]. by apply near_close.
Qed.

Definition in_step (m : mirror A B) (a : A) : Prop := side_a m = a ∧ R a (side_b m).
Lemma mirror_simulates : simulates on_both in_step (EnvMirror a_ b_ files wrapper) listing.
Proof.
  intros T c m a Hc [<- HR]. rewrite mirror_call, listing_call by done.
  destruct (a_ T c (side_a m)) as [[x a']|] eqn:Ha; [|done].
  destruct (twins T c _ _ x a' Hc HR Ha) as (y & b' & -> & Hxy & HR').
  destruct (listable c x) eqn:Hl; [by rewrite (alike_accepted c x y)|].
  destruct (accepts c x y) eqn:Hacc; [|done]. by rewrite (accepts_listable _ _ _ Hacc) in Hl.
Qed.

End Spec.

(** ** Locks *)

Section Locks.
Context {EnvOptions DBOptions ImmutableDBOptions ThreadStatus : Type}.
Abbreviation env := (env EnvOptions DBOptions ImmutableDBOptions ThreadStatus).
Context {A B : Type} (a_ : object env A) (b_ : object env B).

Lemma unlock_call l (m : mirror A B) :
  UnlockFile a_ b_ (Some l) m =
  match locks m !! l with
  | None => Undef UseAfterFree
  | Some ml =>
      match a_ _ (env_UnlockFile (lock_a ml)) (side_a m) with
      | Undef g => Undef g
      | Done (s, a) =>
          match b_ _ (env_UnlockFile (lock_b ml)) (side_b m) with
          | Undef g => Undef g
          | Done (t, b) => if Status_eqb s t then Done (s, mkMirror a b (delete l (locks m))) else Undef AssertFailed
          end
      end
  end.
Proof.
  unfold UnlockFile, in_a, in_b, assert_same, lift_outcome, assert_that, deref, gets, modify, mbind, M_bind, mret, M_ret.
  destruct (locks m !! l) as [ml|]; [|done].
  destruct (a_ _ _ (side_a m)) as [[s a]|]; [|done]. cbn [side_a side_b locks].
  destruct (b_ _ _ (side_b m)) as [[t b]|]; [|done]. by destruct (Status_eqb s t).
Qed.

(** Each environment gets its own lock back: when a file is locked in both, the lock the mirror
    answers is a new one, which stands for the two; unlocking it hands each environment the lock that
    it made, frees it, and leaves the locks of other files as they were; and a lock that was unlocked
    is not there to be unlocked again. *)
Theorem each_side_unlocks_its_own_lock f (m m1 : mirror A B) s l :
  LockFile a_ b_ f m = Done ((s, Some l), m1) →
  ∃ al bl t, a_ _ (env_LockFile f) (side_a m) = Done ((s, al), side_a m1) ∧
    b_ _ (env_LockFile f) (side_b m) = Done ((t, bl), side_b m1) ∧ code_ s = code_ t ∧ ok s = true ∧
    locks m !! l = None ∧
    match UnlockFile a_ b_ (Some l) m1 with
    | Done (s2, m2) => locks m2 = locks m ∧ UnlockFile a_ b_ (Some l) m2 = Undef UseAfterFree ∧
        a_ _ (env_UnlockFile al) (side_a m1) = Done (s2, side_a m2) ∧
        ∃ t2, b_ _ (env_UnlockFile bl) (side_b m1) = Done (t2, side_b m2) ∧ code_ s2 = code_ t2
    | Undef g => a_ _ (env_UnlockFile al) (side_a m1) = Undef g ∨ b_ _ (env_UnlockFile bl) (side_b m1) = Undef g ∨
        ∃ s2 a2 t2 b2, a_ _ (env_UnlockFile al) (side_a m1) = Done (s2, a2) ∧
          b_ _ (env_UnlockFile bl) (side_b m1) = Done (t2, b2) ∧ code_ s2 ≠ code_ t2 ∧ g = AssertFailed
    end.
Proof.
  unfold LockFile, in_a, in_b, assert_same, lift_outcome, assert_that, mbind, M_bind.
  destruct (a_ _ (env_LockFile f) (side_a m)) as [[[s1 al] a1]|]; [|done]. cbn [side_a side_b locks].
  destruct (b_ _ (env_LockFile f) (side_b m)) as [[[t1 bl] b1]|]; [|done]. cbn [side_a side_b locks].
  destruct (Status_eqb s1 t1) eqn:Heq; [|done]. apply bool_decide_eq_true in Heq.
  destruct (ok s1) eqn:Hok; [|done]. unfold gets, modify, mret, M_ret. cbn [side_a side_b locks set_locks].
  assert (locks m !! fresh (dom (locks m)) = None) as Hl by (apply not_elem_of_dom, is_fresh).
  revert Hl. generalize (fresh (dom (locks m))). intros l' Hl H. simplify_eq.
  exists al, bl, t1. split_and!; [done..|].
  rewrite unlock_call. cbn [side_a side_b locks set_locks]. rewrite lookup_insert_eq. cbn [lock_a lock_b].
  destruct (a_ _ (env_UnlockFile al) a1) as [[s2 a2]|]; [|by left].
  destruct (b_ _ (env_UnlockFile bl) b1) as [[t2 b2]|]; [|by right; left].
  destruct (Status_eqb s2 t2) eqn:Heq2.
  - apply bool_decide_eq_true in Heq2. rewrite unlock_call. cbn [side_a side_b locks].
    rewrite delete_insert_id, Hl by done. naive_solver.
  - apply bool_decide_eq_false in Heq2. right. right. by exists s2, a2, t2, b2.
Qed.
End Locks.
