(* ===== verification/Cleanable.v ===== *)
(** Cleanups (include/rocksdb/cleanable.h): a list of functions to be called when an object is done
    with, the first in the object and the others in nodes of their own, which the object frees.
    Slice.v has such a list as a list; here it is the linked list of the code.  What the functions do
    is an argument: they do not touch the list. *)
From S2P Require Import Prelude RocksDB.

Section Cleanable.
(** Functions, and everything they act on. *)
Context {F W : Type} (call : F → option ptr → option ptr → M W unit).

(** [Cleanable::Cleanup] *)
Record Cleanup := mkCleanup { function : option F; arg1 : option ptr; arg2 : option ptr; next : option ptr }.

(** The nodes that are allocated, and the rest of the world. *)
Record heap := mkHeap { nodes : gmap ptr Cleanup; world : W }.

(** [( *c->function)(c->arg1, c->arg2)]: a null function cannot be called. *)
Definition call_cleanup (c : Cleanup) : M heap unit := λ h,
  match function c with
  | None => Undef NullDeref
  | Some f =>
      match call f (arg1 c) (arg2 c) (world h) with
      | Done (_, w) => Done (tt, mkHeap (nodes h) w)
      | Undef e => Undef e
      end
  end.
Definition read_node (p : ptr) : M heap Cleanup := λ h,
  match nodes h !! p with Some c => Done (c, h) | None => Undef UseAfterFree end.
Definition free_node (p : ptr) : M heap unit := λ h,
  match nodes h !! p with
  | Some _ => Done (tt, mkHeap (delete p (nodes h)) (world h))
  | None => Undef DoubleFree
  end.

(** The loop: the next node is read from this one after its function was called, and before it is
    freed. *)
Fixpoint cleanup_loop (fuel : nat) (c : option ptr) : M heap unit :=
  match c with
  | None => mret tt
  | Some p =>
      match fuel with
      | O => undef WaitsForever
      | S fuel =>
          n ← read_node p;
          call_cleanup n ;;
          n ← read_node p;
          let next := next n in
          free_node p ;;
          cleanup_loop fuel next
      end
  end.
(** One more than the nodes there are. *)
Definition loop_fuel (h : heap) : nat := S (size (nodes h)).
Definition DoCleanup (cleanup_ : Cleanup) : M heap unit :=
  match function cleanup_ with
  | None => mret tt
  | Some _ =>
      call_cleanup cleanup_ ;;
      fuel ← gets loop_fuel;
      cleanup_loop fuel (next cleanup_)
  end.
(** It answers the member as it is then. *)
Definition Reset (cleanup_ : Cleanup) : M heap Cleanup :=
  DoCleanup cleanup_ ;;
  mret (mkCleanup None (arg1 cleanup_) (arg2 cleanup_) None).
Definition HasCleanups (cleanup_ : Cleanup) : bool := bool_decide (is_Some (function cleanup_)).

(** ** Cleaning up terminates *)

Lemma call_cleanup_nodes c h h' : call_cleanup c h = Done (tt, h') → nodes h' = nodes h.
Proof.
  unfold call_cleanup. destruct (function c); [|done]. destruct (call _ _ _ _) as [[[] w]|]; [|done].
  by intros [= <-].
Qed.
Hypothesis calls_return : ∀ f a b w, call f a b w ≠ Undef WaitsForever.

Lemma cleanup_loop_ends fuel c h : (size (nodes h) < fuel)%nat → cleanup_loop fuel c h ≠ Undef WaitsForever.
Proof.
  revert c h. induction fuel as [|fuel IH]; intros c h Hf; [lia|].
  destruct c as [p|]; [|done]. cbn [cleanup_loop]. unfold mbind, M_bind, read_node.
  destruct (nodes h !! p) as [n|] eqn:Hp; [|done].
  destruct (call_cleanup n h) as [[[] h1]|e] eqn:Hcall.
  - pose proof (call_cleanup_nodes _ _ _ Hcall) as Hn. rewrite Hn, Hp. unfold free_node. rewrite Hn, Hp.
    apply IH. cbn [nodes]. rewrite map_size_delete_Some by done.
    assert (size (nodes h) ≠ 0%nat) by (intros H0; apply map_size_empty_inv in H0; by rewrite H0 in Hp). lia.
  - intros [= ->]. revert Hcall. unfold call_cleanup. destruct (function n) as [f|]; [|done].
    pose proof (calls_return f (arg1 n) (arg2 n) (world h)) as Hr.
    destruct (call _ _ _ _) as [[[] w]|e]; [done|]. intros [= ->]. done.
Qed.

(** Cleaning up ends, whatever the list looks like, as long as each function returns: a node is
    freed before the next one is looked at, so a list that runs into itself, or into memory that is
    not a node, is caught as a use of freed memory and never followed forever. *)
Theorem cleaning_up_ends cleanup_ h :
  Reset cleanup_ h ≠ Undef WaitsForever.
Proof.
  unfold Reset, DoCleanup. destruct (function cleanup_) as [f|] eqn:Hf; [|done].
  unfold mbind, M_bind. destruct (call_cleanup cleanup_ h) as [[[] h1]|e] eqn:Hcall.
  - cbn [gets]. unfold gets. pose proof (cleanup_loop_ends (loop_fuel h1) (next cleanup_) h1) as Hloop.
    destruct (cleanup_loop _ _ h1) as [[[] h2]|e]; [done|]. intros [= ->]. apply Hloop; [|done]. unfold loop_fuel. lia.
  - intros [= ->]. revert Hcall. unfold call_cleanup. rewrite Hf.
    pose proof (calls_return f (arg1 cleanup_) (arg2 cleanup_) (world h)) as Hr.
    destruct (call _ _ _ _) as [[[] w]|e]; [done|]. intros [= ->]. done.
Qed.
End Cleanable.

(** ** The list of cleanups *)

Section List.
Context {F W : Type} (call : F → option ptr → option ptr → M W unit).

(** The nodes from [p] on hold the cleanups of [l], in distinct nodes [ps]. *)
Fixpoint linked (m : gmap ptr (Cleanup (F:=F))) (p : option ptr) (l : list (F * option ptr * option ptr))
    (ps : list ptr) : Prop :=
  match l, ps with
  | [], [] => p = None
  | (f, a, b) :: l, q :: ps =>
      p = Some q ∧ (q ∉ ps) ∧ ∃ n, m !! q = Some (mkCleanup (Some f) a b n) ∧ linked m n l ps
  | _, _ => False
  end.
(** The cleanups as a list: what Slice.v says they are. *)
Fixpoint call_all (l : list (F * option ptr * option ptr)) : M W unit :=
  match l with
  | [] => mret tt
  | (f, a, b) :: l => call f a b ;; call_all l
  end.

Lemma linked_delete m p l ps q : q ∉ ps → linked m p l ps → linked (delete q m) p l ps.
Proof.
  revert p ps. induction l as [|[[f a] b] l IH]; intros p [|r ps] Hq; try done. cbn.
  rewrite not_elem_of_cons in Hq. intros (-> & Hr & n & Hn & Hl). split; [done|]. split; [done|].
  exists n. rewrite lookup_delete_ne by naive_solver. naive_solver.
Qed.
Lemma linked_length m p l ps : linked m p l ps → (length ps <= size m)%nat.
Proof.
  intros H. assert (NoDup ps ∧ ∀ q, q ∈ ps → is_Some (m !! q)) as [Hnd Hin].
  { revert p ps H. induction l as [|[[f a] b] l IH]; intros p [|q ps]; try done; cbn.
    - intros _. split; [constructor|]. set_solver.
    - intros (-> & Hq & n & Hn & Hl). destruct (IH n ps Hl). split; [by constructor|].
      intros r [->|Hr]%elem_of_cons; eauto. }
  rewrite <-size_dom, <-(size_list_to_set (C := gset ptr) ps) by done. apply subseteq_size.
  intros q Hq%elem_of_list_to_set. apply elem_of_dom. auto.
Qed.

Lemma cleanup_loop_calls fuel p l ps m w :
  (length ps <= fuel)%nat → linked m p l ps →
  cleanup_loop call fuel p (mkHeap m w) =
  match call_all l w with
  | Done (_, w') => Done (tt, mkHeap (foldr delete m ps) w')
  | Undef e => Undef e
  end.
Proof.
  revert fuel p ps m w. induction l as [|[[f a] b] l IH]; intros fuel p [|q ps] m w Hf; try done; cbn [linked].
  - intros ->. by destruct fuel.
  - intros (-> & Hq & n & Hn & Hl). destruct fuel as [|fuel]; [simpl in Hf; lia|].
    cbn [cleanup_loop call_all]. unfold mbind, M_bind, read_node, call_cleanup. cbn [nodes world]. rewrite Hn.
    cbn [function arg1 arg2 next nodes world]. destruct (call f a b w) as [[[] w1]|e]; [|done]. cbn [nodes]. rewrite Hn.
    unfold free_node. cbn [nodes world next]. rewrite Hn.
    rewrite (IH fuel n ps (delete q m) w1); [|simpl in Hf; lia|by apply linked_delete].
    destruct (call_all l w1) as [[[] w2]|]; [|done]. cbn [foldr].
    assert (foldr delete (delete q m) ps = delete q (foldr delete m ps)) as ->; [|done].
    clear. induction ps as [|r ps IH]; [done|]. cbn. by rewrite IH, delete_delete.
Qed.

(** C37. Reset calls every cleanup of the list, each once, in the order of the list, frees each node of it
    and no other memory, and leaves an object without cleanups, on which it does nothing more; when a
    cleanup fails, the later ones are not called. *)
Theorem reset_calls_each_once f a b l ps c h :
  function c = Some f → arg1 c = a → arg2 c = b → linked (nodes h) (next c) l ps →
  match Reset call c h, call_all ((f, a, b) :: l) (world h) with
  | Done (c', h'), Done (_, w) => h' = mkHeap (foldr delete (nodes h) ps) w ∧
      HasCleanups c' = false ∧ Reset call c' h' = Done (c', h')
  | Undef e, Undef e' => e = e'
  | _, _ => False
  end.
Proof.
  destruct h as [m w]. intros Hf Ha Hb Hl. cbn [nodes world] in *. unfold Reset, DoCleanup. rewrite Hf.
  cbn [call_all]. unfold mbind, M_bind, call_cleanup. rewrite Hf, Ha, Hb. cbn [world nodes].
  destruct (call f a b w) as [[[] w1]|e]; [|done]. unfold gets.
  pose proof (linked_length _ _ _ _ Hl) as Hlen.
  rewrite (cleanup_loop_calls _ _ l ps m w1); [|unfold loop_fuel; cbn [nodes]; lia|done].
  by destruct (call_all l w1) as [[[] w2]|].
Qed.
End List.
