(* ===== verification/Inner.v ===== *)
(** Objects inside objects (include/rocksdb/customizable.h): an object knows its name and the object
    it wraps, and a cast or a search for options goes from each object to the one inside it.
    Customizable.v has how objects are made. *)
From S2P Require Import Prelude RocksDB.

Section Inner.
(** What [Configurable::GetOptionsPtr] finds among an object's own options is compiled code's. *)
Record Customizable := mkCustomizable {
  Name : list byte;
  (** a null pointer, or a string: empty unless a class says otherwise *)
  NickName : option (list byte);
  Configurable_GetOptionsPtr : list byte → option ptr;
  Inner : option ptr;
}.
Abbreviation heap := (gmap ptr Customizable).

Definition GetId (o : Customizable) : list byte := Name o.
Definition IsInstanceOf (name : list byte) (o : Customizable) : bool :=
  if bool_decide (name = []) then false
  else if bool_decide (name = Name o) then true
  else match NickName o with
       | Some nickname => bool_decide (name = nickname)
       | None => false
       end.

(** The two searches; each step is a call to the object inside. *)
Fixpoint CheckedCast (h : heap) (fuel : nat) (kClassName : list byte) (this : ptr) : outcome (option ptr) :=
  match fuel with
  | O => Undef WaitsForever
  | S fuel =>
      match h !! this with
      | None => Undef UseAfterFree
      | Some o =>
          if IsInstanceOf kClassName o then Done (Some this)
          else match Inner o with
               | Some inner => CheckedCast h fuel kClassName inner
               | None => Done None
               end
      end
  end.
Fixpoint GetOptionsPtr (h : heap) (fuel : nat) (name : list byte) (this : ptr) : outcome (option ptr) :=
  match fuel with
  | O => Undef WaitsForever
  | S fuel =>
      match h !! this with
      | None => Undef UseAfterFree
      | Some o =>
          match Configurable_GetOptionsPtr o name with
          | Some p => Done (Some p)
          | None => match Inner o with
                    | Some inner => GetOptionsPtr h fuel name inner
                    | None => Done None
                    end
          end
      end
  end.

(** As many steps as there are objects. *)
Definition depth (h : heap) : nat := S (size h).

(** ** The chain of objects *)

(** From [p] inwards, the objects [os] at the pointers [ps], to one with none inside. *)
Fixpoint chain (h : heap) (p : option ptr) (ps : list ptr) (os : list Customizable) : Prop :=
  match ps, os with
  | [], [] => p = None
  | q :: ps, o :: os => p = Some q ∧ h !! q = Some o ∧ chain h (Inner o) ps os
  | _, _ => False
  end.

Lemma chain_det h p ps os ps' os' : chain h p ps os → chain h p ps' os' → ps = ps'.
Proof.
  revert p ps' os os'. induction ps as [|q ps IH]; intros p ps' [|o os] os'; try done; cbn.
  - intros ->. by destruct ps', os'; [| | |intros [? _]].
  - intros (-> & Hq & Hc). destruct ps' as [|q' ps'], os' as [|o' os']; try done. cbn.
    intros ([= <-] & Hq' & Hc'). simplify_eq. f_equal. by eapply IH.
Qed.
Lemma chain_suffix h p ps os q : chain h p ps os → q ∈ ps →
  ∃ ps' os', chain h (Some q) (q :: ps') os' ∧ (length ps' < length ps)%nat.
Proof.
  revert p os. induction ps as [|r ps IH]; intros p [|o os]; cbn; try set_solver.
  intros (-> & Hr & Hc). rewrite elem_of_cons. intros [->|Hq].
  - exists ps, (o :: os). cbn. split; [done|lia].
  - destruct (IH _ _ Hc Hq) as (ps' & os' & Hc' & Hlen). exists ps', os'. split; [done|lia].
Qed.
(** An object is not inside itself. *)
Lemma chain_NoDup h p ps os : chain h p ps os → NoDup ps.
Proof.
  revert p os. induction ps as [|q ps IH]; intros p [|o os] Hc; try done; [constructor|].
  pose proof Hc as (-> & Hq & Hc'). constructor; [|by eapply IH].
  intros Hin. destruct (chain_suffix _ _ _ _ _ Hc' Hin) as (ps' & os' & Hc2 & Hlen).
  pose proof (chain_det _ _ _ _ _ _ Hc Hc2) as [= ->]. lia.
Qed.
Lemma chain_length h p ps os : chain h p ps os → (length ps <= size h)%nat.
Proof.
  intros Hc. rewrite <-size_dom, <-(size_list_to_set (C := gset ptr) ps) by by eapply chain_NoDup.
  apply subseteq_size. intros q Hq%elem_of_list_to_set.
  destruct (chain_suffix _ _ _ _ _ Hc Hq) as (ps' & [|o os'] & Hc' & _); [done|].
  destruct Hc' as (_ & Ho & _). by apply elem_of_dom.
Qed.

Fixpoint first_of {A} (f : ptr → Customizable → option A) (ps : list ptr) (os : list Customizable) : option A :=
  match ps, os with
  | q :: ps, o :: os => match f q o with Some a => Some a | None => first_of f ps os end
  | _, _ => None
  end.
Lemma CheckedCast_chain h fuel name p ps os : chain h (Some p) ps os → (length ps < fuel)%nat →
  CheckedCast h fuel name p = Done (first_of (λ q o, if IsInstanceOf name o then Some q else None) ps os).
Proof.
  revert fuel p os. induction ps as [|q ps IH]; intros fuel p [|o os]; try done.
  intros ([= <-] & Hq & Hc) Hf. destruct fuel as [|fuel]; [simpl in Hf; lia|]. cbn. rewrite Hq.
  destruct (IsInstanceOf name o); [done|]. destruct (Inner o) as [i|] eqn:Hi.
  - apply IH; [done|simpl in Hf; lia].
  - destruct ps, os; done || by destruct Hc.
Qed.
Lemma GetOptionsPtr_chain h fuel name p ps os : chain h (Some p) ps os → (length ps < fuel)%nat →
  GetOptionsPtr h fuel name p = Done (first_of (λ _ o, Configurable_GetOptionsPtr o name) ps os).
Proof.
  revert fuel p os. induction ps as [|q ps IH]; intros fuel p [|o os]; try done.
  intros ([= <-] & Hq & Hc) Hf. destruct fuel as [|fuel]; [simpl in Hf; lia|]. cbn. rewrite Hq.
  destruct (Configurable_GetOptionsPtr o name); [done|]. destruct (Inner o) as [i|] eqn:Hi.
  - apply IH; [done|simpl in Hf; lia].
  - destruct ps, os; done || by destruct Hc.
Qed.

(** Casting and looking for options end when the objects inside one another do, after no more steps
    than there are objects: no object can then be inside itself.  The cast answers the outermost
    object of the chain that is an instance of the class, by its name or its nickname, and a null
    pointer when none is; an empty class name, and the empty nickname that objects have unless they
    say otherwise, match nothing.  The search answers the options of the outermost object that has
    some of that name. *)
Theorem casts_find_the_outermost h p ps os name : chain h (Some p) ps os →
  CheckedCast h (depth h) name p = Done (first_of (λ q o, if IsInstanceOf name o then Some q else None) ps os) ∧
  GetOptionsPtr h (depth h) name p = Done (first_of (λ _ o, Configurable_GetOptionsPtr o name) ps os) ∧
  NoDup ps ∧ CheckedCast h (depth h) [] p = Done None ∧
  ∀ o, IsInstanceOf name o = true ↔ name ≠ [] ∧ (name = Name o ∨ NickName o = Some name).
Proof.
  intros Hc. pose proof (chain_length _ _ _ _ Hc) as Hlen. unfold depth.
  rewrite (CheckedCast_chain _ _ _ _ _ _ Hc), (GetOptionsPtr_chain _ _ _ _ _ _ Hc) by lia.
  split; [done|]. split; [done|]. split; [by eapply chain_NoDup|]. split.
  - rewrite (CheckedCast_chain _ _ _ _ _ _ Hc) by lia. f_equal. clear. revert os.
    induction ps as [|q ps IH]; intros [|o os]; try done. cbn. apply IH.
  - intros o. unfold IsInstanceOf. case_bool_decide as H1; [naive_solver|]. case_bool_decide as H2; [naive_solver|].
    destruct (NickName o) as [n|]; [case_bool_decide|]; naive_solver.
Qed.

(** Objects that are inside themselves: the search goes round until the stack is full. *)
Lemma a_ring_is_searched_forever name :
  ∀ fuel, CheckedCast {[1%positive := mkCustomizable [] None (λ _, None) (Some 1%positive)]} fuel name 1%positive =
  Undef WaitsForever.
Proof.
  induction fuel as [|fuel IH]; [done|]. cbn [CheckedCast]. rewrite lookup_singleton_eq.
  unfold IsInstanceOf. cbn [Name NickName Inner]. case_bool_decide as H; [apply IH|]. by rewrite bool_decide_false.
Qed.
End Inner.
