(* ===== verification/Transaction.v ===== *)
(** Transactions (include/rocksdb/utilities/transaction.h): what the base class does itself, chiefly
    reading into a pinnable slice and reading many keys.  The methods without a body in the header, and
    those a class may override, are arguments; the transaction and the database are their state. *)
From S2P Require Import Prelude Slice RocksStatus RocksDB.

Local Open Scope Z_scope.

Inductive TransactionState :=
  | STARTED | AWAITING_PREPARE | PREPARED | AWAITING_COMMIT | COMMITTED | AWAITING_ROLLBACK | ROLLEDBACK
  | LOCKS_STOLEN.

(** The members of the base class; one that is not initialised is [None]. *)
Record Transaction := mkTransaction {
  log_number_ : option Z;
  name_ : list byte;
  txn_state_ : option TransactionState;
  id_ : Z;
}.
Definition new_Transaction : Transaction := mkTransaction (Some 0) [] (Some STARTED) 0.
(** From a [TransactionDB] *)
Definition Transaction_of : Transaction := mkTransaction None [] None 0.

Definition SetLogNumber (log : Z) (t : Transaction) : Transaction :=
  mkTransaction (Some log) (name_ t) (txn_state_ t) (id_ t).
Definition GetLogNumber (t : Transaction) : option Z := log_number_ t.
Definition GetLastLogNumber (t : Transaction) : option Z := log_number_ t.
Definition GetName (t : Transaction) : list byte := name_ t.
Definition GetID (t : Transaction) : Z := 0.
Definition IsDeadlockDetect (t : Transaction) : bool := false.
Definition GetWaitingTxns (t : Transaction) : outcome (list Z) := assert_that false ;; Done [].
Definition GetState (t : Transaction) : option TransactionState := txn_state_ t.
Definition SetState (state : TransactionState) (t : Transaction) : Transaction :=
  mkTransaction (log_number_ t) (name_ t) (Some state) (id_ t).
Definition GetId (t : Transaction) : Z := id_ t.
(** An id is given once. *)
Definition SetId (id : Z) (t : Transaction) : outcome Transaction :=
  assert_that (bool_decide (id_ t = 0)) ;;
  Done (mkTransaction (log_number_ t) (name_ t) (txn_state_ t) id).
Definition kMaxTxnTimestamp : Z := 2 ^ 64 - 1.
Definition GetCommitTimestamp (t : Transaction) : Z := kMaxTxnTimestamp.

Section Messages.
(** The compiled constructor of a status with a message. *)
Context (Status_msg : Code → SubCode → Slice → Slice → Severity → Status).
Abbreviation literal := (λ s, Slice_of_string (str s)).
Definition CollapseKey : Status := NotSupported_msg Status_msg (literal "collpase not supported") empty_slice.
Definition GetRangeLock : Status := NotSupported kNone.
Definition SetReadTimestampForValidation : Status :=
  NotSupported_msg Status_msg (literal "timestamp not supported") empty_slice.
Definition SetCommitTimestamp : Status :=
  NotSupported_msg Status_msg (literal "timestamp not supported") empty_slice.
Definition GetImpl_string (value : list byte) : Status * list byte :=
  (NotSupported_msg Status_msg (literal "Not implemented") empty_slice, value).
Definition wrong_activity : Status :=
  InvalidArgument_msg Status_msg
    (literal "Can only call MultiGet with `ReadOptions::io_activity` is `Env::IOActivity::kUnknown` or `Env::IOActivity::kMultiGet`")
    empty_slice.

(** ** Reading *)

Section Reads.
Context {S C CFH ReadOptions : Type} (io_activity : ReadOptions → Z).
Abbreviation PinnableSlice := (PinnableSlice (Cleanup:=C)).

(** [Get] into a string: from its value before to its value after. *)
Definition string_get : Type := ReadOptions → option CFH → Slice → list byte → M S (Status * list byte).

(** [*GetSelf()] is written, then the slice made to show it. *)
Definition into_self (read : list byte → M S (Status * list byte)) (pinnable_val : PinnableSlice) :
    M S (Status * PinnableSlice) :=
  '(s, v) ← read (GetSelf pinnable_val);
  p ← lift_outcome (PinSelf (mkPinnable (p_slice pinnable_val) (cleanup_ pinnable_val) v (pinned_ pinnable_val)));
  mret (s, p).

(** [Get] into a pinnable slice, in a family or in the default one ([None]); [None] is the null
    pointer to a slice. *)
Definition Get (Get_string : string_get) (options : ReadOptions) (column_family : option CFH) (key : Slice)
    (pinnable_val : option PinnableSlice) : M S (Status * PinnableSlice) :=
  match pinnable_val with
  | None => undef AssertFailed
  | Some p => into_self (Get_string options column_family key) p
  end.
Definition GetImpl (GetImpl_string : string_get) (options : ReadOptions) (column_family : option CFH) (key : Slice)
    (pinnable_val : option PinnableSlice) : M S (Status * PinnableSlice) :=
  match pinnable_val with
  | None => undef AssertFailed
  | Some p => into_self (GetImpl_string options column_family key) p
  end.

(** [GetForUpdate] may be asked for the lock only: its string may be a null pointer. *)
Definition GetForUpdate
    (GetForUpdate_string : ReadOptions → option CFH → Slice → option (list byte) → bool → bool →
                           M S (Status * option (list byte)))
    (options : ReadOptions) (column_family : option CFH) (key : Slice) (pinnable_val : option PinnableSlice)
    (exclusive do_validate : bool) : M S (Status * option PinnableSlice) :=
  match pinnable_val with
  | None =>
      '(s, _) ← GetForUpdate_string options column_family key None exclusive do_validate;
      mret (s, None)
  | Some p =>
      '(s, p) ← into_self (λ v,
        '(s, v') ← GetForUpdate_string options column_family key (Some v) exclusive do_validate;
        mret (s, default v v')) p;
      mret (s, Some p)
  end.

(** [Env::IOActivity::kMultiGet] and [kUnknown] *)
Definition kMultiGet : Z := 4.
Definition kUnknownActivity : Z := 255.

(** The loops of [MultiGet]; [values] and [statuses] have as many entries as there are keys. *)
Definition refuse_all (statuses : list Status) : list Status :=
  (λ s, if ok s then wrong_activity else s) <$> statuses.
Fixpoint get_all (get : Slice → PinnableSlice → M S (Status * PinnableSlice)) (keys : list Slice)
    (values : list PinnableSlice) : M S (list PinnableSlice * list Status) :=
  match keys, values with
  | [], _ => mret (values, [])
  | _ :: _, [] => undef OutOfBounds
  | key :: keys, v :: values =>
      '(s, v) ← get key v;
      '(vs, ss) ← get_all get keys values;
      mret (v :: vs, s :: ss)
  end.
Definition MultiGet (GetImpl : ReadOptions → option CFH → Slice → PinnableSlice → M S (Status * PinnableSlice))
    (options : ReadOptions) (column_family : option CFH) (keys : list Slice) (values : list PinnableSlice)
    (statuses : list Status) : M S (list PinnableSlice * list Status) :=
  if bool_decide (io_activity options ≠ kUnknownActivity ∧ io_activity options ≠ kMultiGet) then
    mret (values, refuse_all statuses)
  else get_all (GetImpl options column_family) keys values.

(** ** Reading into a pinnable slice *)

Lemma into_self_spec read (p : PinnableSlice) s :
  into_self read p s =
  match read (buf_ p) s with
  | Done ((st, v), s') =>
      if pinned_ p then Undef AssertFailed
      else Done ((st, mkPinnable (Slice_of_string v) (cleanup_ p) v false), s')
  | Undef f => Undef f
  end.
Proof.
  unfold into_self, PinSelf, GetSelf, lift_outcome, assert_that, mbind, M_bind, outcome_bind.
  destruct (read (buf_ p) s) as [[[st v] s']|]; [|done]. cbn. by destruct (pinned_ p).
Qed.

(** The keys read one by one into strings, those the values hold before. *)
Fixpoint read_each (get : Slice → list byte → M S (Status * list byte)) (keys : list Slice)
    (bufs : list (list byte)) : M S (list (Status * list byte)) :=
  match keys, bufs with
  | key :: keys, b :: bufs => x ← get key b; xs ← read_each get keys bufs; mret (x :: xs)
  | _, _ => mret []
  end.
Definition shows (v : list byte) (p p' : PinnableSlice) : Prop :=
  p_slice p' = Slice_of_string v ∧ buf_ p' = v ∧ pinned_ p' = false ∧ cleanup_ p' = cleanup_ p.

Lemma get_all_reads (get : Slice → list byte → M S (Status * list byte)) keys values s :
  length keys = length values → Forall (λ p, pinned_ p = false) values →
  match get_all (λ key, into_self (get key)) keys values s, read_each get keys (buf_ <$> values) s with
  | Done ((vs, ss), s1), Done (xs, s2) => s1 = s2 ∧ ss = xs.*1 ∧ Forall3 (λ x p p', shows x.2 p p') xs values vs
  | Undef f, Undef g => f = g
  | _, _ => False
  end.
Proof.
  revert values s. induction keys as [|key keys IH]; intros [|p values] s Hlen Hp; try done.
  { cbn. split_and!; constructor. }
  apply Forall_cons in Hp as [Hp Hps]. cbn [get_all read_each fmap list_fmap].
  unfold mbind, M_bind. rewrite into_self_spec, Hp.
  destruct (get key (buf_ p) s) as [[[st v] s1]|]; [|done].
  specialize (IH values s1 ltac:(simpl in Hlen; lia) Hps). change (list_fmap _ _ buf_ values) with (buf_ <$> values).
  destruct (get_all _ keys values s1) as [[[vs ss] s2]|], (read_each get keys _ s1) as [[xs s3]|]; try done.
  destruct IH as (-> & -> & Hall). cbn. split_and!; [done..|]. by constructor.
Qed.

(** C35. Reading many keys into pinnable slices that are not pinned is reading them one after the other
    into strings: the same reads in the same order with the same effects and failures, each status
    that of its own key whatever it was before, each slice showing the value that was read for its
    key, in its own buffer, whether or not there was one, with its cleanups left as they were.  Asked
    for another kind of access it reads nothing, touches no value, and reports an invalid argument
    for every key, keeping the errors that were there. *)
Theorem multi_get_reads_each_key (get : string_get) options cf keys values statuses s :
  length keys = length values → Forall (λ p, pinned_ p = false) values →
  let result := MultiGet (λ o c k p, GetImpl get o c k (Some p)) options cf keys values statuses s in
  if bool_decide (io_activity options = kUnknownActivity ∨ io_activity options = kMultiGet) then
    match result, read_each (get options cf) keys (buf_ <$> values) s with
    | Done ((vs, ss), s1), Done (xs, s2) => s1 = s2 ∧ ss = xs.*1 ∧ Forall3 (λ x p p', shows x.2 p p') xs values vs
    | Undef f, Undef g => f = g
    | _, _ => False
    end
  else ∃ ss, result = Done ((values, ss), s) ∧
    Forall2 (λ before after, after = if ok before then wrong_activity else before) statuses ss.
Proof.
  intros Hlen Hp. cbn zeta. unfold MultiGet. case_bool_decide as Ha.
  - rewrite bool_decide_false by tauto. by apply get_all_reads.
  - rewrite bool_decide_true by tauto. eexists. split; [done|]. unfold refuse_all.
    induction statuses; constructor; done.
Qed.
End Reads.
End Messages.
