(* ===== verification/CompactionFilter.v ===== *)
(** Compaction filters (include/rocksdb/compaction_filter.h): what a filter decides about an entry that
    a compaction meets, through three generations of the interface, the later ones falling back to
    the earlier. *)
From S2P Require Import Prelude Slice RocksDB.

Local Open Scope Z_scope.

Inductive ValueType := kValue | kMergeOperand | kBlobIndex | kWideColumnEntity.
Inductive Decision :=
  | kKeep | kRemove | kChangeValue | kRemoveAndSkipUntil | kChangeBlobIndex | kIOError | kPurge
  | kChangeWideColumnEntity | kUndetermined.
Inductive BlobDecision := blob_kKeep | blob_kChangeValue | blob_kCorruption | blob_kIOError.
Inductive TableFileCreationReason := kFlush | kCompaction | kRecovery | kMisc.

Section CompactionFilter.
(** The state a filter reads or keeps; the columns of an entity are only handed on. *)
Context {S WideColumns : Type}.

(** [Filter] answers whether to remove the entry, the new value and whether it is one. *)
Definition filter_fn : Type := Z → Slice → Slice → list byte → bool → M S (bool * list byte * bool).
Definition operand_fn : Type := Z → Slice → Slice → M S bool.
(** The two later ones answer the decision, and what is then in the strings for a new value and for the
    key to skip to. *)
Definition v2_fn : Type :=
  Z → Slice → ValueType → Slice → list byte → list byte → M S (Decision * list byte * list byte).
Definition v3_fn : Type :=
  Z → Slice → ValueType → option Slice → option WideColumns → list byte → list byte →
  M S (Decision * list byte * list byte).

(** ** What a filter does that overrides nothing *)
Definition Filter : filter_fn := λ _ _ _ new_value value_changed, mret (false, new_value, value_changed).
Definition FilterMergeOperand : operand_fn := λ _ _ _, mret false.

Definition FilterV2 (Filter : filter_fn) (FilterMergeOperand : operand_fn) : v2_fn :=
  λ level key value_type existing_value new_value skip_until,
  match value_type with
  | kValue =>
      '(rv, new_value, value_changed) ← Filter level key existing_value new_value false;
      if (rv : bool) then mret (kRemove, new_value, skip_until)
      else mret (if (value_changed : bool) then kChangeValue else kKeep, new_value, skip_until)
  | kMergeOperand =>
      rv ← FilterMergeOperand level key existing_value;
      mret (if (rv : bool) then kRemove else kKeep, new_value, skip_until)
  | kBlobIndex => mret (kKeep, new_value, skip_until)
  | kWideColumnEntity => undef AssertFailed
  end.

(** [assert(!a || !b)] and the two others *)
Definition arguments_ok (value_type : ValueType) (existing_value : option Slice)
    (existing_columns : option WideColumns) : bool :=
  let entity := match value_type with kWideColumnEntity => true | _ => false end in
  let has_value := match existing_value with Some _ => true | None => false end in
  let has_columns := match existing_columns with Some _ => true | None => false end in
  (negb has_value || negb has_columns) && (entity || has_value) && (negb entity || has_columns).

Definition FilterV3 (FilterV2 : v2_fn) : v3_fn :=
  λ level key value_type existing_value existing_columns new_value skip_until,
  if arguments_ok value_type existing_value existing_columns then
    match value_type with
    | kWideColumnEntity => mret (kKeep, new_value, skip_until)
    | _ =>
        v ← deref existing_value;
        FilterV2 level key value_type v new_value skip_until
    end
  else undef AssertFailed.

Definition PrepareBlobOutput (key existing_value : Slice) : BlobDecision := blob_kKeep.
Definition IgnoreSnapshots : bool := true.
Definition IsStackedBlobDbInternalCompactionFilter : bool := false.
Definition FilterBlobByKey (level : Z) (key : Slice) : Decision := kUndetermined.
(** [CompactionFilterFactory] *)
Definition ShouldFilterTableFileCreation (reason : TableFileCreationReason) : bool :=
  match reason with kCompaction => true | _ => false end.

(** ** A compaction *)

(** An entry: its key, and a value of some type, or columns. *)
Inductive entry :=
  | plain_entry (key value : Slice)
  | operand_entry (key operand : Slice)
  | blob_entry (key index : Slice)
  | entity_entry (key : Slice) (columns : WideColumns).

(** The call that a compaction makes for an entry. *)
Definition ask (filter : v3_fn) (level : Z) (e : entry) : M S (Decision * list byte * list byte) :=
  match e with
  | plain_entry k v => filter level k kValue (Some v) None [] []
  | operand_entry k v => filter level k kMergeOperand (Some v) None [] []
  | blob_entry k v => filter level k kBlobIndex (Some v) None [] []
  | entity_entry k c => filter level k kWideColumnEntity None (Some c) [] []
  end.
Fixpoint ask_all (filter : v3_fn) (level : Z) (es : list entry) : M S (list (Decision * list byte)) :=
  match es with
  | [] => mret []
  | e :: es => '(d, v, _) ← ask filter level e; ds ← ask_all filter level es; mret ((d, v) :: ds)
  end.
(** What a filter of the first interface alone is asked, and what its answers mean. *)
Fixpoint filter_all (F : filter_fn) (G : operand_fn) (level : Z) (es : list entry) : M S (list (Decision * list byte)) :=
  match es with
  | [] => mret []
  | plain_entry k v :: es =>
      '(rv, nv, ch) ← F level k v [] false;
      ds ← filter_all F G level es;
      mret ((if (rv : bool) then kRemove else if (ch : bool) then kChangeValue else kKeep, nv) :: ds)
  | operand_entry k v :: es =>
      rv ← G level k v;
      ds ← filter_all F G level es;
      mret ((if (rv : bool) then kRemove else kKeep, []) :: ds)
  | _ :: es => ds ← filter_all F G level es; mret ((kKeep, []) :: ds)
  end.

Lemma ask_default level e s : ask (FilterV3 (FilterV2 Filter FilterMergeOperand)) level e s = Done ((kKeep, [], []), s).
Proof. by destruct e. Qed.

(** A filter that has only the two methods of the first interface, asked through the third as
    compactions ask, is asked about each plain value and each merge operand, once and in order, and
    about nothing else: blobs and entities are kept unseen; a removal wins over a changed value, and
    the assertions on the arguments always hold.  One that overrides nothing keeps everything. *)
Theorem old_filters_see_values_and_operands (F : filter_fn) (G : operand_fn) level es s :
  ask_all (FilterV3 (FilterV2 F G)) level es s = filter_all F G level es s ∧
  ask_all (FilterV3 (FilterV2 Filter FilterMergeOperand)) level es s = Done ((λ _, (kKeep, [])) <$> es, s).
Proof.
  split.
  - revert s. induction es as [|e es IH]; intros s; [done|].
    destruct e as [k v|k v|k v|k c]; cbn [ask_all ask filter_all]; unfold FilterV3, FilterV2, mbind, M_bind; cbn.
    + destruct (F level k v [] false s) as [[[[rv nv] ch] s']|]; [|done].
      destruct rv; cbn; rewrite IH; done.
    + destruct (G level k v s) as [[rv s']|]; [|done]. cbn. by rewrite IH.
    + by rewrite IH.
    + by rewrite IH.
  - revert s. induction es as [|e es IH]; intros s; [done|].
    cbn [ask_all]. rewrite (bind_done _ _ _ _ _ (ask_default level e s)). unfold mbind, M_bind. by rewrite IH.
Qed.

(** Arguments that do not go together are the only way to fail an assertion. *)
Lemma inconsistent_arguments (F : v2_fn) level key t ev ec nv su s :
  FilterV3 F level key t ev ec nv su s = Undef AssertFailed →
  arguments_ok t ev ec = false ∨ ∃ v, ev = Some v ∧ F level key t v nv su s = Undef AssertFailed.
Proof.
  unfold FilterV3. destruct (arguments_ok t ev ec) eqn:H; [|by left].
  destruct t, ev as [v|]; try done; intros Hf; right; by exists v.
Qed.
End CompactionFilter.
