(* ===== verification/Db.v ===== *)
(** The database (include/rocksdb/db.h): its calls, what the class does where a database does not say
    otherwise (calls without a column family go to the default one, others report that they are not
    supported), and the reads into strings that no database overrides.  Types of options and of
    descriptions that calls only hand on go by their C++ names. *)
From S2P Require Import Prelude Slice RocksStatus RocksDB MultiScan Dispatch.

Local Open Scope Z_scope.

Section DB.
Context {V : string → Type} {C : Type}.
Abbreviation handle := (option ptr).
Abbreviation PinnableSlice := (PinnableSlice (Cleanup:=C)).

(** [PinnableAttributeGroup] of attribute_groups.h *)
Record PinnableAttributeGroup := mkGroup {
  group_column_family : handle;
  group_status : Status;
  group_columns : V "PinnableWideColumns";
}.
Definition SetStatus (status : Status) (g : PinnableAttributeGroup) : PinnableAttributeGroup :=
  mkGroup (group_column_family g) status (group_columns g).

Record SizeApproximationOptions := mkSizeOptions {
  include_memtables : bool;
  include_files : bool;
  files_size_error_margin : V "double";
}.

(** The virtual methods that a database may override.  A method is known by its name, and what sets it
    apart from others of that name: the [default] column family, a timestamp [ts].  What a call may
    write through a pointer is handed in, and comes back with the answer; an object that a call
    makes is a pointer. *)
Inductive db : Type → Type :=
  | db_Resume : db Status
  | db_Close : db Status
  | db_CreateColumnFamily (o : V "ColumnFamilyOptions") (name : list byte) : db (Status * handle)
  | db_CreateColumnFamilies_named (o : V "ColumnFamilyOptions") (names : list (list byte)) : db (Status * list handle)
  | db_CreateColumnFamilies (fams : list (V "ColumnFamilyDescriptor")) : db (Status * list handle)
  | db_DropColumnFamily (cf : handle) : db Status
  | db_DropColumnFamilies (cfs : list handle) : db Status
  | db_DestroyColumnFamilyHandle (cf : handle) : db Status
  | db_Put (o : V "WriteOptions") (cf : handle) (k : Slice) (v : Slice) : db Status
  | db_Put_ts (o : V "WriteOptions") (cf : handle) (k : Slice) (ts : Slice) (v : Slice) : db Status
  | db_Put_default (o : V "WriteOptions") (k : Slice) (v : Slice) : db Status
  | db_Put_default_ts (o : V "WriteOptions") (k : Slice) (ts : Slice) (v : Slice) : db Status
  | db_PutEntity (o : V "WriteOptions") (cf : handle) (k : Slice) (cols : V "WideColumns") : db Status
  | db_PutEntity_groups (o : V "WriteOptions") (k : Slice) (groups : V "AttributeGroups") : db Status
  | db_Delete (o : V "WriteOptions") (cf : handle) (k : Slice) : db Status
  | db_Delete_ts (o : V "WriteOptions") (cf : handle) (k : Slice) (ts : Slice) : db Status
  | db_Delete_default (o : V "WriteOptions") (k : Slice) : db Status
  | db_Delete_default_ts (o : V "WriteOptions") (k : Slice) (ts : Slice) : db Status
  | db_SingleDelete (o : V "WriteOptions") (cf : handle) (k : Slice) : db Status
  | db_SingleDelete_ts (o : V "WriteOptions") (cf : handle) (k : Slice) (ts : Slice) : db Status
  | db_SingleDelete_default (o : V "WriteOptions") (k : Slice) : db Status
  | db_SingleDelete_default_ts (o : V "WriteOptions") (k : Slice) (ts : Slice) : db Status
  | db_DeleteRange (o : V "WriteOptions") (cf : handle) (b : Slice) (e : Slice) : db Status
  | db_DeleteRange_ts (o : V "WriteOptions") (cf : handle) (b : Slice) (e : Slice) (ts : Slice) : db Status
  | db_DeleteRange_default (o : V "WriteOptions") (b : Slice) (e : Slice) : db Status
  | db_DeleteRange_default_ts (o : V "WriteOptions") (b : Slice) (e : Slice) (ts : Slice) : db Status
  | db_Merge (o : V "WriteOptions") (cf : handle) (k : Slice) (v : Slice) : db Status
  | db_Merge_default (o : V "WriteOptions") (k : Slice) (v : Slice) : db Status
  | db_Merge_ts (o : V "WriteOptions") (cf : handle) (k : Slice) (ts : Slice) (v : Slice) : db Status
  | db_Write (o : V "WriteOptions") (batch : option ptr) : db Status
  | db_WriteWithCallback (o : V "WriteOptions") (batch : option ptr) (cb : option ptr) : db Status
  | db_IngestWriteBatchWithIndex (o : V "WriteOptions") (wbwi : option ptr) : db Status
  | db_Get (o : V "ReadOptions") (cf : handle) (k : Slice) (v : PinnableSlice) (ts : option (list byte)) :
      db (Status * PinnableSlice * option (list byte))
  | db_GetEntity (o : V "ReadOptions") (cf : handle) (k : Slice) (cols : V "PinnableWideColumns") :
      db (Status * V "PinnableWideColumns")
  | db_GetEntity_groups (o : V "ReadOptions") (k : Slice) (r : list PinnableAttributeGroup) :
      db (Status * list PinnableAttributeGroup)
  | db_GetMergeOperands (o : V "ReadOptions") (cf : handle) (k : Slice) (mo : V "GetMergeOperandsOptions") :
      db (Status * list PinnableSlice * Z)
  | db_MultiGet (o : V "ReadOptions") (cfs : list handle) (ks : list Slice) (vs : list PinnableSlice) (ts : option (list (list byte))) (sts : list Status) (sorted : bool) :
      db (list PinnableSlice * option (list (list byte)) * list Status)
  | db_MultiGetEntity (o : V "ReadOptions") (cf : handle) (ks : list Slice) (r : list (V "PinnableWideColumns")) (sts : list Status) (sorted : bool) :
      db (list (V "PinnableWideColumns") * list Status)
  | db_MultiGetEntity_cfs (o : V "ReadOptions") (cfs : list handle) (ks : list Slice) (r : list (V "PinnableWideColumns")) (sts : list Status) (sorted : bool) :
      db (list (V "PinnableWideColumns") * list Status)
  | db_MultiGetEntity_groups (o : V "ReadOptions") (ks : list Slice) (r : list (list PinnableAttributeGroup)) :
      db (list (list PinnableAttributeGroup))
  | db_KeyMayExist_ts (o : V "ReadOptions") (cf : handle) (k : Slice) (v : option (list byte)) (ts : option (list byte)) (vf : option bool) :
      db (bool * option (list byte) * option (list byte) * option bool)
  | db_KeyMayExist (o : V "ReadOptions") (cf : handle) (k : Slice) (v : option (list byte)) (vf : option bool) :
      db (bool * option (list byte) * option bool)
  | db_KeyMayExist_default (o : V "ReadOptions") (k : Slice) (v : option (list byte)) (vf : option bool) :
      db (bool * option (list byte) * option bool)
  | db_KeyMayExist_default_ts (o : V "ReadOptions") (k : Slice) (v : option (list byte)) (ts : option (list byte)) (vf : option bool) :
      db (bool * option (list byte) * option (list byte) * option bool)
  | db_NewIterator (o : V "ReadOptions") (cf : handle) : db (option ptr)
  | db_NewIterator_default (o : V "ReadOptions") : db (option ptr)
  | db_NewIterators (o : V "ReadOptions") (cfs : list handle) : db (Status * list ptr)
  | db_NewCoalescingIterator (o : V "ReadOptions") (cfs : list handle) : db (option ptr)
  | db_NewAttributeGroupIterator (o : V "ReadOptions") (cfs : list handle) : db (option ptr)
  | db_NewMultiScan (o : V "ReadOptions") (cf : handle) (args : V "MultiScanArgs") : db (MultiScan)
  | db_GetSnapshot : db (option ptr)
  | db_ReleaseSnapshot (snapshot : option ptr) : db unit
  | db_GetProperty (cf : handle) (p : Slice) : db (bool * list byte)
  | db_GetProperty_default (p : Slice) : db (bool * list byte)
  | db_GetMapProperty (cf : handle) (p : Slice) : db (bool * V "map<string, string>")
  | db_GetMapProperty_default (p : Slice) : db (bool * V "map<string, string>")
  | db_GetIntProperty (cf : handle) (p : Slice) : db (bool * Z)
  | db_GetIntProperty_default (p : Slice) : db (bool * Z)
  | db_ResetStats : db Status
  | db_GetAggregatedIntProperty (p : Slice) : db (bool * Z)
  | db_GetApproximateSizes (o : SizeApproximationOptions) (cf : handle) (r : list (V "Range")) (n : Z) :
      db (Status * list Z)
  | db_GetApproximateSizes_flags (cf : handle) (r : list (V "Range")) (n : Z) (flags : Z) : db (Status * list Z)
  | db_GetApproximateSizes_default (r : list (V "Range")) (n : Z) (flags : Z) : db (Status * list Z)
  | db_GetApproximateMemTableStats (cf : handle) (r : V "Range") : db (Z * Z)
  | db_GetApproximateMemTableStats_default (r : V "Range") : db (Z * Z)
  | db_CompactRange (o : V "CompactRangeOptions") (cf : handle) (b : option Slice) (e : option Slice) : db Status
  | db_CompactRange_default (o : V "CompactRangeOptions") (b : option Slice) (e : option Slice) : db Status
  | db_SetOptions (cf : handle) (opts : V "unordered_map<string, string>") : db Status
  | db_SetOptions_default (opts : V "unordered_map<string, string>") : db Status
  | db_SetDBOptions (opts : V "unordered_map<string, string>") : db Status
  | db_CompactFiles (o : V "CompactionOptions") (cf : handle) (fs : list (list byte)) (level : Z) (path_id : Z) :
      db (Status * list (list byte) * V "CompactionJobInfo")
  | db_CompactFiles_default (o : V "CompactionOptions") (fs : list (list byte)) (level : Z) (path_id : Z) :
      db (Status * list (list byte) * V "CompactionJobInfo")
  | db_PauseBackgroundWork : db Status
  | db_ContinueBackgroundWork : db Status
  | db_EnableAutoCompaction (cfs : list handle) : db Status
  | db_DisableManualCompaction : db unit
  | db_EnableManualCompaction : db unit
  | db_WaitForCompact (o : V "WaitForCompactOptions") : db Status
  | db_NumberLevels (cf : handle) : db Z
  | db_NumberLevels_default : db Z
  | db_MaxMemCompactionLevel (cf : handle) : db Z
  | db_MaxMemCompactionLevel_default : db Z
  | db_Level0StopWriteTrigger (cf : handle) : db Z
  | db_Level0StopWriteTrigger_default : db Z
  | db_GetName : db (list byte)
  | db_GetEnv : db (option ptr)
  | db_GetFileSystem : db (option ptr)
  | db_GetOptions (cf : handle) : db (V "Options")
  | db_GetOptions_default : db (V "Options")
  | db_GetDBOptions : db (V "DBOptions")
  | db_Flush (o : V "FlushOptions") (cf : handle) : db Status
  | db_Flush_default (o : V "FlushOptions") : db Status
  | db_Flush_cfs (o : V "FlushOptions") (cfs : list handle) : db Status
  | db_FlushWAL (sync : bool) : db Status
  | db_FlushWAL_options (o : V "FlushWALOptions") : db Status
  | db_SyncWAL : db Status
  | db_LockWAL : db Status
  | db_UnlockWAL : db Status
  | db_GetLatestSequenceNumber : db Z
  | db_IncreaseFullHistoryTsLow (cf : handle) (ts_low : list byte) : db Status
  | db_GetFullHistoryTsLow (cf : handle) : db (Status * list byte)
  | db_GetNewestUserDefinedTimestamp (cf : handle) : db (Status * list byte)
  | db_DisableFileDeletions : db Status
  | db_EnableFileDeletions : db Status
  | db_GetCreationTimeOfOldestFile : db (Status * option Z)
  | db_GetUpdatesSince (seq : Z) (o : V "TransactionLogReadOptions") : db (Status * option ptr)
  | db_GetLiveFilesMetaData (m : list (V "LiveFileMetaData")) : db (list (V "LiveFileMetaData"))
  | db_GetLiveFilesChecksumInfo : db (Status * V "FileChecksumList")
  | db_GetLiveFilesStorageInfo (o : V "LiveFilesStorageInfoOptions") : db (Status * list (V "LiveFileStorageInfo"))
  | db_GetColumnFamilyMetaData (cf : handle) (m : V "ColumnFamilyMetaData") : db (V "ColumnFamilyMetaData")
  | db_GetColumnFamilyMetaData_options (cf : handle) (o : V "GetColumnFamilyMetaDataOptions") (m : V "ColumnFamilyMetaData") :
      db (V "ColumnFamilyMetaData")
  | db_GetAllColumnFamilyMetaData (m : list (V "ColumnFamilyMetaData")) : db (list (V "ColumnFamilyMetaData"))
  | db_GetLiveFiles (flush_memtable : bool) : db (Status * list (list byte) * Z)
  | db_GetSortedWalFiles : db (Status * V "VectorWalPtr")
  | db_GetCurrentWalFile : db (Status * option ptr)
  | db_IngestExternalFile (cf : handle) (fs : list (list byte)) (o : V "IngestExternalFileOptions") : db Status
  | db_IngestExternalFile_default (fs : list (list byte)) (o : V "IngestExternalFileOptions") : db Status
  | db_IngestExternalFiles (args : list (V "IngestExternalFileArg")) : db Status
  | db_CreateColumnFamilyWithImport (o : V "ColumnFamilyOptions") (name : list byte) (io : V "ImportColumnFamilyOptions") (m : V "ExportImportFilesMetaData") :
      db (Status * handle)
  | db_CreateColumnFamilyWithImport_all (o : V "ColumnFamilyOptions") (name : list byte) (io : V "ImportColumnFamilyOptions") (ms : list (V "ExportImportFilesMetaData")) :
      db (Status * handle)
  | db_ClipColumnFamily (cf : handle) (b : Slice) (e : Slice) : db Status
  | db_VerifyFileChecksums (o : V "ReadOptions") : db Status
  | db_VerifyChecksum (o : V "ReadOptions") : db Status
  | db_VerifyChecksum_default : db Status
  | db_GetDbIdentity : db (Status * list byte)
  | db_GetDbSessionId : db (Status * list byte)
  | db_DefaultColumnFamily : db handle
  | db_GetPropertiesOfAllTables (cf : handle) : db (Status * V "TablePropertiesCollection")
  | db_GetPropertiesOfAllTables_default : db (Status * V "TablePropertiesCollection")
  | db_GetPropertiesOfTablesInRange (cf : handle) (r : list (V "Range")) (n : Z) :
      db (Status * V "TablePropertiesCollection")
  | db_GetPropertiesOfTablesByLevel (cf : handle) : db (Status * list (V "TablePropertiesCollection"))
  | db_SuggestCompactRange (cf : handle) (b : option Slice) (e : option Slice) : db Status
  | db_PromoteL0 (cf : handle) (level : Z) : db Status
  | db_StartTrace (o : V "TraceOptions") (w : option ptr) : db Status
  | db_EndTrace : db Status
  | db_StartIOTrace (o : V "TraceOptions") (w : option ptr) : db Status
  | db_EndIOTrace : db Status
  | db_StartBlockCacheTrace (o : V "TraceOptions") (w : option ptr) : db Status
  | db_StartBlockCacheTrace_options (o : V "BlockCacheTraceOptions") (w : option ptr) : db Status
  | db_EndBlockCacheTrace : db Status
  | db_NewDefaultReplayer (cfs : list handle) (r : option ptr) : db (Status * option ptr)
  | db_GetRootDB : db (option ptr)
  | db_GetStatsHistory (start : Z) (end_ : Z) : db (Status * option ptr)
  | db_TryCatchUpWithPrimary : db Status.

(** [SizeApproximationFlags] *)
Definition NONE : Z := 0.
Definition INCLUDE_MEMTABLES : Z := Z.shiftl 1 0.
Definition INCLUDE_FILES : Z := Z.shiftl 1 1.
(** The operators on flags, which are of eight bits. *)
Definition flags_and (lhs rhs : Z) : Z := Z.land lhs rhs.
Definition flags_or (lhs rhs : Z) : Z := Z.lor lhs rhs.

(** ** What a database inherits *)

Section Defaults.
Context {S : Type}.
(** Compiled code: a status with a message, the methods that db.cc defines, an iterator that reports a
    status; a family's comparator; and three values of the types that are known by name. *)
Context (Status_msg : Code → SubCode → Slice → Slice → Severity → Status) (compiled : object db S)
        (NewErrorIterator : Status → M S (option ptr)) (comparator_of : handle → M S (option ptr))
        (default_margin : V "double") (new_ReadOptions : V "ReadOptions") (this : option ptr).
Abbreviation unsupp := (λ s, NotSupported_msg Status_msg (Slice_of_string (str s)) empty_slice).

Definition size_options (include_flags : Z) : SizeApproximationOptions :=
  mkSizeOptions (negb (flags_and include_flags INCLUDE_MEMTABLES =? NONE))
    (negb (flags_and include_flags INCLUDE_FILES =? NONE)) default_margin.
(** The loops of [MultiGetEntity]: one status for each key. *)
Definition refused (keys : list Slice) (statuses : list Status) : list Status :=
  ((λ _, unsupp "MultiGetEntity not supported") <$> keys) ++ drop (length keys) statuses.
Definition refuse_groups (groups : list PinnableAttributeGroup) : list PinnableAttributeGroup :=
  SetStatus (unsupp "MultiGetEntity not supported") <$> groups.
Definition NewMultiScan (column_family : handle) : M S MultiScan :=
  it ← NewErrorIterator (NotSupported kNone);
  c ← comparator_of column_family;
  mret (new_MultiScan c it).

(** [self] is the object itself: its own methods are called, overridden or not. *)
Definition defaults (self : object db S) : object db S := λ A c,
  match c with
  | db_Resume => mret (NotSupported kNone)
  | db_Close => mret (NotSupported kNone)
  | db_Put_default o k v => cf ← self _ db_DefaultColumnFamily; self _ (db_Put o cf k v)
  | db_Put_default_ts o k ts v => cf ← self _ db_DefaultColumnFamily; self _ (db_Put_ts o cf k ts v)
  | db_Delete_default o k => cf ← self _ db_DefaultColumnFamily; self _ (db_Delete o cf k)
  | db_Delete_default_ts o k ts => cf ← self _ db_DefaultColumnFamily; self _ (db_Delete_ts o cf k ts)
  | db_SingleDelete_default o k => cf ← self _ db_DefaultColumnFamily; self _ (db_SingleDelete o cf k)
  | db_SingleDelete_default_ts o k ts => cf ← self _ db_DefaultColumnFamily; self _ (db_SingleDelete_ts o cf k ts)
  | db_DeleteRange_default o b e => cf ← self _ db_DefaultColumnFamily; self _ (db_DeleteRange o cf b e)
  | db_DeleteRange_default_ts o b e ts => cf ← self _ db_DefaultColumnFamily; self _ (db_DeleteRange_ts o cf b e ts)
  | db_Merge_default o k v => cf ← self _ db_DefaultColumnFamily; self _ (db_Merge o cf k v)
  | db_WriteWithCallback _ _ _ => mret (unsupp "WriteWithCallback not implemented for this interface.")
  | db_IngestWriteBatchWithIndex _ _ => mret (unsupp "IngestWriteBatchWithIndex not implemented.")
  | db_GetEntity _ _ _ cols => mret (unsupp "GetEntity not supported", cols)
  | db_GetEntity_groups _ _ r => mret (unsupp "GetEntity not supported", r)
  | db_MultiGetEntity _ _ ks r sts _ => mret (r, refused ks sts)
  | db_MultiGetEntity_cfs _ _ ks r sts _ => mret (r, refused ks sts)
  | db_MultiGetEntity_groups _ _ r => mret (refuse_groups <$> r)
  | db_KeyMayExist_ts _ _ _ v ts vf => mret (true, v, ts, (λ _, false) <$> vf)
  | db_KeyMayExist o cf k v vf => '(b, v, _, vf) ← self _ (db_KeyMayExist_ts o cf k v None vf); mret (b, v, vf)
  | db_KeyMayExist_default o k v vf => cf ← self _ db_DefaultColumnFamily; self _ (db_KeyMayExist o cf k v vf)
  | db_KeyMayExist_default_ts o k v ts vf =>
      cf ← self _ db_DefaultColumnFamily; self _ (db_KeyMayExist_ts o cf k v ts vf)
  | db_NewIterator_default o => cf ← self _ db_DefaultColumnFamily; self _ (db_NewIterator o cf)
  | db_NewMultiScan _ cf _ => NewMultiScan cf
  | db_GetProperty_default p => cf ← self _ db_DefaultColumnFamily; self _ (db_GetProperty cf p)
  | db_GetMapProperty_default p => cf ← self _ db_DefaultColumnFamily; self _ (db_GetMapProperty cf p)
  | db_GetIntProperty_default p => cf ← self _ db_DefaultColumnFamily; self _ (db_GetIntProperty cf p)
  | db_ResetStats => mret (unsupp "Not implemented")
  | db_GetApproximateSizes_flags cf r n flags => self _ (db_GetApproximateSizes (size_options flags) cf r n)
  | db_GetApproximateSizes_default r n flags =>
      cf ← self _ db_DefaultColumnFamily; self _ (db_GetApproximateSizes_flags cf r n flags)
  | db_GetApproximateMemTableStats_default r =>
      cf ← self _ db_DefaultColumnFamily; self _ (db_GetApproximateMemTableStats cf r)
  | db_CompactRange_default o b e => cf ← self _ db_DefaultColumnFamily; self _ (db_CompactRange o cf b e)
  | db_SetOptions _ _ => mret (unsupp "Not implemented")
  | db_SetOptions_default opts => cf ← self _ db_DefaultColumnFamily; self _ (db_SetOptions cf opts)
  | db_CompactFiles_default o fs level path_id =>
      cf ← self _ db_DefaultColumnFamily; self _ (db_CompactFiles o cf fs level path_id)
  | db_NumberLevels_default => cf ← self _ db_DefaultColumnFamily; self _ (db_NumberLevels cf)
  | db_MaxMemCompactionLevel _ => mret 0
  | db_MaxMemCompactionLevel_default => cf ← self _ db_DefaultColumnFamily; self _ (db_MaxMemCompactionLevel cf)
  | db_Level0StopWriteTrigger_default => cf ← self _ db_DefaultColumnFamily; self _ (db_Level0StopWriteTrigger cf)
  | db_GetOptions_default => cf ← self _ db_DefaultColumnFamily; self _ (db_GetOptions cf)
  | db_Flush_default o => cf ← self _ db_DefaultColumnFamily; self _ (db_Flush o cf)
  | db_FlushWAL _ => mret (unsupp "FlushWAL not implemented")
  | db_FlushWAL_options _ => mret (unsupp "FlushWAL not implemented")
  | db_LockWAL => mret (unsupp "LockWAL not implemented")
  | db_UnlockWAL => mret (unsupp "UnlockWAL not implemented")
  | db_GetLiveFilesMetaData m => mret m
  | db_GetColumnFamilyMetaData _ m => mret m
  | db_GetColumnFamilyMetaData_options _ _ m => mret m
  | db_GetAllColumnFamilyMetaData m => mret m
  | db_IngestExternalFile_default fs o => cf ← self _ db_DefaultColumnFamily; self _ (db_IngestExternalFile cf fs o)
  | db_CreateColumnFamilyWithImport o name io m => self _ (db_CreateColumnFamilyWithImport_all o name io [m])
  | db_VerifyFileChecksums _ => mret (unsupp "File verification not supported")
  | db_VerifyChecksum_default => self _ (db_VerifyChecksum new_ReadOptions)
  | db_GetPropertiesOfAllTables_default => cf ← self _ db_DefaultColumnFamily; self _ (db_GetPropertiesOfAllTables cf)
  | db_SuggestCompactRange _ _ _ => mret (unsupp "SuggestCompactRange() is not implemented.")
  | db_PromoteL0 _ _ => mret (unsupp "PromoteL0() is not implemented.")
  | db_StartTrace _ _ => mret (unsupp "StartTrace() is not implemented.")
  | db_EndTrace => mret (unsupp "EndTrace() is not implemented.")
  | db_StartIOTrace _ _ => mret (unsupp "StartIOTrace() is not implemented.")
  | db_EndIOTrace => mret (unsupp "EndIOTrace() is not implemented.")
  | db_StartBlockCacheTrace _ _ => mret (unsupp "StartBlockCacheTrace() is not implemented.")
  | db_StartBlockCacheTrace_options _ _ => mret (unsupp "StartBlockCacheTrace() is not implemented.")
  | db_EndBlockCacheTrace => mret (unsupp "EndBlockCacheTrace() is not implemented.")
  | db_NewDefaultReplayer _ _ => mret (unsupp "NewDefaultReplayer() is not implemented.", None)
  | db_GetRootDB => mret this
  | db_GetStatsHistory _ _ => mret (unsupp "GetStatsHistory() is not implemented.", None)
  | db_TryCatchUpWithPrimary => mret (unsupp "Supported only by secondary instance")
  | c => compiled _ c
  end.

(** A method is the one the database overrides, or the inherited one. *)
Fixpoint dispatch (fuel : nat) (overrides : ∀ A, db A → option (M S A)) : object db S := λ A c,
  match overrides A c with
  | Some m => m
  | None =>
      match fuel with
      | O => undef WaitsForever
      | Datatypes.S fuel => defaults (dispatch fuel overrides) A c
      end
  end.
(** An inherited method calls another, which calls another, which calls none. *)
Definition DB (overrides : ∀ A, db A → option (M S A)) : object db S := dispatch 3 overrides.
End Defaults.

(** ** The methods that no database overrides *)

Section Final.
Context {S : Type} (o : object db S).

(** What a string holds after a read into a [PinnableSlice] that keeps its own bytes in it; and the
    cleanups that are run when that slice goes. *)
Definition into_string (s : Status) (pinnable_val : PinnableSlice) : outcome (list byte) :=
  if ok s && IsPinned pinnable_val
  then read_mem (data (p_slice pinnable_val)) (size (p_slice pinnable_val))
  else Done (buf_ pinnable_val).
Definition Get_string (options : V "ReadOptions") (column_family : handle) (key : Slice)
    (value : list byte) (timestamp : option (list byte)) : M S (Status * list byte * option (list byte) * list C) :=
  '(s, p, timestamp) ← o _ (db_Get options column_family key (mkPinnable empty_slice [] value false) timestamp);
  value ← lift_outcome (into_string s p);
  mret (s, value, timestamp, cleanup_ p).
Definition Get_string_default (options : V "ReadOptions") (key : Slice) (value : list byte)
    (timestamp : option (list byte)) : M S (Status * list byte * option (list byte) * list C) :=
  cf ← o _ db_DefaultColumnFamily; Get_string options cf key value timestamp.

(** [std::vector::resize] of strings *)
Definition resize_strings (n : nat) (l : list (list byte)) : list (list byte) := take n l ++ replicate (n - length l) [].
(** The loop after the read: [assign] for each status that is OK. *)
Fixpoint assign_each (statuses : list Status) (pin_values : list PinnableSlice) (values : list (list byte)) :
    outcome (list (list byte)) :=
  match statuses, pin_values, values with
  | s :: statuses, p :: pin_values, v :: values =>
      v ← (if ok s then read_mem (data (p_slice p)) (size (p_slice p)) else Done v);
      values ← assign_each statuses pin_values values;
      Done (v :: values)
  | _, _, _ => Done []
  end.
Definition MultiGet_strings (options : V "ReadOptions") (column_families : list handle) (keys : list Slice)
    (values : list (list byte)) (timestamps : option (list (list byte))) :
    M S (list Status * list (list byte) * option (list (list byte))) :=
  let num_keys := length keys in
  let values := resize_strings num_keys values in
  let timestamps := resize_strings num_keys <$> timestamps in
  '(pin_values, timestamps, statuses) ← o _ (db_MultiGet options column_families keys
      (replicate num_keys new_PinnableSlice) timestamps (replicate num_keys RocksStatus.OK) false);
  values ← lift_outcome (assign_each statuses pin_values values);
  mret (statuses, values, timestamps).
Definition MultiGet_strings_default (options : V "ReadOptions") (keys : list Slice)
    (values : list (list byte)) (timestamps : option (list (list byte))) :
    M S (list Status * list (list byte) * option (list (list byte))) :=
  let values := resize_strings (length keys) values in
  cf ← o _ db_DefaultColumnFamily;
  MultiGet_strings options (replicate (length keys) cf) keys values timestamps.
End Final.

(** ** [StackableDB] *)

(** Whether [StackableDB] overrides the method. *)
Definition forwarded (A : Type) (c : db A) : bool :=
  match c with
  | db_Put_default _ _ _ => false
  | db_Put_default_ts _ _ _ _ => false
  | db_Delete_default _ _ => false
  | db_Delete_default_ts _ _ _ => false
  | db_SingleDelete_default _ _ => false
  | db_SingleDelete_default_ts _ _ _ => false
  | db_DeleteRange_ts _ _ _ _ _ => false
  | db_DeleteRange_default _ _ _ => false
  | db_DeleteRange_default_ts _ _ _ _ => false
  | db_Merge_default _ _ _ => false
  | db_WriteWithCallback _ _ _ => false
  | db_IngestWriteBatchWithIndex _ _ => false
  | db_KeyMayExist_ts _ _ _ _ _ _ => false
  | db_KeyMayExist_default _ _ _ _ => false
  | db_KeyMayExist_default_ts _ _ _ _ _ => false
  | db_NewIterator_default _ => false
  | db_GetProperty_default _ => false
  | db_GetMapProperty_default _ => false
  | db_GetIntProperty_default _ => false
  | db_GetApproximateSizes_flags _ _ _ _ => false
  | db_GetApproximateSizes_default _ _ _ => false
  | db_GetApproximateMemTableStats_default _ => false
  | db_CompactRange_default _ _ _ => false
  | db_SetOptions_default _ => false
  | db_CompactFiles_default _ _ _ _ => false
  | db_NumberLevels_default => false
  | db_MaxMemCompactionLevel_default => false
  | db_Level0StopWriteTrigger_default => false
  | db_GetOptions_default => false
  | db_Flush_default _ => false
  | db_GetAllColumnFamilyMetaData _ => false
  | db_IngestExternalFile_default _ _ => false
  | db_GetPropertiesOfAllTables_default => false
  | db_GetStatsHistory _ _ => false
  | _ => true
  end.
(** What it overrides, it forwards to [db_]. *)
Definition StackableDB {T} (db_ : object db T) (A : Type) (c : db A) : option (M (unit * T) A) :=
  if forwarded A c then Some (on_target (db_ A c)) else None.
(** The members, [db_] and [shared_db_ptr_], and the destructor: the database to delete, if any. *)
Record Stacked := mkStacked { db_ : option ptr; shared_db_ptr_ : option ptr }.
Definition StackableDB_raw (db : option ptr) : Stacked := mkStacked db None.
Definition StackableDB_shared (db : option ptr) : Stacked := mkStacked db db.
Definition destroy_StackableDB (this : Stacked) : outcome (Stacked * option ptr) :=
  match shared_db_ptr_ this with
  | None => Done (mkStacked None None, db_ this)
  | Some p => assert_that (bool_decide (db_ this = Some p)) ;; Done (mkStacked None (Some p), None)
  end.
End DB.
Arguments db : clear implicits.
