(* ===== verification/DbSpec.v ===== *)
(** What Db.v promises: inherited methods bottom out; a stacked database is the database it stands on,
    but for the calls that it loses; and a read into a string is the read into a slice. *)
From S2P Require Import Prelude Slice RocksStatus RocksDB MultiScan Dispatch Db.

Local Open Scope Z_scope.

Section Spec.
Context {V : string → Type} {C : Type}.
Abbreviation db := (db V C).

(** How deep the calls of an inherited method go. *)
Definition level {A} (c : db A) : nat :=
  match c with
  | db_Put_default _ _ _ => 2
  | db_Put_default_ts _ _ _ _ => 2
  | db_Delete_default _ _ => 2
  | db_Delete_default_ts _ _ _ => 2
  | db_SingleDelete_default _ _ => 2
  | db_SingleDelete_default_ts _ _ _ => 2
  | db_DeleteRange_default _ _ _ => 2
  | db_DeleteRange_default_ts _ _ _ _ => 2
  | db_Merge_default _ _ _ => 2
  | db_KeyMayExist _ _ _ _ _ => 2
  | db_KeyMayExist_default _ _ _ _ => 3
  | db_KeyMayExist_default_ts _ _ _ _ _ => 2
  | db_NewIterator_default _ => 2
  | db_GetProperty_default _ => 2
  | db_GetMapProperty_default _ => 2
  | db_GetIntProperty_default _ => 2
  | db_GetApproximateSizes_flags _ _ _ _ => 2
  | db_GetApproximateSizes_default _ _ _ => 3
  | db_GetApproximateMemTableStats_default _ => 2
  | db_CompactRange_default _ _ _ => 2
  | db_SetOptions_default _ => 2
  | db_CompactFiles_default _ _ _ _ => 2
  | db_NumberLevels_default => 2
  | db_MaxMemCompactionLevel_default => 2
  | db_Level0StopWriteTrigger_default => 2
  | db_GetOptions_default => 2
  | db_Flush_default _ => 2
  | db_IngestExternalFile_default _ _ => 2
  | db_CreateColumnFamilyWithImport _ _ _ _ => 2
  | db_VerifyChecksum_default => 2
  | db_GetPropertiesOfAllTables_default => 2
  | _ => 1
  end.
(** The methods of [StackableDB] that do not reach the database below: it inherits them, and nothing
    they call is forwarded either. *)
Definition kept (A : Type) (c : db A) : bool :=
  match c with
  | db_DeleteRange_ts _ _ _ _ _ => false
  | db_DeleteRange_default_ts _ _ _ _ => false
  | db_WriteWithCallback _ _ _ => false
  | db_IngestWriteBatchWithIndex _ _ => false
  | db_KeyMayExist_ts _ _ _ _ _ _ => false
  | db_KeyMayExist_default_ts _ _ _ _ _ => false
  | db_GetAllColumnFamilyMetaData _ => false
  | db_GetStatsHistory _ _ => false
  | _ => true
  end.
(** The methods that it inherits, and that call others that it forwards. *)
Definition overload {A} (c : db A) : bool :=
  match c with
  | db_Put_default _ _ _ => true
  | db_Put_default_ts _ _ _ _ => true
  | db_Delete_default _ _ => true
  | db_Delete_default_ts _ _ _ => true
  | db_SingleDelete_default _ _ => true
  | db_SingleDelete_default_ts _ _ _ => true
  | db_DeleteRange_default _ _ _ => true
  | db_Merge_default _ _ _ => true
  | db_KeyMayExist_default _ _ _ _ => true
  | db_NewIterator_default _ => true
  | db_GetProperty_default _ => true
  | db_GetMapProperty_default _ => true
  | db_GetIntProperty_default _ => true
  | db_GetApproximateSizes_flags _ _ _ _ => true
  | db_GetApproximateSizes_default _ _ _ => true
  | db_GetApproximateMemTableStats_default _ => true
  | db_CompactRange_default _ _ _ => true
  | db_SetOptions_default _ => true
  | db_CompactFiles_default _ _ _ _ => true
  | db_NumberLevels_default => true
  | db_MaxMemCompactionLevel_default => true
  | db_Level0StopWriteTrigger_default => true
  | db_GetOptions_default => true
  | db_Flush_default _ => true
  | db_IngestExternalFile_default _ _ => true
  | db_GetPropertiesOfAllTables_default => true
  | _ => false
  end.

Section Class.
Context {S : Type} (Status_msg : Code → SubCode → Slice → Slice → Severity → Status) (compiled : object db S)
        (NewErrorIterator : Status → M S (option ptr)) (comparator_of : option ptr → M S (option ptr))
        (default_margin : V "double") (new_ReadOptions : V "ReadOptions") (this : option ptr)
        (overrides : ∀ A, db A → option (M S A)).
Abbreviation at_level n := (dispatch Status_msg compiled NewErrorIterator comparator_of default_margin new_ReadOptions
  this n overrides).
Abbreviation database := (DB Status_msg compiled NewErrorIterator comparator_of default_margin new_ReadOptions
  this overrides).

Lemma bind_ext {A B} (m m' : M S A) (k k' : A → M S B) s :
  (∀ s, m s = m' s) → (∀ a s, k a s = k' a s) → (m ≫= k) s = (m' ≫= k') s.
Proof. intros Hm Hk. unfold mbind, M_bind. rewrite Hm. by destruct (m' s) as [[a s']|]. Qed.
Lemma leaf_level {A} (c : db A) n m s : level c = 1%nat → at_level (Datatypes.S n) A c s = at_level (Datatypes.S m) A c s.
Proof. intros H. cbn [dispatch]. destruct (overrides A c); [done|]. by destruct c. Qed.
Lemma second_level {A} (c : db A) n m s : (level c <= 2)%nat →
  at_level (Datatypes.S (Datatypes.S n)) A c s = at_level (Datatypes.S (Datatypes.S m)) A c s.
Proof.
  intros H. change (match overrides A c with Some x => x | None => defaults Status_msg compiled NewErrorIterator
      comparator_of default_margin new_ReadOptions this (at_level (Datatypes.S n)) A c end s =
    match overrides A c with Some x => x | None => defaults Status_msg compiled NewErrorIterator
      comparator_of default_margin new_ReadOptions this (at_level (Datatypes.S m)) A c end s).
  destruct (overrides A c); [done|].
  destruct c; try done; cbn [defaults]; try (by exfalso; cbn in H; lia);
    repeat first [by apply leaf_level | apply bind_ext; intros | done].
Qed.
Lemma database_level {A} (c : db A) s : (level c <= 2)%nat → at_level 2 A c s = database A c s.
Proof. intros H. by apply (second_level c 0 1). Qed.

(** ** Calls bottom out *)

(** What is not inherited returns. *)
Hypothesis overrides_return : ∀ A (c : db A) m s, overrides A c = Some m → m s ≠ Undef WaitsForever.
Hypothesis compiled_return : ∀ A (c : db A) s, compiled A c s ≠ Undef WaitsForever.
Hypothesis iterators_return : ∀ st s, NewErrorIterator st s ≠ Undef WaitsForever.
Hypothesis comparators_return : ∀ cf s, comparator_of cf s ≠ Undef WaitsForever.

Lemma bind_returns {A B} (m : M S A) (k : A → M S B) :
  (∀ s, m s ≠ Undef WaitsForever) → (∀ a s, k a s ≠ Undef WaitsForever) → ∀ s, (m ≫= k) s ≠ Undef WaitsForever.
Proof.
  intros Hm Hk s. unfold mbind, M_bind. specialize (Hm s). destruct (m s) as [[a s']|]; [apply Hk|congruence].
Qed.
Lemma ret_returns {A} (a : A) (s : S) : (mret a : M S A) s ≠ Undef WaitsForever.
Proof. done. Qed.
Lemma level_returns n : ∀ A (c : db A) s, (level c <= n)%nat → at_level n A c s ≠ Undef WaitsForever.
Proof.
  induction n as [|n IH]; intros A c s Hn; [by destruct c; cbn in Hn; lia|].
  cbn [dispatch]. destruct (overrides A c) as [m|] eqn:Ho; [by eapply overrides_return|]. revert s.
  destruct c; cbn [defaults]; intros s; try apply compiled_return; try apply ret_returns;
    try (apply IH; cbn in *; lia); apply bind_returns; clear s;
    try (intros; apply IH; cbn in *; lia); try (intros; apply compiled_return);
    try (intros; apply iterators_return).
  - by intros [[[??]?]?] s.
  - intros it. apply bind_returns; [apply comparators_return|by intros].
Qed.

(** C36. Every call of a database ends, whichever methods it overrides, as long as those that it overrides
    or that are compiled do: an inherited method calls another method of the same object, which may be
    inherited too and call a third, but never more, and never one that leads back to it. *)
Theorem inherited_calls_end {A} (c : db A) s : database A c s ≠ Undef WaitsForever.
Proof. apply level_returns. destruct c; cbn; lia. Qed.
End Class.

(** ** A stacked database *)

Lemma on_target_bind {T A B} (m : M T A) (k : A → M T B) (t : T) :
  (on_target m ≫= λ a, on_target (k a)) (tt, t) = on_target (m ≫= k) (tt, t).
Proof. unfold on_target, mbind, M_bind. by destruct (m t) as [[a t']|]. Qed.

Section Stacked.
Context {T : Type} (Status_msg : Code → SubCode → Slice → Slice → Severity → Status).
(** The class of the database below, and that of the stacked one: what each inherits from compiled code. *)
Context (compiled : object db T) (NewErrorIterator : Status → M T (option ptr))
        (comparator_of : option ptr → M T (option ptr)) (default_margin : V "double")
        (new_ReadOptions : V "ReadOptions") (this : option ptr) (overrides : ∀ A, db A → option (M T A)).
Context (compiled' : object db (unit * T)) (NewErrorIterator' : Status → M (unit * T) (option ptr))
        (comparator_of' : option ptr → M (unit * T) (option ptr)) (this' : option ptr).
Abbreviation at_level n := (dispatch Status_msg compiled NewErrorIterator comparator_of default_margin new_ReadOptions
  this n overrides).
Abbreviation below := (DB Status_msg compiled NewErrorIterator comparator_of default_margin new_ReadOptions
  this overrides).
Abbreviation stacked_at n := (dispatch Status_msg compiled' NewErrorIterator' comparator_of' default_margin
  new_ReadOptions this' n (StackableDB below)).
Abbreviation stacked := (DB Status_msg compiled' NewErrorIterator' comparator_of' default_margin
  new_ReadOptions this' (StackableDB below)).

(** The database below leaves the methods without a column family to the base class. *)
Hypothesis overloads_inherited : ∀ A (c : db A), overload c = true → overrides A c = None.

Lemma stacked_forwards n A (c : db A) : forwarded A c = true → stacked_at n A c = on_target (below A c).
Proof. intros H. destruct n; cbn [dispatch]; unfold StackableDB; by rewrite H. Qed.
Lemma stacked_overload A (c : db A) n s : overload c = true → forwarded A c = false →
  stacked_at (Datatypes.S n) A c s =
  defaults Status_msg compiled' NewErrorIterator' comparator_of' default_margin new_ReadOptions this' (stacked_at n) A c s.
Proof. intros _ H. cbn [dispatch]. unfold StackableDB. by rewrite H. Qed.
Lemma below_overload A (c : db A) n s : overload c = true →
  at_level (Datatypes.S n) A c s =
  defaults Status_msg compiled NewErrorIterator comparator_of default_margin new_ReadOptions this (at_level n) A c s.
Proof. intros H. cbn [dispatch]. by rewrite overloads_inherited. Qed.
Lemma on_target_ext {A} (m m' : M T A) st : (∀ t, m t = m' t) → on_target (S := unit) m st = on_target m' st.
Proof. intros H. destruct st as [u t]. unfold on_target. by rewrite H. Qed.

Local Ltac in_two_levels := symmetry; apply database_level; first [by auto | cbn; lia].
(** The step that all overloads share: they ask for the default family and pass it on. *)
Lemma stacked_default {A} (call : option ptr → db A) t :
  (∀ cf, (level (call cf) <= 2)%nat) → (∀ cf, forwarded A (call cf) = true) →
  (cf ← stacked_at 2 _ db_DefaultColumnFamily; stacked_at 2 _ (call cf)) (tt, t) =
  on_target (cf ← at_level 2 _ db_DefaultColumnFamily; at_level 2 _ (call cf)) (tt, t).
Proof.
  intros Hl Hf. rewrite <-on_target_bind. apply bind_ext.
  - intros st. rewrite stacked_forwards by done. apply on_target_ext. intros t'. in_two_levels.
  - intros cf st. rewrite stacked_forwards by done. apply on_target_ext. intros t'. in_two_levels.
Qed.
Lemma stacked_flags cf r n flags st :
  stacked_at 2 _ (db_GetApproximateSizes_flags cf r n flags) st =
  on_target (at_level 2 _ (db_GetApproximateSizes_flags cf r n flags)) st.
Proof.
  rewrite stacked_overload by done. cbn [defaults]. rewrite stacked_forwards by done.
  apply on_target_ext. intros t. rewrite below_overload by done. cbn [defaults]. by apply (leaf_level _ _ _ _ _ _ _ _ _ 2 0).
Qed.

Lemma stacked_call A (c : db A) t : kept A c = true → stacked A c (tt, t) = on_target (below A c) (tt, t).
Proof.
  intros Hk. change (stacked_at 3 A c (tt, t) = on_target (below A c) (tt, t)).
  destruct (forwarded A c) eqn:Hf; [by rewrite stacked_forwards|].
  assert (overload c = true) as Ho by (by destruct c).
  rewrite stacked_overload by done.
  transitivity (on_target (defaults Status_msg compiled NewErrorIterator comparator_of default_margin new_ReadOptions
    this (at_level 2) A c) (tt, t)); [|apply on_target_ext; intros; exact (eq_sym (below_overload A c 2 _ Ho))].
  destruct c; try done; cbn [defaults]; try (apply stacked_default; intros; [cbn; lia|done]).
  rewrite <-on_target_bind. apply bind_ext.
  - intros st. rewrite stacked_forwards by done. apply on_target_ext. intros t'. in_two_levels.
  - intros cf st. apply stacked_flags.
Qed.

Lemma stacked_run B (p : client db B) t : only kept p → run stacked p (tt, t) = on_target (run below p) (tt, t).
Proof.
  revert t. induction p as [b|A c k IH]; intros t; [done|]. intros [Hc Hk]. cbn [run].
  rewrite <-on_target_bind. unfold mbind, M_bind. rewrite stacked_call by done.
  unfold on_target. destruct (below A c t) as [[a t']|]; [|done]. exact (IH a t' (Hk a)).
Qed.

(** The answers of the base class that the header gives, to calls that a stacked database does not pass on. *)
Definition lost_answers : Prop :=
  ∀ st,
  (∀ o wb cb, stacked _ (db_WriteWithCallback o wb cb) st = Done (NotSupported_msg Status_msg
     (Slice_of_string (str "WriteWithCallback not implemented for this interface.")) empty_slice, st)) ∧
  (∀ o wbwi, stacked _ (db_IngestWriteBatchWithIndex o wbwi) st = Done (NotSupported_msg Status_msg
     (Slice_of_string (str "IngestWriteBatchWithIndex not implemented.")) empty_slice, st)) ∧
  (∀ m, stacked _ (db_GetAllColumnFamilyMetaData m) st = Done (m, st)) ∧
  (∀ o cf k v ts vf, stacked _ (db_KeyMayExist_ts o cf k v ts vf) st = Done (true, v, ts, (λ _, false) <$> vf, st)) ∧
  (∀ o k v ts vf, stacked _ (db_KeyMayExist_default_ts o k v ts vf) st =
     (on_target (below _ db_DefaultColumnFamily) ≫= λ _, mret (true, v, ts, (λ _, false) <$> vf)) st) ∧
  (∀ o cf b e ts, stacked _ (db_DeleteRange_ts o cf b e ts) st = compiled' _ (db_DeleteRange_ts o cf b e ts) st) ∧
  (∀ o b e ts, stacked _ (db_DeleteRange_default_ts o b e ts) st =
     (on_target (below _ db_DefaultColumnFamily) ≫= λ cf, compiled' _ (db_DeleteRange_ts o cf b e ts)) st) ∧
  (∀ b e, stacked _ (db_GetStatsHistory b e) st = Done (NotSupported_msg Status_msg
     (Slice_of_string (str "GetStatsHistory() is not implemented.")) empty_slice, None, st)).

End Stacked.

(** ** Strings *)

Section Strings.
Context {S : Type} (o : object db S).

Lemma read_slice (s : Slice) : slice_wf s → read_mem (data s) (size s) = Done (contents s).
Proof.
  intros (Hs & b & Hb & Hl). unfold read_mem, contents, data, size in *. case_decide as H0.
  - rewrite H0. by destruct (data_ s).
  - rewrite Hb. rewrite decide_True by lia. done.
Qed.

(** A read into a string is the read into a slice that keeps its bytes in that string: the same call,
    the same status, timestamp and failures.  When the status is OK the string ends as the bytes the
    slice shows, whether these are pinned memory of the database or already in the string; and when
    it is not, the string holds what the database left in it. *)
Theorem string_get_is_the_get options cf key value ts s :
  match o _ (db_Get options cf key (mkPinnable empty_slice [] value false) ts) s with
  | Done ((st, p, ts'), s') => pin_wf p →
      Get_string o options cf key value ts s =
      Done ((st, if ok st then contents (p_slice p) else buf_ p, ts', cleanup_ p), s')
  | Undef f => Get_string o options cf key value ts s = Undef f
  end.
Proof.
  unfold Get_string, into_string, mbind, M_bind, lift_outcome.
  destruct (o _ _ s) as [[[[st p] ts'] s']|]; [|done]. intros Hp. unfold IsPinned.
  destruct (ok st); [|done]. cbn. destruct (pinned_ p) eqn:Hpin.
  - by rewrite read_slice by apply Hp.
  - by rewrite (length_string_contents p).
Qed.
End Strings.
End Spec.
