(* ===== verification/EnvSpec.v ===== *)
(** What EnvFiles.v and Env.v promise: no client tells a wrapper from what it wraps, unless it asks a wrapped
    environment for the host's name as a string; a file of an [Env] does what the file of a file system
    does that ignores the options of each request; and a target is there once it is prepared. *)
From S2P Require Import Prelude Slice RocksStatus IOStatus RocksDB Dispatch FsFiles EnvFiles FileSystem Env.

Local Open Scope Z_scope.

(** No client tells a wrapped file, directory or logger of an [Env] from the object itself: for each
    of the six wrappers, whatever calls a client makes and however they depend on the answers, the
    answers, the failures and the state of the object at the end are those of the object alone, and the
    wrapper's own members, which a wrapped file and a wrapped logger have, are never read or changed. *)
Theorem env_wrappers_are_transparent {T B va_list : Type} (t : T) :
  (∀ (o : object env_sequential T) (p : client _ B), run (SequentialFileWrapper o) p (tt, t) = on_target (run o p) (tt, t)) ∧
  (∀ (o : object env_random_access T) (p : client _ B), run (RandomAccessFileWrapper o) p (tt, t) = on_target (run o p) (tt, t)) ∧
  (∀ (o : object env_writable T) (p : client _ B) own, run (WritableFileWrapper o) p (own, t) = on_target (run o p) (own, t)) ∧
  (∀ (o : object env_random_rw T) (p : client _ B), run (RandomRWFileWrapper o) p (tt, t) = on_target (run o p) (tt, t)) ∧
  (∀ (o : object env_directory T) (p : client _ B), run (DirectoryWrapper o) p (tt, t) = on_target (run o p) (tt, t)) ∧
  (∀ (o : object (logger va_list) T) (p : client _ B) own, run (LoggerWrapper o) p (own, t) = on_target (run o p) (own, t)).
Proof. split_and!; intros; apply run_forwards; intros A c; by destruct c. Qed.

(** ** The files of the two interfaces *)

(** The call of an [Env] file that a call of a file-system file stands for, without its options; none
    for the calls that answer with a status of the base class's own making: it names the scope of a file
    system in one interface and not in the other, and its text is another. *)
Definition of_fs {A} (c : writable A) : option (env_writable A) :=
  match c with
  | wf_Append data _ _ => Some (ew_Append data)
  | wf_Append_verified data _ info _ => Some (ew_Append_verified data info)
  | wf_PositionedAppend _ _ _ _ => None
  | wf_PositionedAppend_verified _ _ _ _ _ => None
  | wf_Truncate _ _ _ => None
  | wf_Close _ _ => Some ew_Close
  | wf_Flush _ _ => Some ew_Flush
  | wf_Sync _ _ => Some ew_Sync
  | wf_Fsync _ _ => Some ew_Fsync
  | wf_IsSyncThreadSafe => Some ew_IsSyncThreadSafe
  | wf_use_direct_io => Some ew_use_direct_io
  | wf_GetRequiredBufferAlignment => Some ew_GetRequiredBufferAlignment
  | wf_SetWriteLifeTimeHint hint => Some (ew_SetWriteLifeTimeHint hint)
  | wf_SetIOPriority pri => Some (ew_SetIOPriority pri)
  | wf_GetIOPriority => Some ew_GetIOPriority
  | wf_GetWriteLifeTimeHint => Some ew_GetWriteLifeTimeHint
  | wf_GetFileSize _ _ => Some ew_GetFileSize
  | wf_SetPreallocationBlockSize size => Some (ew_SetPreallocationBlockSize size)
  | wf_GetPreallocationStatus => Some ew_GetPreallocationStatus
  | wf_GetUniqueId max_size => Some (ew_GetUniqueId max_size)
  | wf_InvalidateCache _ _ => None
  | wf_RangeSync _ _ _ _ => None
  | wf_PrepareWrite offset len _ _ => Some (ew_PrepareWrite offset len)
  | wf_Allocate offset len _ _ => Some (ew_Allocate offset len)
  end.

(** The client's calls on the other interface; it stops at one that has no counterpart. *)
Fixpoint translate {B} (p : client writable B) : client env_writable (option B) :=
  match p with
  | Finish b => Finish (Some b)
  | Call c k =>
      match of_fs c with
      | Some c' => Call c' (λ a, translate (k a))
      | None => Finish None
      end
  end.
Fixpoint supported {B} (p : client writable B) : client writable (option B) :=
  match p with
  | Finish b => Finish (Some b)
  | Call c k =>
      match of_fs c with
      | Some _ => Call c (λ a, supported (k a))
      | None => Finish None
      end
  end.

(** A file of an [Env] and a file of a file system with the same six methods, which do not look at the
    options of a request, are one file to any client: preallocation, hints, priorities and checksums go
    the same way through both base classes, step by step, as far as the client's first call that is
    answered with a status of the base class's own (truncating, syncing a range, writing at a
    position, invalidating the cache). *)
Theorem env_files_are_fs_files {X B} Status_msg (Append : Slice → M (FSWritableFile * X) Status)
    (Close Flush Sync : M (FSWritableFile * X) Status) (GetFileSize : M (FSWritableFile * X) Z)
    (Allocate : Z → Z → M (FSWritableFile * X) Status) (p : client writable B) s :
  run (WritableFile_derived Status_msg Append Close Flush Sync GetFileSize Allocate) (translate p) s =
  run (FSWritableFile_derived (λ data _ _, Append data) (λ _ _, Close) (λ _ _, Flush) (λ _ _, Sync)
         (λ _ _, GetFileSize) (λ o l _ _, Allocate o l)) (supported p) s.
Proof.
  revert s. induction p as [b|A c k IH]; intros s; [done|].
  destruct c; cbn [translate supported of_fs run]; try done; unfold mbind, M_bind;
    cbn [WritableFile_derived FSWritableFile_derived];
    try (match goal with |- match ?m with _ => _ end = _ => destruct m as [[a s']|f]; [apply IH|done] end).
  change (FsFiles.PrepareWrite (λ o l (_ : IOOptions) (_ : dbg_ptr), Allocate o l) offset len options dbg s)
    with (PrepareWrite Allocate offset len s).
  destruct (PrepareWrite Allocate offset len s) as [[a s']|f]; [apply IH|done].
Qed.

Section Spec.
Context {EnvOptions DBOptions ImmutableDBOptions ThreadStatus : Type}.
Abbreviation env := (env EnvOptions DBOptions ImmutableDBOptions ThreadStatus).

Definition not_host_string (A : Type) (c : env A) : bool :=
  match c with env_GetHostNameString => false | _ => true end.

Lemma env_wrapper_simulates {T} host_string (target : object env T) :
  simulates not_host_string (wraps tt) (EnvWrapper host_string target) target.
Proof. intros A c s1 s2 Hc HR. destruct c; try done; by apply on_target_same. Qed.

(** A client that does not ask for it is answered by the target. *)
Lemma wrapped_env_is_the_env {T B} host_string (target : object env T) (p : client env B) (t : T) :
  only not_host_string p → same_end (wraps tt) (run (EnvWrapper host_string target) p (tt, t)) (run target p t).
Proof. intros Hp. by apply (run_simulates not_host_string (wraps tt)); [apply env_wrapper_simulates| |]. Qed.
(** One that does gets what the base class makes of the wrapper's, and so of the target's, [GetHostName]. *)
Lemma host_string_is_inherited {T} host_string (target : object env T) st :
  EnvWrapper host_string target _ env_GetHostNameString st =
  host_string (λ len, on_target (target _ (env_GetHostName len))) st.
Proof. done. Qed.

Lemma prepared_target Default t :
  let t' := Prepare Default t in
  target_env t' ≠ None ∧ (guard t ≠ None → target_env t' = guard t) ∧ guard t' = guard t ∧
  (guard t = None → target_env t ≠ None → t' = t) ∧ Prepare Default t' = t'.
Proof. destruct t as [[e|] [g|]]; cbn; naive_solver. Qed.
End Spec.
