(* ===== verification/WriteBuffer.v ===== *)
(** The manager of write buffers (include/rocksdb/write_buffer_manager.h): when memtables that share a
    budget are to be flushed, and writes to be stalled.  The members are atomic; each method is what
    one thread does. *)
From S2P Require Import Prelude RocksDB.

Local Open Scope Z_scope.

Record WriteBufferManager := mkWBM {
  buffer_size_ : Z;
  mutable_limit_ : Z;
  memory_used_ : Z;
  memory_active_ : Z;
  cache_res_mgr_ : option ptr;
  allow_stall_ : bool;
  stall_active_ : bool;
}.

Definition buffer_size (m : WriteBufferManager) : Z := buffer_size_ m.
Definition enabled (m : WriteBufferManager) : bool := 0 <? buffer_size m.
Definition cost_to_cache (m : WriteBufferManager) : bool :=
  match cache_res_mgr_ m with Some _ => true | None => false end.
Definition memory_usage (m : WriteBufferManager) : Z := memory_used_ m.
Definition mutable_memtable_memory_usage (m : WriteBufferManager) : Z := memory_active_ m.

Definition IsStallActive (m : WriteBufferManager) : bool := stall_active_ m.
Definition IsStallThresholdExceeded (m : WriteBufferManager) : bool := buffer_size_ m <=? memory_usage m.
Definition ShouldStall (m : WriteBufferManager) : bool :=
  if negb (allow_stall_ m) || negb (enabled m) then false
  else IsStallActive m || IsStallThresholdExceeded m.
Definition ShouldFlush (m : WriteBufferManager) : bool :=
  if enabled m then
    if mutable_limit_ m <? mutable_memtable_memory_usage m then true
    else
      let local_size := buffer_size m in
      (local_size <=? memory_usage m) && (local_size `div` 2 <=? mutable_memtable_memory_usage m)
  else false.

(** What is stored before the stalled writes are looked at. *)
Definition store_size (new_size : Z) (m : WriteBufferManager) : WriteBufferManager :=
  mkWBM new_size (u64 (new_size * 7) `div` 8) (memory_used_ m) (memory_active_ m) (cache_res_mgr_ m)
    (allow_stall_ m) (stall_active_ m).
Definition store_allow (new_allow_stall : bool) (m : WriteBufferManager) : WriteBufferManager :=
  mkWBM (buffer_size_ m) (mutable_limit_ m) (memory_used_ m) (memory_active_ m) (cache_res_mgr_ m)
    new_allow_stall (stall_active_ m).

Section Stalls.
(** [MaybeEndWriteStall] is compiled code, on the manager and the databases that wait. *)
Context {X : Type} (MaybeEndWriteStall : M (WriteBufferManager * X) unit).
Definition SetBufferSize (new_size : Z) : M (WriteBufferManager * X) unit :=
  lift_outcome (assert_that (bool_decide (0 < new_size))) ;;
  modify (prod_map (store_size new_size) id) ;;
  MaybeEndWriteStall.
Definition SetAllowStall (new_allow_stall : bool) : M (WriteBufferManager * X) unit :=
  modify (prod_map (store_allow new_allow_stall) id) ;;
  MaybeEndWriteStall.

(** It leaves the sizes alone. *)
Hypothesis sizes_kept : ∀ m x u m' x', MaybeEndWriteStall (m, x) = Done (u, (m', x')) →
  buffer_size_ m' = buffer_size_ m ∧ mutable_limit_ m' = mutable_limit_ m ∧ memory_used_ m' = memory_used_ m ∧
  memory_active_ m' = memory_active_ m ∧ allow_stall_ m' = allow_stall_ m.

(** After a budget of less than 2^64 / 7 bytes is set, memtables are to be flushed exactly when those
    still written to hold more than seven eighths of it, or when all memory in use reaches the budget
    and they hold half of it, rounded down; and writes are to stall, if that is allowed, exactly when a
    stall is on or the memory in use reaches the budget.  A budget of no bytes is refused. *)
Theorem memtables_flush_at_seven_eighths size m x m' x' :
  0 < size → size * 7 < 2 ^ 64 → 0 <= memory_active_ m →
  SetBufferSize 0 (m, x) = Undef AssertFailed ∧
  (SetBufferSize size (m, x) = Done (tt, (m', x')) →
   ShouldFlush m' = bool_decide (7 * size < 8 * memory_active_ m ∨
     (size <= memory_used_ m ∧ size `div` 2 <= memory_active_ m)) ∧
   ShouldStall m' = allow_stall_ m && (stall_active_ m' || bool_decide (size <= memory_used_ m))).
Proof.
  intros Hs Hfit Ha. split; [done|].
  unfold SetBufferSize, lift_outcome, assert_that, modify, mbind, M_bind.
  rewrite bool_decide_true by done. cbn [prod_map fst snd id]. intros H.
  apply sizes_kept in H as (Hb & Hl & Hu & Hact & Hal). cbn in Hb, Hl, Hu, Hact, Hal.
  unfold ShouldFlush, ShouldStall, enabled, buffer_size, IsStallActive, IsStallThresholdExceeded, memory_usage,
    mutable_memtable_memory_usage. rewrite Hb, Hl, Hu, Hact, Hal.
  pose proof (Z.div_mod (size * 7) 8). pose proof (Z.mod_pos_bound (size * 7) 8).
  rewrite u64_small by lia. rewrite (proj2 (Z.ltb_lt 0 size)) by lia. split.
  - destruct (Z.ltb_spec ((size * 7) `div` 8) (memory_active_ m));
      [by rewrite bool_decide_true by lia|].
    destruct (Z.leb_spec size (memory_used_ m)), (Z.leb_spec (size `div` 2) (memory_active_ m)); cbn;
      first [by rewrite bool_decide_true by lia | by rewrite bool_decide_false by lia].
  - destruct (allow_stall_ m); [|done]. cbn. f_equal.
    by destruct (Z.leb_spec size (memory_used_ m)); [rewrite bool_decide_true|rewrite bool_decide_false by lia].
Qed.
End Stalls.

(** A budget of 2^64 / 7 bytes or more wraps around: the limit for the memtables is then of no use. *)
Lemma large_budget_wraps m : mutable_limit_ (store_size (2 ^ 64 `div` 7 + 1) m) = 0.
Proof. by vm_compute. Qed.
