(* ===== verification/BatchHandler.v ===== *)
(** Reading a write batch (include/rocksdb/write_batch.h): the methods of a [WriteBatch::Handler], called
    for the entries of a batch in order, with what they do by default; and the small state a batch
    keeps of save points and timestamp sizes. *)
From S2P Require Import Prelude Slice RocksStatus RocksDB Dispatch.

Local Open Scope Z_scope.

(** ** Save points and timestamps *)

Record SavePoint := mkSavePoint { save_size : Z; save_count : Z; content_flags : Z }.
Definition new_SavePoint : SavePoint := mkSavePoint 0 0 0.
Definition clear (s : SavePoint) : SavePoint := mkSavePoint 0 0 0.
Definition is_cleared (s : SavePoint) : bool := bool_decide (Z.lor (Z.lor (save_size s) (save_count s)) (content_flags s) = 0).

Record tracking := mkTracking { track_timestamp_size_ : bool; cf_id_to_ts_sz_ : gmap Z Z }.
Definition SetTrackTimestampSize (track_timestamp_size : bool) (t : tracking) : tracking :=
  mkTracking track_timestamp_size (cf_id_to_ts_sz_ t).
Definition MaybeTrackTimestampSize (column_family_id ts_sz : Z) (t : tracking) : tracking :=
  if negb (track_timestamp_size_ t) then t
  else match cf_id_to_ts_sz_ t !! column_family_id with
       | None => mkTracking (track_timestamp_size_ t) (<[column_family_id := ts_sz]> (cf_id_to_ts_sz_ t))
       | Some _ => t
       end.
Definition GetColumnFamilyToTimestampSize (t : tracking) : gmap Z Z := cf_id_to_ts_sz_ t.

(** ** [Handler] *)

Inductive OptionState := kUnknown | kDisabled | kEnabled.

Inductive handler : Type → Type :=
  | h_PutCF (column_family_id : Z) (key value : Slice) : handler Status
  | h_Put (key value : Slice) : handler unit
  | h_TimedPutCF (column_family_id : Z) (key value : Slice) (write_time : Z) : handler Status
  | h_PutEntityCF (column_family_id : Z) (key entity : Slice) : handler Status
  | h_DeleteCF (column_family_id : Z) (key : Slice) : handler Status
  | h_Delete (key : Slice) : handler unit
  | h_SingleDeleteCF (column_family_id : Z) (key : Slice) : handler Status
  | h_SingleDelete (key : Slice) : handler unit
  | h_DeleteRangeCF (column_family_id : Z) (begin_key end_key : Slice) : handler Status
  | h_MergeCF (column_family_id : Z) (key value : Slice) : handler Status
  | h_Merge (key value : Slice) : handler unit
  | h_PutBlobIndexCF (column_family_id : Z) (key value : Slice) : handler Status
  | h_LogData (blob : Slice) : handler unit
  | h_MarkBeginPrepare (unprepared : bool) : handler Status
  | h_MarkEndPrepare (xid : Slice) : handler Status
  | h_MarkNoop (empty_batch : bool) : handler Status
  | h_MarkRollback (xid : Slice) : handler Status
  | h_MarkCommit (xid : Slice) : handler Status
  | h_MarkCommitWithTimestamp (xid commit_ts : Slice) : handler Status
  | h_Continue : handler bool
  | h_WriteAfterCommit : handler OptionState
  | h_WriteBeforePrepare : handler OptionState.

Section Handler.
Context {S : Type}.
(** Compiled code: a status with a message, and the bodies of [LogData] and [Continue]. *)
Context (Status_msg : Code → SubCode → Slice → Slice → Severity → Status)
        (LogData : Slice → M S unit) (Continue : M S bool).
Abbreviation invalid := (λ s, InvalidArgument_msg Status_msg (Slice_of_string (str s)) empty_slice).

(** What an entry for the default family is, in the methods without one. *)
Definition only_default (column_family_id : Z) (m : M S unit) (msg : string) : M S Status :=
  if decide (column_family_id = 0) then m ;; mret RocksStatus.OK else mret (invalid msg).

(** [self] is the handler itself. *)
Definition handler_defaults (self : object handler S) : object handler S := λ A c,
  match c with
  | h_PutCF cf key value =>
      only_default cf (self _ (h_Put key value)) "non-default column family and PutCF not implemented"
  | h_Put _ _ => mret tt
  | h_TimedPutCF _ _ _ _ => mret (invalid "TimedPutCF not implemented")
  | h_PutEntityCF _ _ _ =>
      mret (NotSupported_msg Status_msg (Slice_of_string (str "PutEntityCF not implemented")) empty_slice)
  | h_DeleteCF cf key =>
      only_default cf (self _ (h_Delete key)) "non-default column family and DeleteCF not implemented"
  | h_Delete _ => mret tt
  | h_SingleDeleteCF cf key =>
      only_default cf (self _ (h_SingleDelete key)) "non-default column family and SingleDeleteCF not implemented"
  | h_SingleDelete _ => mret tt
  | h_DeleteRangeCF _ _ _ => mret (invalid "DeleteRangeCF not implemented")
  | h_MergeCF cf key value =>
      only_default cf (self _ (h_Merge key value)) "non-default column family and MergeCF not implemented"
  | h_Merge _ _ => mret tt
  | h_PutBlobIndexCF _ _ _ => mret (invalid "PutBlobIndexCF not implemented")
  | h_LogData blob => LogData blob
  | h_MarkBeginPrepare _ => mret (invalid "MarkBeginPrepare() handler not defined.")
  | h_MarkEndPrepare _ => mret (invalid "MarkEndPrepare() handler not defined.")
  | h_MarkNoop _ => mret (invalid "MarkNoop() handler not defined.")
  | h_MarkRollback _ => mret (invalid "MarkRollbackPrepare() handler not defined.")
  | h_MarkCommit _ => mret (invalid "MarkCommit() handler not defined.")
  | h_MarkCommitWithTimestamp _ _ => mret (invalid "MarkCommitWithTimestamp() handler not defined.")
  | h_Continue => Continue
  | h_WriteAfterCommit => mret kUnknown
  | h_WriteBeforePrepare => mret kUnknown
  end.
(** A handler that overrides some methods. *)
Definition Handler (overrides : ∀ A, handler A → option (M S A)) : object handler S :=
  let leaf : object handler S := λ A c,
    match overrides A c with Some m => m | None => handler_defaults (λ _ _, undef WaitsForever) A c end in
  λ A c, match overrides A c with Some m => m | None => handler_defaults leaf A c end.

(** ** A batch of plain writes *)

Inductive write :=
  | w_put (cf : Z) (key value : Slice)
  | w_delete (cf : Z) (key : Slice)
  | w_single_delete (cf : Z) (key : Slice)
  | w_merge (cf : Z) (key value : Slice).
Definition family (w : write) : Z :=
  match w with w_put cf _ _ => cf | w_delete cf _ => cf | w_single_delete cf _ => cf | w_merge cf _ _ => cf end.

(** A reader of a batch: it hands the entries over in order, until one is answered with another status
    than OK. *)
Definition hand (o : object handler S) (w : write) : M S Status :=
  match w with
  | w_put cf k v => o _ (h_PutCF cf k v)
  | w_delete cf k => o _ (h_DeleteCF cf k)
  | w_single_delete cf k => o _ (h_SingleDeleteCF cf k)
  | w_merge cf k v => o _ (h_MergeCF cf k v)
  end.
Fixpoint iterate (o : object handler S) (ws : list write) : M S Status :=
  match ws with
  | [] => mret RocksStatus.OK
  | w :: ws => s ← hand o w; if (ok s : bool) then iterate o ws else mret s
  end.
(** A handler of the first interface, which knows no families. *)
Definition hand_plain (o : object handler S) (w : write) : M S unit :=
  match w with
  | w_put _ k v => o _ (h_Put k v)
  | w_delete _ k => o _ (h_Delete k)
  | w_single_delete _ k => o _ (h_SingleDelete k)
  | w_merge _ k v => o _ (h_Merge k v)
  end.
Fixpoint iterate_plain (o : object handler S) (ws : list write) : M S unit :=
  match ws with [] => mret tt | w :: ws => hand_plain o w ;; iterate_plain o ws end.
Fixpoint default_prefix (ws : list write) : list write :=
  match ws with [] => [] | w :: ws => if decide (family w = 0) then w :: default_prefix ws else [] end.
Definition refusal (w : write) : Status :=
  match w with
  | w_put _ _ _ => invalid "non-default column family and PutCF not implemented"
  | w_delete _ _ => invalid "non-default column family and DeleteCF not implemented"
  | w_single_delete _ _ => invalid "non-default column family and SingleDeleteCF not implemented"
  | w_merge _ _ _ => invalid "non-default column family and MergeCF not implemented"
  end.
Definition stopped_at (ws : list write) : Status :=
  match drop (length (default_prefix ws)) ws with [] => RocksStatus.OK | w :: _ => refusal w end.

Section Old.
Context (overrides : ∀ A, handler A → option (M S A)).
(** The handler leaves the methods with a family to the base class. *)
Definition old_handler : Prop :=
  (∀ cf k v, overrides _ (h_PutCF cf k v) = None) ∧ (∀ cf k, overrides _ (h_DeleteCF cf k) = None) ∧
  (∀ cf k, overrides _ (h_SingleDeleteCF cf k) = None) ∧ (∀ cf k v, overrides _ (h_MergeCF cf k v) = None).
Hypothesis invalid_not_ok : ∀ s, ok (invalid s) = false.

Lemma hand_old w s : old_handler →
  hand (Handler overrides) w s =
  if decide (family w = 0) then (hand_plain (Handler overrides) w ;; mret RocksStatus.OK) s else Done (refusal w, s).
Proof.
  intros (Hp & Hd & Hs & Hm). destruct w; cbn [hand hand_plain family refusal]; unfold Handler at 1;
    rewrite ?Hp, ?Hd, ?Hs, ?Hm; cbn [handler_defaults]; unfold only_default; by case_decide.
Qed.

(** A handler of the first interface, which knows no column families, is handed the writes of a batch
    to the default family as they are, in order, up to the first write to another one: there it is
    refused with an invalid argument, and nothing after it is seen.  It never sees a write to another
    family as if it were to the default one. *)
Theorem old_handlers_see_the_default_family ws s : old_handler →
  iterate (Handler overrides) ws s =
  (iterate_plain (Handler overrides) (default_prefix ws) ;; mret (stopped_at ws)) s.
Proof.
  intros Hold. revert s. induction ws as [|w ws IH]; intros s; [done|].
  cbn [iterate default_prefix]. unfold stopped_at. cbn [default_prefix]. unfold mbind at 1, M_bind at 1.
  rewrite hand_old by done. case_decide as Hf; cbn [iterate_plain length drop].
  - unfold mbind, M_bind. destruct (hand_plain _ w s) as [[[] s1]|]; [|done]. cbn. apply IH.
  - assert (ok (refusal w) = false) as -> by (destruct w; apply invalid_not_ok). done.
Qed.
End Old.
End Handler.

(** ** Timestamp sizes *)

(** The size first tracked for a family stays. *)
Lemma first_size_stays cf n cf' n' t :
  track_timestamp_size_ t = true → cf_id_to_ts_sz_ t !! cf = Some n →
  cf_id_to_ts_sz_ (MaybeTrackTimestampSize cf' n' t) !! cf = Some n.
Proof.
  intros Ht Hn. unfold MaybeTrackTimestampSize. rewrite Ht. cbn. destruct (cf_id_to_ts_sz_ t !! cf') eqn:E; [done|].
  cbn. rewrite lookup_insert_ne; [done|]. intros ->. by rewrite Hn in E.
Qed.
