(* ===== verification/EnvDemo.v ===== *)
(** The theorems on mirrors and stacked databases at work: a tiny environment and its copy, and a
    database that logs its writes. *)
From S2P Require Import Prelude Slice RocksStatus RocksDB Dispatch FsFiles FileSystem EnvFiles Env EnvMirror.
From S2P Require Import EnvMirrorSpec Db DbSpec.

Local Open Scope Z_scope.

(** ** A mirror *)

Abbreviation tiny_env := (env unit unit unit unit).
(** An environment that knows only names: whether there is such a file, and which there are; the
    second copy lists them backwards. *)
Definition tiny (backwards : bool) : object tiny_env (list (list byte)) := λ T c,
  match c with
  | env_FileExists f => fs ← gets id; mret (if decide (f ∈ fs) then RocksStatus.OK else NotFound kNone)
  | env_GetChildren _ => fs ← gets id; mret (RocksStatus.OK, if backwards then reverse fs else fs)
  | env_DeleteFile f => modify (filter (λ g, g ≠ f)) ;; mret RocksStatus.OK
  | _ => undef NullDeref
  end.
Definition no_files : object tiny_env (mirror (list (list byte)) (list (list byte))) := λ _ _, undef NullDeref.
Definition tiny_client : client tiny_env (Status * list (list byte)) :=
  Call (env_FileExists [x62]) (λ s, Call (env_DeleteFile [x62]) (λ _, Call (env_GetChildren [])
    (λ r, Finish (s, r.2)))).
Definition two_copies : mirror (list (list byte)) (list (list byte)) :=
  mkMirror [[x63]; [x61]; [x62]] [[x63]; [x61]; [x62]] ∅.

Lemma tiny_twins T (c : tiny_env T) a b x a' : on_both T c = true → a = b → tiny false T c a = Done (x, a') →
  ∃ y b', tiny true T c b = Done (y, b') ∧ alike c x y ∧ a' = b'.
Proof.
  intros Hc <-. destruct c; try done; cbn; intros [= <- <-]; eexists _, _; (split; [done|]); cbn; try done.
  split; [split; [done|]|done]. change (a ≡ₚ reverse a). by rewrite reverse_Permutation.
Qed.


(** The copies differ: the mirror stops the program, as the theorem says it must. *)
Lemma mirror_answers_what_is_confirmed_witness :
  ¬ confirmed (tiny false) (tiny true) tiny_client [[x61]; [x62]] [[x61]] ∧
  run (EnvMirror (tiny false) (tiny true) no_files no_files) tiny_client (mkMirror [[x61]; [x62]] [[x61]] ∅) =
    Undef AssertFailed.
Proof.
  split; [|vm_compute; reflexivity].
  refine (mirror_answers_what_is_confirmed (tiny false) (tiny true) no_files no_files tiny_client
    (mkMirror [[x61]; [x62]] [[x61]] ∅) _).
  repeat split.
Defined.

(** ** A stacked database *)

Definition V0 (_ : string) : Type := unit.
Abbreviation db0 := (db V0 unit).
Definition msg0 (c : Code) (sc : SubCode) (_ _ : Slice) (sev : Severity) : Status :=
  mkStatus c sc sev false false 0 None.
(** A database that logs its writes, and finds no key with a time. *)
Definition overrides0 (A : Type) (c : db0 A) : option (M (list (option ptr * Slice)) A) :=
  match c with
  | db_DefaultColumnFamily => Some (mret (Some 7%positive))
  | db_Put _ cf k _ => Some (modify (λ l, l ++ [(cf, k)]) ;; mret RocksStatus.OK)
  | db_KeyMayExist_ts _ _ _ v ts vf => Some (mret (false, v, ts, vf))
  | _ => None
  end.
Definition compiled0 {S} : object db0 S := λ _ _, undef NullDeref.
Definition no_iterator {S} (_ : Status) : M S (option ptr) := mret None.
Definition no_comparator {S} (_ : option ptr) : M S (option ptr) := mret None.
Abbreviation db_below := (DB msg0 compiled0 no_iterator no_comparator (() : V0 "double") (() : V0 "ReadOptions")
  (Some 1%positive) overrides0).
Abbreviation db_stacked := (DB msg0 compiled0 no_iterator no_comparator (() : V0 "double") (() : V0 "ReadOptions")
  (Some 2%positive) (StackableDB db_below)).
Definition db_client : client db0 bool :=
  Call (db_Put_default (() : V0 "WriteOptions") empty_slice empty_slice) (λ _,
  Call (db_KeyMayExist_default (() : V0 "ReadOptions") empty_slice None None) (λ r, Finish r.1.1)).

Lemma overloads_inherited0 A (c : db0 A) : overload c = true → overrides0 A c = None.
Proof. by destruct c. Qed.


Lemma overrides0_return A (c : db0 A) m s : overrides0 A c = Some m → m s ≠ Undef WaitsForever.
Proof. destruct c; cbn; try done; by intros [= <-]. Qed.

Lemma inherited_calls_end_witness :
  db_below _ (db_KeyMayExist_default (() : V0 "ReadOptions") empty_slice None None) [] ≠ Undef WaitsForever.
Proof.
  refine (inherited_calls_end msg0 compiled0 no_iterator no_comparator (() : V0 "double") (() : V0 "ReadOptions")
    (Some 1%positive) overrides0 overrides0_return _ _ _ _ _); intros; discriminate.
Defined.
