(* ===== verification/ObjectsDemo.v ===== *)
(** The theorems on files, file systems, cleanups, casts, transactions and batches at work on small objects: a
    file in memory that counts what it is asked to allocate, a directory of three names, functions that
    are numbers. *)
From Stdlib Require Import Sorted.
From S2P Require Import Prelude Slice RocksStatus IOStatus RocksDB Dispatch FsFiles FsFilesSpec FileSystem.
From S2P Require Import FileSystemSpec Cleanable Inner Transaction BatchHandler.

Local Open Scope Z_scope.

(** ** A file *)

(** What was asked for, last. *)
Definition log := list (Z * Z).
Definition demo_allocate (o l : Z) (_ : IOOptions) (_ : dbg_ptr) : M (FSWritableFile * log) Status :=
  modify (prod_map id (λ x, x ++ [(o, l)])) ;; mret IOStatus.OK.
Definition demo_file : object writable (FSWritableFile * log) :=
  FSWritableFile_derived (λ _ _ _, mret IOStatus.OK) (λ _ _, mret IOStatus.OK) (λ _ _, mret IOStatus.OK)
    (λ _ _, mret IOStatus.OK) (λ _ _, mret 0) demo_allocate.
Definition demo_client : client writable (Z * Z) :=
  Call (wf_SetPreallocationBlockSize 100) (λ _,
  Call (wf_PrepareWrite 0 150 new_IOOptions None) (λ _,
  Call (wf_PrepareWrite 150 60 new_IOOptions None) (λ _,
  Call wf_GetPreallocationStatus Finish))).

Lemma wrapped_files_are_the_files_witness :
  run (FSWritableFileWrapper demo_file) demo_client (new_FSWritableFile, (new_FSWritableFile, [])) =
    on_target (run demo_file demo_client) (new_FSWritableFile, (new_FSWritableFile, [])) ∧
  run demo_file demo_client (new_FSWritableFile, []) =
    Done ((100, 3), (mkWritable 3 100 IO_TOTAL WLTH_NOT_SET false, [(0, 200); (200, 100)])).
Proof.
  split; [|vm_compute; reflexivity].
  refine (proj1 (wrapped_files_are_the_files demo_file demo_client new_FSWritableFile (new_FSWritableFile, []) _)).
  repeat split.
Defined.

Lemma demo_allocate_logs o l options dbg b x : ∃ st x',
  demo_allocate o l options dbg (b, x) = Done (st, (b, x')) ∧ x' = x ++ [(o, l)].
Proof. by eexists _, _. Qed.
Lemma preallocation_has_no_gaps_witness : ∃ b' x' new,
  prepare_all demo_allocate [(0, 150); (150, 60); (20, 10)] new_IOOptions None
    (mkWritable 0 100 IO_TOTAL WLTH_NOT_SET false, []) = Done (tt, (b', x')) ∧
  x' = [] ++ new ∧ tiles (100 * 0) new (100 * last_preallocated_block_ b').
Proof.
  destruct (preallocation_has_no_gaps demo_allocate (λ x, x) demo_allocate_logs 100
    [(0, 150); (150, 60); (20, 10)] new_IOOptions None (mkWritable 0 100 IO_TOTAL WLTH_NOT_SET false) [])
    as (b' & x' & new & H1 & _ & H2 & H3 & _); [lia|unfold prepared; cbn; lia|repeat constructor; cbn; lia|].
  exists b', x', new. split; [exact H1|]. split; [exact H2|exact H3].
Defined.

(** ** A directory *)

Definition demo_children (_ : list byte) : M unit (Status * list (list byte)) :=
  mret (IOStatus.OK, [[x61]; [x62]; [x63]]).
(** The second file is gone. *)
Definition demo_size (f : list byte) : M unit (Status * option Z) :=
  if decide (f = child_path [] [x62]) then mret (IOStatus.NotFound kNone, Some 77)
  else mret (IOStatus.OK, Some (Z.of_nat (length f))).
Definition demo_exists (f : list byte) : M unit Status :=
  if decide (f = child_path [] [x62]) then mret (IOStatus.NotFound kNone) else mret IOStatus.OK.
Lemma demo_size_set f s st n s' : demo_size f s = Done ((st, n), s') → ok st = true → n ≠ None.
Proof. unfold demo_size. case_decide; by intros [= <- <- _]. Qed.

Lemma attributes_are_the_names_and_sizes_witness :
  (seen <$> GetChildrenFileAttributes demo_children demo_exists demo_size [] [mkAttributes [] 0 kHot]) tt =
    Done ((IOStatus.OK, Some [mkAttributes [x61] 2 kHot; mkAttributes [x63] 2 kTempUnknown]), tt).
Proof.
  refine (eq_trans (attributes_are_the_names_and_sizes demo_children demo_exists demo_size demo_size_set
    [] [mkAttributes [] 0 kHot] tt) _).
  vm_compute. reflexivity.
Defined.

Example demo_counters :
  counters (AddCounter [x62] 3 (AddCounter [x61] 2 (AddCounter [x62] 1 (new_IODebugContext (cost := unit))))) =
  [([x61], 2); ([x62], 1)].
Proof. reflexivity. Qed.

(** ** Cleanups *)

(** A function is a number, written down when it is called. *)
Definition note (f : Z) (_ _ : option ptr) : M (list Z) unit := modify (λ w, w ++ [f]).
Definition two_nodes : gmap ptr (Cleanup (F:=Z)) :=
  <[4%positive := mkCleanup (Some 2) None None (Some 9%positive)]>
    {[9%positive := mkCleanup (Some 3) None None None]}.

Lemma reset_calls_each_once_witness :
  match Reset note (mkCleanup (Some 1) None None (Some 4%positive)) (mkHeap two_nodes []),
        call_all note [(1, None, None); (2, None, None); (3, None, None)] [] with
  | Done (c', h'), Done (_, w) => h' = mkHeap (foldr delete two_nodes [4%positive; 9%positive]) w ∧
      HasCleanups c' = false ∧ Reset note c' h' = Done (c', h')
  | Undef e, Undef e' => e = e'
  | _, _ => False
  end.
Proof.
  refine (reset_calls_each_once note 1 None None [(2, None, None); (3, None, None)] [4%positive; 9%positive]
    (mkCleanup (Some 1) None None (Some 4%positive)) (mkHeap two_nodes []) eq_refl eq_refl eq_refl _).
  cbn [next nodes]. split; [reflexivity|]. split; [intros H; set_solver|].
  eexists. split; [vm_compute; reflexivity|]. split; [reflexivity|]. split; [set_solver|].
  eexists. split; [vm_compute; reflexivity|]. reflexivity.
Defined.
Example demo_reset :
  Reset note (mkCleanup (Some 1) None None (Some 4%positive)) (mkHeap two_nodes []) =
  Done (mkCleanup None None None None, mkHeap ∅ [1; 2; 3]).
Proof. vm_compute. reflexivity. Qed.

(** ** Casts *)

Definition outer : Customizable := mkCustomizable [x61] (Some []) (λ _, None) (Some 2%positive).
Definition inner : Customizable := mkCustomizable [x62] (Some [x63]) (λ _, Some 8%positive) None.
Definition two_objects : gmap ptr Customizable := <[1%positive := outer]> {[2%positive := inner]}.

Lemma casts_find_the_outermost_witness :
  chain two_objects (Some 1%positive) [1%positive; 2%positive] [outer; inner] ∧
  CheckedCast two_objects (depth two_objects) [x63] 1%positive = Done (Some 2%positive) ∧
  CheckedCast two_objects (depth two_objects) [] 1%positive = Done None.
Proof.
  assert (chain two_objects (Some 1%positive) [1%positive; 2%positive] [outer; inner]) as Hc by (by repeat split).
  destruct (casts_find_the_outermost two_objects 1%positive [1%positive; 2%positive] [outer; inner] [x63] Hc)
    as (H & _ & _ & H' & _).
  split; [exact Hc|]. split; [exact (eq_trans H eq_refl)|exact H'].
Defined.

(** ** Transactions *)

(** Statuses without their text. *)
Definition plain_msg (c : Code) (sc : SubCode) (_ _ : Slice) (sev : Severity) : Status :=
  mkStatus c sc sev false false 0 None.
(** Every key reads as itself, but the empty one is not there. *)
Definition demo_get (_ : Z) (_ : option unit) (key : Slice) (value : list byte) : M unit (Status * list byte) :=
  mret (if decide (contents key = []) then (NotFound kNone, value) else (RocksStatus.OK, contents key)).

Lemma multi_get_reads_each_key_witness :
  match MultiGet plain_msg (C:=unit) id (λ o c k p, GetImpl demo_get o c k (Some p)) kMultiGet None
          [Slice_of_string [x61]; empty_slice] [new_PinnableSlice; new_PinnableSlice] [] tt,
        read_each (demo_get kMultiGet None) [Slice_of_string [x61]; empty_slice] [[]; []] tt with
  | Done ((vs, ss), s1), Done (xs, s2) => s1 = s2 ∧ ss = xs.*1 ∧
      Forall3 (λ x p p', shows x.2 p p') xs [new_PinnableSlice; new_PinnableSlice] vs
  | Undef f, Undef g => f = g
  | _, _ => False
  end.
Proof.
  refine (multi_get_reads_each_key plain_msg (C:=unit) id demo_get kMultiGet None
    [Slice_of_string [x61]; empty_slice] [new_PinnableSlice; new_PinnableSlice] [] tt eq_refl _).
  repeat constructor.
Defined.

(** ** Batches *)

(** A handler that writes down the keys that are put. *)
Definition key_log (A : Type) (c : handler A) : option (M (list (list byte)) A) :=
  match c with h_Put k _ => Some (modify (λ l, l ++ [contents k])) | _ => None end.
Definition demo_batch : list write :=
  [w_put 0 (Slice_of_string [x61]) empty_slice; w_delete 0 (Slice_of_string [x62]);
   w_put 5 (Slice_of_string [x63]) empty_slice; w_put 0 (Slice_of_string [x64]) empty_slice].

Lemma old_handlers_see_the_default_family_witness :
  iterate (Handler plain_msg (λ _, mret tt) (mret true) key_log) demo_batch [] =
  Done (mkStatus kInvalidArgument kNone kNoError false false 0 None, [[x61]]).
Proof.
  refine (eq_trans (old_handlers_see_the_default_family plain_msg (λ _, mret tt) (mret true) key_log
    (λ _, eq_refl) demo_batch [] _) _).
  - unfold old_handler. repeat split.
  - vm_compute. reflexivity.
Defined.
