(* ===== verification/Cache.v ===== *)
(** Caches (include/rocksdb/advanced_cache.h, secondary_cache.h): the helpers that go with the objects in
    a cache, with what their constructor asserts; the calls of a cache and of a secondary cache, what
    they do by default, and the wrappers.  What the caches themselves do is compiled elsewhere. *)
From S2P Require Import Prelude Slice RocksStatus RocksDB Dispatch.

Local Open Scope Z_scope.

(** ** [CacheItemHelper] *)

(** [CacheEntryRole] of cache.h *)
Inductive CacheEntryRole :=
  | kDataBlock | kFilterBlock | kFilterMetaBlock | kDeprecatedFilterBlock | kIndexBlock | kOtherBlock
  | kWriteBuffer | kCompressionDictionaryBuildingBuffer | kFilterConstruction | kBlockBasedTableReader
  | kFileMetadata | kBlobValue | kBlobCache | kMisc.
#[export] Instance role_eq_dec : EqDecision CacheEntryRole.
Proof. solve_decision. Defined.

(** The callbacks are pointers to functions; [without_secondary_compat] is a pointer to a helper. *)
Record CacheItemHelper := mkHelper {
  del_cb : option ptr;
  size_cb : option ptr;
  saveto_cb : option ptr;
  create_cb : option ptr;
  role : CacheEntryRole;
  without_secondary_compat : option ptr;
}.
Definition IsSecondaryCacheCompatible (h : CacheItemHelper) : bool := bool_decide (size_cb h ≠ None).

(** The helpers that are alive, by address. *)
Abbreviation helpers := (gmap ptr CacheItemHelper).
Definition helper_at (p : option ptr) : M helpers CacheItemHelper :=
  p ← deref p; h ← gets (lookup p); from_option mret (undef UseAfterFree) h.
Definition asserting (b : bool) : M helpers unit := lift_outcome (assert_that b).

(** The constructors, of the object at [this]: the members are set, then what they say is asserted. *)
Definition CacheItemHelper_full (this : ptr) (_role : CacheEntryRole)
    (_del_cb _size_cb _saveto_cb _create_cb _without_secondary_compat : option ptr) : M helpers unit :=
  modify <[this := mkHelper _del_cb _size_cb _saveto_cb _create_cb _role _without_secondary_compat]> ;;
  asserting (bool_decide (bool_decide (_size_cb ≠ None) = bool_decide (_saveto_cb ≠ None))) ;;
  asserting (bool_decide (bool_decide (_size_cb ≠ None) = bool_decide (_create_cb ≠ None))) ;;
  w ← helper_at _without_secondary_compat; asserting (bool_decide (_role = role w)) ;;
  w ← helper_at _without_secondary_compat; asserting (bool_decide (_del_cb = del_cb w)) ;;
  w ← helper_at _without_secondary_compat; asserting (negb (IsSecondaryCacheCompatible w)).
Definition CacheItemHelper_basic (this : ptr) (_role : CacheEntryRole) (_del_cb : option ptr) : M helpers unit :=
  CacheItemHelper_full this _role _del_cb None None None (Some this).
Definition CacheItemHelper_default (this : ptr) : M helpers unit := CacheItemHelper_basic this kMisc None.

(** ** The calls of a cache *)

Inductive Priority := HIGH | LOW | BOTTOM.

(** Objects, handles, helpers, callbacks and what else a cache only hands on are pointers; so is a
    handle that a lookup fills in.  What is written through a pointer is handed in and comes back. *)
Inductive cache : Type → Type :=
  | c_Name : cache (list byte)
  | c_Insert (key : Slice) (obj helper : option ptr) (charge : Z) (handle : option (option ptr))
      (priority : Priority) (compressed : Slice) (type : Z) : cache (Status * option (option ptr))
  | c_CreateStandalone (key : Slice) (obj helper : option ptr) (charge : Z) (allow_uncharged : bool) :
      cache (option ptr)
  | c_Lookup (key : Slice) (helper create_context : option ptr) (priority : Priority) (stats : option ptr) :
      cache (option ptr)
  | c_Ref (handle : option ptr) : cache bool
  | c_Release (handle : option ptr) (erase_if_last_ref : bool) : cache bool
  | c_Release_useful (handle : option ptr) (useful erase_if_last_ref : bool) : cache bool
  | c_Value (handle : option ptr) : cache (option ptr)
  | c_Erase (key : Slice) : cache unit
  | c_NewId : cache Z
  | c_SetCapacity (capacity : Z) : cache unit
  | c_SetStrictCapacityLimit (strict : bool) : cache unit
  | c_HasStrictCapacityLimit : cache bool
  | c_GetCapacity : cache Z
  | c_GetUsage : cache Z
  | c_GetOccupancyCount : cache Z
  | c_GetTableAddressCount : cache Z
  | c_GetUsage_of (handle : option ptr) : cache Z
  | c_GetPinnedUsage : cache Z
  | c_GetCharge (handle : option ptr) : cache Z
  | c_GetCacheItemHelper (handle : option ptr) : cache (option ptr)
  | c_GetSecondaryCacheCapacity (size : Z) : cache (Status * Z)
  | c_GetSecondaryCachePinnedUsage (size : Z) : cache (Status * Z)
  | c_DisownData : cache unit
  | c_ApplyToAllEntries (callback : option ptr) (average_entries_per_lock : Z) : cache unit
  | c_ApplyToHandle (other handle callback : option ptr) : cache unit
  | c_EraseUnRefEntries : cache unit
  | c_GetPrintableOptions : cache (list byte)
  | c_ReportProblems (info_log : option ptr) : cache unit
  | c_GetHashSeed : cache Z
  | c_StartAsyncLookup (async_handle : option ptr) : cache unit
  | c_WaitAll (async_handles : option ptr) (count : Z) : cache unit.

Section Cache.
Context {S : Type}.
(** The methods without a body in the header. *)
Context (compiled : object cache S).

Definition cache_defaults (self : object cache S) : object cache S := λ A c,
  match c with
  | c_GetOccupancyCount => mret SIZE_MAX
  | c_GetTableAddressCount => mret 0
  | c_GetSecondaryCacheCapacity size => mret (NotSupported kNone, size)
  | c_GetSecondaryCachePinnedUsage size => mret (NotSupported kNone, size)
  | c_DisownData => mret tt
  | c_GetPrintableOptions => mret []
  | c_ReportProblems _ => mret tt
  | c_GetHashSeed => mret 0
  | c_Release_useful handle _ erase_if_last_ref => self _ (c_Release handle erase_if_last_ref)
  | c => compiled _ c
  end.
Definition Cache (overrides : overriding cache S) : object cache S := virtual cache_defaults overrides 2.
Lemma cache_settles : settles cache_defaults 2.
Proof. settle (λ A (c : cache A), match c with c_Release_useful _ _ _ => 1 | _ => 0 end)%nat. Qed.

(** Not virtual *)
Definition BasicLookup (o : object cache S) (key : Slice) (stats : option ptr) : M S (option ptr) :=
  o _ (c_Lookup key None None LOW stats).
End Cache.

(** The members of the class, and the allocator that its users ask for. *)
Record CacheMembers := mkCacheMembers { memory_allocator_ : option ptr; eviction_callback_ : option ptr }.
Definition new_Cache (allocator : option ptr) : CacheMembers := mkCacheMembers allocator None.
Definition memory_allocator (m : CacheMembers) : option ptr := memory_allocator_ m.

(** ** [AsyncLookupHandle] *)

Record AsyncLookupHandle := mkAsync {
  key : Slice;
  helper : option ptr;
  create_context : option ptr;
  priority : Priority;
  stats : option ptr;
  result_handle : option ptr;
  pending_handle : option ptr;
  pending_cache : option ptr;
  found_dummy_entry : bool;
  kept_in_sec_cache : bool;
}.
Definition new_AsyncLookupHandle : AsyncLookupHandle :=
  mkAsync empty_slice None None LOW None None None None false false.
Definition AsyncLookupHandle_of (_key : Slice) (_helper _create_context : option ptr) (_priority : Priority)
    (_stats : option ptr) : AsyncLookupHandle :=
  mkAsync _key _helper _create_context _priority _stats None None None false false.
(** [IsPending] is compiled elsewhere. *)
Definition destroy_AsyncLookupHandle (IsPending : AsyncLookupHandle → bool) (h : AsyncLookupHandle) : outcome unit :=
  assert_that (negb (IsPending h)).

(** ** [CacheWrapper] *)

(** The state of a wrapper: the wrappers that are alive with their targets, because [ApplyToHandle]
    looks into another one. *)
Abbreviation wrappers := (gmap ptr (option ptr)).
Definition target_of (ws : wrappers) (cache : option ptr) : outcome (option ptr) :=
  match cache with
  | None => Undef NullDeref
  | Some w => from_option Done (Undef UseAfterFree) (ws !! w)
  end.

Section CacheWrapper.
Context {T : Type} (target_ : object cache T).

Definition CacheWrapper : overriding cache (wrappers * T) := λ A c,
  match c with
  | c_Name => None
  | c_Release_useful _ _ _ => None
  | c_GetSecondaryCacheCapacity _ => None
  | c_GetSecondaryCachePinnedUsage _ => None
  | c_DisownData => None
  | c_GetPrintableOptions => None
  | c_ApplyToHandle other handle callback =>
      Some (ws ← gets fst; other ← lift_outcome (target_of ws other);
            on_target (target_ _ (c_ApplyToHandle other handle callback)))
  | c => Some (on_target (target_ _ c))
  end.
End CacheWrapper.
(** Its allocator is that of no cache, whatever the target has. *)
Definition new_CacheWrapper : CacheMembers := new_Cache None.

(** ** Secondary caches *)

Inductive CacheTier := kVolatileTier | kVolatileCompressedTier | kNonVolatileBlockTier.

(** A handle for the result of a lookup is a pointer. *)
Inductive secondary : Type → Type :=
  | s_Insert (key : Slice) (obj helper : option ptr) (force_insert : bool) : secondary Status
  | s_InsertSaved (key saved : Slice) (type : Z) (source : CacheTier) : secondary Status
  | s_Lookup (key : Slice) (helper create_context : option ptr) (wait advise_erase : bool)
      (stats : option ptr) (kept_in_sec_cache : bool) : secondary (option ptr * bool)
  | s_SupportForceErase : secondary bool
  | s_Erase (key : Slice) : secondary unit
  | s_WaitAll (handles : list (option ptr)) : secondary unit
  | s_SetCapacity (capacity : Z) : secondary Status
  | s_GetCapacity (capacity : Z) : secondary (Status * Z)
  | s_Deflate (decrease : Z) : secondary Status
  | s_Inflate (increase : Z) : secondary Status.

Definition SecondaryCache {S : Type} (compiled : object secondary S) : object secondary S := λ A c,
  match c with
  | s_SetCapacity _ => (mret (NotSupported kNone) : M S Status)
  | s_GetCapacity capacity => mret (NotSupported kNone, capacity)
  | s_Deflate _ => mret (NotSupported kNone)
  | s_Inflate _ => mret (NotSupported kNone)
  | c => compiled _ c
  end.
Definition SecondaryCacheWrapper {T} (target : object secondary T) : object secondary (unit * T) := λ A c,
  match c with
  | s_Insert key obj helper force_insert => on_target (target _ (s_Insert key obj helper force_insert))
  | s_InsertSaved key saved type source => on_target (target _ (s_InsertSaved key saved type source))
  | s_Lookup key helper ctx wait advise_erase stats kept =>
      on_target (target _ (s_Lookup key helper ctx wait advise_erase stats kept))
  | s_SupportForceErase => on_target (target _ s_SupportForceErase)
  | s_Erase key => on_target (target _ (s_Erase key))
  | s_WaitAll handles => on_target (target _ (s_WaitAll handles))
  | s_SetCapacity capacity => on_target (target _ (s_SetCapacity capacity))
  | s_GetCapacity capacity => on_target (target _ (s_GetCapacity capacity))
  | s_Deflate decrease => on_target (target _ (s_Deflate decrease))
  | s_Inflate increase => on_target (target _ (s_Inflate increase))
  end.
