(* ===== verification/CacheSpec.v ===== *)
(** What Cache.v promises: every helper that was constructed is well-formed; a wrapped cache answers as the
    cache below, to calls that a wrapper changes or loses in the ways listed; and the wrapper of a
    secondary cache changes nothing. *)
From S2P Require Import Prelude Slice RocksStatus RocksDB Dispatch Cache.

Local Open Scope Z_scope.

(** ** Helpers *)

(** The three callbacks for a secondary cache come together, and the helper without them is alive, is for
    the same role with the same deleter, and has none of them. *)
Definition well_formed (hs : gmap ptr CacheItemHelper) (h : CacheItemHelper) : Prop :=
  (saveto_cb h ≠ None ↔ size_cb h ≠ None) ∧ (create_cb h ≠ None ↔ size_cb h ≠ None) ∧
  ∃ w h', without_secondary_compat h = Some w ∧ hs !! w = Some h' ∧
    role h' = role h ∧ del_cb h' = del_cb h ∧ size_cb h' = None.
Definition helpers_ok (hs : gmap ptr CacheItemHelper) : Prop := ∀ a h, hs !! a = Some h → well_formed hs h.

Lemma well_formed_extends hs this h0 h :
  hs !! this = None → well_formed hs h → well_formed (<[this := h0]> hs) h.
Proof.
  intros Hf (H1 & H2 & w & h' & Hw & Hl & H). split; [done|]. split; [done|]. exists w, h'. split; [done|].
  split; [|done]. by rewrite lookup_insert_ne by congruence.
Qed.
Lemma bool_same (a b : option ptr) :
  bool_decide (bool_decide (a ≠ None) = bool_decide (b ≠ None)) = true ↔ (b ≠ None ↔ a ≠ None).
Proof. rewrite bool_decide_eq_true. repeat case_bool_decide; naive_solver. Qed.
Lemma asserting_done b hs u hs' : asserting b hs = Done (u, hs') ↔ b = true ∧ hs' = hs.
Proof. unfold asserting, lift_outcome, assert_that. destruct b; destruct u; naive_solver. Qed.
Lemma helper_at_done p hs h hs' :
  helper_at p hs = Done (h, hs') ↔ hs' = hs ∧ ∃ w, p = Some w ∧ hs !! w = Some h.
Proof.
  unfold helper_at. destruct p as [w|]; [|cbn; naive_solver].
  change ((from_option mret (undef UseAfterFree) (hs !! w) : M _ _) hs = Done (h, hs') ↔
    hs' = hs ∧ ∃ w', Some w = Some w' ∧ hs !! w' = Some h).
  destruct (hs !! w) as [h'|] eqn:E; cbn; (split; [intros [=]|intros (-> & w' & [= <-] & Hl)]); simplify_eq; eauto.
Qed.
Lemma bind_is_done {S A B} (m : M S A) (k : A → M S B) s b s' :
  (m ≫= k) s = Done (b, s') ↔ ∃ a s1, m s = Done (a, s1) ∧ k a s1 = Done (b, s').
Proof. unfold mbind, M_bind. destruct (m s) as [[a s1]|e]; naive_solver. Qed.

Lemma constructor_done this r d sz sv cr w hs hs' :
  CacheItemHelper_full this r d sz sv cr w hs = Done (tt, hs') ↔
  hs' = <[this := mkHelper d sz sv cr r w]> hs ∧ well_formed hs' (mkHelper d sz sv cr r w).
Proof.
  unfold CacheItemHelper_full. rewrite bind_is_done.
  setoid_rewrite bind_is_done. setoid_rewrite asserting_done.
  setoid_rewrite bind_is_done. setoid_rewrite asserting_done.
  setoid_rewrite bind_is_done. setoid_rewrite helper_at_done.
  setoid_rewrite bind_is_done. setoid_rewrite asserting_done.
  setoid_rewrite bind_is_done. setoid_rewrite helper_at_done.
  setoid_rewrite bind_is_done. setoid_rewrite asserting_done.
  setoid_rewrite bind_is_done. setoid_rewrite helper_at_done. setoid_rewrite asserting_done.
  setoid_rewrite bool_same. setoid_rewrite bool_decide_eq_true. unfold well_formed. cbn [size_cb saveto_cb create_cb
    without_secondary_compat role del_cb].
  assert (∀ h, negb (IsSecondaryCacheCompatible h) = true ↔ size_cb h = None) as Hneg.
  { intros h. unfold IsSecondaryCacheCompatible. rewrite negb_true_iff, bool_decide_eq_false.
    destruct (size_cb h); naive_solver. }
  setoid_rewrite Hneg. split.
  - intros (u & s1 & Hm & H). unfold modify in Hm. injection Hm as <- <-. naive_solver.
  - intros (-> & H1 & H2 & p & h' & -> & Hl & Hr & Hd & Hs). exists tt, (<[this := mkHelper d sz sv cr r (Some p)]> hs).
    split; [done|]. exists tt. eexists. split; [done|]. exists tt. eexists. split; [done|].
    naive_solver.
Qed.

(** The constructor of one helper, with its arguments. *)
Record construction := mkConstruction {
  c_this : ptr;
  c_helper : CacheItemHelper;
}.
Definition construct (c : construction) : M (gmap ptr CacheItemHelper) unit :=
  let h := c_helper c in
  CacheItemHelper_full (c_this c) (role h) (del_cb h) (size_cb h) (saveto_cb h) (create_cb h)
    (without_secondary_compat h).
Fixpoint construct_all (cs : list construction) : M (gmap ptr CacheItemHelper) unit :=
  match cs with
  | [] => mret tt
  | c :: cs => construct c ;; construct_all cs
  end.
Lemma helpers_ok_insert hs this h :
  hs !! this = None → helpers_ok hs → well_formed (<[this := h]> hs) h → helpers_ok (<[this := h]> hs).
Proof.
  intros Hf Hok Hwf a h0. destruct (decide (a = this)) as [->|Hne].
  - rewrite lookup_insert_eq. by intros [= <-].
  - rewrite lookup_insert_ne by done. intros Hl. apply well_formed_extends; [done|]. by eapply Hok.
Qed.

(** C27. Helpers are constructed one after the other, each in fresh memory.  When no assertion fails, all of
    them are well-formed, and stay so: the callbacks for a secondary cache are all there or all missing,
    and the helper that an object gets when it comes back from a secondary cache is alive, destroys it
    the same way, and never sends it there again.  No assertion fails exactly when the helper fits
    those before it, and a helper without support for a secondary cache always does. *)
Theorem helpers_are_well_formed (cs : list construction) (hs : gmap ptr CacheItemHelper) :
  NoDup (c_this <$> cs) → Forall (λ c, hs !! c_this c = None) cs → helpers_ok hs →
  (∀ hs', construct_all cs hs = Done (tt, hs') → helpers_ok hs') ∧
  (∀ c, is_done (construct c hs) = true ↔ well_formed (<[c_this c := c_helper c]> hs) (c_helper c)) ∧
  (∀ this r d, hs !! this = None → ∃ hs', CacheItemHelper_basic this r d hs = Done (tt, hs') ∧ helpers_ok hs').
Proof.
  intros Hnd Hf Hok. split; [|split].
  - revert hs Hf Hok. induction cs as [|c cs IH]; intros hs Hf Hok hs'; [by intros [= <-]|].
    apply Forall_cons_1 in Hf as [Hc Hcs]. apply NoDup_cons in Hnd as [Hnin Hnd].
    cbn [construct_all]. rewrite bind_is_done. intros (u & hs1 & Hd & Hrest). destruct u.
    apply constructor_done in Hd as [-> Hwf]. destruct c as [this [d sz sv cr r w]].
    eapply IH; [done| |by apply helpers_ok_insert|exact Hrest].
    apply Forall_forall. intros c' Hin. cbn. rewrite lookup_insert_ne; [by apply (proj1 (Forall_forall _ _) Hcs)|].
    intros ->. apply Hnin, list_elem_of_fmap. by exists c'.
  - intros [this [d sz sv cr r w]]. cbn. split; intros H.
    + destruct (construct _ hs) as [[[] hs']|] eqn:Hd; [|done]. by apply constructor_done in Hd as [-> Hwf].
    + pose proof (proj2 (constructor_done this r d sz sv cr w hs _) (conj eq_refl H)) as Hd.
      unfold construct, is_done. cbn. by rewrite Hd.
  - intros this r d Hfr. eexists. assert (well_formed (<[this := mkHelper d None None None r (Some this)]> hs)
      (mkHelper d None None None r (Some this))) as Hwf.
    { split; [done|]. split; [done|]. eexists _, _. split; [done|]. rewrite lookup_insert_eq. naive_solver. }
    split; [apply constructor_done; by split|]. by apply helpers_ok_insert.
Qed.

(** ** The wrapper of a cache *)

(** The call that reaches the target. *)
Definition below (ws : gmap ptr (option ptr)) (A : Type) (c : cache A) : cache A :=
  match c with
  | c_ApplyToHandle other handle callback => c_ApplyToHandle (other ≫= λ w, default None (ws !! w)) handle callback
  | c_Release_useful handle _ erase_if_last_ref => c_Release handle erase_if_last_ref
  | c => c
  end.
(** The calls that reach it; another cache has to be a wrapper. *)
Definition reaches (ws : gmap ptr (option ptr)) (A : Type) (c : cache A) : bool :=
  match c with
  | c_Name | c_GetSecondaryCacheCapacity _ | c_GetSecondaryCachePinnedUsage _ | c_DisownData
  | c_GetPrintableOptions => false
  | c_ApplyToHandle other _ _ => bool_decide (is_Some (other ≫= λ w, ws !! w))
  | _ => true
  end.

Lemma target_of_known ws other :
  is_Some (other ≫= λ w, ws !! w) → target_of ws other = Done (other ≫= λ w, default None (ws !! w)).
Proof. intros [t H]. destruct other as [w|]; [|done]. cbn in *. by rewrite H. Qed.

(** C26. To every client, a cache in a wrapper is the cache below with some calls changed: the handle of
    another wrapper is applied to that wrapper's target, and what a client says of the usefulness of an
    entry when it releases it is dropped, also when the cache below would listen.  The calls of which
    the wrapper keeps no override never reach the target: the capacity and the pinned usage of its
    secondary cache are not supported, its options are empty, and its data is not disowned; and the
    wrapper has no allocator even when the target has one. *)
Theorem wrapped_caches_are_the_caches {T B} (compiled : object cache (gmap ptr (option ptr) * T))
    (target : object cache T) (p : client cache B) ws (t : T) :
  let wrapped := Cache compiled (CacheWrapper target) in
  only (reaches ws) p →
  run wrapped p (ws, t) = on_target (run target (rename (below ws) p)) (ws, t) ∧
  (∀ n, wrapped _ (c_GetSecondaryCacheCapacity n) (ws, t) = Done (NotSupported kNone, n, (ws, t))) ∧
  (∀ n, wrapped _ (c_GetSecondaryCachePinnedUsage n) (ws, t) = Done (NotSupported kNone, n, (ws, t))) ∧
  wrapped _ c_DisownData (ws, t) = Done (tt, (ws, t)) ∧
  wrapped _ c_GetPrintableOptions (ws, t) = Done ([], (ws, t)) ∧
  (∀ other h cb, is_Some (other ≫= λ w, ws !! w) ∨
     is_done (wrapped _ (c_ApplyToHandle other h cb) (ws, t)) = false) ∧
  memory_allocator new_CacheWrapper = None.
Proof.
  intros wrapped Hp. split; [|do 4 (split; [done|])].
  - apply (run_renames (reaches ws)); [|done]. clear p Hp. intros A c t0 Hc.
    destruct c; try done. cbn in Hc. apply bool_decide_eq_true in Hc.
    cbn. unfold mbind, M_bind, gets, lift_outcome. cbn. by rewrite (target_of_known ws other Hc).
  - split; [|done]. intros other h cb. destruct other as [w|]; [|by right]. cbn.
    destruct (ws !! w) as [o|] eqn:E; [by left; eauto|right].
    unfold mbind, M_bind, gets, lift_outcome. cbn. by rewrite E.
Qed.

(** ** The wrapper of a secondary cache *)

(** No client tells the wrapper of a secondary cache from the cache. *)
Theorem wrapped_secondary_caches_are_the_caches {T B} (target : object secondary T) (p : client secondary B) (t : T) :
  run (SecondaryCacheWrapper target) p (tt, t) = on_target (run target p) (tt, t).
Proof. apply run_forwards. by intros A []. Qed.
