(* ===== verification/Compression.v ===== *)
(** Custom compression (include/rocksdb/advanced_compression.h): compressors, decompressors and the managers
    that make them; what the base classes do, their wrappers, the samples for a dictionary, and working
    areas, which know the object that gave them out.  Compressing itself is what a class overrides. *)
From S2P Require Import Prelude Slice RocksStatus RocksDB Dispatch IntervalSet Cache.
Import IntervalSet.ManagedPtr.

Local Open Scope Z_scope.

Definition kNoCompression : Z := 0x00.
Definition kDisableCompressionOption : Z := 0xff.

(** ** Samples for a dictionary *)

Record DictSampleArgs := mkSamples { sample_data : list byte; sample_lens : list Z }.
Definition samples_empty (a : DictSampleArgs) : bool := bool_decide (sample_data a = []).
(** The sum is a [size_t]. *)
Fixpoint total_loop (total_len : Z) (lens : list Z) : Z :=
  match lens with
  | [] => total_len
  | len :: lens => total_loop (u64 (total_len + len)) lens
  end.
Definition Verify (a : DictSampleArgs) : bool :=
  total_loop 0 (sample_lens a) =? Z.of_nat (length (sample_data a)).

(** ** Compressors *)

(** A compressor or decompressor that a call makes is a pointer; arguments that a call may move from, or
    write to, are handed in and come back. *)
Inductive compressor : Type → Type :=
  | cp_Name : compressor (list byte)
  | cp_GetId : compressor (list byte)
  | cp_GetMaxSampleSizeIfWantDict (block_type : CacheEntryRole) : compressor Z
  | cp_GetSerializedDict : compressor Slice
  | cp_GetPreferredCompressionType : compressor Z
  | cp_Clone : compressor (option ptr)
  | cp_MaybeCloneSpecialized (block_type : CacheEntryRole) (dict_samples : DictSampleArgs) :
      compressor (option ptr * DictSampleArgs)
  | cp_ReleaseWorkingArea (wa : option ptr) : compressor unit
  | cp_ObtainWorkingArea : compressor ManagedPtr
  | cp_CompressBlock (uncompressed_data : Slice) (compressed_output : option ptr) (output_size : Z) (type : Z)
      (working_area : option ManagedPtr) : compressor (Status * Z * Z * option ManagedPtr)
  | cp_GetOptimizedDecompressor : compressor (option ptr).

Section Compressor.
Context {S : Type} (pure : object compressor S).

Definition compressor_defaults (self : object compressor S) : object compressor S := λ A c,
  match c with
  | cp_GetId => self _ cp_Name
  | cp_GetMaxSampleSizeIfWantDict _ => mret 0
  | cp_GetSerializedDict => mret empty_slice
  | cp_GetPreferredCompressionType => mret kDisableCompressionOption
  | cp_MaybeCloneSpecialized _ dict_samples =>
      lift_outcome (assert_that (samples_empty dict_samples)) ;; mret (None, dict_samples)
  | cp_ReleaseWorkingArea _ => mret tt
  | cp_ObtainWorkingArea => mret new_ManagedPtr
  | cp_GetOptimizedDecompressor => mret None
  | c => pure _ c
  end.
Definition Compressor (overrides : overriding compressor S) : object compressor S :=
  virtual compressor_defaults overrides 2.
Lemma compressor_settles : settles compressor_defaults 2.
Proof. settle (λ A (c : compressor A), match c with cp_GetId => 1 | _ => 0 end)%nat. Qed.

(** Not virtual; on an object [o] *)
Definition CloneMaybeSpecialized (o : object compressor S) (block_type : CacheEntryRole)
    (dict_samples : DictSampleArgs) : M S (option ptr * DictSampleArgs) :=
  '(clone, dict_samples) ← o _ (cp_MaybeCloneSpecialized block_type dict_samples);
  match clone with
  | Some p => mret (Some p, dict_samples)
  | None =>
      clone ← o _ cp_Clone;
      lift_outcome (assert_that (bool_decide (clone ≠ None))) ;; mret (clone, dict_samples)
  end.
End Compressor.

Definition CompressorWrapper {T} (wrapped_ : object compressor T) : overriding compressor (unit * T) := λ A c,
  match c with
  | cp_GetMaxSampleSizeIfWantDict t => Some (on_target (wrapped_ _ (cp_GetMaxSampleSizeIfWantDict t)))
  | cp_GetSerializedDict => Some (on_target (wrapped_ _ cp_GetSerializedDict))
  | cp_GetPreferredCompressionType => Some (on_target (wrapped_ _ cp_GetPreferredCompressionType))
  | cp_MaybeCloneSpecialized block_type dict_samples =>
      Some ('(clone, dict_samples) ← on_target (wrapped_ _ (cp_MaybeCloneSpecialized block_type dict_samples));
            lift_outcome (assert_that (bool_decide (clone = None))) ;; mret (clone, dict_samples))
  | cp_ObtainWorkingArea => Some (on_target (wrapped_ _ cp_ObtainWorkingArea))
  | cp_CompressBlock d out n t wa => Some (on_target (wrapped_ _ (cp_CompressBlock d out n t wa)))
  | cp_GetOptimizedDecompressor => Some (on_target (wrapped_ _ cp_GetOptimizedDecompressor))
  | _ => None
  end.

(** ** Decompressors *)

Record DecompressArgs := mkArgs {
  compression_type : Z;
  compressed_data : Slice;
  uncompressed_size : Z;
  working_area : option ManagedPtr;
}.
Definition new_DecompressArgs : DecompressArgs := mkArgs kNoCompression empty_slice 0 None.

Inductive decompressor : Type → Type :=
  | dc_Name : decompressor (list byte)
  | dc_ReleaseWorkingArea (wa : option ptr) : decompressor unit
  | dc_ObtainWorkingArea (preferred : Z) : decompressor ManagedPtr
  | dc_GetSerializedDict : decompressor Slice
  | dc_MaybeCloneForDict (serialized_dict : Slice) (out : option ptr) : decompressor (Status * option ptr)
  | dc_ApproximateOwnedMemoryUsage : decompressor Z
  | dc_ExtractUncompressedSize (args : DecompressArgs) : decompressor (Status * DecompressArgs)
  | dc_DecompressBlock (args : DecompressArgs) (uncompressed_output : option ptr) : decompressor Status.

Section Decompressor.
Context {S : Type} (Status_msg : Code → SubCode → Slice → Slice → Severity → Status)
        (compiled : object decompressor S).
Definition decompressor_defaults (self : object decompressor S) : object decompressor S := λ A c,
  match c with
  | dc_ReleaseWorkingArea wa => lift_outcome (assert_that (bool_decide (wa = None)))
  | dc_ObtainWorkingArea _ => mret new_ManagedPtr
  | dc_MaybeCloneForDict _ out =>
      name ← self _ dc_Name;
      mret (NotSupported_msg Status_msg
              (Slice_of_string (str "Dictionary compression not (yet) supported by " ++ name)) empty_slice, out)
  | dc_ApproximateOwnedMemoryUsage => mret 0
  | c => compiled _ c
  end.
Definition Decompressor (overrides : overriding decompressor S) : object decompressor S :=
  virtual decompressor_defaults overrides 2.
Lemma decompressor_settles : settles decompressor_defaults 2.
Proof. settle (λ A (c : decompressor A), match c with dc_MaybeCloneForDict _ _ => 1 | _ => 0 end)%nat. Qed.
End Decompressor.

Definition DecompressorWrapper {T} (wrapped_ : object decompressor T) : object decompressor (unit * T) := λ A c,
  match c with
  | dc_Name => on_target (wrapped_ _ dc_Name)
  | dc_ReleaseWorkingArea wa => on_target (wrapped_ _ (dc_ReleaseWorkingArea wa))
  | dc_ObtainWorkingArea preferred => on_target (wrapped_ _ (dc_ObtainWorkingArea preferred))
  | dc_GetSerializedDict => on_target (wrapped_ _ dc_GetSerializedDict)
  | dc_MaybeCloneForDict dict out => on_target (wrapped_ _ (dc_MaybeCloneForDict dict out))
  | dc_ApproximateOwnedMemoryUsage => on_target (wrapped_ _ dc_ApproximateOwnedMemoryUsage)
  | dc_ExtractUncompressedSize args => on_target (wrapped_ _ (dc_ExtractUncompressedSize args))
  | dc_DecompressBlock args out => on_target (wrapped_ _ (dc_DecompressBlock args out))
  end.

(** ** Managers *)

(** The options and the context are handed on. *)
Section Managers.
Context {Context_ Options : Type}.

Inductive manager : Type → Type :=
  | cm_CompatibilityName : manager (list byte)
  | cm_FindCompatibleCompressionManager (compatibility_name : Slice) : manager (option ptr)
  | cm_SupportsCompressionType (type : Z) : manager bool
  | cm_GetCompressorForSST (context : Context_) (opts : Options) (preferred : Z) : manager (option ptr)
  | cm_GetCompressor (opts : Options) (type : Z) : manager (option ptr)
  | cm_GetDecompressor : manager (option ptr)
  | cm_GetDecompressorOptimizeFor (optimize_for_type : Z) : manager (option ptr)
  | cm_GetDecompressorForTypes (types : list Z) : manager (option ptr).

Definition manager_defaults {S} (compiled : object manager S) (self : object manager S) : object manager S := λ A c,
  match c with
  | cm_GetCompressorForSST _ opts preferred => self _ (cm_GetCompressor opts preferred)
  | cm_GetDecompressorOptimizeFor _ => self _ cm_GetDecompressor
  | cm_GetDecompressorForTypes _ => self _ cm_GetDecompressor
  | c => compiled _ c
  end.
Definition CompressionManager {S} (compiled : object manager S) (overrides : overriding manager S) :
    object manager S := virtual (manager_defaults compiled) overrides 2.
Lemma manager_settles {S} (compiled : object manager S) : settles (manager_defaults compiled) 2.
Proof.
  settle (λ A (c : manager A), match c with
    cm_GetCompressorForSST _ _ _ | cm_GetDecompressorOptimizeFor _ | cm_GetDecompressorForTypes _ => 1 | _ => 0 end)%nat.
Qed.

Definition CompressionManagerWrapper {T} (wrapped_ : object manager T) : object manager (unit * T) := λ A c,
  match c with
  | cm_CompatibilityName => on_target (wrapped_ _ cm_CompatibilityName)
  | cm_FindCompatibleCompressionManager name => on_target (wrapped_ _ (cm_FindCompatibleCompressionManager name))
  | cm_SupportsCompressionType type => on_target (wrapped_ _ (cm_SupportsCompressionType type))
  | cm_GetCompressorForSST context opts preferred =>
      on_target (wrapped_ _ (cm_GetCompressorForSST context opts preferred))
  | cm_GetCompressor opts type => on_target (wrapped_ _ (cm_GetCompressor opts type))
  | cm_GetDecompressor => on_target (wrapped_ _ cm_GetDecompressor)
  | cm_GetDecompressorOptimizeFor t => on_target (wrapped_ _ (cm_GetDecompressorOptimizeFor t))
  | cm_GetDecompressorForTypes types => on_target (wrapped_ _ (cm_GetDecompressorForTypes types))
  end.
End Managers.
Arguments manager : clear implicits.
