(* ===== verification/CompressionSpec.v ===== *)
(** What Compression.v promises: wrappers answer as what they wrap, clones are never null, samples are
    checked up to the width of a [size_t]. *)
From S2P Require Import Prelude Slice RocksStatus RocksDB Dispatch IntervalSet Cache Compression.
Import IntervalSet.ManagedPtr.

Local Open Scope Z_scope.

(** ** Wrappers *)

(** The calls that the wrapper of a compressor hands on as they are. *)
Definition handed_on (A : Type) (c : compressor A) : bool :=
  match c with
  | cp_Name | cp_GetId | cp_Clone | cp_MaybeCloneSpecialized _ _ | cp_ReleaseWorkingArea _ => false
  | _ => true
  end.

(** A client of a compressor that compresses block after block with one working area, and is left with
    that area. *)
Fixpoint compress_blocks (out : option ptr) (blocks : list Slice) (area : option ManagedPtr) :
    client compressor (list (Status * Z * Z) * option ManagedPtr) :=
  match blocks with
  | [] => Finish ([], area)
  | b :: blocks =>
      Call (cp_CompressBlock b out (size b) kNoCompression area) (λ '(s, n, type, area),
        client_bind (compress_blocks out blocks area) (λ '(l, area), Finish ((s, n, type) :: l, area)))
  end.
Definition compress_file (out : option ptr) (blocks : list Slice) :
    client compressor (list (Status * Z * Z) * option ManagedPtr) :=
  Call cp_ObtainWorkingArea (λ area, compress_blocks out blocks (Some area)).

Lemma compress_blocks_only out blocks area : only handed_on (compress_blocks out blocks area).
Proof.
  revert area. induction blocks as [|b blocks IH]; intros area; [done|]. split; [done|].
  intros [[[s n] type] area']. apply only_bind; [apply IH|]. by intros [l a].
Qed.

Lemma handed_on_forwards {T} (pure : object compressor (unit * T)) (target : object compressor T) A (c : compressor A) t :
  handed_on A c = true →
  Compressor pure (CompressorWrapper target) A c (tt, t) = on_target (target A c) (tt, t).
Proof. by destruct c. Qed.
Lemma rename_id {E B} (p : client E B) {S} (o : object E S) s : run o (rename (λ _ c, c) p) s = run o p s.
Proof.
  revert s. induction p as [b|A c k IH]; intros s; [done|]. cbn. unfold mbind, M_bind.
  destruct (o A c s) as [[a s']|]; [apply IH|done].
Qed.
Lemma wrapper_forwards {T B} (pure : object compressor (unit * T)) (target : object compressor T)
    (p : client compressor B) t :
  only handed_on p → run (Compressor pure (CompressorWrapper target)) p (tt, t) = on_target (run target p) (tt, t).
Proof.
  intros Hp. rewrite (run_renames handed_on (λ _ c, c) _ target p tt t); [|intros; by apply handed_on_forwards|done].
  unfold on_target. by rewrite rename_id.
Qed.

(** [ReleaseWorkingArea] as areas call it: which compressor is given back which area. *)
Definition give_back (owner area : positive) (given : list (positive * positive)) :
    list (positive * positive) := (owner, area) :: given.

(** C28. Blocks are compressed through the wrapper of a compressor as by the compressor, and so
    are all other calls but the name, cloning and giving back a working area. The working area
    that a file ends with is the same one: it still names the compressor that gave it out, and
    when it is moved and both holders are destroyed it is given back to that compressor exactly
    once, and not at all when it is null. What the wrapper does when an area is given back to
    it directly, nothing, does not matter. A specialised clone is lost: when the compressor
    makes one, the wrapper stops the program, and when it makes none the wrapper makes none.
    The identifier of the wrapper is its own name. *)
Theorem wrapped_compressors_are_the_compressors {T} (pure : object compressor (unit * T))
    (target : object compressor T) out (blocks : list Slice) (t : T) :
  let wrapped := Compressor pure (CompressorWrapper target) in
  (∀ B (p : client compressor B), only handed_on p → run wrapped p (tt, t) = on_target (run target p) (tt, t)) ∧
  (∀ l area t', run target (compress_file out blocks) t = Done (l, area, t') →
   run wrapped (compress_file out blocks) (tt, t) = Done (l, area, (tt, t')) ∧
   ∀ a, area = Some a → ∀ given, let '(a', from) := ManagedPtr_move a in
     delete_ManagedPtr give_back from (delete_ManagedPtr give_back a' given) =
       match get a, owner a with Some p, Some o => (o, p) :: given | _, _ => given end) ∧
  (∀ e, run target (compress_file out blocks) t = Undef e → run wrapped (compress_file out blocks) (tt, t) = Undef e) ∧
  (∀ wa, wrapped _ (cp_ReleaseWorkingArea wa) (tt, t) = Done (tt, (tt, t))) ∧
  (∀ role samples, wrapped _ (cp_MaybeCloneSpecialized role samples) (tt, t) =
     match target _ (cp_MaybeCloneSpecialized role samples) t with
     | Done (None, samples, t) => Done (None, samples, (tt, t))
     | Done (Some _, _, _) => Undef AssertFailed
     | Undef e => Undef e
     end) ∧
  wrapped _ cp_GetId (tt, t) = wrapped _ cp_Name (tt, t).
Proof.
  intros wrapped.
  assert (∀ B (p : client compressor B), only handed_on p → run wrapped p (tt, t) = on_target (run target p) (tt, t))
    as Hrun by (intros; by apply wrapper_forwards).
  assert (run wrapped (compress_file out blocks) (tt, t) = on_target (run target (compress_file out blocks)) (tt, t))
    as Hfile by (apply Hrun; split; [done|intros a; apply compress_blocks_only]).
  split; [exact Hrun|]. split; [|split; [|split; [done|split; [|done]]]].
  - intros l area t' Ht. split; [by rewrite Hfile; unfold on_target; rewrite Ht|].
    intros a _ given. by destruct a as [[p|] [o|]].
  - intros e Ht. by rewrite Hfile; unfold on_target; rewrite Ht.
  - intros role samples. cbn. unfold mbind, M_bind, on_target. cbn.
    destruct (target _ _ t) as [[[[p|] s'] t']|e]; done.
Qed.

(** A compressor that numbers its working areas and notes the sizes of what it compresses. *)
Definition demo_compressor : object compressor (positive * list Z) := λ A c,
  match c with
  | cp_ObtainWorkingArea =>
      n ← gets fst; modify (λ st, (Pos.succ st.1, st.2)) ;; mret (ManagedPtr_of (Some n) (Some 7%positive))
  | cp_CompressBlock d _ _ _ area =>
      modify (λ st, (st.1, size d :: st.2)) ;; mret (RocksStatus.OK, size d, kNoCompression, area)
  | _ => undef NullDeref
  end.

Lemma wrapped_compressors_are_the_compressors_witness :
  let wrapped := Compressor (λ _ _, undef NullDeref) (CompressorWrapper demo_compressor) in
  run wrapped (compress_file None [Slice_of_string (str "ab"); Slice_of_string (str "c")]) (tt, (3%positive, [])) =
    Done ([(RocksStatus.OK, 2, 0); (RocksStatus.OK, 1, 0)], Some (ManagedPtr_of (Some 3%positive) (Some 7%positive)),
          (tt, (4%positive, [1; 2]))) ∧
  delete_ManagedPtr give_back new_ManagedPtr
    (delete_ManagedPtr give_back (ManagedPtr_of (Some 3%positive) (Some 7%positive)) []) = [(7%positive, 3%positive)].
Proof.
  intros wrapped.
  destruct (proj1 (proj2 (wrapped_compressors_are_the_compressors (λ _ _, undef NullDeref) demo_compressor None
    [Slice_of_string (str "ab"); Slice_of_string (str "c")] (3%positive, []))) _ _ _ eq_refl) as [Hrun Hback].
  split; [exact Hrun|]. exact (Hback _ eq_refl []).
Defined.

(** Wrappers of decompressors and of managers hand on every call; and a manager that overrides neither of
    the selective ways to get a decompressor gives its only one. *)
Theorem wrapped_managers_are_the_managers {Ctx Opts T B} (target : object (manager Ctx Opts) T)
    (p : client (manager Ctx Opts) B) (compiled : object (manager Ctx Opts) T) (overrides : overriding (manager Ctx Opts) T) t :
  run (CompressionManagerWrapper target) p (tt, t) = on_target (run target p) (tt, t) ∧
  (∀ type, overrides _ (cm_GetDecompressorOptimizeFor type) = None →
     CompressionManager compiled overrides _ (cm_GetDecompressorOptimizeFor type) t =
     CompressionManager compiled overrides _ cm_GetDecompressor t) ∧
  (∀ types, overrides _ (cm_GetDecompressorForTypes types) = None →
     CompressionManager compiled overrides _ (cm_GetDecompressorForTypes types) t =
     CompressionManager compiled overrides _ cm_GetDecompressor t) ∧
  (∀ c opts type, overrides _ (cm_GetCompressorForSST c opts type) = None →
     CompressionManager compiled overrides _ (cm_GetCompressorForSST c opts type) t =
     CompressionManager compiled overrides _ (cm_GetCompressor opts type) t).
Proof.
  split; [apply run_forwards; by intros A []|].
  split; [|split]; [intros type H|intros types H|intros c opts type H]; unfold CompressionManager; cbn [virtual];
    rewrite H; cbn; by destruct (overrides _ _).
Qed.
Lemma wrapped_decompressors_are_the_decompressors {T B} (target : object decompressor T) (p : client decompressor B) t :
  run (DecompressorWrapper target) p (tt, t) = on_target (run target p) (tt, t).
Proof. apply run_forwards. by intros A []. Qed.

(** ** Clones *)

(** A clone is a compressor: the specialised one when there is one, or else the plain clone, and never
    null.  A compressor that does not specialise must not be given samples. *)
Theorem clones_are_never_null {S} (pure : object compressor S) (overrides : overriding compressor S) role samples s :
  let o := Compressor pure overrides in
  (∀ clone samples' s', CloneMaybeSpecialized o role samples s = Done (clone, samples', s') → clone ≠ None) ∧
  (∀ p samples' s', o _ (cp_MaybeCloneSpecialized role samples) s = Done (Some p, samples', s') →
     CloneMaybeSpecialized o role samples s = Done (Some p, samples', s')) ∧
  (overrides _ (cp_MaybeCloneSpecialized role samples) = None →
   CloneMaybeSpecialized o role samples s =
     if decide (sample_data samples = []) then
       match o _ cp_Clone s with
       | Done (Some p, s') => Done (Some p, samples, s')
       | Done (None, _) => Undef AssertFailed
       | Undef e => Undef e
       end
     else Undef AssertFailed).
Proof.
  intros o. unfold CloneMaybeSpecialized, mbind, M_bind. split; [|split].
  - intros clone samples' s'. destruct (o _ (cp_MaybeCloneSpecialized role samples) s) as [[[[p|] sm] s1]|]; [|..|done].
    + by intros [= <- <- <-].
    + destruct (o _ cp_Clone s1) as [[[q|] s2]|]; [|done..]. by intros [= <- <- <-].
  - intros p samples' s' ->. done.
  - intros H. assert (o _ (cp_MaybeCloneSpecialized role samples) s =
      if decide (sample_data samples = []) then Done (None, samples, s) else Undef AssertFailed) as ->.
    { unfold o, Compressor. cbn [virtual]. rewrite H. cbn. unfold mbind, M_bind, lift_outcome, samples_empty.
      by case_decide; [rewrite bool_decide_true|rewrite bool_decide_false]. }
    case_decide; [|done]. by destruct (o _ cp_Clone s) as [[[q|] s2]|].
Qed.

(** ** Samples *)

Lemma total_loop_mod n lens : 0 <= n < 2 ^ 64 → total_loop n lens = u64 (n + foldr Z.add 0 lens).
Proof.
  revert n. induction lens as [|l lens IH]; intros n Hn; cbn.
  - unfold u64. rewrite Z.add_0_r, Z.mod_small; lia.
  - rewrite IH by (apply Z.mod_pos_bound; lia). unfold u64. rewrite Zplus_mod_idemp_l. f_equal. lia.
Qed.

(** The lengths of samples are verified up to a multiple of 2 to the power of 64: exactly, when their sum
    is a [size_t] itself, but lengths that are far too large can pass. *)
Theorem samples_are_verified_modulo (a : DictSampleArgs) :
  Z.of_nat (length (sample_data a)) < 2 ^ 64 →
  (Verify a = true ↔ foldr Z.add 0 (sample_lens a) mod 2 ^ 64 = Z.of_nat (length (sample_data a))) ∧
  (0 <= foldr Z.add 0 (sample_lens a) < 2 ^ 64 →
   Verify a = true ↔ foldr Z.add 0 (sample_lens a) = Z.of_nat (length (sample_data a))) ∧
  (∃ b, Verify b = true ∧ ¬ Forall (λ l, l <= Z.of_nat (length (sample_data b))) (sample_lens b)).
Proof.
  intros Hl. assert (Verify a = true ↔ foldr Z.add 0 (sample_lens a) mod 2 ^ 64 = Z.of_nat (length (sample_data a)))
    as Hv by (unfold Verify; rewrite total_loop_mod, Z.eqb_eq by lia; done).
  split; [exact Hv|]. split.
  - intros Hs. rewrite Hv, Z.mod_small by lia. done.
  - exists (mkSamples [x61] [2 ^ 64 - 1; 2]). split; [done|]. intros [H _]%Forall_cons. cbn in H. lia.
Qed.
