(* ===== verification/Statistics.v ===== *)
(** Statistics (include/rocksdb/statistics.h): the tickers and the histograms with their numbers, the levels,
    and what the class does itself: which times it records, and through which generation of the
    interface.  Collecting the numbers is what a class overrides. *)
From S2P Require Import Prelude Slice RocksStatus RocksDB Dispatch.

Local Open Scope Z_scope.

(** ** Tickers and histograms *)

(** The enumerators in the order of the source; their numbers are their places. *)
Inductive Tickers :=
  | BLOCK_CACHE_MISS | BLOCK_CACHE_HIT | BLOCK_CACHE_ADD | BLOCK_CACHE_ADD_FAILURES
  | BLOCK_CACHE_INDEX_MISS | BLOCK_CACHE_INDEX_HIT | BLOCK_CACHE_INDEX_ADD | BLOCK_CACHE_INDEX_BYTES_INSERT
  | BLOCK_CACHE_FILTER_MISS | BLOCK_CACHE_FILTER_HIT | BLOCK_CACHE_FILTER_ADD
  | BLOCK_CACHE_FILTER_BYTES_INSERT | BLOCK_CACHE_DATA_MISS | BLOCK_CACHE_DATA_HIT | BLOCK_CACHE_DATA_ADD
  | BLOCK_CACHE_DATA_BYTES_INSERT | BLOCK_CACHE_BYTES_READ | BLOCK_CACHE_BYTES_WRITE
  | BLOCK_CACHE_COMPRESSION_DICT_MISS | BLOCK_CACHE_COMPRESSION_DICT_HIT | BLOCK_CACHE_COMPRESSION_DICT_ADD
  | BLOCK_CACHE_COMPRESSION_DICT_BYTES_INSERT | BLOCK_CACHE_ADD_REDUNDANT | BLOCK_CACHE_INDEX_ADD_REDUNDANT
  | BLOCK_CACHE_FILTER_ADD_REDUNDANT | BLOCK_CACHE_DATA_ADD_REDUNDANT
  | BLOCK_CACHE_COMPRESSION_DICT_ADD_REDUNDANT | SECONDARY_CACHE_HITS | SECONDARY_CACHE_FILTER_HITS
  | SECONDARY_CACHE_INDEX_HITS | SECONDARY_CACHE_DATA_HITS | COMPRESSED_SECONDARY_CACHE_DUMMY_HITS
  | COMPRESSED_SECONDARY_CACHE_HITS | COMPRESSED_SECONDARY_CACHE_PROMOTIONS
  | COMPRESSED_SECONDARY_CACHE_PROMOTION_SKIPS | BLOOM_FILTER_USEFUL | BLOOM_FILTER_FULL_POSITIVE
  | BLOOM_FILTER_FULL_TRUE_POSITIVE | BLOOM_FILTER_PREFIX_CHECKED | BLOOM_FILTER_PREFIX_USEFUL
  | BLOOM_FILTER_PREFIX_TRUE_POSITIVE | PERSISTENT_CACHE_HIT | PERSISTENT_CACHE_MISS | SIM_BLOCK_CACHE_HIT
  | SIM_BLOCK_CACHE_MISS | MEMTABLE_HIT | MEMTABLE_MISS | GET_HIT_L0 | GET_HIT_L1 | GET_HIT_L2_AND_UP
  | COMPACTION_KEY_DROP_NEWER_ENTRY | COMPACTION_KEY_DROP_OBSOLETE | COMPACTION_KEY_DROP_RANGE_DEL
  | COMPACTION_KEY_DROP_USER | COMPACTION_RANGE_DEL_DROP_OBSOLETE | COMPACTION_OPTIMIZED_DEL_DROP_OBSOLETE
  | COMPACTION_CANCELLED | NUMBER_KEYS_WRITTEN | NUMBER_KEYS_READ | NUMBER_KEYS_UPDATED | BYTES_WRITTEN
  | BYTES_READ | NUMBER_DB_SEEK | NUMBER_DB_NEXT | NUMBER_DB_PREV | NUMBER_DB_SEEK_FOUND
  | NUMBER_DB_NEXT_FOUND | NUMBER_DB_PREV_FOUND | ITER_BYTES_READ | NUMBER_ITER_SKIP
  | NUMBER_OF_RESEEKS_IN_ITERATION | NO_ITERATOR_CREATED | NO_ITERATOR_DELETED | NO_FILE_OPENS
  | NO_FILE_ERRORS | STALL_MICROS | DB_MUTEX_WAIT_MICROS | NUMBER_MULTIGET_CALLS
  | NUMBER_MULTIGET_KEYS_READ | NUMBER_MULTIGET_BYTES_READ | NUMBER_MULTIGET_KEYS_FOUND
  | NUMBER_MERGE_FAILURES | GET_UPDATES_SINCE_CALLS | WAL_FILE_SYNCED | WAL_FILE_BYTES | WRITE_DONE_BY_SELF
  | WRITE_DONE_BY_OTHER | WRITE_WITH_WAL | COMPACT_READ_BYTES | COMPACT_WRITE_BYTES | FLUSH_WRITE_BYTES
  | COMPACT_READ_BYTES_MARKED | COMPACT_READ_BYTES_PERIODIC | COMPACT_READ_BYTES_TTL
  | COMPACT_WRITE_BYTES_MARKED | COMPACT_WRITE_BYTES_PERIODIC | COMPACT_WRITE_BYTES_TTL
  | NUMBER_DIRECT_LOAD_TABLE_PROPERTIES | NUMBER_SUPERVERSION_ACQUIRES | NUMBER_SUPERVERSION_RELEASES
  | NUMBER_SUPERVERSION_CLEANUPS | NUMBER_BLOCK_COMPRESSED | NUMBER_BLOCK_DECOMPRESSED
  | BYTES_COMPRESSED_FROM | BYTES_COMPRESSED_TO | BYTES_COMPRESSION_BYPASSED | BYTES_COMPRESSION_REJECTED
  | NUMBER_BLOCK_COMPRESSION_BYPASSED | NUMBER_BLOCK_COMPRESSION_REJECTED | BYTES_DECOMPRESSED_FROM
  | BYTES_DECOMPRESSED_TO | MERGE_OPERATION_TOTAL_TIME | FILTER_OPERATION_TOTAL_TIME
  | COMPACTION_CPU_TOTAL_TIME | ROW_CACHE_HIT | ROW_CACHE_MISS | READ_AMP_ESTIMATE_USEFUL_BYTES
  | READ_AMP_TOTAL_READ_BYTES | NUMBER_RATE_LIMITER_DRAINS | BLOB_DB_NUM_PUT | BLOB_DB_NUM_WRITE
  | BLOB_DB_NUM_GET | BLOB_DB_NUM_MULTIGET | BLOB_DB_NUM_SEEK | BLOB_DB_NUM_NEXT | BLOB_DB_NUM_PREV
  | BLOB_DB_NUM_KEYS_WRITTEN | BLOB_DB_NUM_KEYS_READ | BLOB_DB_BYTES_WRITTEN | BLOB_DB_BYTES_READ
  | BLOB_DB_WRITE_INLINED | BLOB_DB_WRITE_INLINED_TTL | BLOB_DB_WRITE_BLOB | BLOB_DB_WRITE_BLOB_TTL
  | BLOB_DB_BLOB_FILE_BYTES_WRITTEN | BLOB_DB_BLOB_FILE_BYTES_READ | BLOB_DB_BLOB_FILE_SYNCED
  | BLOB_DB_BLOB_INDEX_EXPIRED_COUNT | BLOB_DB_BLOB_INDEX_EXPIRED_SIZE | BLOB_DB_BLOB_INDEX_EVICTED_COUNT
  | BLOB_DB_BLOB_INDEX_EVICTED_SIZE | BLOB_DB_GC_NUM_FILES | BLOB_DB_GC_NUM_NEW_FILES | BLOB_DB_GC_FAILURES
  | BLOB_DB_GC_NUM_KEYS_RELOCATED | BLOB_DB_GC_BYTES_RELOCATED | BLOB_DB_FIFO_NUM_FILES_EVICTED
  | BLOB_DB_FIFO_NUM_KEYS_EVICTED | BLOB_DB_FIFO_BYTES_EVICTED | BLOB_DB_CACHE_MISS | BLOB_DB_CACHE_HIT
  | BLOB_DB_CACHE_ADD | BLOB_DB_CACHE_ADD_FAILURES | BLOB_DB_CACHE_BYTES_READ | BLOB_DB_CACHE_BYTES_WRITE
  | TXN_PREPARE_MUTEX_OVERHEAD | TXN_OLD_COMMIT_MAP_MUTEX_OVERHEAD | TXN_DUPLICATE_KEY_OVERHEAD
  | TXN_SNAPSHOT_MUTEX_OVERHEAD | TXN_GET_TRY_AGAIN | FILES_MARKED_TRASH | FILES_DELETED_FROM_TRASH_QUEUE
  | FILES_DELETED_IMMEDIATELY | ERROR_HANDLER_BG_ERROR_COUNT | ERROR_HANDLER_BG_IO_ERROR_COUNT
  | ERROR_HANDLER_BG_RETRYABLE_IO_ERROR_COUNT | ERROR_HANDLER_AUTORESUME_COUNT
  | ERROR_HANDLER_AUTORESUME_RETRY_TOTAL_COUNT | ERROR_HANDLER_AUTORESUME_SUCCESS_COUNT
  | MEMTABLE_PAYLOAD_BYTES_AT_FLUSH | MEMTABLE_GARBAGE_BYTES_AT_FLUSH | VERIFY_CHECKSUM_READ_BYTES
  | BACKUP_READ_BYTES | BACKUP_WRITE_BYTES | REMOTE_COMPACT_READ_BYTES | REMOTE_COMPACT_WRITE_BYTES
  | REMOTE_COMPACT_RESUMED_BYTES | HOT_FILE_READ_BYTES | WARM_FILE_READ_BYTES | COOL_FILE_READ_BYTES
  | COLD_FILE_READ_BYTES | ICE_FILE_READ_BYTES | HOT_FILE_READ_COUNT | WARM_FILE_READ_COUNT
  | COOL_FILE_READ_COUNT | COLD_FILE_READ_COUNT | ICE_FILE_READ_COUNT | LAST_LEVEL_READ_BYTES
  | LAST_LEVEL_READ_COUNT | NON_LAST_LEVEL_READ_BYTES | NON_LAST_LEVEL_READ_COUNT
  | LAST_LEVEL_SEEK_FILTERED | LAST_LEVEL_SEEK_FILTER_MATCH | LAST_LEVEL_SEEK_DATA
  | LAST_LEVEL_SEEK_DATA_USEFUL_NO_FILTER | LAST_LEVEL_SEEK_DATA_USEFUL_FILTER_MATCH
  | NON_LAST_LEVEL_SEEK_FILTERED | NON_LAST_LEVEL_SEEK_FILTER_MATCH | NON_LAST_LEVEL_SEEK_DATA
  | NON_LAST_LEVEL_SEEK_DATA_USEFUL_NO_FILTER | NON_LAST_LEVEL_SEEK_DATA_USEFUL_FILTER_MATCH
  | BLOCK_CHECKSUM_COMPUTE_COUNT | BLOCK_CHECKSUM_MISMATCH_COUNT | MULTIGET_COROUTINE_COUNT
  | READ_ASYNC_MICROS | ASYNC_READ_ERROR_COUNT | TABLE_OPEN_PREFETCH_TAIL_MISS
  | TABLE_OPEN_PREFETCH_TAIL_HIT | TIMESTAMP_FILTER_TABLE_CHECKED | TIMESTAMP_FILTER_TABLE_FILTERED
  | READAHEAD_TRIMMED | FIFO_MAX_SIZE_COMPACTIONS | FIFO_TTL_COMPACTIONS
  | FIFO_CHANGE_TEMPERATURE_COMPACTIONS | PREFETCH_BYTES | PREFETCH_BYTES_USEFUL | PREFETCH_HITS
  | SST_FOOTER_CORRUPTION_COUNT | FILE_READ_CORRUPTION_RETRY_COUNT
  | FILE_READ_CORRUPTION_RETRY_SUCCESS_COUNT | NUMBER_WBWI_INGEST | SST_USER_DEFINED_INDEX_LOAD_FAIL_COUNT
  | TICKER_ENUM_MAX.
Inductive Histograms :=
  | DB_GET | DB_WRITE | COMPACTION_TIME | COMPACTION_CPU_TIME | SUBCOMPACTION_SETUP_TIME
  | TABLE_SYNC_MICROS | COMPACTION_OUTFILE_SYNC_MICROS | WAL_FILE_SYNC_MICROS | MANIFEST_FILE_SYNC_MICROS
  | TABLE_OPEN_IO_MICROS | DB_MULTIGET | READ_BLOCK_COMPACTION_MICROS | READ_BLOCK_GET_MICROS
  | WRITE_RAW_BLOCK_MICROS | NUM_FILES_IN_SINGLE_COMPACTION | DB_SEEK | WRITE_STALL | SST_READ_MICROS
  | FILE_READ_FLUSH_MICROS | FILE_READ_COMPACTION_MICROS | FILE_READ_DB_OPEN_MICROS | FILE_READ_GET_MICROS
  | FILE_READ_MULTIGET_MICROS | FILE_READ_DB_ITERATOR_MICROS | FILE_READ_VERIFY_DB_CHECKSUM_MICROS
  | FILE_READ_VERIFY_FILE_CHECKSUMS_MICROS | SST_WRITE_MICROS | FILE_WRITE_FLUSH_MICROS
  | FILE_WRITE_COMPACTION_MICROS | FILE_WRITE_DB_OPEN_MICROS | NUM_SUBCOMPACTIONS_SCHEDULED
  | BYTES_PER_READ | BYTES_PER_WRITE | BYTES_PER_MULTIGET | COMPRESSION_TIMES_NANOS
  | DECOMPRESSION_TIMES_NANOS | READ_NUM_MERGE_OPERANDS | BLOB_DB_KEY_SIZE | BLOB_DB_VALUE_SIZE
  | BLOB_DB_WRITE_MICROS | BLOB_DB_GET_MICROS | BLOB_DB_MULTIGET_MICROS | BLOB_DB_SEEK_MICROS
  | BLOB_DB_NEXT_MICROS | BLOB_DB_PREV_MICROS | BLOB_DB_BLOB_FILE_WRITE_MICROS
  | BLOB_DB_BLOB_FILE_READ_MICROS | BLOB_DB_BLOB_FILE_SYNC_MICROS | BLOB_DB_COMPRESSION_MICROS
  | BLOB_DB_DECOMPRESSION_MICROS | FLUSH_TIME | SST_BATCH_SIZE | MULTIGET_IO_BATCH_SIZE
  | NUM_INDEX_AND_FILTER_BLOCKS_READ_PER_LEVEL | NUM_SST_READ_PER_LEVEL | NUM_LEVEL_READ_PER_MULTIGET
  | ERROR_HANDLER_AUTORESUME_RETRY_COUNT | ASYNC_READ_BYTES | POLL_WAIT_MICROS | COMPACTION_PREFETCH_BYTES
  | PREFETCHED_BYTES_DISCARDED | ASYNC_PREFETCH_ABORT_MICROS | TABLE_OPEN_PREFETCH_TAIL_READ_BYTES
  | NUM_OP_PER_TRANSACTION | MULTISCAN_PREPARE_ITERATORS | HISTOGRAM_ENUM_MAX.
Definition Tickers_val (t : Tickers) : Z :=
  match t with
  | BLOCK_CACHE_MISS => 0 | BLOCK_CACHE_HIT => 1 | BLOCK_CACHE_ADD => 2 | BLOCK_CACHE_ADD_FAILURES => 3
  | BLOCK_CACHE_INDEX_MISS => 4 | BLOCK_CACHE_INDEX_HIT => 5 | BLOCK_CACHE_INDEX_ADD => 6
  | BLOCK_CACHE_INDEX_BYTES_INSERT => 7 | BLOCK_CACHE_FILTER_MISS => 8 | BLOCK_CACHE_FILTER_HIT => 9
  | BLOCK_CACHE_FILTER_ADD => 10 | BLOCK_CACHE_FILTER_BYTES_INSERT => 11 | BLOCK_CACHE_DATA_MISS => 12
  | BLOCK_CACHE_DATA_HIT => 13 | BLOCK_CACHE_DATA_ADD => 14 | BLOCK_CACHE_DATA_BYTES_INSERT => 15
  | BLOCK_CACHE_BYTES_READ => 16 | BLOCK_CACHE_BYTES_WRITE => 17 | BLOCK_CACHE_COMPRESSION_DICT_MISS => 18
  | BLOCK_CACHE_COMPRESSION_DICT_HIT => 19 | BLOCK_CACHE_COMPRESSION_DICT_ADD => 20
  | BLOCK_CACHE_COMPRESSION_DICT_BYTES_INSERT => 21 | BLOCK_CACHE_ADD_REDUNDANT => 22
  | BLOCK_CACHE_INDEX_ADD_REDUNDANT => 23 | BLOCK_CACHE_FILTER_ADD_REDUNDANT => 24
  | BLOCK_CACHE_DATA_ADD_REDUNDANT => 25 | BLOCK_CACHE_COMPRESSION_DICT_ADD_REDUNDANT => 26
  | SECONDARY_CACHE_HITS => 27 | SECONDARY_CACHE_FILTER_HITS => 28 | SECONDARY_CACHE_INDEX_HITS => 29
  | SECONDARY_CACHE_DATA_HITS => 30 | COMPRESSED_SECONDARY_CACHE_DUMMY_HITS => 31
  | COMPRESSED_SECONDARY_CACHE_HITS => 32 | COMPRESSED_SECONDARY_CACHE_PROMOTIONS => 33
  | COMPRESSED_SECONDARY_CACHE_PROMOTION_SKIPS => 34 | BLOOM_FILTER_USEFUL => 35
  | BLOOM_FILTER_FULL_POSITIVE => 36 | BLOOM_FILTER_FULL_TRUE_POSITIVE => 37
  | BLOOM_FILTER_PREFIX_CHECKED => 38 | BLOOM_FILTER_PREFIX_USEFUL => 39
  | BLOOM_FILTER_PREFIX_TRUE_POSITIVE => 40 | PERSISTENT_CACHE_HIT => 41 | PERSISTENT_CACHE_MISS => 42
  | SIM_BLOCK_CACHE_HIT => 43 | SIM_BLOCK_CACHE_MISS => 44 | MEMTABLE_HIT => 45 | MEMTABLE_MISS => 46
  | GET_HIT_L0 => 47 | GET_HIT_L1 => 48 | GET_HIT_L2_AND_UP => 49 | COMPACTION_KEY_DROP_NEWER_ENTRY => 50
  | COMPACTION_KEY_DROP_OBSOLETE => 51 | COMPACTION_KEY_DROP_RANGE_DEL => 52 | COMPACTION_KEY_DROP_USER => 53
  | COMPACTION_RANGE_DEL_DROP_OBSOLETE => 54 | COMPACTION_OPTIMIZED_DEL_DROP_OBSOLETE => 55
  | COMPACTION_CANCELLED => 56 | NUMBER_KEYS_WRITTEN => 57 | NUMBER_KEYS_READ => 58
  | NUMBER_KEYS_UPDATED => 59 | BYTES_WRITTEN => 60 | BYTES_READ => 61 | NUMBER_DB_SEEK => 62
  | NUMBER_DB_NEXT => 63 | NUMBER_DB_PREV => 64 | NUMBER_DB_SEEK_FOUND => 65 | NUMBER_DB_NEXT_FOUND => 66
  | NUMBER_DB_PREV_FOUND => 67 | ITER_BYTES_READ => 68 | NUMBER_ITER_SKIP => 69
  | NUMBER_OF_RESEEKS_IN_ITERATION => 70 | NO_ITERATOR_CREATED => 71 | NO_ITERATOR_DELETED => 72
  | NO_FILE_OPENS => 73 | NO_FILE_ERRORS => 74 | STALL_MICROS => 75 | DB_MUTEX_WAIT_MICROS => 76
  | NUMBER_MULTIGET_CALLS => 77 | NUMBER_MULTIGET_KEYS_READ => 78 | NUMBER_MULTIGET_BYTES_READ => 79
  | NUMBER_MULTIGET_KEYS_FOUND => 80 | NUMBER_MERGE_FAILURES => 81 | GET_UPDATES_SINCE_CALLS => 82
  | WAL_FILE_SYNCED => 83 | WAL_FILE_BYTES => 84 | WRITE_DONE_BY_SELF => 85 | WRITE_DONE_BY_OTHER => 86
  | WRITE_WITH_WAL => 87 | COMPACT_READ_BYTES => 88 | COMPACT_WRITE_BYTES => 89 | FLUSH_WRITE_BYTES => 90
  | COMPACT_READ_BYTES_MARKED => 91 | COMPACT_READ_BYTES_PERIODIC => 92 | COMPACT_READ_BYTES_TTL => 93
  | COMPACT_WRITE_BYTES_MARKED => 94 | COMPACT_WRITE_BYTES_PERIODIC => 95 | COMPACT_WRITE_BYTES_TTL => 96
  | NUMBER_DIRECT_LOAD_TABLE_PROPERTIES => 97 | NUMBER_SUPERVERSION_ACQUIRES => 98
  | NUMBER_SUPERVERSION_RELEASES => 99 | NUMBER_SUPERVERSION_CLEANUPS => 100 | NUMBER_BLOCK_COMPRESSED => 101
  | NUMBER_BLOCK_DECOMPRESSED => 102 | BYTES_COMPRESSED_FROM => 103 | BYTES_COMPRESSED_TO => 104
  | BYTES_COMPRESSION_BYPASSED => 105 | BYTES_COMPRESSION_REJECTED => 106
  | NUMBER_BLOCK_COMPRESSION_BYPASSED => 107 | NUMBER_BLOCK_COMPRESSION_REJECTED => 108
  | BYTES_DECOMPRESSED_FROM => 109 | BYTES_DECOMPRESSED_TO => 110 | MERGE_OPERATION_TOTAL_TIME => 111
  | FILTER_OPERATION_TOTAL_TIME => 112 | COMPACTION_CPU_TOTAL_TIME => 113 | ROW_CACHE_HIT => 114
  | ROW_CACHE_MISS => 115 | READ_AMP_ESTIMATE_USEFUL_BYTES => 116 | READ_AMP_TOTAL_READ_BYTES => 117
  | NUMBER_RATE_LIMITER_DRAINS => 118 | BLOB_DB_NUM_PUT => 119 | BLOB_DB_NUM_WRITE => 120
  | BLOB_DB_NUM_GET => 121 | BLOB_DB_NUM_MULTIGET => 122 | BLOB_DB_NUM_SEEK => 123 | BLOB_DB_NUM_NEXT => 124
  | BLOB_DB_NUM_PREV => 125 | BLOB_DB_NUM_KEYS_WRITTEN => 126 | BLOB_DB_NUM_KEYS_READ => 127
  | BLOB_DB_BYTES_WRITTEN => 128 | BLOB_DB_BYTES_READ => 129 | BLOB_DB_WRITE_INLINED => 130
  | BLOB_DB_WRITE_INLINED_TTL => 131 | BLOB_DB_WRITE_BLOB => 132 | BLOB_DB_WRITE_BLOB_TTL => 133
  | BLOB_DB_BLOB_FILE_BYTES_WRITTEN => 134 | BLOB_DB_BLOB_FILE_BYTES_READ => 135
  | BLOB_DB_BLOB_FILE_SYNCED => 136 | BLOB_DB_BLOB_INDEX_EXPIRED_COUNT => 137
  | BLOB_DB_BLOB_INDEX_EXPIRED_SIZE => 138 | BLOB_DB_BLOB_INDEX_EVICTED_COUNT => 139
  | BLOB_DB_BLOB_INDEX_EVICTED_SIZE => 140 | BLOB_DB_GC_NUM_FILES => 141 | BLOB_DB_GC_NUM_NEW_FILES => 142
  | BLOB_DB_GC_FAILURES => 143 | BLOB_DB_GC_NUM_KEYS_RELOCATED => 144 | BLOB_DB_GC_BYTES_RELOCATED => 145
  | BLOB_DB_FIFO_NUM_FILES_EVICTED => 146 | BLOB_DB_FIFO_NUM_KEYS_EVICTED => 147
  | BLOB_DB_FIFO_BYTES_EVICTED => 148 | BLOB_DB_CACHE_MISS => 149 | BLOB_DB_CACHE_HIT => 150
  | BLOB_DB_CACHE_ADD => 151 | BLOB_DB_CACHE_ADD_FAILURES => 152 | BLOB_DB_CACHE_BYTES_READ => 153
  | BLOB_DB_CACHE_BYTES_WRITE => 154 | TXN_PREPARE_MUTEX_OVERHEAD => 155
  | TXN_OLD_COMMIT_MAP_MUTEX_OVERHEAD => 156 | TXN_DUPLICATE_KEY_OVERHEAD => 157
  | TXN_SNAPSHOT_MUTEX_OVERHEAD => 158 | TXN_GET_TRY_AGAIN => 159 | FILES_MARKED_TRASH => 160
  | FILES_DELETED_FROM_TRASH_QUEUE => 161 | FILES_DELETED_IMMEDIATELY => 162
  | ERROR_HANDLER_BG_ERROR_COUNT => 163 | ERROR_HANDLER_BG_IO_ERROR_COUNT => 164
  | ERROR_HANDLER_BG_RETRYABLE_IO_ERROR_COUNT => 165 | ERROR_HANDLER_AUTORESUME_COUNT => 166
  | ERROR_HANDLER_AUTORESUME_RETRY_TOTAL_COUNT => 167 | ERROR_HANDLER_AUTORESUME_SUCCESS_COUNT => 168
  | MEMTABLE_PAYLOAD_BYTES_AT_FLUSH => 169 | MEMTABLE_GARBAGE_BYTES_AT_FLUSH => 170
  | VERIFY_CHECKSUM_READ_BYTES => 171 | BACKUP_READ_BYTES => 172 | BACKUP_WRITE_BYTES => 173
  | REMOTE_COMPACT_READ_BYTES => 174 | REMOTE_COMPACT_WRITE_BYTES => 175 | REMOTE_COMPACT_RESUMED_BYTES => 176
  | HOT_FILE_READ_BYTES => 177 | WARM_FILE_READ_BYTES => 178 | COOL_FILE_READ_BYTES => 179
  | COLD_FILE_READ_BYTES => 180 | ICE_FILE_READ_BYTES => 181 | HOT_FILE_READ_COUNT => 182
  | WARM_FILE_READ_COUNT => 183 | COOL_FILE_READ_COUNT => 184 | COLD_FILE_READ_COUNT => 185
  | ICE_FILE_READ_COUNT => 186 | LAST_LEVEL_READ_BYTES => 187 | LAST_LEVEL_READ_COUNT => 188
  | NON_LAST_LEVEL_READ_BYTES => 189 | NON_LAST_LEVEL_READ_COUNT => 190 | LAST_LEVEL_SEEK_FILTERED => 191
  | LAST_LEVEL_SEEK_FILTER_MATCH => 192 | LAST_LEVEL_SEEK_DATA => 193
  | LAST_LEVEL_SEEK_DATA_USEFUL_NO_FILTER => 194 | LAST_LEVEL_SEEK_DATA_USEFUL_FILTER_MATCH => 195
  | NON_LAST_LEVEL_SEEK_FILTERED => 196 | NON_LAST_LEVEL_SEEK_FILTER_MATCH => 197
  | NON_LAST_LEVEL_SEEK_DATA => 198 | NON_LAST_LEVEL_SEEK_DATA_USEFUL_NO_FILTER => 199
  | NON_LAST_LEVEL_SEEK_DATA_USEFUL_FILTER_MATCH => 200 | BLOCK_CHECKSUM_COMPUTE_COUNT => 201
  | BLOCK_CHECKSUM_MISMATCH_COUNT => 202 | MULTIGET_COROUTINE_COUNT => 203 | READ_ASYNC_MICROS => 204
  | ASYNC_READ_ERROR_COUNT => 205 | TABLE_OPEN_PREFETCH_TAIL_MISS => 206 | TABLE_OPEN_PREFETCH_TAIL_HIT => 207
  | TIMESTAMP_FILTER_TABLE_CHECKED => 208 | TIMESTAMP_FILTER_TABLE_FILTERED => 209 | READAHEAD_TRIMMED => 210
  | FIFO_MAX_SIZE_COMPACTIONS => 211 | FIFO_TTL_COMPACTIONS => 212
  | FIFO_CHANGE_TEMPERATURE_COMPACTIONS => 213 | PREFETCH_BYTES => 214 | PREFETCH_BYTES_USEFUL => 215
  | PREFETCH_HITS => 216 | SST_FOOTER_CORRUPTION_COUNT => 217 | FILE_READ_CORRUPTION_RETRY_COUNT => 218
  | FILE_READ_CORRUPTION_RETRY_SUCCESS_COUNT => 219 | NUMBER_WBWI_INGEST => 220
  | SST_USER_DEFINED_INDEX_LOAD_FAIL_COUNT => 221 | TICKER_ENUM_MAX => 222
  end.
Definition Histograms_val (h : Histograms) : Z :=
  match h with
  | DB_GET => 0 | DB_WRITE => 1 | COMPACTION_TIME => 2 | COMPACTION_CPU_TIME => 3
  | SUBCOMPACTION_SETUP_TIME => 4 | TABLE_SYNC_MICROS => 5 | COMPACTION_OUTFILE_SYNC_MICROS => 6
  | WAL_FILE_SYNC_MICROS => 7 | MANIFEST_FILE_SYNC_MICROS => 8 | TABLE_OPEN_IO_MICROS => 9 | DB_MULTIGET => 10
  | READ_BLOCK_COMPACTION_MICROS => 11 | READ_BLOCK_GET_MICROS => 12 | WRITE_RAW_BLOCK_MICROS => 13
  | NUM_FILES_IN_SINGLE_COMPACTION => 14 | DB_SEEK => 15 | WRITE_STALL => 16 | SST_READ_MICROS => 17
  | FILE_READ_FLUSH_MICROS => 18 | FILE_READ_COMPACTION_MICROS => 19 | FILE_READ_DB_OPEN_MICROS => 20
  | FILE_READ_GET_MICROS => 21 | FILE_READ_MULTIGET_MICROS => 22 | FILE_READ_DB_ITERATOR_MICROS => 23
  | FILE_READ_VERIFY_DB_CHECKSUM_MICROS => 24 | FILE_READ_VERIFY_FILE_CHECKSUMS_MICROS => 25
  | SST_WRITE_MICROS => 26 | FILE_WRITE_FLUSH_MICROS => 27 | FILE_WRITE_COMPACTION_MICROS => 28
  | FILE_WRITE_DB_OPEN_MICROS => 29 | NUM_SUBCOMPACTIONS_SCHEDULED => 30 | BYTES_PER_READ => 31
  | BYTES_PER_WRITE => 32 | BYTES_PER_MULTIGET => 33 | COMPRESSION_TIMES_NANOS => 34
  | DECOMPRESSION_TIMES_NANOS => 35 | READ_NUM_MERGE_OPERANDS => 36 | BLOB_DB_KEY_SIZE => 37
  | BLOB_DB_VALUE_SIZE => 38 | BLOB_DB_WRITE_MICROS => 39 | BLOB_DB_GET_MICROS => 40
  | BLOB_DB_MULTIGET_MICROS => 41 | BLOB_DB_SEEK_MICROS => 42 | BLOB_DB_NEXT_MICROS => 43
  | BLOB_DB_PREV_MICROS => 44 | BLOB_DB_BLOB_FILE_WRITE_MICROS => 45 | BLOB_DB_BLOB_FILE_READ_MICROS => 46
  | BLOB_DB_BLOB_FILE_SYNC_MICROS => 47 | BLOB_DB_COMPRESSION_MICROS => 48
  | BLOB_DB_DECOMPRESSION_MICROS => 49 | FLUSH_TIME => 50 | SST_BATCH_SIZE => 51
  | MULTIGET_IO_BATCH_SIZE => 52 | NUM_INDEX_AND_FILTER_BLOCKS_READ_PER_LEVEL => 53
  | NUM_SST_READ_PER_LEVEL => 54 | NUM_LEVEL_READ_PER_MULTIGET => 55
  | ERROR_HANDLER_AUTORESUME_RETRY_COUNT => 56 | ASYNC_READ_BYTES => 57 | POLL_WAIT_MICROS => 58
  | COMPACTION_PREFETCH_BYTES => 59 | PREFETCHED_BYTES_DISCARDED => 60 | ASYNC_PREFETCH_ABORT_MICROS => 61
  | TABLE_OPEN_PREFETCH_TAIL_READ_BYTES => 62 | NUM_OP_PER_TRANSACTION => 63
  | MULTISCAN_PREPARE_ITERATORS => 64 | HISTOGRAM_ENUM_MAX => 65
  end.
Definition all_tickers : list Tickers := [
  BLOCK_CACHE_MISS; BLOCK_CACHE_HIT; BLOCK_CACHE_ADD; BLOCK_CACHE_ADD_FAILURES; BLOCK_CACHE_INDEX_MISS;
  BLOCK_CACHE_INDEX_HIT; BLOCK_CACHE_INDEX_ADD; BLOCK_CACHE_INDEX_BYTES_INSERT; BLOCK_CACHE_FILTER_MISS;
  BLOCK_CACHE_FILTER_HIT; BLOCK_CACHE_FILTER_ADD; BLOCK_CACHE_FILTER_BYTES_INSERT; BLOCK_CACHE_DATA_MISS;
  BLOCK_CACHE_DATA_HIT; BLOCK_CACHE_DATA_ADD; BLOCK_CACHE_DATA_BYTES_INSERT; BLOCK_CACHE_BYTES_READ;
  BLOCK_CACHE_BYTES_WRITE; BLOCK_CACHE_COMPRESSION_DICT_MISS; BLOCK_CACHE_COMPRESSION_DICT_HIT;
  BLOCK_CACHE_COMPRESSION_DICT_ADD; BLOCK_CACHE_COMPRESSION_DICT_BYTES_INSERT; BLOCK_CACHE_ADD_REDUNDANT;
  BLOCK_CACHE_INDEX_ADD_REDUNDANT; BLOCK_CACHE_FILTER_ADD_REDUNDANT; BLOCK_CACHE_DATA_ADD_REDUNDANT;
  BLOCK_CACHE_COMPRESSION_DICT_ADD_REDUNDANT; SECONDARY_CACHE_HITS; SECONDARY_CACHE_FILTER_HITS;
  SECONDARY_CACHE_INDEX_HITS; SECONDARY_CACHE_DATA_HITS; COMPRESSED_SECONDARY_CACHE_DUMMY_HITS;
  COMPRESSED_SECONDARY_CACHE_HITS; COMPRESSED_SECONDARY_CACHE_PROMOTIONS;
  COMPRESSED_SECONDARY_CACHE_PROMOTION_SKIPS; BLOOM_FILTER_USEFUL; BLOOM_FILTER_FULL_POSITIVE;
  BLOOM_FILTER_FULL_TRUE_POSITIVE; BLOOM_FILTER_PREFIX_CHECKED; BLOOM_FILTER_PREFIX_USEFUL;
  BLOOM_FILTER_PREFIX_TRUE_POSITIVE; PERSISTENT_CACHE_HIT; PERSISTENT_CACHE_MISS; SIM_BLOCK_CACHE_HIT;
  SIM_BLOCK_CACHE_MISS; MEMTABLE_HIT; MEMTABLE_MISS; GET_HIT_L0; GET_HIT_L1; GET_HIT_L2_AND_UP;
  COMPACTION_KEY_DROP_NEWER_ENTRY; COMPACTION_KEY_DROP_OBSOLETE; COMPACTION_KEY_DROP_RANGE_DEL;
  COMPACTION_KEY_DROP_USER; COMPACTION_RANGE_DEL_DROP_OBSOLETE; COMPACTION_OPTIMIZED_DEL_DROP_OBSOLETE;
  COMPACTION_CANCELLED; NUMBER_KEYS_WRITTEN; NUMBER_KEYS_READ; NUMBER_KEYS_UPDATED; BYTES_WRITTEN;
  BYTES_READ; NUMBER_DB_SEEK; NUMBER_DB_NEXT; NUMBER_DB_PREV; NUMBER_DB_SEEK_FOUND; NUMBER_DB_NEXT_FOUND;
  NUMBER_DB_PREV_FOUND; ITER_BYTES_READ; NUMBER_ITER_SKIP; NUMBER_OF_RESEEKS_IN_ITERATION;
  NO_ITERATOR_CREATED; NO_ITERATOR_DELETED; NO_FILE_OPENS; NO_FILE_ERRORS; STALL_MICROS;
  DB_MUTEX_WAIT_MICROS; NUMBER_MULTIGET_CALLS; NUMBER_MULTIGET_KEYS_READ; NUMBER_MULTIGET_BYTES_READ;
  NUMBER_MULTIGET_KEYS_FOUND; NUMBER_MERGE_FAILURES; GET_UPDATES_SINCE_CALLS; WAL_FILE_SYNCED;
  WAL_FILE_BYTES; WRITE_DONE_BY_SELF; WRITE_DONE_BY_OTHER; WRITE_WITH_WAL; COMPACT_READ_BYTES;
  COMPACT_WRITE_BYTES; FLUSH_WRITE_BYTES; COMPACT_READ_BYTES_MARKED; COMPACT_READ_BYTES_PERIODIC;
  COMPACT_READ_BYTES_TTL; COMPACT_WRITE_BYTES_MARKED; COMPACT_WRITE_BYTES_PERIODIC;
  COMPACT_WRITE_BYTES_TTL; NUMBER_DIRECT_LOAD_TABLE_PROPERTIES; NUMBER_SUPERVERSION_ACQUIRES;
  NUMBER_SUPERVERSION_RELEASES; NUMBER_SUPERVERSION_CLEANUPS; NUMBER_BLOCK_COMPRESSED;
  NUMBER_BLOCK_DECOMPRESSED; BYTES_COMPRESSED_FROM; BYTES_COMPRESSED_TO; BYTES_COMPRESSION_BYPASSED;
  BYTES_COMPRESSION_REJECTED; NUMBER_BLOCK_COMPRESSION_BYPASSED; NUMBER_BLOCK_COMPRESSION_REJECTED;
  BYTES_DECOMPRESSED_FROM; BYTES_DECOMPRESSED_TO; MERGE_OPERATION_TOTAL_TIME; FILTER_OPERATION_TOTAL_TIME;
  COMPACTION_CPU_TOTAL_TIME; ROW_CACHE_HIT; ROW_CACHE_MISS; READ_AMP_ESTIMATE_USEFUL_BYTES;
  READ_AMP_TOTAL_READ_BYTES; NUMBER_RATE_LIMITER_DRAINS; BLOB_DB_NUM_PUT; BLOB_DB_NUM_WRITE;
  BLOB_DB_NUM_GET; BLOB_DB_NUM_MULTIGET; BLOB_DB_NUM_SEEK; BLOB_DB_NUM_NEXT; BLOB_DB_NUM_PREV;
  BLOB_DB_NUM_KEYS_WRITTEN; BLOB_DB_NUM_KEYS_READ; BLOB_DB_BYTES_WRITTEN; BLOB_DB_BYTES_READ;
  BLOB_DB_WRITE_INLINED; BLOB_DB_WRITE_INLINED_TTL; BLOB_DB_WRITE_BLOB; BLOB_DB_WRITE_BLOB_TTL;
  BLOB_DB_BLOB_FILE_BYTES_WRITTEN; BLOB_DB_BLOB_FILE_BYTES_READ; BLOB_DB_BLOB_FILE_SYNCED;
  BLOB_DB_BLOB_INDEX_EXPIRED_COUNT; BLOB_DB_BLOB_INDEX_EXPIRED_SIZE; BLOB_DB_BLOB_INDEX_EVICTED_COUNT;
  BLOB_DB_BLOB_INDEX_EVICTED_SIZE; BLOB_DB_GC_NUM_FILES; BLOB_DB_GC_NUM_NEW_FILES; BLOB_DB_GC_FAILURES;
  BLOB_DB_GC_NUM_KEYS_RELOCATED; BLOB_DB_GC_BYTES_RELOCATED; BLOB_DB_FIFO_NUM_FILES_EVICTED;
  BLOB_DB_FIFO_NUM_KEYS_EVICTED; BLOB_DB_FIFO_BYTES_EVICTED; BLOB_DB_CACHE_MISS; BLOB_DB_CACHE_HIT;
  BLOB_DB_CACHE_ADD; BLOB_DB_CACHE_ADD_FAILURES; BLOB_DB_CACHE_BYTES_READ; BLOB_DB_CACHE_BYTES_WRITE;
  TXN_PREPARE_MUTEX_OVERHEAD; TXN_OLD_COMMIT_MAP_MUTEX_OVERHEAD; TXN_DUPLICATE_KEY_OVERHEAD;
  TXN_SNAPSHOT_MUTEX_OVERHEAD; TXN_GET_TRY_AGAIN; FILES_MARKED_TRASH; FILES_DELETED_FROM_TRASH_QUEUE;
  FILES_DELETED_IMMEDIATELY; ERROR_HANDLER_BG_ERROR_COUNT; ERROR_HANDLER_BG_IO_ERROR_COUNT;
  ERROR_HANDLER_BG_RETRYABLE_IO_ERROR_COUNT; ERROR_HANDLER_AUTORESUME_COUNT;
  ERROR_HANDLER_AUTORESUME_RETRY_TOTAL_COUNT; ERROR_HANDLER_AUTORESUME_SUCCESS_COUNT;
  MEMTABLE_PAYLOAD_BYTES_AT_FLUSH; MEMTABLE_GARBAGE_BYTES_AT_FLUSH; VERIFY_CHECKSUM_READ_BYTES;
  BACKUP_READ_BYTES; BACKUP_WRITE_BYTES; REMOTE_COMPACT_READ_BYTES; REMOTE_COMPACT_WRITE_BYTES;
  REMOTE_COMPACT_RESUMED_BYTES; HOT_FILE_READ_BYTES; WARM_FILE_READ_BYTES; COOL_FILE_READ_BYTES;
  COLD_FILE_READ_BYTES; ICE_FILE_READ_BYTES; HOT_FILE_READ_COUNT; WARM_FILE_READ_COUNT;
  COOL_FILE_READ_COUNT; COLD_FILE_READ_COUNT; ICE_FILE_READ_COUNT; LAST_LEVEL_READ_BYTES;
  LAST_LEVEL_READ_COUNT; NON_LAST_LEVEL_READ_BYTES; NON_LAST_LEVEL_READ_COUNT; LAST_LEVEL_SEEK_FILTERED;
  LAST_LEVEL_SEEK_FILTER_MATCH; LAST_LEVEL_SEEK_DATA; LAST_LEVEL_SEEK_DATA_USEFUL_NO_FILTER;
  LAST_LEVEL_SEEK_DATA_USEFUL_FILTER_MATCH; NON_LAST_LEVEL_SEEK_FILTERED; NON_LAST_LEVEL_SEEK_FILTER_MATCH;
  NON_LAST_LEVEL_SEEK_DATA; NON_LAST_LEVEL_SEEK_DATA_USEFUL_NO_FILTER;
  NON_LAST_LEVEL_SEEK_DATA_USEFUL_FILTER_MATCH; BLOCK_CHECKSUM_COMPUTE_COUNT;
  BLOCK_CHECKSUM_MISMATCH_COUNT; MULTIGET_COROUTINE_COUNT; READ_ASYNC_MICROS; ASYNC_READ_ERROR_COUNT;
  TABLE_OPEN_PREFETCH_TAIL_MISS; TABLE_OPEN_PREFETCH_TAIL_HIT; TIMESTAMP_FILTER_TABLE_CHECKED;
  TIMESTAMP_FILTER_TABLE_FILTERED; READAHEAD_TRIMMED; FIFO_MAX_SIZE_COMPACTIONS; FIFO_TTL_COMPACTIONS;
  FIFO_CHANGE_TEMPERATURE_COMPACTIONS; PREFETCH_BYTES; PREFETCH_BYTES_USEFUL; PREFETCH_HITS;
  SST_FOOTER_CORRUPTION_COUNT; FILE_READ_CORRUPTION_RETRY_COUNT; FILE_READ_CORRUPTION_RETRY_SUCCESS_COUNT;
  NUMBER_WBWI_INGEST; SST_USER_DEFINED_INDEX_LOAD_FAIL_COUNT; TICKER_ENUM_MAX].
Definition all_histograms : list Histograms := [
  DB_GET; DB_WRITE; COMPACTION_TIME; COMPACTION_CPU_TIME; SUBCOMPACTION_SETUP_TIME; TABLE_SYNC_MICROS;
  COMPACTION_OUTFILE_SYNC_MICROS; WAL_FILE_SYNC_MICROS; MANIFEST_FILE_SYNC_MICROS; TABLE_OPEN_IO_MICROS;
  DB_MULTIGET; READ_BLOCK_COMPACTION_MICROS; READ_BLOCK_GET_MICROS; WRITE_RAW_BLOCK_MICROS;
  NUM_FILES_IN_SINGLE_COMPACTION; DB_SEEK; WRITE_STALL; SST_READ_MICROS; FILE_READ_FLUSH_MICROS;
  FILE_READ_COMPACTION_MICROS; FILE_READ_DB_OPEN_MICROS; FILE_READ_GET_MICROS; FILE_READ_MULTIGET_MICROS;
  FILE_READ_DB_ITERATOR_MICROS; FILE_READ_VERIFY_DB_CHECKSUM_MICROS;
  FILE_READ_VERIFY_FILE_CHECKSUMS_MICROS; SST_WRITE_MICROS; FILE_WRITE_FLUSH_MICROS;
  FILE_WRITE_COMPACTION_MICROS; FILE_WRITE_DB_OPEN_MICROS; NUM_SUBCOMPACTIONS_SCHEDULED; BYTES_PER_READ;
  BYTES_PER_WRITE; BYTES_PER_MULTIGET; COMPRESSION_TIMES_NANOS; DECOMPRESSION_TIMES_NANOS;
  READ_NUM_MERGE_OPERANDS; BLOB_DB_KEY_SIZE; BLOB_DB_VALUE_SIZE; BLOB_DB_WRITE_MICROS; BLOB_DB_GET_MICROS;
  BLOB_DB_MULTIGET_MICROS; BLOB_DB_SEEK_MICROS; BLOB_DB_NEXT_MICROS; BLOB_DB_PREV_MICROS;
  BLOB_DB_BLOB_FILE_WRITE_MICROS; BLOB_DB_BLOB_FILE_READ_MICROS; BLOB_DB_BLOB_FILE_SYNC_MICROS;
  BLOB_DB_COMPRESSION_MICROS; BLOB_DB_DECOMPRESSION_MICROS; FLUSH_TIME; SST_BATCH_SIZE;
  MULTIGET_IO_BATCH_SIZE; NUM_INDEX_AND_FILTER_BLOCKS_READ_PER_LEVEL; NUM_SST_READ_PER_LEVEL;
  NUM_LEVEL_READ_PER_MULTIGET; ERROR_HANDLER_AUTORESUME_RETRY_COUNT; ASYNC_READ_BYTES; POLL_WAIT_MICROS;
  COMPACTION_PREFETCH_BYTES; PREFETCHED_BYTES_DISCARDED; ASYNC_PREFETCH_ABORT_MICROS;
  TABLE_OPEN_PREFETCH_TAIL_READ_BYTES; NUM_OP_PER_TRANSACTION; MULTISCAN_PREPARE_ITERATORS;
  HISTOGRAM_ENUM_MAX].

(** ** Levels *)

Inductive StatsLevel :=
  | kDisableAll | kExceptHistogramOrTimers | kExceptTimers | kExceptDetailedTimers | kExceptTimeForMutex | kAll.
Definition kExceptTickers : StatsLevel := kDisableAll.
Definition StatsLevel_val (l : StatsLevel) : Z :=
  match l with
  | kDisableAll => 0 | kExceptHistogramOrTimers => 1 | kExceptTimers => 2 | kExceptDetailedTimers => 3
  | kExceptTimeForMutex => 4 | kAll => 5
  end.

(** ** The class *)

(** The type of a ticker or a histogram is a number of 32 bits; [data] of a histogram is what the class
    fills in. *)
Section Statistics.
Context {HistogramData : Type}.

Inductive statistics : Type → Type :=
  | st_Name : statistics (list byte)
  | st_getTickerCount (tickerType : Z) : statistics Z
  | st_histogramData (type : Z) (data : HistogramData) : statistics HistogramData
  | st_getHistogramString (type : Z) : statistics (list byte)
  | st_recordTick (tickerType count : Z) : statistics unit
  | st_setTickerCount (tickerType count : Z) : statistics unit
  | st_getAndResetTickerCount (tickerType : Z) : statistics Z
  | st_reportTimeToHistogram (histogramType time : Z) : statistics unit
  | st_measureTime (histogramType time : Z) : statistics unit
  | st_recordInHistogram (histogramType time : Z) : statistics unit
  | st_Reset : statistics Status
  | st_ToString : statistics (list byte)
  | st_getTickerMap (map : list (list byte * Z)) : statistics (bool * list (list byte * Z))
  | st_HistEnabledForType (type : Z) : statistics bool.

(** The member [stats_level_], beside the state of the class. *)
Context {S : Type} (Status_msg : Code → SubCode → Slice → Slice → Severity → Status)
        (pure : object statistics (StatsLevel * S)).
Definition set_stats_level (sl : StatsLevel) : M (StatsLevel * S) unit := modify (λ st, (sl, st.2)).
Definition get_stats_level : M (StatsLevel * S) StatsLevel := gets fst.
Definition new_Statistics (s : S) : StatsLevel * S := (kExceptDetailedTimers, s).

Definition statistics_defaults (self : object statistics (StatsLevel * S)) : object statistics (StatsLevel * S) :=
  λ A c,
  match c with
  | st_Name => mret []
  | st_getHistogramString _ => mret []
  | st_reportTimeToHistogram histogramType time =>
      level ← get_stats_level;
      if StatsLevel_val level <=? StatsLevel_val kExceptTimers then mret tt
      else self _ (st_recordInHistogram histogramType time)
  | st_measureTime _ _ => lift_outcome (assert_that false)
  | st_recordInHistogram histogramType time => self _ (st_measureTime histogramType time)
  | st_Reset => mret (NotSupported_msg Status_msg (Slice_of_string (str "Not implemented")) empty_slice)
  | st_ToString => mret (str "ToString(): not implemented")
  | st_getTickerMap map => mret (false, map)
  | st_HistEnabledForType type => mret (type <? Histograms_val HISTOGRAM_ENUM_MAX)
  | c => pure _ c
  end.
Definition Statistics (overrides : overriding statistics (StatsLevel * S)) : object statistics (StatsLevel * S) :=
  virtual statistics_defaults overrides 3.
Lemma statistics_settles : settles statistics_defaults 3.
Proof.
  settle (λ A (c : statistics A), match c with
    st_reportTimeToHistogram _ _ => 2 | st_recordInHistogram _ _ => 1 | _ => 0 end)%nat.
Qed.

(** ** What it records *)

(** A histogram type is enabled, unless a class decides otherwise, exactly when it is the number of a
    histogram. *)
Lemma histogram_round_trip h : all_histograms !! Z.to_nat (Histograms_val h) = Some h.
Proof. by destruct h. Qed.
Lemma histogram_place n h : all_histograms !! n = Some h → Histograms_val h = Z.of_nat n.
Proof.
  intros H. assert (n < length all_histograms)%nat as Hn; [by eapply lookup_lt_Some|].
  do 66 (destruct n as [|n]; [by injection H as <-|]). cbn in Hn. lia.
Qed.
Lemma ticker_round_trip t : all_tickers !! Z.to_nat (Tickers_val t) = Some t.
Proof. by destruct t. Qed.

Lemma level_above l : StatsLevel_val l <=? StatsLevel_val kExceptTimers =
  match l with kDisableAll | kExceptHistogramOrTimers | kExceptTimers => true | _ => false end.
Proof. by destruct l. Qed.

(** Times reach the class that keeps the statistics when the level asks for timers, and only then, and by
    whichever of the two names the class knows: a class that overrides [recordInHistogram] records
    there; an old one that overrides [measureTime] records there, through both names; one that
    overrides neither stops the program at the first time that is to be recorded.  A new object asks for
    timers.  The histograms that count as enabled are those there are. *)
Theorem times_are_recorded_by_either_name (overrides : overriding statistics (StatsLevel * S)) (level : StatsLevel)
    (s : S) histogramType time :
  let o := Statistics overrides in
  let report := o _ (st_reportTimeToHistogram histogramType time) (level, s) in
  overrides _ (st_reportTimeToHistogram histogramType time) = None →
  report = (if match level with kDisableAll | kExceptHistogramOrTimers | kExceptTimers => true | _ => false end
            then Done (tt, (level, s))
            else match overrides _ (st_recordInHistogram histogramType time),
                       overrides _ (st_measureTime histogramType time) with
                 | Some record, _ => record (level, s)
                 | None, Some measure => measure (level, s)
                 | None, None => Undef AssertFailed
                 end) ∧
  (overrides _ (st_recordInHistogram histogramType time) = None →
   o _ (st_recordInHistogram histogramType time) (level, s) = o _ (st_measureTime histogramType time) (level, s)) ∧
  (new_Statistics s).1 = kExceptDetailedTimers ∧
  (∀ type, 0 <= type → overrides _ (st_HistEnabledForType type) = None →
     ∃ enabled, o _ (st_HistEnabledForType type) (level, s) = Done (enabled, (level, s)) ∧
       (enabled = true ↔ ∃ h, h ≠ HISTOGRAM_ENUM_MAX ∧ Histograms_val h = type)).
Proof.
  intros o report Hno. unfold report, o, Statistics. cbn [virtual]. rewrite Hno. cbn [statistics_defaults].
  unfold mbind, M_bind, get_stats_level, gets. cbn [fst]. rewrite level_above. split; [|split; [|split; [done|]]].
  - destruct level; try done;
      (destruct (overrides _ (st_recordInHistogram histogramType time)); [done|]; cbn [statistics_defaults];
       by destruct (overrides _ (st_measureTime histogramType time))).
  - intros ->. cbn [statistics_defaults]. by destruct (overrides _ (st_measureTime histogramType time)).
  - intros type Hpos ->. cbn [statistics_defaults]. eexists. split; [done|].
    rewrite Z.ltb_lt. split.
    + intros Hlt. destruct (all_histograms !! Z.to_nat type) as [h|] eqn:E.
      * exists h. pose proof (histogram_place _ _ E) as Hv. rewrite Z2Nat.id in Hv by done. split; [|done].
        intros ->. lia.
      * apply lookup_ge_None in E. cbn in E, Hlt. lia.
    + intros (h & Hne & <-). by destruct h.
Qed.
End Statistics.
Arguments statistics : clear implicits.

(** The numbers of the tickers and of the histograms have no gaps and no two of them are the same: each
    is the place in the list, and the last, one past the others, is their count. *)
Lemma numbers_are_places :
  (∀ t, all_tickers !! Z.to_nat (Tickers_val t) = Some t) ∧
  (∀ h, all_histograms !! Z.to_nat (Histograms_val h) = Some h) ∧
  Tickers_val TICKER_ENUM_MAX = Z.of_nat (length all_tickers) - 1 ∧
  Histograms_val HISTOGRAM_ENUM_MAX = Z.of_nat (length all_histograms) - 1.
Proof. split; [exact ticker_round_trip|]. split; [exact histogram_round_trip|]. done. Qed.
