(* ===== verification/RateLimiter.v ===== *)
(** Rate limiters (include/rocksdb/rate_limiter.h): which reads and writes are limited, and how a request
    reaches the limiter, through the three generations of [Request].  Waiting is what a class does. *)
From S2P Require Import Prelude Slice RocksStatus RocksDB Dispatch.

Local Open Scope Z_scope.

Inductive OpType := kRead | kWrite.
Inductive Mode := kReadsOnly | kWritesOnly | kAllIo.
Definition Mode_val (m : Mode) : Z := match m with kReadsOnly => 0 | kWritesOnly => 1 | kAllIo => 2 end.
#[export] Instance OpType_eq_dec : EqDecision OpType.
Proof. solve_decision. Defined.
#[export] Instance Mode_eq_dec : EqDecision Mode.
Proof. solve_decision. Defined.
(** The default argument of the constructor *)
Definition default_mode : Mode := kWritesOnly.

(** The methods by their number of arguments, where they share a name; the I/O priority is a number. *)
Inductive rate_limiter : Type → Type :=
  | rl_SetBytesPerSecond (bytes_per_second : Z) : rate_limiter unit
  | rl_SetSingleBurstBytes (single_burst_bytes : Z) : rate_limiter Status
  | rl_Request2 (bytes pri : Z) : rate_limiter unit
  | rl_Request3 (bytes pri : Z) (stats : option ptr) : rate_limiter unit
  | rl_Request4 (bytes pri : Z) (stats : option ptr) (op_type : OpType) : rate_limiter unit
  | rl_RequestToken (bytes alignment io_priority : Z) (stats : option ptr) (op_type : OpType) : rate_limiter Z
  | rl_GetSingleBurstBytes : rate_limiter Z
  | rl_GetTotalBytesThrough (pri : Z) : rate_limiter Z
  | rl_GetTotalRequests (pri : Z) : rate_limiter Z
  | rl_GetTotalPendingRequests (total_pending_requests : option Z) (pri : Z) : rate_limiter (Status * option Z)
  | rl_GetBytesPerSecond : rate_limiter Z
  | rl_IsRateLimited (op_type : OpType) : rate_limiter bool.

Section RateLimiter.
Context {S : Type} (compiled : object rate_limiter S) (mode_ : Mode).

Definition GetMode : Mode := mode_.
Definition limits (op_type : OpType) : bool :=
  negb ((bool_decide (mode_ = kWritesOnly) && bool_decide (op_type = kRead)) ||
        (bool_decide (mode_ = kReadsOnly) && bool_decide (op_type = kWrite))).
Definition rate_limiter_defaults (self : object rate_limiter S) : object rate_limiter S := λ A c,
  match c with
  | rl_SetSingleBurstBytes _ => mret (NotSupported kNone)
  | rl_Request2 _ _ => lift_outcome (assert_that false)
  | rl_Request3 bytes pri _ => self _ (rl_Request2 bytes pri)
  | rl_Request4 bytes pri stats op_type =>
      limited ← self _ (rl_IsRateLimited op_type);
      if limited : bool then self _ (rl_Request3 bytes pri stats) else mret tt
  | rl_GetTotalPendingRequests total_pending_requests _ =>
      lift_outcome (assert_that (bool_decide (total_pending_requests ≠ None))) ;;
      mret (NotSupported kNone, total_pending_requests)
  | rl_IsRateLimited op_type => mret (limits op_type)
  | c => compiled _ c
  end.
Definition RateLimiter (overrides : overriding rate_limiter S) : object rate_limiter S :=
  virtual rate_limiter_defaults overrides 3.
Lemma rate_limiter_settles : settles rate_limiter_defaults 3.
Proof.
  settle (λ A (c : rate_limiter A), match c with
    rl_Request4 _ _ _ _ => 2 | rl_Request3 _ _ _ => 1 | _ => 0 end)%nat.
Qed.

(** A limiter is asked for every request whose direction its mode limits, and for no other, whichever of
    the three ways to ask it knows: the one with statistics when it has that, the oldest one otherwise.
    One that knows neither stops the program at the first request that is limited.  By default writes
    are limited and reads are not. *)
Theorem requests_reach_the_limiter (overrides : overriding rate_limiter S) bytes pri stats op_type s :
  let o := RateLimiter overrides in
  overrides _ (rl_Request4 bytes pri stats op_type) = None →
  overrides _ (rl_IsRateLimited op_type) = None →
  o _ (rl_Request4 bytes pri stats op_type) s =
    match mode_, op_type with
    | kWritesOnly, kRead | kReadsOnly, kWrite => Done (tt, s)
    | _, _ => match overrides _ (rl_Request3 bytes pri stats), overrides _ (rl_Request2 bytes pri) with
              | Some request, _ => request s
              | None, Some request => request s
              | None, None => Undef AssertFailed
              end
    end ∧
  (o _ (rl_IsRateLimited op_type) s = Done (bool_decide (mode_ = kAllIo) ||
     bool_decide (op_type = match mode_ with kReadsOnly => kRead | _ => kWrite end), s)) ∧
  default_mode = kWritesOnly.
Proof.
  intros o H4 Hl. split; [|split; [|done]].
  - unfold o, RateLimiter. cbn [virtual]. rewrite H4. cbn [rate_limiter_defaults]. unfold mbind, M_bind.
    rewrite Hl. cbn [rate_limiter_defaults]. unfold mret, M_ret, limits.
    destruct mode_, op_type; cbn; try done;
      (destruct (overrides _ (rl_Request3 bytes pri stats)); [done|]; cbn;
       by destruct (overrides _ (rl_Request2 bytes pri))).
  - unfold o, RateLimiter. cbn [virtual]. rewrite Hl. cbn [rate_limiter_defaults]. unfold limits. by destruct mode_, op_type.
Qed.
End RateLimiter.
