(* ===== verification/SystemClock.v ===== *)
(** Clocks (include/rocksdb/system_clock.h): what a clock inherits, on machine integers, and the wrapper. *)
From S2P Require Import Prelude Slice RocksStatus RocksDB Dispatch.

Local Open Scope Z_scope.

(** The condition variable is a pointer. *)
Inductive clock : Type → Type :=
  | k_Name : clock (list byte)
  | k_NowMicros : clock Z
  | k_NowNanos : clock Z
  | k_CPUMicros : clock Z
  | k_CPUNanos : clock Z
  | k_SleepForMicroseconds (micros : Z) : clock unit
  | k_TimedWait (cv : option ptr) (deadline : Z) : clock bool
  | k_GetCurrentTime (unix_time : Z) : clock (Status * Z)
  | k_TimeToString (time : Z) : clock (list byte).

Section SystemClock.
Context {S : Type} (compiled : object clock S).

Definition clock_defaults (self : object clock S) : object clock S := λ A c,
  match c with
  | k_NowNanos => micros ← self _ k_NowMicros; mret (u64 (micros * 1000))
  | k_CPUMicros => mret 0
  | k_CPUNanos => micros ← self _ k_CPUMicros; mret (u64 (micros * 1000))
  | c => compiled _ c
  end.
Definition SystemClock (overrides : overriding clock S) : object clock S := virtual clock_defaults overrides 2.
End SystemClock.

(** The wrapper keeps its own name. *)
Definition SystemClockWrapper {T} (target_ : object clock T) : overriding clock (unit * T) := λ A c,
  match c with
  | k_Name => None
  | k_NowMicros => Some (on_target (target_ _ k_NowMicros))
  | k_NowNanos => Some (on_target (target_ _ k_NowNanos))
  | k_CPUMicros => Some (on_target (target_ _ k_CPUMicros))
  | k_CPUNanos => Some (on_target (target_ _ k_CPUNanos))
  | k_SleepForMicroseconds micros => Some (on_target (target_ _ (k_SleepForMicroseconds micros)))
  | k_TimedWait cv deadline => Some (on_target (target_ _ (k_TimedWait cv deadline)))
  | k_GetCurrentTime unix_time => Some (on_target (target_ _ (k_GetCurrentTime unix_time)))
  | k_TimeToString time => Some (on_target (target_ _ (k_TimeToString time)))
  end.

(** ** What they promise *)

Definition tells_time (A : Type) (c : clock A) : bool := match c with k_Name => false | _ => true end.

(** To every client that does not ask for its name, a wrapped clock is the clock. *)
Theorem wrapped_clocks_are_the_clocks {T B} (compiled : object clock (unit * T)) (target : object clock T)
    (p : client clock B) t :
  only tells_time p →
  run (SystemClock compiled (SystemClockWrapper target)) p (tt, t) = on_target (run target p) (tt, t).
Proof.
  intros Hp. assert (simulates tells_time (wraps tt) (SystemClock compiled (SystemClockWrapper target)) target) as Hs.
  { intros A c s1 s2 Hc HR. destruct c; try done; by apply on_target_same. }
  pose proof (run_simulates _ _ _ _ p (tt, t) t Hs Hp eq_refl) as H. unfold same_end, on_target in *.
  destruct (run _ p (tt, t)) as [[b [own' t']]|f], (run target p t) as [[b2 t2]|f2]; [|done..|by subst].
  destruct H as [-> Hw]. by inversion Hw.
Qed.

(** How deep inherited methods call. *)
Definition clock_level (A : Type) (c : clock A) : nat := match c with k_NowNanos | k_CPUNanos => 1 | _ => 0 end.
Lemma clock_descends {S} (compiled : object clock S) : descends (clock_defaults compiled) clock_level.
Proof.
  intros o1 o2 A c s H. destruct c; try done; cbn; unfold mbind, M_bind; first [by rewrite (H _ k_NowMicros) by (cbn; lia)|by rewrite (H _ k_CPUMicros) by (cbn; lia)].
Qed.

(** A clock that counts microseconds tells the nanoseconds exactly, and so they grow with them, until the
    product is as wide as 64 bits, after 18446744073709551 microseconds; a time on the processor is zero
    for a clock that does not measure it. *)
Theorem nanoseconds_are_microseconds {S} (compiled : object clock S) (overrides : overriding clock S) s now s' :
  let o := SystemClock compiled overrides in
  overrides _ k_NowNanos = None → o _ k_NowMicros s = Done (now, s') → 0 <= now →
  (now <= 18446744073709551 → o _ k_NowNanos s = Done (now * 1000, s')) ∧
  (now = 18446744073709552 → o _ k_NowNanos s = Done (384, s')) ∧
  (overrides _ k_CPUMicros = None → overrides _ k_CPUNanos = None → o _ k_CPUNanos s = Done (0, s)).
Proof.
  intros o Hn Hm Hpos. assert (o _ k_NowNanos s = Done (u64 (now * 1000), s')) as Hnanos.
  { unfold o, SystemClock in *. rewrite (virtual_enough _ _ _ (clock_descends compiled) 2 1) in Hm by (cbn; lia).
    rewrite virtual_inherits by done. cbn [clock_defaults]. unfold mbind, M_bind. by rewrite Hm. }
  rewrite Hnanos. split; [|split].
  - intros Hle. unfold u64. by rewrite Z.mod_small by lia.
  - by intros ->.
  - intros Hc Hcn. unfold o, SystemClock. cbn [virtual]. rewrite Hcn. cbn [clock_defaults]. unfold mbind, M_bind.
    by rewrite Hc.
Qed.
