(* ===== verification/Comparator.v ===== *)
(** Comparators (include/rocksdb/comparator.h): what an order of keys inherits, with and without
    timestamps.  The order itself is what a class overrides. *)
From S2P Require Import Prelude Slice RocksStatus RocksDB Dispatch.

Local Open Scope Z_scope.

(** The member [timestamp_size_] *)
Record ComparatorMembers := mkComparator { timestamp_size_ : Z }.
Definition new_Comparator : ComparatorMembers := mkComparator 0.
Definition Comparator_of (ts_sz : Z) : ComparatorMembers := mkComparator ts_sz.
Definition Comparator_copy (orig : ComparatorMembers) : ComparatorMembers := mkComparator (timestamp_size_ orig).
(** [same] when both are one object *)
Definition Comparator_assign (same : bool) (this rhs : ComparatorMembers) : ComparatorMembers :=
  if same then this else mkComparator (timestamp_size_ rhs).
Definition timestamp_size (c : ComparatorMembers) : Z := timestamp_size_ c.

Inductive comparator : Type → Type :=
  | co_Name : comparator (list byte)
  | co_Compare (a b : Slice) : comparator Z
  | co_Equal (a b : Slice) : comparator bool
  | co_FindShortestSeparator (start : list byte) (limit : Slice) : comparator (list byte)
  | co_FindShortSuccessor (key : list byte) : comparator (list byte)
  | co_IsSameLengthImmediateSuccessor (s t : Slice) : comparator bool
  | co_CanKeysWithDifferentByteContentsBeEqual : comparator bool
  | co_GetRootComparator : comparator (option ptr)
  | co_GetMaxTimestamp : comparator Slice
  | co_GetMinTimestamp : comparator Slice
  | co_TimestampToString (timestamp : Slice) : comparator (list byte)
  | co_CompareTimestamp (ts1 ts2 : Slice) : comparator Z
  | co_CompareWithoutTimestamp (a : Slice) (a_has_ts : bool) (b : Slice) (b_has_ts : bool) : comparator Z
  | co_EqualWithoutTimestamp (a b : Slice) : comparator bool.

Section Comparator.
Context {S : Type} (pure : object comparator S) (members : ComparatorMembers) (this : option ptr).

Definition no_timestamp : M S Slice :=
  if bool_decide (timestamp_size_ members = 0) then mret empty_slice
  else lift_outcome (assert_that false) ;; mret empty_slice.
Definition comparator_defaults (self : object comparator S) : object comparator S := λ A c,
  match c with
  | co_Equal a b => n ← self _ (co_Compare a b); mret (n =? 0)
  | co_IsSameLengthImmediateSuccessor _ _ => mret false
  | co_CanKeysWithDifferentByteContentsBeEqual => mret true
  | co_GetRootComparator => mret this
  | co_GetMaxTimestamp => no_timestamp
  | co_GetMinTimestamp => no_timestamp
  | co_TimestampToString _ => mret []
  | co_CompareTimestamp _ _ => mret 0
  | co_CompareWithoutTimestamp a _ b _ => self _ (co_Compare a b)
  | co_EqualWithoutTimestamp a b => n ← self _ (co_CompareWithoutTimestamp a true b true); mret (0 =? n)
  | c => pure _ c
  end.
Definition Comparator (overrides : overriding comparator S) : object comparator S :=
  virtual comparator_defaults overrides 3.
Lemma comparator_settles : settles comparator_defaults 3.
Proof.
  settle (λ A (c : comparator A), match c with
    co_EqualWithoutTimestamp _ _ => 2 | co_Equal _ _ | co_CompareWithoutTimestamp _ _ _ _ => 1 | _ => 0 end)%nat.
Qed.
(** The overload without flags is not virtual. *)
Definition CompareWithoutTimestamp (o : object comparator S) (a b : Slice) : M S Z :=
  o _ (co_CompareWithoutTimestamp a true b true).

(** ** What it promises *)

(** A comparator that overrides only its order: the other ways to compare, with and without timestamps,
    are that order, and keys are equal for all of them when they are for the order.  When the order is
    one, being equal is an equivalence, and it agrees with the order.  Without timestamps the least and the
    greatest are empty; a comparator with timestamps that does not say what they are stops the
    program. *)
Theorem a_comparator_is_its_order (overrides : overriding comparator S) (order : Slice → Slice → Z) s :
  let o := Comparator overrides in
  (∀ a b, overrides _ (co_Compare a b) = Some (mret (order a b))) →
  (∀ a b, overrides _ (co_Equal a b) = None) → (∀ a b, overrides _ (co_EqualWithoutTimestamp a b) = None) →
  (∀ a a_has b b_has, overrides _ (co_CompareWithoutTimestamp a a_has b b_has) = None) →
  overrides _ co_GetMaxTimestamp = None →
  (∀ a b, o _ (co_Equal a b) s = Done (order a b =? 0, s)) ∧
  (∀ a b, o _ (co_EqualWithoutTimestamp a b) s = o _ (co_Equal a b) s) ∧
  (∀ a b a_has b_has, o _ (co_CompareWithoutTimestamp a a_has b b_has) s = Done (order a b, s)) ∧
  (∀ a b, CompareWithoutTimestamp o a b s = o _ (co_Compare a b) s) ∧
  ((∀ a, order a a = 0) → (∀ a b, order a b <= 0 ↔ 0 <= order b a) →
   (∀ a b c, order a b <= 0 → order b c <= 0 → order a c <= 0) →
   let equal a b := o _ (co_Equal a b) s = Done (true, s) in
   Equivalence equal ∧ ∀ a b c, equal a b → order a c <= 0 → order b c <= 0) ∧
  o _ co_GetMaxTimestamp s = (if decide (timestamp_size members = 0) then Done (empty_slice, s) else Undef AssertFailed).
Proof.
  intros o Hc He Hew Hcw Hmax.
  assert (∀ n a b, virtual comparator_defaults overrides n _ (co_Compare a b) s = Done (order a b, s)) as Hcmp.
  { intros n a b. by rewrite (virtual_overrides _ _ _ _ _ _ (Hc a b)). }
  assert (∀ a b, o _ (co_Equal a b) s = Done (order a b =? 0, s)) as Hequal.
  { intros a b. unfold o, Comparator. rewrite virtual_inherits by done. cbn [comparator_defaults].
    unfold mbind, M_bind. by rewrite Hcmp. }
  assert (∀ n a ah b bh, virtual comparator_defaults overrides (Datatypes.S n) _ (co_CompareWithoutTimestamp a ah b bh) s =
    Done (order a b, s)) as Hwithout.
  { intros n a ah b bh. rewrite virtual_inherits by done. cbn [comparator_defaults]. apply Hcmp. }
  split; [exact Hequal|]. split; [|split; [by intros; apply Hwithout|split; [|split]]].
  - intros a b. rewrite Hequal. unfold o, Comparator. rewrite virtual_inherits by done. cbn [comparator_defaults].
    unfold mbind, M_bind. rewrite Hwithout. by rewrite Z.eqb_sym.
  - intros a b. unfold CompareWithoutTimestamp, o, Comparator. by rewrite Hwithout, Hcmp.
  - intros Hr Hs Ht equal. assert (∀ a b, equal a b ↔ order a b = 0) as Heq.
    { intros a b. unfold equal. rewrite Hequal. split; [intros [= H]; by apply Z.eqb_eq|by intros ->]. }
    split; [split|].
    + intros a. by apply Heq.
    + intros a b Hab%Heq. apply Heq. pose proof (Hs a b). pose proof (Hs b a). lia.
    + intros a b c Hab%Heq Hbc%Heq. apply Heq. pose proof (Ht a b c). pose proof (Ht c b a).
      pose proof (Hs a b). pose proof (Hs b a). pose proof (Hs b c). pose proof (Hs c b). pose proof (Hs a c).
      pose proof (Hs c a). lia.
    + intros a b c Hab%Heq Hac. pose proof (Hs a b). pose proof (Hs b a). apply (Ht b a c); lia.
  - unfold o, Comparator. rewrite virtual_inherits by done. cbn [comparator_defaults]. unfold no_timestamp, timestamp_size.
    case_decide; [by rewrite bool_decide_true|by rewrite bool_decide_false].
Qed.
End Comparator.
