(* ===== verification/MemTableRep.v ===== *)
(** The representation of a memtable (include/rocksdb/memtablerep.h): the ways to insert an entry, what the
    class and its iterators inherit, and the factories.  The data structures are compiled elsewhere. *)
From S2P Require Import Prelude Slice RocksStatus RocksDB Dispatch.

Local Open Scope Z_scope.

(** Keys in memory, handles, hints and arguments of callbacks are pointers. *)
Inductive memtable_rep : Type → Type :=
  | mr_Allocate (len : Z) : memtable_rep (option ptr * option ptr)
  | mr_Insert (handle : option ptr) : memtable_rep unit
  | mr_InsertKey (handle : option ptr) : memtable_rep bool
  | mr_InsertWithHint (handle hint : option ptr) : memtable_rep unit
  | mr_InsertKeyWithHint (handle hint : option ptr) : memtable_rep bool
  | mr_InsertWithHintConcurrently (handle hint : option ptr) : memtable_rep unit
  | mr_InsertKeyWithHintConcurrently (handle hint : option ptr) : memtable_rep bool
  | mr_InsertConcurrently (handle : option ptr) : memtable_rep unit
  | mr_InsertKeyConcurrently (handle : option ptr) : memtable_rep bool
  | mr_BatchPostProcess : memtable_rep unit
  | mr_Contains (key : option ptr) : memtable_rep bool
  | mr_MarkReadOnly : memtable_rep unit
  | mr_MarkFlushed : memtable_rep unit
  | mr_Get (k callback_args callback_func : option ptr) : memtable_rep unit
  | mr_GetAndValidate (k callback_args callback_func : option ptr) (allow_data_in_error detect_key_out_of_order : bool)
      (key_validation_callback : option ptr) : memtable_rep Status
  | mr_ApproximateNumEntries (start_ikey end_key : Slice) : memtable_rep Z
  | mr_UniqueRandomSample (num_entries target_sample_size : Z) (entries : list ptr) : memtable_rep (list ptr)
  | mr_ApproximateMemoryUsage : memtable_rep Z
  | mr_GetIterator (arena : option ptr) : memtable_rep (option ptr)
  | mr_GetDynamicPrefixIterator (arena : option ptr) : memtable_rep (option ptr)
  | mr_IsMergeOperatorSupported : memtable_rep bool
  | mr_IsSnapshotSupported : memtable_rep bool
  | mr_UserKey (key : option ptr) : memtable_rep Slice.

Section MemTableRep.
Context {S : Type} (Status_msg : Code → SubCode → Slice → Slice → Severity → Status)
        (compiled : object memtable_rep S).
Abbreviation unimplemented := (λ s, NotSupported_msg Status_msg (Slice_of_string (str s)) empty_slice).

Definition memtable_defaults (self : object memtable_rep S) : object memtable_rep S := λ A c,
  match c with
  | mr_InsertKey handle => self _ (mr_Insert handle) ;; mret true
  | mr_InsertWithHint handle _ => self _ (mr_Insert handle)
  | mr_InsertKeyWithHint handle hint => self _ (mr_InsertWithHint handle hint) ;; mret true
  | mr_InsertWithHintConcurrently handle _ => self _ (mr_InsertConcurrently handle)
  | mr_InsertKeyWithHintConcurrently handle hint => self _ (mr_InsertWithHintConcurrently handle hint) ;; mret true
  | mr_InsertKeyConcurrently handle => self _ (mr_InsertConcurrently handle) ;; mret true
  | mr_BatchPostProcess => mret tt
  | mr_MarkReadOnly => mret tt
  | mr_MarkFlushed => mret tt
  | mr_GetAndValidate _ _ _ _ _ _ => mret (unimplemented "GetAndValidate() not implemented.")
  | mr_ApproximateNumEntries _ _ => mret 0
  | mr_UniqueRandomSample _ _ entries => lift_outcome (assert_that false) ;; mret entries
  | mr_GetDynamicPrefixIterator arena => self _ (mr_GetIterator arena)
  | mr_IsMergeOperatorSupported => mret true
  | mr_IsSnapshotSupported => mret true
  | c => compiled _ c
  end.
Definition MemTableRep (overrides : overriding memtable_rep S) : object memtable_rep S :=
  virtual memtable_defaults overrides 3.
Lemma memtable_settles : settles memtable_defaults 3.
Proof.
  settle (λ A (c : memtable_rep A), match c with
    mr_InsertKeyWithHint _ _ | mr_InsertKeyWithHintConcurrently _ _ => 2
    | mr_InsertKey _ | mr_InsertWithHint _ _ | mr_InsertWithHintConcurrently _ _ | mr_InsertKeyConcurrently _
    | mr_GetDynamicPrefixIterator _ => 1 | _ => 0 end)%nat.
Qed.
End MemTableRep.

(** ** Iterators *)

Inductive rep_iterator : Type → Type :=
  | ri_Valid : rep_iterator bool
  | ri_key : rep_iterator (option ptr)
  | ri_Next : rep_iterator unit
  | ri_NextAndValidate (allow_data_in_errors : bool) : rep_iterator Status
  | ri_Prev : rep_iterator unit
  | ri_PrevAndValidate (allow_data_in_errors : bool) : rep_iterator Status
  | ri_Seek (internal_key : Slice) (memtable_key : option ptr) : rep_iterator unit
  | ri_SeekAndValidate (internal_key : Slice) (memtable_key : option ptr)
      (allow_data_in_errors detect_key_out_of_order : bool) (key_validation_callback : option ptr) : rep_iterator Status
  | ri_SeekForPrev (internal_key : Slice) (memtable_key : option ptr) : rep_iterator unit
  | ri_RandomSeek : rep_iterator unit
  | ri_SeekToFirst : rep_iterator unit
  | ri_SeekToLast : rep_iterator unit.

Section Iterator.
Context {S : Type} (Status_msg : Code → SubCode → Slice → Slice → Severity → Status) (pure : object rep_iterator S).
Abbreviation unimplemented := (λ s, NotSupported_msg Status_msg (Slice_of_string (str s)) empty_slice).
Definition RepIterator : object rep_iterator S := λ A c,
  match c with
  | ri_NextAndValidate _ => (mret (unimplemented "NextAndValidate() not implemented.") : M S Status)
  | ri_PrevAndValidate _ => (mret (unimplemented "PrevAndValidate() not implemented.") : M S Status)
  | ri_SeekAndValidate _ _ _ _ _ => (mret (unimplemented "SeekAndValidate() not implemented.") : M S Status)
  | ri_RandomSeek => (mret tt : M S unit)
  | c => pure _ c
  end.
End Iterator.

(** ** Factories *)

Inductive rep_factory : Type → Type :=
  | rf_CreateMemTableRep (key_cmp allocator slice_transform logger : option ptr) : rep_factory (option ptr)
  | rf_CreateMemTableRep_cf (key_cmp allocator slice_transform logger : option ptr) (column_family_id : Z) :
      rep_factory (option ptr)
  | rf_Name : rep_factory (list byte)
  | rf_NickName : rep_factory (list byte)
  | rf_IsInsertConcurrentlySupported : rep_factory bool
  | rf_CanHandleDuplicatedKey : rep_factory bool.

Section Factory.
Context {S : Type} (compiled : object rep_factory S).
(** [NickName] is that of [Customizable]. *)
Definition factory_defaults (self : object rep_factory S) : object rep_factory S := λ A c,
  match c with
  | rf_CreateMemTableRep_cf key_cmp allocator slice_transform logger _ =>
      self _ (rf_CreateMemTableRep key_cmp allocator slice_transform logger)
  | rf_NickName => mret []
  | rf_IsInsertConcurrentlySupported => mret false
  | rf_CanHandleDuplicatedKey => mret false
  | c => compiled _ c
  end.
Definition MemTableRepFactory (overrides : overriding rep_factory S) : object rep_factory S :=
  virtual factory_defaults overrides 2.
Lemma factory_settles : settles factory_defaults 2.
Proof.
  settle (λ A (c : rep_factory A), match c with
    rf_CreateMemTableRep_cf _ _ _ _ _ => 1 | _ => 0 end)%nat.
Qed.
(** [create] is compiled elsewhere. *)
Definition SkipListFactory (create : option ptr → option ptr → option ptr → option ptr → M S (option ptr)) :
    overriding rep_factory S := λ A c,
  match c with
  | rf_Name => Some (mret (str "SkipListFactory"))
  | rf_NickName => Some (mret (str "skip_list"))
  | rf_CreateMemTableRep key_cmp allocator st logger => Some (create key_cmp allocator st logger)
  | rf_IsInsertConcurrentlySupported => Some (mret true)
  | rf_CanHandleDuplicatedKey => Some (mret true)
  | _ => None
  end.
Definition VectorRepFactory (create : option ptr → option ptr → option ptr → option ptr → M S (option ptr)) :
    overriding rep_factory S := λ A c,
  match c with
  | rf_Name => Some (mret (str "VectorRepFactory"))
  | rf_NickName => Some (mret (str "vector"))
  | rf_CreateMemTableRep key_cmp allocator st logger => Some (create key_cmp allocator st logger)
  | rf_IsInsertConcurrentlySupported => Some (mret true)
  | _ => None
  end.
End Factory.

(** ** What they promise *)

(** A call that inserts the entry of a handle, and whether it does so concurrently. *)
Inductive inserts (handle : option ptr) : ∀ A, memtable_rep A → bool → (unit → A) → Prop :=
  | by_Insert : inserts handle _ (mr_Insert handle) false (λ u, u)
  | by_InsertKey : inserts handle _ (mr_InsertKey handle) false (λ _, true)
  | by_InsertWithHint hint : inserts handle _ (mr_InsertWithHint handle hint) false (λ u, u)
  | by_InsertKeyWithHint hint : inserts handle _ (mr_InsertKeyWithHint handle hint) false (λ _, true)
  | by_InsertConcurrently : inserts handle _ (mr_InsertConcurrently handle) true (λ u, u)
  | by_InsertKeyConcurrently : inserts handle _ (mr_InsertKeyConcurrently handle) true (λ _, true)
  | by_InsertWithHintConcurrently hint : inserts handle _ (mr_InsertWithHintConcurrently handle hint) true (λ u, u)
  | by_InsertKeyWithHintConcurrently hint :
      inserts handle _ (mr_InsertKeyWithHintConcurrently handle hint) true (λ _, true).

(** The two ways to insert that a representation implements itself. *)
Definition basic (S : Type) (insert insert_concurrently : option ptr → M S unit) : overriding memtable_rep S := λ A c,
  match c with
  | mr_Insert handle => Some (insert handle)
  | mr_InsertConcurrently handle => Some (insert_concurrently handle)
  | _ => None
  end.

(** A representation that implements only the two basic ways to insert: each of the eight inserts the
    entry exactly once, through the basic way for one or for several threads, whatever the hint; and the
    four that report it always report success, so a representation that has to refuse duplicates must
    override them. *)
Theorem entries_are_inserted_once {S} Status_msg (compiled : object memtable_rep S)
    (insert insert_concurrently : option ptr → M S unit) handle A (c : memtable_rep A) concurrent answer s :
  inserts handle A c concurrent answer →
  MemTableRep Status_msg compiled (basic S insert insert_concurrently) A c s =
    match (if concurrent then insert_concurrently else insert) handle s with
    | Done (u, s') => Done (answer u, s')
    | Undef e => Undef e
    end.
Proof.
  intros [| |hint|hint| | |hint|hint]; unfold MemTableRep; cbn; unfold mbind, M_bind;
    by destruct (_ handle s) as [[[] s']|].
Qed.

(** The factories the header defines, and what a new one inherits: several threads may insert into both,
    but only the skip list notices duplicates, and the column family makes no difference to either. *)
Lemma factories_differ {S} (compiled : object rep_factory S) create s :
  let skip_list := MemTableRepFactory compiled (SkipListFactory create) in
  let vector := MemTableRepFactory compiled (VectorRepFactory create) in
  skip_list _ rf_IsInsertConcurrentlySupported s = Done (true, s) ∧ skip_list _ rf_CanHandleDuplicatedKey s = Done (true, s) ∧
  vector _ rf_IsInsertConcurrentlySupported s = Done (true, s) ∧ vector _ rf_CanHandleDuplicatedKey s = Done (false, s) ∧
  (∀ k a st l cf, skip_list _ (rf_CreateMemTableRep_cf k a st l cf) s = create k a st l s ∧
     vector _ (rf_CreateMemTableRep_cf k a st l cf) s = create k a st l s).
Proof. done. Qed.
