(* ===== verification/BackupEngine.v ===== *)
(** Backups (include/rocksdb/utilities/backup_engine.h): how shared files are named, the options with what
    their constructor asserts, and the overloads of creating and restoring a backup.  Copying files is
    compiled elsewhere. *)
From S2P Require Import Prelude Slice RocksStatus RocksDB Dispatch Env.

Local Open Scope Z_scope.

(** ** [ShareFilesNaming], an enumeration of 32 bits *)

Definition kLegacyCrc32cAndFileSize : Z := 1.
Definition kUseDbSessionId : Z := 2.
Definition kMaskNoNamingFlags : Z := 0xffff.
Definition kFlagIncludeFileSize : Z := Z.shiftl 1 31.
Definition kMaskNamingFlags : Z := Z.lxor kMaskNoNamingFlags (2 ^ 32 - 1).

(** The operators outside of the class. *)
Definition naming_and (lhs rhs : Z) : outcome Z :=
  assert_that ((rhs =? kMaskNoNamingFlags) || (Z.land rhs kMaskNoNamingFlags =? 0)) ;;
  Done (Z.land lhs rhs).
Definition naming_or (lhs rhs : Z) : outcome Z :=
  assert_that (Z.land rhs kMaskNoNamingFlags =? 0) ;; Done (Z.lor lhs rhs).

(** ** [BackupEngineOptions] *)

Record BackupEngineOptions := mkBackupOptions {
  backup_dir : list byte;
  backup_env : option ptr;
  share_table_files : bool;
  info_log : option ptr;
  sync : bool;
  destroy_old_data : bool;
  backup_log_files : bool;
  io_buffer_size : Z;
  backup_rate_limit : Z;
  backup_rate_limiter : option ptr;
  restore_rate_limit : Z;
  restore_rate_limiter : option ptr;
  share_files_with_checksum : bool;
  max_background_operations : Z;
  callback_trigger_interval_size : Z;
  max_valid_backups_to_open : Z;
  share_files_with_checksum_naming : Z;
  schema_version : Z;
  current_temperatures_override_manifest : bool;
}.
Definition INT_MAX : Z := 2 ^ 31 - 1.
Definition default_naming : Z := Z.lor kUseDbSessionId kFlagIncludeFileSize.
Definition BackupEngineOptions_full (_backup_dir : list byte) (_backup_env : option ptr) (_share_table_files : bool)
    (_info_log : option ptr) (_sync _destroy_old_data _backup_log_files : bool)
    (_io_buffer_size _backup_rate_limit _restore_rate_limit _max_background_operations
     _callback_trigger_interval_size _max_valid_backups_to_open _naming : Z) : outcome BackupEngineOptions :=
  let o := mkBackupOptions _backup_dir _backup_env _share_table_files _info_log _sync _destroy_old_data
    _backup_log_files _io_buffer_size _backup_rate_limit None _restore_rate_limit None true
    _max_background_operations _callback_trigger_interval_size _max_valid_backups_to_open _naming 1 false in
  assert_that (share_table_files o || negb (share_files_with_checksum o)) ;;
  assert_that (negb (Z.land (share_files_with_checksum_naming o) kMaskNoNamingFlags =? 0)) ;;
  Done o.
(** With the default arguments *)
Definition new_BackupEngineOptions (_backup_dir : list byte) : outcome BackupEngineOptions :=
  BackupEngineOptions_full _backup_dir None true None true false true 0 0 0 1 (4 * 1024 * 1024) INT_MAX default_naming.

(** ** The options of a backup and of a restore *)

(** Callbacks are pointers; an empty function is null. *)
Record CreateBackupOptions := mkCreate {
  flush_before_backup : bool;
  progress_callback : option ptr;
  exclude_files_callback : option ptr;
  decrease_background_thread_cpu_priority : bool;
  background_thread_cpu_priority : CpuPriority;
}.
Definition new_CreateBackupOptions : CreateBackupOptions := mkCreate false None None false cpu_kNormal.
Definition create_options (flush_before : bool) (progress : option ptr) : CreateBackupOptions :=
  mkCreate flush_before progress None false cpu_kNormal.

Definition kKeepLatestDbSessionIdFiles : Z := 1.
Definition kVerifyChecksum : Z := 2.
Definition kPurgeAllFiles : Z := 0xffff.
Record RestoreOptions := mkRestore { keep_log_files : bool; alternate_dirs : list ptr; mode : Z }.
Definition RestoreOptions_of (_keep_log_files : bool) (_mode : Z) : RestoreOptions := mkRestore _keep_log_files [] _mode.
Definition new_RestoreOptions : RestoreOptions := RestoreOptions_of false kPurgeAllFiles.

Record BackupStatistics := mkBackupStatistics { number_success_backup : Z; number_fail_backup : Z }.
Definition new_BackupStatistics : BackupStatistics := mkBackupStatistics 0 0.
Definition BackupStatistics_of (success fail : Z) : BackupStatistics := mkBackupStatistics success fail.

(** ** The overloads *)

(** What identifies a backup is written through a pointer that may be null. *)
Inductive append_engine : Type → Type :=
  | be_CreateNewBackupWithMetadata (options : CreateBackupOptions) (db : option ptr) (app_metadata : list byte)
      (new_backup_id : option Z) : append_engine (Status * option Z)
  | be_CreateNewBackupWithMetadata_flush (db : option ptr) (app_metadata : list byte) (flush_before : bool)
      (progress : option ptr) : append_engine Status
  | be_CreateNewBackup (options : CreateBackupOptions) (db : option ptr) (new_backup_id : option Z) :
      append_engine (Status * option Z)
  | be_CreateNewBackup_flush (db : option ptr) (flush_before : bool) (progress : option ptr) : append_engine Status
  | be_StopBackup : append_engine unit
  | be_GarbageCollect : append_engine Status.

Section Append.
Context {S : Type} (pure : object append_engine S).
Definition append_defaults (self : object append_engine S) : object append_engine S := λ A c,
  match c with
  | be_CreateNewBackupWithMetadata_flush db app_metadata flush_before progress =>
      '(s, _) ← self _ (be_CreateNewBackupWithMetadata (create_options flush_before progress) db app_metadata None);
      mret s
  | be_CreateNewBackup options db new_backup_id =>
      self _ (be_CreateNewBackupWithMetadata options db [] new_backup_id)
  | be_CreateNewBackup_flush db flush_before progress =>
      '(s, _) ← self _ (be_CreateNewBackup (create_options flush_before progress) db None); mret s
  | c => pure _ c
  end.
Definition BackupEngineAppendOnlyBase (overrides : overriding append_engine S) : object append_engine S :=
  virtual append_defaults overrides 3.
Lemma append_settles : settles append_defaults 3.
Proof.
  settle (λ A (c : append_engine A), match c with
    be_CreateNewBackup_flush _ _ _ => 2
    | be_CreateNewBackup _ _ _ | be_CreateNewBackupWithMetadata_flush _ _ _ _ => 1 | _ => 0 end)%nat.
Qed.
End Append.

Inductive read_engine : Type → Type :=
  | be_RestoreDBFromBackup (options : RestoreOptions) (backup_id : Z) (db_dir wal_dir : list byte) : read_engine Status
  | be_RestoreDBFromBackup_last (backup_id : Z) (db_dir wal_dir : list byte) (options : RestoreOptions) :
      read_engine Status
  | be_RestoreDBFromLatestBackup (options : RestoreOptions) (db_dir wal_dir : list byte) : read_engine Status
  | be_RestoreDBFromLatestBackup_last (db_dir wal_dir : list byte) (options : RestoreOptions) : read_engine Status
  | be_VerifyBackup (backup_id : Z) (verify_with_checksum : bool) : read_engine Status.

Section Read.
Context {S : Type} (pure : object read_engine S).
Definition read_defaults (self : object read_engine S) : object read_engine S := λ A c,
  match c with
  | be_RestoreDBFromBackup_last backup_id db_dir wal_dir options =>
      self _ (be_RestoreDBFromBackup options backup_id db_dir wal_dir)
  | be_RestoreDBFromLatestBackup_last db_dir wal_dir options =>
      self _ (be_RestoreDBFromLatestBackup options db_dir wal_dir)
  | c => pure _ c
  end.
Definition BackupEngineReadOnlyBase (overrides : overriding read_engine S) : object read_engine S :=
  virtual read_defaults overrides 2.
Lemma read_settles : settles read_defaults 2.
Proof.
  settle (λ A (c : read_engine A), match c with
    be_RestoreDBFromBackup_last _ _ _ _ | be_RestoreDBFromLatestBackup_last _ _ _ => 1 | _ => 0 end)%nat.
Qed.
End Read.

(** ** What they promise *)

(** The two assertions of the constructor: it finishes exactly when table files are shared and the naming
    names a scheme; so the argument that says not to share table files can never be used, because the
    constructor turns the sharing by checksum on itself and then insists that table files are shared.
    The default arguments are accepted, and name files by session and size. *)
Theorem table_files_have_to_be_shared dir env share log_ sync_ destroy logs io_size rate restore_rate ops interval
    max_open naming :
  let r := BackupEngineOptions_full dir env share log_ sync_ destroy logs io_size rate restore_rate ops interval
    max_open naming in
  (is_done r = true ↔ share = true ∧ Z.land naming kMaskNoNamingFlags ≠ 0) ∧
  (share = false → r = Undef AssertFailed) ∧
  (∀ o, r = Done o → share_table_files o = true ∧ share_files_with_checksum o = true ∧
     share_files_with_checksum_naming o = naming) ∧
  (∃ o, new_BackupEngineOptions dir = Done o ∧
     naming_and (share_files_with_checksum_naming o) kMaskNoNamingFlags = Done kUseDbSessionId ∧
     naming_and (share_files_with_checksum_naming o) kFlagIncludeFileSize = Done kFlagIncludeFileSize).
Proof.
  intros r. assert (r = if share && negb (Z.land naming kMaskNoNamingFlags =? 0)
    then Done (mkBackupOptions dir env share log_ sync_ destroy logs io_size rate None restore_rate None true ops
           interval max_open naming 1 false)
    else Undef AssertFailed) as Hr.
  { unfold r, BackupEngineOptions_full. cbn [share_table_files share_files_with_checksum
      share_files_with_checksum_naming]. destruct share; [|done]. cbn [orb andb].
    by destruct (Z.land naming kMaskNoNamingFlags =? 0). }
  rewrite Hr. destruct (Z.eqb_spec (Z.land naming kMaskNoNamingFlags) 0) as [E|E], share; cbn;
    (split; [naive_solver|split; [done|split; [by intros o [= <-]|]]]); eexists; split; [reflexivity|by split| |..];
    try (split; reflexivity); try reflexivity.
Qed.

Lemma low_bits scheme :
  Z.land scheme kMaskNamingFlags = 0 → 0 <= scheme < 2 ^ 32 → Z.land scheme kMaskNoNamingFlags = scheme.
Proof.
  intros Hs Hr. assert (kMaskNoNamingFlags = Z.lxor kMaskNamingFlags (2 ^ 32 - 1)) as -> by reflexivity.
  apply Z.bits_inj'. intros i Hi. rewrite Z.land_spec, Z.lxor_spec. destruct (Z.ltb_spec i 32) as [Hlt|Hge].
  - assert (Z.testbit (Z.land scheme kMaskNamingFlags) i = false) as Hb; [by rewrite Hs, Z.bits_0|].
    rewrite Z.land_spec in Hb. change (2 ^ 32 - 1) with (Z.pred (2 ^ 32)).
    rewrite <-Z.ones_equiv, Z.ones_spec_low by lia.
    by destruct (Z.testbit scheme i), (Z.testbit kMaskNamingFlags i).
  - assert (Z.testbit scheme i = false) as ->; [|done].
    destruct (decide (scheme = 0)) as [->|Hne]; [apply Z.bits_0|].
    apply Z.bits_above_log2; [lia|]. apply Z.log2_lt_pow2; [lia|].
    eapply Z.lt_le_trans; [apply Hr|]. by apply Z.pow_le_mono_r.
Qed.
Lemma lor_32 a b : 0 <= a < 2 ^ 32 → 0 <= b < 2 ^ 32 → 0 <= Z.lor a b < 2 ^ 32.
Proof.
  intros Ha Hb. assert (∀ x, 0 <= x → x < 2 ^ 32 ↔ Z.shiftr x 32 = 0) as Hshift.
  { intros x Hx. rewrite Z.shiftr_div_pow2 by lia. rewrite Z.div_small_iff by lia. lia. }
  assert (0 <= Z.lor a b) as Hpos by (apply Z.lor_nonneg; lia). split; [done|].
  apply Hshift; [done|]. rewrite Z.shiftr_lor. by rewrite (proj1 (Hshift a ltac:(lia))), (proj1 (Hshift b ltac:(lia))) by lia.
Qed.

(** Flags have no bit among the low ones. *)
Definition high_only (x : Z) : Prop := ∀ i, 0 <= i < 16 → Z.testbit x i = false.
Lemma high_only_land x : Z.land x kMaskNoNamingFlags = 0 ↔ high_only x.
Proof.
  change kMaskNoNamingFlags with (Z.ones 16). split.
  - intros H i Hi. assert (Z.testbit (Z.land x (Z.ones 16)) i = false) as Hb by by rewrite H, Z.testbit_0_l.
    rewrite Z.land_spec, Z.ones_spec_low in Hb by lia. by rewrite andb_true_r in Hb.
  - intros H. apply Z.bits_inj'. intros i Hi. rewrite Z.testbit_0_l, Z.land_spec.
    destruct (Z.lt_ge_cases i 16) as [Hl|Hl]; [by rewrite H by lia|].
    by rewrite Z.ones_spec_high, andb_false_r by lia.
Qed.

(** C31. A scheme, which has only low bits, and flags, which have only high ones, are combined
    and told apart again. The operators look at their right operand only: the combination stops
    the program exactly when that has a low bit, and the selection exactly when it has one and
    is not the mask of all low bits. *)
Theorem naming_and_flags_round_trip scheme flags :
  (Z.land scheme kMaskNamingFlags = 0 → 0 <= scheme < 2 ^ 32 → 0 <= flags < 2 ^ 32 → high_only flags →
   ∃ naming, naming_or scheme flags = Done naming ∧ 0 <= naming < 2 ^ 32 ∧
     naming_and naming kMaskNoNamingFlags = Done scheme ∧ naming_and naming flags = Done flags) ∧
  (∀ lhs rhs, naming_or lhs rhs = Undef AssertFailed ↔ ¬ high_only rhs) ∧
  (∀ lhs rhs, naming_and lhs rhs = Undef AssertFailed ↔ rhs ≠ kMaskNoNamingFlags ∧ ¬ high_only rhs).
Proof.
  split; [|split].
  - intros Hs Hrs Hrf Hf%high_only_land. exists (Z.lor scheme flags). split; [unfold naming_or; by rewrite Hf|].
    split; [by apply lor_32|]. unfold naming_and. rewrite Z.eqb_refl, Hf, orb_true_r.
    cbn [orb assert_that mbind outcome_bind]. rewrite !Z.land_lor_distr_l, Hf, low_bits by done.
    rewrite Z.lor_0_r, Z.land_diag. split; [done|]. f_equal. apply Z.bits_inj'. intros i Hi.
    rewrite Z.lor_spec, Z.land_spec. by destruct (Z.testbit scheme i), (Z.testbit flags i).
  - intros lhs rhs. rewrite <-high_only_land. unfold naming_or.
    destruct (Z.eqb_spec (Z.land rhs kMaskNoNamingFlags) 0); naive_solver.
  - intros lhs rhs. rewrite <-high_only_land. unfold naming_and.
    destruct (Z.eqb_spec rhs kMaskNoNamingFlags), (Z.eqb_spec (Z.land rhs kMaskNoNamingFlags) 0); naive_solver.
Qed.

(** Every way to create a backup that an engine inherits comes down to the one that it implements: with no
    metadata unless some are given, with default options but for the flush and the callback, and without
    asking for the number of the backup unless there is a place for it. *)
Theorem backups_are_created_one_way {S} (pure : object append_engine S) (create : CreateBackupOptions → option ptr →
    list byte → option Z → M S (Status * option Z)) (overrides : overriding append_engine S) options db metadata
    flush_before progress id s :
  let o := BackupEngineAppendOnlyBase pure overrides in
  let status (r : outcome (Status * option Z * S)) : outcome (Status * S) :=
    match r with Done (s, _, st) => Done (s, st) | Undef e => Undef e end in
  (∀ o db m id, overrides _ (be_CreateNewBackupWithMetadata o db m id) = Some (create o db m id)) →
  (∀ db m f p, overrides _ (be_CreateNewBackupWithMetadata_flush db m f p) = None) →
  (∀ o db id, overrides _ (be_CreateNewBackup o db id) = None) →
  (∀ db f p, overrides _ (be_CreateNewBackup_flush db f p) = None) →
  o _ (be_CreateNewBackupWithMetadata_flush db metadata flush_before progress) s =
    status (create (mkCreate flush_before progress None false cpu_kNormal) db metadata None s) ∧
  o _ (be_CreateNewBackup options db id) s = create options db [] id s ∧
  o _ (be_CreateNewBackup_flush db flush_before progress) s =
    status (create (mkCreate flush_before progress None false cpu_kNormal) db [] None s).
Proof.
  intros o status Hc H1 H2 H3. unfold o, BackupEngineAppendOnlyBase.
  split; [|split]; rewrite virtual_inherits by done; cbn [append_defaults]; unfold mbind, M_bind.
  - rewrite (virtual_overrides _ _ _ _ _ _ (Hc _ _ _ _)). unfold status, create_options.
    by destruct (create _ _ _ _ s) as [[[st i] s']|].
  - by rewrite (virtual_overrides _ _ _ _ _ _ (Hc _ _ _ _)).
  - rewrite virtual_inherits by done. cbn [append_defaults].
    rewrite (virtual_overrides _ _ _ _ _ _ (Hc _ _ _ _)). unfold status, create_options.
    by destruct (create _ _ _ _ s) as [[[st i] s']|].
Qed.
