(* ===== verification/Metadata.v ===== *)
(** Descriptions of files (include/rocksdb/metadata.h): table and blob files, levels and column families, as
    their constructors fill them in.  A number that a constructor leaves unset is [None]. *)
From S2P Require Import Prelude Slice RocksStatus IOStatus RocksDB FsFiles.

Local Open Scope Z_scope.

(** [FileType] of types.h *)
Inductive FileType :=
  | kWalFile | kDBLockFile | kTableFile | kDescriptorFile | kCurrentFile | kTempFile | kInfoLogFile
  | kMetaDatabase | kIdentityFile | kOptionsFile | kBlobFile | kCompactionProgressFile.

Record FileStorageInfo := mkStorageInfo {
  relative_filename : list byte;
  directory : list byte;
  file_number : Z;
  file_type : FileType;
  size : Z;
  temperature : Temperature;
  file_checksum : list byte;
  file_checksum_func_name : list byte;
}.
Definition new_FileStorageInfo : FileStorageInfo := mkStorageInfo [] [] 0 kTempFile 0 kTempUnknown [] [].
Record LiveFileStorageInfo := mkLiveStorageInfo {
  live_info : FileStorageInfo;
  replacement_contents : list byte;
  trim_to_size : bool;
}.
Definition new_LiveFileStorageInfo : LiveFileStorageInfo := mkLiveStorageInfo new_FileStorageInfo [] false.

Record SstFileMetaData := mkSst {
  storage_info : FileStorageInfo;
  smallest_seqno : Z;
  largest_seqno : Z;
  smallestkey : list byte;
  largestkey : list byte;
  num_reads_sampled : Z;
  being_compacted : bool;
  num_entries : Z;
  num_deletions : Z;
  oldest_blob_file_number : Z;
  oldest_ancester_time : Z;
  file_creation_time : Z;
  epoch_number : Z;
  smallest : list byte;
  largest : list byte;
  name : list byte;
  db_path : list byte;
}.
Definition new_SstFileMetaData : SstFileMetaData :=
  mkSst (mkStorageInfo [] [] 0 kTableFile 0 kTempUnknown [] []) 0 0 [] [] 0 false 0 0 0 0 0 0 [] [] [] [].

Definition slash : byte := x2f.
(** [operator[]] of a string; past the end there is a zero. *)
Definition char_at (s : list byte) (n : nat) : byte := nth n s x00.
(** The names: the relative one, and the one that starts with a slash. *)
Definition file_names (_file_name : list byte) : outcome (list byte * list byte) :=
  if bool_decide (_file_name = []) then Done ([], [])
  else
    let '(relative, name) :=
      if bool_decide (char_at _file_name 0 = slash) then (drop 1 _file_name, _file_name)
      else (_file_name, slash :: _file_name) in
    assert_that (bool_decide (length relative + 1 = length name)%nat) ;;
    assert_that (bool_decide (char_at relative 0 ≠ slash)) ;;
    assert_that (bool_decide (char_at name 0 = slash)) ;;
    Done (relative, name).
Definition SstFileMetaData_of (_file_name : list byte) (_file_number : Z) (_directory : list byte)
    (_size _smallest_seqno _largest_seqno : Z) (_smallestkey _largestkey : list byte) (_num_reads_sampled : Z)
    (_being_compacted : bool) (_temperature : Temperature)
    (_oldest_blob_file_number _oldest_ancester_time _file_creation_time _epoch_number : Z)
    (_file_checksum _file_checksum_func_name : list byte) : outcome SstFileMetaData :=
  '(relative, name) ← file_names _file_name;
  Done (mkSst (mkStorageInfo relative _directory _file_number kTableFile _size _temperature _file_checksum
                 _file_checksum_func_name)
          _smallest_seqno _largest_seqno _smallestkey _largestkey _num_reads_sampled _being_compacted 0 0
          _oldest_blob_file_number _oldest_ancester_time _file_creation_time _epoch_number [] [] name _directory).

Record LiveFileMetaData := mkLive { sst : SstFileMetaData; column_family_name : list byte; level : Z }.
Definition new_LiveFileMetaData : LiveFileMetaData := mkLive new_SstFileMetaData [] 0.

Record BlobMetaData := mkBlob {
  blob_file_number : Z;
  blob_file_name : list byte;
  blob_file_path : list byte;
  blob_file_size : Z;
  total_blob_count : Z;
  total_blob_bytes : Z;
  garbage_blob_count : Z;
  garbage_blob_bytes : Z;
  checksum_method : list byte;
  checksum_value : list byte;
}.
Definition new_BlobMetaData : BlobMetaData := mkBlob 0 [] [] 0 0 0 0 0 [] [].
Definition BlobMetaData_of (_file_number : Z) (_file_name _file_path : list byte)
    (_file_size _total_blob_count _total_blob_bytes _garbage_blob_count _garbage_blob_bytes : Z)
    (_file_checksum _file_checksum_func_name : list byte) : BlobMetaData :=
  mkBlob _file_number _file_name _file_path _file_size _total_blob_count _total_blob_bytes _garbage_blob_count
    _garbage_blob_bytes _file_checksum _file_checksum_func_name.

Record LevelMetaData := mkLevel { level_number : Z; level_size : Z; files : list SstFileMetaData }.
Definition LevelMetaData_of (_level _size : Z) (_files : list SstFileMetaData) : LevelMetaData :=
  mkLevel _level _size _files.

(** A range of keys, open at an end that is missing. *)
Record GetColumnFamilyMetaDataOptions := mkGetOptions { range : OptSlice * OptSlice; only_level : Z }.
Definition new_GetColumnFamilyMetaDataOptions : GetColumnFamilyMetaDataOptions :=
  mkGetOptions (OptSlice_none, OptSlice_none) (-1).
Definition GetColumnFamilyMetaDataOptions_of (_start_key _end_key : OptSlice) (_level : Z) :
    GetColumnFamilyMetaDataOptions := mkGetOptions (_start_key, _end_key) _level.

Record ColumnFamilyMetaData := mkFamily {
  cf_size : Z;
  cf_file_count : option Z;
  cf_name : list byte;
  cf_levels : list LevelMetaData;
  cf_blob_file_size : Z;
  cf_blob_file_count : Z;
  cf_blob_files : list BlobMetaData;
}.
Definition new_ColumnFamilyMetaData : ColumnFamilyMetaData := mkFamily 0 (Some 0) [] [] 0 0 [].
Definition ColumnFamilyMetaData_of (_name : list byte) (_size : Z) (_levels : list LevelMetaData) :
    ColumnFamilyMetaData := mkFamily _size None _name _levels 0 0 [].

(** ** Names *)

Lemma char_at_cons c s : char_at (c :: s) 0 = c.
Proof. done. Qed.

(** A file is known by the same two names, whether it was given with a leading slash or without: one that
    is relative to the directory, and that name after a slash.  Only a name that starts with two slashes
    stops the program; a missing name stays missing; and a slash alone is a relative name that is
    empty. *)
Theorem files_have_a_relative_name (_file_name : list byte) :
  (∀ rest, _file_name = slash :: slash :: rest → file_names _file_name = Undef AssertFailed) ∧
  ((¬ ∃ rest, _file_name = slash :: slash :: rest) → ∃ relative name,
     file_names _file_name = Done (relative, name) ∧
     (_file_name = [] → relative = [] ∧ name = []) ∧
     (_file_name ≠ [] → name = slash :: relative ∧ char_at relative 0 ≠ slash ∧
        (_file_name = relative ∨ _file_name = name) ∧ file_names name = Done (relative, name) ∧
        (relative ≠ [] → file_names relative = Done (relative, name)))).
Proof.
  assert (∀ r, char_at r 0 ≠ slash → file_names (slash :: r) = Done (r, slash :: r)) as Habs.
  { intros r Hr. unfold file_names. rewrite bool_decide_false by done. cbn [char_at nth drop]. 
    rewrite bool_decide_true by done. cbn. rewrite drop_0. rewrite (bool_decide_true ((length r + 1)%nat = S (length r))) by lia.
    rewrite (bool_decide_true (char_at r 0 ≠ slash)) by done. done. }
  assert (∀ r, r ≠ [] → char_at r 0 ≠ slash → file_names r = Done (r, slash :: r)) as Hrel.
  { intros r Hne Hr. unfold file_names. rewrite !bool_decide_false by done. cbn.
    rewrite (bool_decide_true ((length r + 1)%nat = S (length r))) by lia.
    rewrite (bool_decide_true (char_at r 0 ≠ slash)) by done. done. }
  split.
  - intros rest ->. unfold file_names. cbn. rewrite (bool_decide_true (slash = slash)) by done. cbn.
    rewrite (bool_decide_false (char_at (slash :: rest) 0 ≠ slash)) by (intros H; by apply H).
    by destruct (bool_decide (_ = S _)).
  - intros Hn. destruct (decide (_file_name = [])) as [->|Hne]; [by exists [], []|].
    destruct (decide (char_at _file_name 0 = slash)) as [Hs|Hs].
    + destruct _file_name as [|c r]; [done|]. cbn in Hs. subst c.
      assert (char_at r 0 ≠ slash) as Hr by (intros Hc; apply Hn; destruct r as [|c r]; [done|cbn in Hc; subst; eauto]).
      exists r, (slash :: r). rewrite Habs by done. split; [done|]. split; [done|]. intros _.
      split; [done|]. split; [done|]. split; [by right|]. split; [done|]. intros. by apply Hrel.
    + exists _file_name, (slash :: _file_name). rewrite Hrel by done. split; [done|]. split; [done|]. intros _.
      split; [done|]. split; [done|]. split; [by left|]. split; [by apply Habs|done].
Qed.

(** What the constructors do with their arguments: the constructor of a table file keeps one directory
    under both names and counts nothing; that of a blob file takes what it calls the checksum for the
    method and what it calls the name of the function for the value; and that of a column family leaves
    the number of files unset. *)
Lemma constructors_fill_in number path name total bytes garbage garbage_bytes size checksum func cf levels :
  checksum_method (BlobMetaData_of number name path size total bytes garbage garbage_bytes checksum func) = checksum ∧
  checksum_value (BlobMetaData_of number name path size total bytes garbage garbage_bytes checksum func) = func ∧
  cf_file_count (ColumnFamilyMetaData_of cf size levels) = None ∧
  cf_file_count new_ColumnFamilyMetaData = Some 0.
Proof. done. Qed.
