(* ===== verification/CBindings.v ===== *)
(** The constants of the C bindings (include/rocksdb/c.h) beside the enumerations of the C++ headers that they
    stand for.  A constant is an [int] that the bindings turn into an enumerator, and the counters of a
    context are read by such a number; so the numbers have to agree. *)
From S2P Require Import Prelude.

Local Open Scope Z_scope.
Local Open Scope string_scope.

(** ** Enumerations of C

    An enumerator has the number it is given, that of another one, or the one after the last. *)
Inductive enumerator := implicit (name : string) | explicit (name : string) (value : Z) | alias (name other : string).
Abbreviation enumeration := (list enumerator).

Definition value_in (numbers : list (string * Z)) (name : string) : option Z :=
  '(_, (_, v)) ← list_find (λ p, p.1 = name) numbers; Some v.
Definition enumerator_name (e : enumerator) : string :=
  match e with implicit name => name | explicit name _ => name | alias name _ => name end.
Definition value_after (next : Z) (seen : list (string * Z)) (e : enumerator) : Z :=
  match e with
  | implicit _ => next
  | explicit _ value => value
  | alias _ other => default next (value_in seen other)
  end.
Fixpoint number_from (next : Z) (seen : list (string * Z)) (l : enumeration) : list (string * Z) :=
  match l with
  | [] => seen
  | e :: l => let v := value_after next seen e in number_from (v + 1) (seen ++ [(enumerator_name e, v)]) l
  end.
Definition numbers (l : enumeration) : list (string * Z) := number_from 0 [] l.
Definition value_of (l : enumeration) (name : string) : option Z := value_in (numbers l) name.
Definition enumerator_of (l : enumeration) (v : Z) : option string := fst <$> head (filter (λ p, p.2 = v) (numbers l)).

(** ** The enumerations

    Those of c.h have no names there; those of C++ go by their types. *)

Definition c_size_approximation_flags : enumeration := [
  explicit "rocksdb_size_approximation_flags_none" 0;
  explicit "rocksdb_size_approximation_flags_include_memtable" (Z.shiftl 1 0);
  explicit "rocksdb_size_approximation_flags_include_files" (Z.shiftl 1 1)].
Definition SizeApproximationFlags : enumeration := [
  explicit "NONE" 0; explicit "INCLUDE_MEMTABLES" (Z.shiftl 1 0); explicit "INCLUDE_FILES" (Z.shiftl 1 1)].
Definition c_index_type : enumeration := [
  explicit "rocksdb_block_based_table_index_type_binary_search" 0;
  explicit "rocksdb_block_based_table_index_type_hash_search" 1;
  explicit "rocksdb_block_based_table_index_type_two_level_index_search" 2].
Definition IndexType : enumeration := [
  explicit "kBinarySearch" 0x00; explicit "kHashSearch" 0x01; explicit "kTwoLevelIndexSearch" 0x02;
  explicit "kBinarySearchWithFirstKey" 0x03].
Definition c_data_block_index_type : enumeration := [
  explicit "rocksdb_block_based_table_data_block_index_type_binary_search" 0;
  explicit "rocksdb_block_based_table_data_block_index_type_binary_search_and_hash" 1].
Definition DataBlockIndexType : enumeration := [
  explicit "kDataBlockBinarySearch" 0; explicit "kDataBlockBinaryAndHash" 1].
Definition c_pinning_tier : enumeration := [
  explicit "rocksdb_block_based_k_fallback_pinning_tier" 0;
  explicit "rocksdb_block_based_k_none_pinning_tier" 1;
  explicit "rocksdb_block_based_k_flush_and_similar_pinning_tier" 2;
  explicit "rocksdb_block_based_k_all_pinning_tier" 3].
Definition PinningTier : enumeration := [
  implicit "kFallback"; implicit "kNone"; implicit "kFlushedAndSimilar"; implicit "kAll"].
Definition c_statistics_level : enumeration := [
  explicit "rocksdb_statistics_level_disable_all" 0;
  alias "rocksdb_statistics_level_except_tickers" "rocksdb_statistics_level_disable_all";
  explicit "rocksdb_statistics_level_except_histogram_or_timers" 1;
  explicit "rocksdb_statistics_level_except_timers" 2;
  explicit "rocksdb_statistics_level_except_detailed_timers" 3;
  explicit "rocksdb_statistics_level_except_time_for_mutex" 4; explicit "rocksdb_statistics_level_all" 5].
Definition StatsLevel : enumeration := [
  implicit "kDisableAll"; alias "kExceptTickers" "kDisableAll"; implicit "kExceptHistogramOrTimers";
  implicit "kExceptTimers"; implicit "kExceptDetailedTimers"; implicit "kExceptTimeForMutex"; implicit "kAll"].
Definition c_prepopulate_blob : enumeration := [
  explicit "rocksdb_prepopulate_blob_disable" 0; explicit "rocksdb_prepopulate_blob_flush_only" 1].
Definition PrepopulateBlobCache : enumeration := [
  explicit "kDisable" 0x0; explicit "kFlushOnly" 0x1].
Definition c_recovery_mode : enumeration := [
  explicit "rocksdb_tolerate_corrupted_tail_records_recovery" 0;
  explicit "rocksdb_absolute_consistency_recovery" 1; explicit "rocksdb_point_in_time_recovery" 2;
  explicit "rocksdb_skip_any_corrupted_records_recovery" 3].
Definition WALRecoveryMode : enumeration := [
  explicit "kTolerateCorruptedTailRecords" 0x00; explicit "kAbsoluteConsistency" 0x01;
  explicit "kPointInTimeRecovery" 0x02; explicit "kSkipAnyCorruptedRecords" 0x03].
Definition c_compression : enumeration := [
  explicit "rocksdb_no_compression" 0; explicit "rocksdb_snappy_compression" 1;
  explicit "rocksdb_zlib_compression" 2; explicit "rocksdb_bz2_compression" 3;
  explicit "rocksdb_lz4_compression" 4; explicit "rocksdb_lz4hc_compression" 5;
  explicit "rocksdb_xpress_compression" 6; explicit "rocksdb_zstd_compression" 7].
Definition CompressionType : enumeration := [
  explicit "kNoCompression" 0x00; explicit "kSnappyCompression" 0x01; explicit "kZlibCompression" 0x02;
  explicit "kBZip2Compression" 0x03; explicit "kLZ4Compression" 0x04; explicit "kLZ4HCCompression" 0x05;
  explicit "kXpressCompression" 0x06; explicit "kZSTD" 0x07; alias "kLastBuiltinCompression" "kZSTD";
  explicit "kCustomCompression80" 0x80; alias "kFirstCustomCompression" "kCustomCompression80";
  explicit "kCustomCompression81" 0x81; explicit "kCustomCompression82" 0x82;
  explicit "kCustomCompression83" 0x83; explicit "kCustomCompression84" 0x84;
  explicit "kCustomCompression85" 0x85; explicit "kCustomCompression86" 0x86;
  explicit "kCustomCompression87" 0x87; explicit "kCustomCompression88" 0x88;
  explicit "kCustomCompression89" 0x89; explicit "kCustomCompression8A" 0x8A;
  explicit "kCustomCompression8B" 0x8B; explicit "kCustomCompression8C" 0x8C;
  explicit "kCustomCompression8D" 0x8D; explicit "kCustomCompression8E" 0x8E;
  explicit "kCustomCompression8F" 0x8F; explicit "kCustomCompression90" 0x90;
  explicit "kCustomCompression91" 0x91; explicit "kCustomCompression92" 0x92;
  explicit "kCustomCompression93" 0x93; explicit "kCustomCompression94" 0x94;
  explicit "kCustomCompression95" 0x95; explicit "kCustomCompression96" 0x96;
  explicit "kCustomCompression97" 0x97; explicit "kCustomCompression98" 0x98;
  explicit "kCustomCompression99" 0x99; explicit "kCustomCompression9A" 0x9A;
  explicit "kCustomCompression9B" 0x9B; explicit "kCustomCompression9C" 0x9C;
  explicit "kCustomCompression9D" 0x9D; explicit "kCustomCompression9E" 0x9E;
  explicit "kCustomCompression9F" 0x9F; explicit "kCustomCompressionA0" 0xA0;
  explicit "kCustomCompressionA1" 0xA1; explicit "kCustomCompressionA2" 0xA2;
  explicit "kCustomCompressionA3" 0xA3; explicit "kCustomCompressionA4" 0xA4;
  explicit "kCustomCompressionA5" 0xA5; explicit "kCustomCompressionA6" 0xA6;
  explicit "kCustomCompressionA7" 0xA7; explicit "kCustomCompressionA8" 0xA8;
  explicit "kCustomCompressionA9" 0xA9; explicit "kCustomCompressionAA" 0xAA;
  explicit "kCustomCompressionAB" 0xAB; explicit "kCustomCompressionAC" 0xAC;
  explicit "kCustomCompressionAD" 0xAD; explicit "kCustomCompressionAE" 0xAE;
  explicit "kCustomCompressionAF" 0xAF; explicit "kCustomCompressionB0" 0xB0;
  explicit "kCustomCompressionB1" 0xB1; explicit "kCustomCompressionB2" 0xB2;
  explicit "kCustomCompressionB3" 0xB3; explicit "kCustomCompressionB4" 0xB4;
  explicit "kCustomCompressionB5" 0xB5; explicit "kCustomCompressionB6" 0xB6;
  explicit "kCustomCompressionB7" 0xB7; explicit "kCustomCompressionB8" 0xB8;
  explicit "kCustomCompressionB9" 0xB9; explicit "kCustomCompressionBA" 0xBA;
  explicit "kCustomCompressionBB" 0xBB; explicit "kCustomCompressionBC" 0xBC;
  explicit "kCustomCompressionBD" 0xBD; explicit "kCustomCompressionBE" 0xBE;
  explicit "kCustomCompressionBF" 0xBF; explicit "kCustomCompressionC0" 0xC0;
  explicit "kCustomCompressionC1" 0xC1; explicit "kCustomCompressionC2" 0xC2;
  explicit "kCustomCompressionC3" 0xC3; explicit "kCustomCompressionC4" 0xC4;
  explicit "kCustomCompressionC5" 0xC5; explicit "kCustomCompressionC6" 0xC6;
  explicit "kCustomCompressionC7" 0xC7; explicit "kCustomCompressionC8" 0xC8;
  explicit "kCustomCompressionC9" 0xC9; explicit "kCustomCompressionCA" 0xCA;
  explicit "kCustomCompressionCB" 0xCB; explicit "kCustomCompressionCC" 0xCC;
  explicit "kCustomCompressionCD" 0xCD; explicit "kCustomCompressionCE" 0xCE;
  explicit "kCustomCompressionCF" 0xCF; explicit "kCustomCompressionD0" 0xD0;
  explicit "kCustomCompressionD1" 0xD1; explicit "kCustomCompressionD2" 0xD2;
  explicit "kCustomCompressionD3" 0xD3; explicit "kCustomCompressionD4" 0xD4;
  explicit "kCustomCompressionD5" 0xD5; explicit "kCustomCompressionD6" 0xD6;
  explicit "kCustomCompressionD7" 0xD7; explicit "kCustomCompressionD8" 0xD8;
  explicit "kCustomCompressionD9" 0xD9; explicit "kCustomCompressionDA" 0xDA;
  explicit "kCustomCompressionDB" 0xDB; explicit "kCustomCompressionDC" 0xDC;
  explicit "kCustomCompressionDD" 0xDD; explicit "kCustomCompressionDE" 0xDE;
  explicit "kCustomCompressionDF" 0xDF; explicit "kCustomCompressionE0" 0xE0;
  explicit "kCustomCompressionE1" 0xE1; explicit "kCustomCompressionE2" 0xE2;
  explicit "kCustomCompressionE3" 0xE3; explicit "kCustomCompressionE4" 0xE4;
  explicit "kCustomCompressionE5" 0xE5; explicit "kCustomCompressionE6" 0xE6;
  explicit "kCustomCompressionE7" 0xE7; explicit "kCustomCompressionE8" 0xE8;
  explicit "kCustomCompressionE9" 0xE9; explicit "kCustomCompressionEA" 0xEA;
  explicit "kCustomCompressionEB" 0xEB; explicit "kCustomCompressionEC" 0xEC;
  explicit "kCustomCompressionED" 0xED; explicit "kCustomCompressionEE" 0xEE;
  explicit "kCustomCompressionEF" 0xEF; explicit "kCustomCompressionF0" 0xF0;
  explicit "kCustomCompressionF1" 0xF1; explicit "kCustomCompressionF2" 0xF2;
  explicit "kCustomCompressionF3" 0xF3; explicit "kCustomCompressionF4" 0xF4;
  explicit "kCustomCompressionF5" 0xF5; explicit "kCustomCompressionF6" 0xF6;
  explicit "kCustomCompressionF7" 0xF7; explicit "kCustomCompressionF8" 0xF8;
  explicit "kCustomCompressionF9" 0xF9; explicit "kCustomCompressionFA" 0xFA;
  explicit "kCustomCompressionFB" 0xFB; explicit "kCustomCompressionFC" 0xFC;
  explicit "kCustomCompressionFD" 0xFD; explicit "kCustomCompressionFE" 0xFE;
  alias "kLastCustomCompression" "kCustomCompressionFE"; explicit "kDisableCompressionOption" 0xff].
Definition c_compaction_style : enumeration := [
  explicit "rocksdb_level_compaction" 0; explicit "rocksdb_universal_compaction" 1;
  explicit "rocksdb_fifo_compaction" 2].
Definition CompactionStyle : enumeration := [
  explicit "kCompactionStyleLevel" 0x0; explicit "kCompactionStyleUniversal" 0x1;
  explicit "kCompactionStyleFIFO" 0x2; explicit "kCompactionStyleNone" 0x3].
Definition c_compaction_pri : enumeration := [
  explicit "rocksdb_k_by_compensated_size_compaction_pri" 0;
  explicit "rocksdb_k_oldest_largest_seq_first_compaction_pri" 1;
  explicit "rocksdb_k_oldest_smallest_seq_first_compaction_pri" 2;
  explicit "rocksdb_k_min_overlapping_ratio_compaction_pri" 3; explicit "rocksdb_k_round_robin_compaction_pri" 4].
Definition CompactionPri : enumeration := [
  explicit "kByCompensatedSize" 0x0; explicit "kOldestLargestSeqFirst" 0x1;
  explicit "kOldestSmallestSeqFirst" 0x2; explicit "kMinOverlappingRatio" 0x3; explicit "kRoundRobin" 0x4].
Definition c_stop_style : enumeration := [
  explicit "rocksdb_similar_size_compaction_stop_style" 0; explicit "rocksdb_total_size_compaction_stop_style" 1].
Definition CompactionStopStyle : enumeration := [
  implicit "kCompactionStopStyleSimilarSize"; implicit "kCompactionStopStyleTotalSize"].
Definition c_jobstatus : enumeration := [
  explicit "rocksdb_compactionservice_jobstatus_success" 0;
  explicit "rocksdb_compactionservice_jobstatus_failure" 1;
  explicit "rocksdb_compactionservice_jobstatus_aborted" 2;
  explicit "rocksdb_compactionservice_jobstatus_use_local" 3].
Definition CompactionServiceJobStatus : enumeration := [
  implicit "kSuccess"; implicit "kFailure"; implicit "kAborted"; implicit "kUseLocal"].
Definition c_perf_level : enumeration := [
  explicit "rocksdb_uninitialized" 0; explicit "rocksdb_disable" 1; explicit "rocksdb_enable_count" 2;
  explicit "rocksdb_enable_time_except_for_mutex" 3; explicit "rocksdb_enable_time" 4;
  explicit "rocksdb_out_of_bounds" 5].
Definition PerfLevel : enumeration := [
  explicit "kUninitialized" 0; explicit "kDisable" 1; explicit "kEnableCount" 2; explicit "kEnableWait" 3;
  explicit "kEnableTimeExceptForMutex" 4; explicit "kEnableTimeAndCPUTimeExceptForMutex" 5;
  explicit "kEnableTime" 6; explicit "kOutOfBounds" 7].

(** The counters that can be read by number. *)
Definition c_metrics : enumeration := [
  explicit "rocksdb_user_key_comparison_count" 0; implicit "rocksdb_block_cache_hit_count";
  implicit "rocksdb_block_read_count"; implicit "rocksdb_block_read_byte"; implicit "rocksdb_block_read_time";
  implicit "rocksdb_block_checksum_time"; implicit "rocksdb_block_decompress_time";
  implicit "rocksdb_get_read_bytes"; implicit "rocksdb_multiget_read_bytes";
  implicit "rocksdb_iter_read_bytes"; implicit "rocksdb_internal_key_skipped_count";
  implicit "rocksdb_internal_delete_skipped_count"; implicit "rocksdb_internal_recent_skipped_count";
  implicit "rocksdb_internal_merge_count"; implicit "rocksdb_get_snapshot_time";
  implicit "rocksdb_get_from_memtable_time"; implicit "rocksdb_get_from_memtable_count";
  implicit "rocksdb_get_post_process_time"; implicit "rocksdb_get_from_output_files_time";
  implicit "rocksdb_seek_on_memtable_time"; implicit "rocksdb_seek_on_memtable_count";
  implicit "rocksdb_next_on_memtable_count"; implicit "rocksdb_prev_on_memtable_count";
  implicit "rocksdb_seek_child_seek_time"; implicit "rocksdb_seek_child_seek_count";
  implicit "rocksdb_seek_min_heap_time"; implicit "rocksdb_seek_max_heap_time";
  implicit "rocksdb_seek_internal_seek_time"; implicit "rocksdb_find_next_user_entry_time";
  implicit "rocksdb_write_wal_time"; implicit "rocksdb_write_memtable_time";
  implicit "rocksdb_write_delay_time"; implicit "rocksdb_write_pre_and_post_process_time";
  implicit "rocksdb_db_mutex_lock_nanos"; implicit "rocksdb_db_condition_wait_nanos";
  implicit "rocksdb_merge_operator_time_nanos"; implicit "rocksdb_read_index_block_nanos";
  implicit "rocksdb_read_filter_block_nanos"; implicit "rocksdb_new_table_block_iter_nanos";
  implicit "rocksdb_new_table_iterator_nanos"; implicit "rocksdb_block_seek_nanos";
  implicit "rocksdb_find_table_nanos"; implicit "rocksdb_bloom_memtable_hit_count";
  implicit "rocksdb_bloom_memtable_miss_count"; implicit "rocksdb_bloom_sst_hit_count";
  implicit "rocksdb_bloom_sst_miss_count"; implicit "rocksdb_key_lock_wait_time";
  implicit "rocksdb_key_lock_wait_count"; implicit "rocksdb_env_new_sequential_file_nanos";
  implicit "rocksdb_env_new_random_access_file_nanos"; implicit "rocksdb_env_new_writable_file_nanos";
  implicit "rocksdb_env_reuse_writable_file_nanos"; implicit "rocksdb_env_new_random_rw_file_nanos";
  implicit "rocksdb_env_new_directory_nanos"; implicit "rocksdb_env_file_exists_nanos";
  implicit "rocksdb_env_get_children_nanos"; implicit "rocksdb_env_get_children_file_attributes_nanos";
  implicit "rocksdb_env_delete_file_nanos"; implicit "rocksdb_env_create_dir_nanos";
  implicit "rocksdb_env_create_dir_if_missing_nanos"; implicit "rocksdb_env_delete_dir_nanos";
  implicit "rocksdb_env_get_file_size_nanos"; implicit "rocksdb_env_get_file_modification_time_nanos";
  implicit "rocksdb_env_rename_file_nanos"; implicit "rocksdb_env_link_file_nanos";
  implicit "rocksdb_env_lock_file_nanos"; implicit "rocksdb_env_unlock_file_nanos";
  implicit "rocksdb_env_new_logger_nanos"; implicit "rocksdb_number_async_seek";
  implicit "rocksdb_blob_cache_hit_count"; implicit "rocksdb_blob_read_count";
  implicit "rocksdb_blob_read_byte"; implicit "rocksdb_blob_read_time"; implicit "rocksdb_blob_checksum_time";
  implicit "rocksdb_blob_decompress_time"; implicit "rocksdb_internal_range_del_reseek_count";
  implicit "rocksdb_block_read_cpu_time"; implicit "rocksdb_internal_merge_point_lookup_count";
  explicit "rocksdb_total_metric_count" 80].
(** The counters there are. *)
Definition PerfContextBase : list string := [
  "user_key_comparison_count"; "block_cache_hit_count"; "block_read_count"; "block_read_byte";
  "block_read_time"; "block_read_cpu_time"; "block_cache_index_hit_count";
  "block_cache_standalone_handle_count"; "block_cache_real_handle_count"; "index_block_read_count";
  "block_cache_filter_hit_count"; "filter_block_read_count"; "compression_dict_block_read_count";
  "block_cache_index_read_byte"; "block_cache_filter_read_byte"; "block_cache_compression_dict_read_byte";
  "block_cache_read_byte"; "secondary_cache_hit_count"; "compressed_sec_cache_insert_real_count";
  "compressed_sec_cache_insert_dummy_count"; "compressed_sec_cache_uncompressed_bytes";
  "compressed_sec_cache_compressed_bytes"; "block_checksum_time"; "block_decompress_time"; "get_read_bytes";
  "multiget_read_bytes"; "iter_read_bytes"; "blob_cache_hit_count"; "blob_read_count"; "blob_read_byte";
  "blob_read_time"; "blob_checksum_time"; "blob_decompress_time"; "internal_key_skipped_count";
  "internal_delete_skipped_count"; "internal_recent_skipped_count"; "internal_merge_count";
  "internal_merge_point_lookup_count"; "internal_range_del_reseek_count"; "get_snapshot_time";
  "get_from_memtable_time"; "get_from_memtable_count"; "get_post_process_time"; "get_from_output_files_time";
  "seek_on_memtable_time"; "seek_on_memtable_count"; "next_on_memtable_count"; "prev_on_memtable_count";
  "seek_child_seek_time"; "seek_child_seek_count"; "seek_min_heap_time"; "seek_max_heap_time";
  "seek_internal_seek_time"; "find_next_user_entry_time"; "write_wal_time"; "write_memtable_time";
  "write_delay_time"; "write_scheduling_flushes_compactions_time"; "write_pre_and_post_process_time";
  "write_thread_wait_nanos"; "db_mutex_lock_nanos"; "db_condition_wait_nanos"; "merge_operator_time_nanos";
  "read_index_block_nanos"; "read_filter_block_nanos"; "new_table_block_iter_nanos";
  "new_table_iterator_nanos"; "block_seek_nanos"; "find_table_nanos"; "bloom_memtable_hit_count";
  "bloom_memtable_miss_count"; "bloom_sst_hit_count"; "bloom_sst_miss_count"; "key_lock_wait_time";
  "key_lock_wait_count"; "env_new_sequential_file_nanos"; "env_new_random_access_file_nanos";
  "env_new_writable_file_nanos"; "env_reuse_writable_file_nanos"; "env_new_random_rw_file_nanos";
  "env_new_directory_nanos"; "env_file_exists_nanos"; "env_get_children_nanos";
  "env_get_children_file_attributes_nanos"; "env_delete_file_nanos"; "env_create_dir_nanos";
  "env_create_dir_if_missing_nanos"; "env_delete_dir_nanos"; "env_get_file_size_nanos";
  "env_get_file_modification_time_nanos"; "env_rename_file_nanos"; "env_link_file_nanos";
  "env_lock_file_nanos"; "env_unlock_file_nanos"; "env_new_logger_nanos"; "get_cpu_nanos";
  "iter_next_cpu_nanos"; "iter_prev_cpu_nanos"; "iter_seek_cpu_nanos"; "iter_next_count"; "iter_prev_count";
  "iter_seek_count"; "encrypt_data_nanos"; "decrypt_data_nanos"; "number_async_seek"; "file_ingestion_nanos";
  "file_ingestion_blocking_live_writes_nanos"].

(** ** What the constants mean

    The enumerators that the constants stand for, in the order of the constants. *)
Record binding := mkBinding { in_c : enumeration; in_cpp : enumeration; meant : list string }.
Definition bindings : list binding := [
  mkBinding c_size_approximation_flags SizeApproximationFlags
    ["NONE"; "INCLUDE_MEMTABLES"; "INCLUDE_FILES"];
  mkBinding c_index_type IndexType
    ["kBinarySearch"; "kHashSearch"; "kTwoLevelIndexSearch"];
  mkBinding c_data_block_index_type DataBlockIndexType
    ["kDataBlockBinarySearch"; "kDataBlockBinaryAndHash"];
  mkBinding c_pinning_tier PinningTier
    ["kFallback"; "kNone"; "kFlushedAndSimilar"; "kAll"];
  mkBinding c_statistics_level StatsLevel
    ["kDisableAll"; "kExceptTickers"; "kExceptHistogramOrTimers"; "kExceptTimers"; "kExceptDetailedTimers";
    "kExceptTimeForMutex"; "kAll"];
  mkBinding c_prepopulate_blob PrepopulateBlobCache
    ["kDisable"; "kFlushOnly"];
  mkBinding c_recovery_mode WALRecoveryMode
    ["kTolerateCorruptedTailRecords"; "kAbsoluteConsistency"; "kPointInTimeRecovery"; "kSkipAnyCorruptedRecords"];
  mkBinding c_compression CompressionType
    ["kNoCompression"; "kSnappyCompression"; "kZlibCompression"; "kBZip2Compression"; "kLZ4Compression";
    "kLZ4HCCompression"; "kXpressCompression"; "kZSTD"];
  mkBinding c_compaction_style CompactionStyle
    ["kCompactionStyleLevel"; "kCompactionStyleUniversal"; "kCompactionStyleFIFO"];
  mkBinding c_compaction_pri CompactionPri
    ["kByCompensatedSize"; "kOldestLargestSeqFirst"; "kOldestSmallestSeqFirst"; "kMinOverlappingRatio";
    "kRoundRobin"];
  mkBinding c_stop_style CompactionStopStyle
    ["kCompactionStopStyleSimilarSize"; "kCompactionStopStyleTotalSize"];
  mkBinding c_jobstatus CompactionServiceJobStatus
    ["kSuccess"; "kFailure"; "kAborted"; "kUseLocal"]].
Definition perf_levels : binding :=
  mkBinding c_perf_level PerfLevel
    ["kUninitialized"; "kDisable"; "kEnableCount"; "kEnableTimeExceptForMutex"; "kEnableTime"; "kOutOfBounds"].
(** The constants and what they mean, with the numbers of both. *)
Definition compared (b : binding) : list (option Z * option Z) :=
  zip_with (λ e name, (value_of (in_c b) (enumerator_name e), value_of (in_cpp b) name)) (in_c b) (meant b).
Definition same_number (p : option Z * option Z) : bool := bool_decide (p.1 = p.2 ∧ p.1 ≠ None).

(** The name of a counter without the prefix that all constants have. *)
Definition counter_name (constant : string) : string := String.substring 8 (String.length constant - 8) constant.

(** ** What agrees *)

(** Every constant of the C bindings has the number of the enumerator that it stands for, but for the
    levels of the performance counters: since the C++ enumeration has got two levels more, the constant
    for times without mutexes turns on the times spent waiting only, the one for all times leaves out the
    mutexes, and the one that is out of bounds is a level.  The counters that can be read by number are
    78 different counters of the context, numbered without gaps from zero; the constant that is to be their
    number is 80. *)
Theorem c_constants_are_the_enumerators :
  Forall (λ b, length (in_c b) = length (meant b) ∧ Forall (λ p, same_number p = true) (compared b)) bindings ∧
  same_number <$> compared perf_levels = [true; true; true; false; false; false] ∧
  (value_of c_perf_level "rocksdb_enable_time_except_for_mutex" ≫= enumerator_of PerfLevel) = Some "kEnableWait" ∧
  (value_of c_perf_level "rocksdb_enable_time" ≫= enumerator_of PerfLevel) = Some "kEnableTimeExceptForMutex" ∧
  (value_of c_perf_level "rocksdb_out_of_bounds" ≫= enumerator_of PerfLevel) =
    Some "kEnableTimeAndCPUTimeExceptForMutex" ∧
  (let counters := removelast c_metrics in
   (numbers counters).*2 = seqZ 0 78 ∧ NoDup (enumerator_name <$> counters) ∧
   Forall (λ e, counter_name (enumerator_name e) ∈ PerfContextBase) counters ∧
   value_of c_metrics "rocksdb_total_metric_count" = Some 80).
Proof.
  split; [|do 4 (split; [vm_compute; reflexivity|])].
  - apply (bool_decide_unpack _). vm_compute. exact I.
  - split; [vm_compute; reflexivity|]. split; [|split; [|vm_compute; reflexivity]];
      apply (bool_decide_unpack _); vm_compute; exact I.
Qed.
