(* ===== verification/TransactionDb.v ===== *)
(** The transactional database (include/rocksdb/utilities/transaction_db.h), on which the library's store
    stands: its options with their defaults, the path of a deadlock, and what the class changes of a stacked
    database.  Locking and committing are compiled elsewhere. *)
From S2P Require Import Prelude Slice RocksStatus RocksDB MultiScan Dispatch Transaction Db DbSpec.

Local Open Scope Z_scope.

(** ** Options *)

Definition kInitialMaxDeadlocks : Z := 5.
(** Shared objects and callbacks are pointers. *)
Record TransactionDBOptions := mkTransactionDBOptions {
  max_num_locks : Z;
  max_num_deadlocks : Z;
  num_stripes : Z;
  transaction_lock_timeout : Z;
  default_lock_timeout : Z;
  custom_mutex_factory : option ptr;
  write_policy : TxnDBWritePolicy;
  rollback_merge_operands : bool;
  lock_mgr_handle : option ptr;
  use_per_key_point_lock_mgr : bool;
  db_skip_concurrency_control : bool;
  default_write_batch_flush_threshold : Z;
  rollback_deletion_type_callback : option ptr;
  enable_udt_validation : bool;
  secondary_indices : list ptr;
  txn_commit_bypass_memtable_threshold : Z;
  wp_snapshot_cache_bits : Z;
  wp_commit_cache_bits : Z;
  autogenerate_name : bool;
}.
Definition new_TransactionDBOptions : TransactionDBOptions :=
  mkTransactionDBOptions (-1) kInitialMaxDeadlocks 16 1000 1000 None WRITE_COMMITTED false None false false 0 None
    true [] (2 ^ 32 - 1) 7 23 false.

Record TransactionOptions := mkTransactionOptions {
  set_snapshot : bool;
  deadlock_detect : bool;
  use_only_the_last_commit_time_batch_for_recovery : bool;
  lock_timeout : Z;
  deadlock_timeout_us : Z;
  expiration : Z;
  deadlock_detect_depth : Z;
  max_write_batch_size : Z;
  txn_skip_concurrency_control : bool;
  skip_prepare : bool;
  write_batch_flush_threshold : Z;
  write_batch_track_timestamp_size : bool;
  commit_bypass_memtable : bool;
  large_txn_commit_optimize_threshold : Z;
  large_txn_commit_optimize_byte_threshold : Z;
}.
Definition new_TransactionOptions : TransactionOptions :=
  mkTransactionOptions false false false (-1) 500 (-1) 50 0 false true (-1) false false 0 0.

Record TransactionDBWriteOptimizations := mkOptimizations {
  skip_concurrency_control : bool;
  skip_duplicate_key_check : bool;
}.
Definition new_TransactionDBWriteOptimizations : TransactionDBWriteOptimizations := mkOptimizations false false.

(** ** Deadlocks *)

Record DeadlockInfo := mkDeadlockInfo {
  m_txn_id : Z; m_cf_id : Z; m_exclusive : bool; m_waiting_key : list byte;
}.
Record DeadlockPath := mkDeadlockPath { path : list DeadlockInfo; limit_exceeded : bool; deadlock_time : Z }.
Definition DeadlockPath_of (path_entry : list DeadlockInfo) (dl_time : Z) : DeadlockPath :=
  mkDeadlockPath path_entry false dl_time.
Definition DeadlockPath_limit (dl_time : Z) (limit : bool) : DeadlockPath := mkDeadlockPath [] limit dl_time.
Definition deadlock_empty (p : DeadlockPath) : bool := bool_decide (path p = []) && negb (limit_exceeded p).

(** ** [TransactionDB] *)

Section TransactionDB.
Context {V : string → Type} {C T : Type}.
Abbreviation db := (db V C).

(** The class is abstract.  A transactional database is of a class derived from it, compiled elsewhere,
    whose methods [derived] come first: those that lock the keys they write, among others.  Of the rest
    the class overrides range deletions in a column family, and all else is [StackableDB]'s. *)
Definition TransactionDB (derived : ∀ A, db A → option (M (unit * T) A)) (db_ : object db T)
    (A : Type) (c : db A) : option (M (unit * T) A) :=
  match derived A c with
  | Some m => Some m
  | None =>
      match c with
      | db_DeleteRange _ _ _ _ => Some (mret (NotSupported kNone) : M (unit * T) Status)
      | c => StackableDB db_ _ c
      end
  end.
(** The overload of [Write] with optimisations, for a derived class that does not say otherwise. *)
Definition Write_optimized {S} (self : object db S) (opts : V "WriteOptions") (_ : TransactionDBWriteOptimizations)
    (updates : option ptr) : M S Status := self _ (db_Write opts updates).

(** Snapshots by their timestamps; reading them is compiled elsewhere. *)
Definition GetLatestTimestampedSnapshot {S} (GetTimestampedSnapshot : Z → M S (option ptr)) : M S (option ptr) :=
  GetTimestampedSnapshot kMaxTxnTimestamp.
Definition GetAllTimestampedSnapshots {S} (GetTimestampedSnapshots : Z → Z → M S (Status * list ptr)) :
    M S (Status * list ptr) := GetTimestampedSnapshots 0 kMaxTxnTimestamp.

(** ** What it promises *)

Definition deletes_range (A : Type) (c : db A) : bool :=
  match c with db_DeleteRange _ _ _ _ => true | _ => false end.

Section Classes.
Context (Status_msg : Code → SubCode → Slice → Slice → Severity → Status).
Context (below : object db T) (derived : ∀ A, db A → option (M (unit * T) A))
        (compiled : object db (unit * T)) (NewErrorIterator : Status → M (unit * T) (option ptr))
        (comparator_of : option ptr → M (unit * T) (option ptr)) (default_margin : V "double")
        (new_ReadOptions : V "ReadOptions") (this : option ptr).
Abbreviation transactional := (DB Status_msg compiled NewErrorIterator comparator_of default_margin
  new_ReadOptions this (TransactionDB derived below)).

(** Whatever else a transactional database does in its own way, if it leaves range deletion to this
    class it deletes no ranges: with a column family it answers at once that this is not supported,
    and without one it first finds out its default family.  What it does not override and a stacked
    database forwards goes to the database it stands on; what a client says that a write need not
    check is dropped, and the write is the one the database makes of any. *)
Theorem transactions_refuse_ranges st opts cf b e optimizations updates :
  (∀ o cf b e, derived _ (db_DeleteRange o cf b e) = None) →
  (∀ o b e, derived _ (db_DeleteRange_default o b e) = None) →
  transactional _ (db_DeleteRange opts cf b e) st = Done (NotSupported kNone, st) ∧
  transactional _ (db_DeleteRange_default opts b e) st =
    match transactional _ db_DefaultColumnFamily st with
    | Done (_, st') => Done (NotSupported kNone, st')
    | Undef f => Undef f
    end ∧
  (∀ A (c : db A), forwarded A c = true → derived A c = None → deletes_range A c = false →
     transactional A c st = on_target (below A c) st) ∧
  Write_optimized transactional opts optimizations updates st = transactional _ (db_Write opts updates) st.
Proof.
  intros H1 H2. split; [|split; [|split; [|done]]].
  - unfold DB. cbn [dispatch]. unfold TransactionDB. by rewrite H1.
  - unfold DB. cbn [dispatch]. unfold TransactionDB at 1. rewrite H2. cbn [StackableDB forwarded defaults].
    unfold mbind, M_bind, TransactionDB, StackableDB. cbn [forwarded].
    destruct (derived _ db_DefaultColumnFamily) as [m|].
    + destruct (m st) as [[a st']|]; [by rewrite H1|done].
    + destruct (on_target _ st) as [[a st']|]; [by rewrite H1|done].
  - intros A c Hf Hn Hc. unfold DB. cbn [dispatch]. unfold TransactionDB. rewrite Hn.
    destruct c; try (unfold StackableDB; by rewrite Hf). done.
Qed.
End Classes.
End TransactionDB.
