(* ===== verification/Batches.v ===== *)
(** Writing a batch (include/rocksdb/write_batch_base.h, write_batch.h, utilities/write_batch_with_index.h):
    the calls of a batch, what the plain batch does with those that name no column family, and what the
    batch with an index refuses.  How entries are laid out, and the index, are compiled elsewhere. *)
From S2P Require Import Prelude Slice RocksStatus RocksDB Dispatch.

Local Open Scope Z_scope.

(** ** The calls *)

(** Column families and batches are pointers; keys and values in parts are lists of slices.  Columns, and
    the group of columns for one column family, are handed on. *)
Section Batches.
Context {Columns Group : Type}.

Inductive batch : Type → Type :=
  | wb_Put_cf (cf : option ptr) (key value : Slice) : batch Status
  | wb_Put (key value : Slice) : batch Status
  | wb_Put_ts (cf : option ptr) (key ts value : Slice) : batch Status
  | wb_Put_parts_cf (cf : option ptr) (key value : list Slice) : batch Status
  | wb_Put_parts (key value : list Slice) : batch Status
  | wb_TimedPut (cf : option ptr) (key value : Slice) (write_unix_time : Z) : batch Status
  | wb_PutEntity (cf : option ptr) (key : Slice) (columns : Columns) : batch Status
  | wb_PutEntity_groups (key : Slice) (attribute_groups : list Group) : batch Status
  | wb_Merge_cf (cf : option ptr) (key value : Slice) : batch Status
  | wb_Merge (key value : Slice) : batch Status
  | wb_Merge_ts (cf : option ptr) (key ts value : Slice) : batch Status
  | wb_Merge_parts_cf (cf : option ptr) (key value : list Slice) : batch Status
  | wb_Merge_parts (key value : list Slice) : batch Status
  | wb_Delete_cf (cf : option ptr) (key : Slice) : batch Status
  | wb_Delete (key : Slice) : batch Status
  | wb_Delete_ts (cf : option ptr) (key ts : Slice) : batch Status
  | wb_Delete_parts_cf (cf : option ptr) (key : list Slice) : batch Status
  | wb_Delete_parts (key : list Slice) : batch Status
  | wb_SingleDelete_cf (cf : option ptr) (key : Slice) : batch Status
  | wb_SingleDelete (key : Slice) : batch Status
  | wb_SingleDelete_ts (cf : option ptr) (key ts : Slice) : batch Status
  | wb_SingleDelete_parts_cf (cf : option ptr) (key : list Slice) : batch Status
  | wb_SingleDelete_parts (key : list Slice) : batch Status
  | wb_DeleteRange_cf (cf : option ptr) (begin_key end_key : Slice) : batch Status
  | wb_DeleteRange (begin_key end_key : Slice) : batch Status
  | wb_DeleteRange_ts (cf : option ptr) (begin_key end_key ts : Slice) : batch Status
  | wb_DeleteRange_parts_cf (cf : option ptr) (begin_key end_key : list Slice) : batch Status
  | wb_DeleteRange_parts (begin_key end_key : list Slice) : batch Status
  | wb_PutLogData (blob : Slice) : batch Status
  | wb_Clear : batch unit
  | wb_GetWriteBatch : batch (option ptr)
  | wb_SetSavePoint : batch unit
  | wb_RollbackToSavePoint : batch Status
  | wb_PopSavePoint : batch Status
  | wb_SetMaxBytes (max_bytes : Z) : batch unit.

(** ** The plain batch *)

(** Its members, as far as the header uses them, beside the rest of its state. *)
Record WriteBatchMembers := mkWriteBatch { rep_ : list byte; max_bytes_ : Z }.
Definition Data (b : WriteBatchMembers) : list byte := rep_ b.
Definition GetDataSize (b : WriteBatchMembers) : Z := Z.of_nat (length (rep_ b)).

Section WriteBatch.
Context {T : Type} (compiled : object batch (WriteBatchMembers * T)) (this : option ptr).

Definition write_batch_defaults (self : object batch (WriteBatchMembers * T)) :
    object batch (WriteBatchMembers * T) := λ A c,
  match c with
  | wb_Put key value => self _ (wb_Put_cf None key value)
  | wb_Put_parts key value => self _ (wb_Put_parts_cf None key value)
  | wb_Delete key => self _ (wb_Delete_cf None key)
  | wb_Delete_parts key => self _ (wb_Delete_parts_cf None key)
  | wb_SingleDelete key => self _ (wb_SingleDelete_cf None key)
  | wb_SingleDelete_parts key => self _ (wb_SingleDelete_parts_cf None key)
  | wb_DeleteRange begin_key end_key => self _ (wb_DeleteRange_cf None begin_key end_key)
  | wb_DeleteRange_parts begin_key end_key => self _ (wb_DeleteRange_parts_cf None begin_key end_key)
  | wb_Merge key value => self _ (wb_Merge_cf None key value)
  | wb_Merge_parts key value => self _ (wb_Merge_parts_cf None key value)
  | wb_GetWriteBatch => mret this
  | wb_SetMaxBytes max_bytes => modify (λ st, (mkWriteBatch (rep_ st.1) max_bytes, st.2))
  | c => compiled _ c
  end.
Definition WriteBatch (overrides : overriding batch (WriteBatchMembers * T)) :
    object batch (WriteBatchMembers * T) := virtual write_batch_defaults overrides 2.
Lemma write_batch_settles : settles write_batch_defaults 2.
Proof.
  settle (λ A (c : batch A), match c with
    wb_Put _ _ | wb_Put_parts _ _ | wb_Delete _ | wb_Delete_parts _ | wb_SingleDelete _ | wb_SingleDelete_parts _
    | wb_DeleteRange _ _ | wb_DeleteRange_parts _ _ | wb_Merge _ _ | wb_Merge_parts _ _ => 1 | _ => 0 end)%nat.
Qed.
End WriteBatch.

(** ** The batch with an index *)

Section Index.
Context {S : Type} (Status_msg : Code → SubCode → Slice → Slice → Severity → Status).
Abbreviation unsupported := (λ s, NotSupported_msg Status_msg (Slice_of_string (str s)) empty_slice).
Abbreviation invalid := (λ s, InvalidArgument_msg Status_msg (Slice_of_string (str s)) empty_slice).

(** What the header overrides; all else is compiled elsewhere. *)
Definition WriteBatchWithIndex (compiled : object batch S) : object batch S := λ A c,
  match c with
  | wb_TimedPut _ _ _ _ => (mret (unsupported "TimedPut not supported by WriteBatchWithIndex") : M S Status)
  | wb_PutEntity_groups _ attribute_groups =>
      if bool_decide (attribute_groups = []) then mret (invalid "Cannot call this method without attribute groups")
      else mret (unsupported "PutEntity with AttributeGroups not supported by WriteBatchWithIndex")
  | wb_Merge_ts _ _ _ _ => mret (unsupported "Merge does not support user-defined timestamp")
  | wb_DeleteRange_cf _ _ _ => mret (unsupported "DeleteRange unsupported in WriteBatchWithIndex")
  | wb_DeleteRange _ _ => mret (unsupported "DeleteRange unsupported in WriteBatchWithIndex")
  | wb_DeleteRange_ts _ _ _ _ => mret (unsupported "DeleteRange unsupported in WriteBatchWithIndex")
  | c => compiled _ c
  end.
(** Reads that name no column family, or no callback, are the others without. *)
Definition GetFromBatch_default {Options} (GetFromBatch : option ptr → Options → Slice → list byte → M S (Status * list byte))
    (options : Options) (key : Slice) (value : list byte) : M S (Status * list byte) :=
  GetFromBatch None options key value.
Definition GetEntityFromBatchAndDB {Options Entity}
    (with_callback : option ptr → Options → option ptr → Slice → Entity → option ptr → M S (Status * Entity))
    (db : option ptr) (read_options : Options) (column_family : option ptr) (key : Slice) (columns : Entity) :
    M S (Status * Entity) := with_callback db read_options column_family key columns None.
Definition MultiGetEntityFromBatchAndDB {Options Entity}
    (with_callback : option ptr → Options → option ptr → Z → list Slice → list Entity → list Status → bool →
       option ptr → M S (list Entity * list Status))
    (db : option ptr) (read_options : Options) (column_family : option ptr) (num_keys : Z) (keys : list Slice)
    (results : list Entity) (statuses : list Status) (sorted_input : bool) : M S (list Entity * list Status) :=
  with_callback db read_options column_family num_keys keys results statuses sorted_input None.

(** ** Entries of the index *)

Inductive WriteType :=
  | kPutRecord | kMergeRecord | kDeleteRecord | kSingleDeleteRecord | kDeleteRangeRecord | kLogDataRecord
  | kXIDRecord | kPutEntityRecord | kUnknownRecord.
Record WriteEntry := mkWriteEntry { entry_type : WriteType; entry_key : Slice; entry_value : Slice }.
Definition new_WriteEntry : WriteEntry := mkWriteEntry kUnknownRecord empty_slice empty_slice.
Record CFStat := mkCFStat { entry_count : Z; overwritten_sd_count : Z }.
Definition new_CFStat : CFStat := mkCFStat 0 0.
Inductive index_iterator : Type → Type :=
  | wi_Valid : index_iterator bool
  | wi_SeekToFirst : index_iterator unit
  | wi_SeekToLast : index_iterator unit
  | wi_Seek (target : Slice) : index_iterator unit
  | wi_SeekForPrev (target : Slice) : index_iterator unit
  | wi_Next : index_iterator unit
  | wi_Prev : index_iterator unit
  | wi_status : index_iterator Status
  | wi_Entry : index_iterator WriteEntry
  | wi_HasOverWrittenSingleDel : index_iterator bool
  | wi_GetUpdateCount : index_iterator Z.
Definition WBWIIterator (pure : object index_iterator S) : object index_iterator S := λ A c,
  match c with
  | wi_HasOverWrittenSingleDel => (mret false : M S bool)
  | wi_GetUpdateCount => mret 0
  | c => pure _ c
  end.
End Index.

(** ** What they promise *)

(** The same call with a column family, the null one. *)
Definition named (A : Type) (c : batch A) : batch A :=
  match c with
  | wb_Put key value => wb_Put_cf None key value
  | wb_Put_parts key value => wb_Put_parts_cf None key value
  | wb_Delete key => wb_Delete_cf None key
  | wb_Delete_parts key => wb_Delete_parts_cf None key
  | wb_SingleDelete key => wb_SingleDelete_cf None key
  | wb_SingleDelete_parts key => wb_SingleDelete_parts_cf None key
  | wb_DeleteRange b e => wb_DeleteRange_cf None b e
  | wb_DeleteRange_parts b e => wb_DeleteRange_parts_cf None b e
  | wb_Merge key value => wb_Merge_cf None key value
  | wb_Merge_parts key value => wb_Merge_parts_cf None key value
  | c => c
  end.
Definition unnamed {A} (c : batch A) : bool :=
  match c with
  | wb_Put _ _ | wb_Put_parts _ _ | wb_Delete _ | wb_Delete_parts _ | wb_SingleDelete _ | wb_SingleDelete_parts _
  | wb_DeleteRange _ _ | wb_DeleteRange_parts _ _ | wb_Merge _ _ | wb_Merge_parts _ _ => true
  | _ => false
  end.

Lemma named_call {T} (compiled : object batch (WriteBatchMembers * T)) this overrides A (c : batch A) s :
  (∀ A (c : batch A), unnamed c = true → overrides A c = None) →
  WriteBatch compiled this overrides A c s = WriteBatch compiled this overrides A (named A c) s.
Proof.
  intros Hov. destruct c; try done; unfold WriteBatch; rewrite virtual_inherits by (by apply Hov); cbn;
    by destruct (overrides _ _).
Qed.

(** A program that writes to a batch without naming column families writes what it would write with the
    null column family, whatever a class makes of the calls that name one: every record goes through the
    methods with a column family.  The batch it hands out is itself, and a new limit of its size changes
    nothing that is written. *)
Theorem unnamed_writes_are_writes_to_the_null_family {T B} (compiled : object batch (WriteBatchMembers * T)) this
    (overrides : overriding batch (WriteBatchMembers * T)) (p : client batch B) s :
  (∀ A (c : batch A), unnamed c = true → overrides A c = None) →
  run (WriteBatch compiled this overrides) p s = run (WriteBatch compiled this overrides) (rename named p) s ∧
  (overrides _ wb_GetWriteBatch = None → WriteBatch compiled this overrides _ wb_GetWriteBatch s = Done (this, s)) ∧
  (∀ n, overrides _ (wb_SetMaxBytes n) = None → ∃ s',
     WriteBatch compiled this overrides _ (wb_SetMaxBytes n) s = Done (tt, s') ∧
     Data s'.1 = Data s.1 ∧ GetDataSize s'.1 = GetDataSize s.1 ∧ max_bytes_ s'.1 = n ∧ s'.2 = s.2).
Proof.
  intros Hov. split; [apply run_rename; intros; by apply named_call|]. split.
  - intros H. unfold WriteBatch. by rewrite virtual_inherits.
  - intros n H. unfold WriteBatch. rewrite virtual_inherits by done. by eexists.
Qed.

Section Refusals.
Context (Status_msg : Code → SubCode → Slice → Slice → Severity → Status).
Hypothesis status_code : ∀ c sc m m2 sev, code (Status_msg c sc m m2 sev) = c.

(** The calls that a batch with an index refuses, with its answers. *)
Definition refusal {A} (c : batch A) : option Status :=
  match c with
  | wb_TimedPut _ _ _ _ => Some (NotSupported_msg Status_msg
      (Slice_of_string (str "TimedPut not supported by WriteBatchWithIndex")) empty_slice)
  | wb_PutEntity_groups _ [] => Some (InvalidArgument_msg Status_msg
      (Slice_of_string (str "Cannot call this method without attribute groups")) empty_slice)
  | wb_PutEntity_groups _ _ => Some (NotSupported_msg Status_msg
      (Slice_of_string (str "PutEntity with AttributeGroups not supported by WriteBatchWithIndex")) empty_slice)
  | wb_Merge_ts _ _ _ _ => Some (NotSupported_msg Status_msg
      (Slice_of_string (str "Merge does not support user-defined timestamp")) empty_slice)
  | wb_DeleteRange_cf _ _ _ | wb_DeleteRange _ _ | wb_DeleteRange_ts _ _ _ _ => Some (NotSupported_msg Status_msg
      (Slice_of_string (str "DeleteRange unsupported in WriteBatchWithIndex")) empty_slice)
  | _ => None
  end.
Definition refused (A : Type) (c : batch A) : option A :=
  match c with
  | wb_TimedPut cf k v t => refusal (wb_TimedPut cf k v t)
  | wb_PutEntity_groups k groups => refusal (wb_PutEntity_groups k groups)
  | wb_Merge_ts cf k ts v => refusal (wb_Merge_ts cf k ts v)
  | wb_DeleteRange_cf cf b e => refusal (wb_DeleteRange_cf cf b e)
  | wb_DeleteRange b e => refusal (wb_DeleteRange b e)
  | wb_DeleteRange_ts cf b e ts => refusal (wb_DeleteRange_ts cf b e ts)
  | _ => None
  end.

(** A program that writes to a batch with an index is the program whose refused calls are answered before
    they reach the batch: a refused call leaves no trace, in the batch or in its index, and its answer is
    never OK, so no write is lost silently; every other call, range deletions in parts among them, is
    that of the compiled class. *)
Theorem indexed_batches_refuse_without_a_trace {S B} (compiled : object batch S) (p : client batch B) s :
  run (WriteBatchWithIndex Status_msg compiled) p s = run compiled (answered refused p) s ∧
  (∀ A (c : batch A) st, refusal c = Some st → ok st = false).
Proof.
  split.
  - apply run_answered. intros A c s0. destruct c; try done. by destruct attribute_groups.
  - intros A c st H. assert (code st = kNotSupported ∨ code st = kInvalidArgument) as Hc.
    { destruct c; try done; [|destruct attribute_groups|..]; injection H as <-; unfold NotSupported_msg, InvalidArgument_msg, Status_msg2; rewrite status_code; tauto. }
    unfold ok. by destruct Hc as [-> | ->].
Qed.
End Refusals.
End Batches.
Arguments batch : clear implicits.
