(* ===== verification/Extensions.v ===== *)
(** Interfaces that users of the library implement: iterators (include/rocksdb/iterator_base.h, iterator.h),
    collectors of table properties (table_properties.h), filters of the write-ahead log (wal_filter.h),
    factories of tables and of indexes (table.h, user_defined_index.h), external tables
    (external_table.h), merge operators (merge_operator.h), prefixes (slice_transform.h), allocators
    (memory_allocator.h) and listeners (listener.h): their calls, and what a class inherits. *)
From S2P Require Import Prelude Slice RocksStatus RocksDB FsFiles Dispatch MultiScan.

Local Open Scope Z_scope.

(** ** Iterators *)

(** The columns of a wide-column entity and the arguments of a scan are handed on; a snapshot is a
    pointer. *)
Section Iterators.
Context {Columns : Type}.
Inductive iterator : Type → Type :=
  | it_Valid : iterator bool
  | it_SeekToFirst : iterator unit
  | it_SeekToLast : iterator unit
  | it_Seek (target : Slice) : iterator unit
  | it_SeekForPrev (target : Slice) : iterator unit
  | it_Next : iterator unit
  | it_Prev : iterator unit
  | it_Refresh : iterator Status
  | it_Refresh_at (snapshot : option ptr) : iterator Status
  | it_PrepareValue : iterator bool
  | it_key : iterator Slice
  | it_status : iterator Status
  | it_value : iterator Slice
  | it_columns : iterator Columns
  | it_GetProperty (prop_name prop : list byte) : iterator (Status * list byte)
  | it_timestamp : iterator Slice
  | it_Prepare (scan_opts : MultiScanArgs) : iterator unit.

Context {S : Type} (Status_msg : Code → SubCode → Slice → Slice → Severity → Status)
        (kNoWideColumns : Columns) (compiled : object iterator S).
Definition iterator_defaults (self : object iterator S) : object iterator S := λ A c,
  match c with
  | it_Refresh => self _ (it_Refresh_at None)
  | it_Refresh_at _ =>
      mret (NotSupported_msg Status_msg (Slice_of_string (str "Refresh() is not supported")) empty_slice)
  | it_PrepareValue => mret true
  | it_columns => lift_outcome (assert_that false) ;; mret kNoWideColumns
  | it_timestamp => lift_outcome (assert_that false) ;; mret empty_slice
  | it_Prepare _ => mret tt
  | c => compiled _ c
  end.
Definition Iterator (overrides : overriding iterator S) : object iterator S := virtual iterator_defaults overrides 2.
Lemma iterator_settles : settles iterator_defaults 2.
Proof. settle (λ A (c : iterator A), match c with it_Refresh => 1 | _ => 0 end)%nat. Qed.
End Iterators.
Arguments iterator : clear implicits.

(** ** Collectors of table properties *)

(** [EntryType] of types.h *)
Inductive EntryType :=
  | kEntryPut | kEntryDelete | kEntrySingleDelete | kEntryMerge | kEntryRangeDeletion | kEntryBlobIndex
  | kEntryDeleteWithTimestamp | kEntryWideColumnEntity | kEntryTimedPut | kEntryOther.

Section Collectors.
Context {Properties : Type}.
Inductive collector : Type → Type :=
  | tc_Add (key value : Slice) : collector Status
  | tc_AddUserKey (key value : Slice) (type : EntryType) (seq file_size : Z) : collector Status
  | tc_BlockAdd (uncomp_bytes compressed_bytes_fast compressed_bytes_slow : Z) : collector unit
  | tc_Finish (properties : Properties) : collector (Status * Properties)
  | tc_GetReadableProperties : collector Properties
  | tc_Name : collector (list byte)
  | tc_NeedCompact : collector bool
  | tc_AsInternal : collector (option ptr).

Context {S : Type} (Status_msg : Code → SubCode → Slice → Slice → Severity → Status) (pure : object collector S).
Definition deprecated : Status :=
  InvalidArgument_msg Status_msg (Slice_of_string (str "TablePropertiesCollector::Add() deprecated.")) empty_slice.
Definition collector_defaults (self : object collector S) : object collector S := λ A c,
  match c with
  | tc_Add _ _ => mret deprecated
  | tc_AddUserKey key value _ _ _ => self _ (tc_Add key value)
  | tc_BlockAdd _ _ _ => mret tt
  | tc_NeedCompact => mret false
  | tc_AsInternal => mret None
  | c => pure _ c
  end.
Definition TablePropertiesCollector (overrides : overriding collector S) : object collector S :=
  virtual collector_defaults overrides 2.
Lemma collector_settles : settles collector_defaults 2.
Proof. settle (λ A (c : collector A), match c with tc_AddUserKey _ _ _ _ _ => 1 | _ => 0 end)%nat. Qed.
End Collectors.
Arguments collector : clear implicits.

(** What a factory of collectors is told of a file. *)
Record CollectorContext := mkCollectorContext {
  column_family_id : option Z;
  level_at_creation : Z;
  num_levels : Z;
  last_level_inclusive_max_seqno_threshold : option Z;
}.
Definition kUnknownLevelAtCreation : Z := -1.
Definition kUnknownNumLevels : Z := -1.
(** Two members are left unset. *)
Definition new_CollectorContext : CollectorContext :=
  mkCollectorContext None kUnknownLevelAtCreation kUnknownNumLevels None.
Definition CollectorContext_of (_column_family_id _level_at_creation _num_levels threshold : Z) : CollectorContext :=
  mkCollectorContext (Some _column_family_id) _level_at_creation _num_levels (Some threshold).

(** ** Filters of the write-ahead log *)

Inductive WalProcessingOption :=
  | kContinueProcessing | kIgnoreCurrentRecord | kStopReplay | kCorruptedRecord | kWalProcessingOptionMax.
(** A batch is a pointer; whether it was changed is written through a pointer. *)
Inductive wal_filter : Type → Type :=
  | wf_ColumnFamilyLogNumberMap (cf_lognumber_map : gmap Z Z) (cf_name_id_map : gmap string Z) : wal_filter unit
  | wf_LogRecordFound (log_number : Z) (log_file_name : list byte) (batch new_batch : option ptr)
      (batch_changed : bool) : wal_filter (WalProcessingOption * bool)
  | wf_LogRecord (batch new_batch : option ptr) (batch_changed : bool) : wal_filter (WalProcessingOption * bool)
  | wf_Name : wal_filter (list byte).

Section WalFilter.
Context {S : Type} (pure : object wal_filter S).
Definition wal_filter_defaults (self : object wal_filter S) : object wal_filter S := λ A c,
  match c with
  | wf_ColumnFamilyLogNumberMap _ _ => mret tt
  | wf_LogRecordFound _ _ batch new_batch batch_changed => self _ (wf_LogRecord batch new_batch batch_changed)
  | wf_LogRecord _ _ batch_changed => mret (kContinueProcessing, batch_changed)
  | c => pure _ c
  end.
Definition WalFilter (overrides : overriding wal_filter S) : object wal_filter S :=
  virtual wal_filter_defaults overrides 2.
Lemma wal_filter_settles : settles wal_filter_defaults 2.
Proof. settle (λ A (c : wal_filter A), match c with wf_LogRecordFound _ _ _ _ _ => 1 | _ => 0 end)%nat. Qed.
End WalFilter.

(** ** Tables *)

Section Tables.
Context {ReadOptions ReaderOptions BuilderOptions : Type}.
(** Files, readers and builders are pointers; the reader is written through a pointer. *)
Inductive table_factory : Type → Type :=
  | tf_Name : table_factory (list byte)
  | tf_NewTableReader_default (options : ReaderOptions) (file : option ptr) (file_size : Z)
      (table_reader : option ptr) (prefetch : bool) : table_factory (Status * option ptr)
  | tf_NewTableReader (ro : ReadOptions) (options : ReaderOptions) (file : option ptr) (file_size : Z)
      (table_reader : option ptr) (prefetch : bool) : table_factory (Status * option ptr)
  | tf_NewTableBuilder (options : BuilderOptions) (file : option ptr) : table_factory (option ptr)
  | tf_Clone : table_factory (option ptr)
  | tf_IsDeleteRangeSupported : table_factory bool.

Context {S : Type} (pure : object table_factory S) (new_ReadOptions : ReadOptions).
Definition table_factory_defaults (self : object table_factory S) : object table_factory S := λ A c,
  match c with
  | tf_NewTableReader_default options file file_size table_reader prefetch =>
      self _ (tf_NewTableReader new_ReadOptions options file file_size table_reader prefetch)
  | tf_IsDeleteRangeSupported => mret false
  | c => pure _ c
  end.
Definition TableFactory (overrides : overriding table_factory S) : object table_factory S :=
  virtual table_factory_defaults overrides 2.
Lemma table_factory_settles : settles table_factory_defaults 2.
Proof.
  settle (λ A (c : table_factory A), match c with
    tf_NewTableReader_default _ _ _ _ _ => 1 | _ => 0 end)%nat.
Qed.
End Tables.
Arguments table_factory : clear implicits.

(** ** Indexes of tables *)

Inductive IndexValueType := kValue | kTypeMax.
Record BlockHandle := mkBlockHandle { offset : Z; handle_size : Z }.
(** The order of keys is a pointer. *)
Record UserDefinedIndexOption := mkIndexOption { comparator : option ptr }.
Definition new_UserDefinedIndexOption (BytewiseComparator : option ptr) : UserDefinedIndexOption :=
  mkIndexOption BytewiseComparator.

(** Builders and readers are pointers; the later calls write them, and the block of the index, through a
    reference. *)
Inductive index_factory : Type → Type :=
  | if_NewBuilder : index_factory (option ptr)
  | if_NewReader (index_block : Slice) : index_factory (option ptr * Slice)
  | if_NewBuilder_option (option_ : UserDefinedIndexOption) (builder : option ptr) : index_factory (Status * option ptr)
  | if_NewReader_option (option_ : UserDefinedIndexOption) (index_block : Slice) (reader : option ptr) :
      index_factory (Status * Slice * option ptr).

Definition index_factory_defaults {S} (pure : object index_factory S) (self : object index_factory S) :
    object index_factory S := λ A c,
  match c with
  | if_NewBuilder_option _ _ => builder ← self _ if_NewBuilder; mret (RocksStatus.OK, builder)
  | if_NewReader_option _ index_block _ =>
      '(reader, index_block) ← self _ (if_NewReader index_block); mret (RocksStatus.OK, index_block, reader)
  | c => pure _ c
  end.
Definition UserDefinedIndexFactory {S} (pure : object index_factory S) (overrides : overriding index_factory S) :
    object index_factory S := virtual (index_factory_defaults pure) overrides 2.
Lemma index_factory_settles {S} (pure : object index_factory S) : settles (index_factory_defaults pure) 2.
Proof.
  settle (λ A (c : index_factory A), match c with
    if_NewBuilder_option _ _ | if_NewReader_option _ _ _ => 1 | _ => 0 end)%nat.
Qed.

Inductive index_builder : Type → Type :=
  | ib_AddIndexEntry (last_key_in_current_block : Slice) (first_key_in_next_block : option Slice)
      (block_handle : BlockHandle) (separator_scratch : list byte) : index_builder (Slice * list byte)
  | ib_OnKeyAdded (key : Slice) (type : IndexValueType) (value : Slice) : index_builder unit
  | ib_Finish (index_contents : Slice) : index_builder (Status * Slice).
Definition UserDefinedIndexBuilder {S} (pure : object index_builder S) : object index_builder S := λ A c,
  match c with ib_OnKeyAdded _ _ _ => (mret tt : M S unit) | c => pure _ c end.

(** ** External tables *)

Section External.
Context {ReadOptions TableProperties : Type}.
(** Iterators, prefixes and properties are pointers; what is filled in comes back. *)
Inductive external_reader : Type → Type :=
  | xr_NewIterator (read_options : ReadOptions) (prefix_extractor : option ptr) : external_reader (option ptr)
  | xr_Get (read_options : ReadOptions) (key : Slice) (prefix_extractor : option ptr) (value : list byte) :
      external_reader (Status * list byte)
  | xr_MultiGet (read_options : ReadOptions) (keys : list Slice) (prefix_extractor : option ptr)
      (values : list (list byte)) (statuses : list Status) : external_reader (list (list byte) * list Status)
  | xr_GetPropertiesBlock (property_block : option ptr) (size file_offset : Z) :
      external_reader (Status * option ptr * Z * Z)
  | xr_GetTableProperties : external_reader (option ptr)
  | xr_VerifyChecksum (ro : ReadOptions) : external_reader Status.
Inductive external_builder : Type → Type :=
  | xb_Add (key value : Slice) : external_builder unit
  | xb_status : external_builder Status
  | xb_Finish : external_builder Status
  | xb_Abandon : external_builder unit
  | xb_FileSize : external_builder Z
  | xb_PutPropertiesBlock (property_block : Slice) : external_builder Status
  | xb_GetTableProperties : external_builder TableProperties
  | xb_GetFileChecksum : external_builder (list byte)
  | xb_GetFileChecksumFuncName : external_builder (list byte).

Context {S : Type} (Status_msg : Code → SubCode → Slice → Slice → Severity → Status).
Definition ExternalTableReader (pure : object external_reader S) : object external_reader S := λ A c,
  match c with
  | xr_GetPropertiesBlock property_block size file_offset =>
      (mret (NotSupported kNone, property_block, size, file_offset) : M S (Status * option ptr * Z * Z))
  | xr_VerifyChecksum _ =>
      mret (NotSupported_msg Status_msg (Slice_of_string (str "VerifyChecksum() not supported")) empty_slice)
  | c => pure _ c
  end.
(** The names that stand for a checksum that is not known are constants of file_checksum.h. *)
Definition kUnknownFileChecksum : list byte := [].
Definition kUnknownFileChecksumFuncName : list byte := str "Unknown".
Definition ExternalTableBuilder (pure : object external_builder S) : object external_builder S := λ A c,
  match c with
  | xb_PutPropertiesBlock _ => (mret (NotSupported kNone) : M S Status)
  | xb_GetFileChecksum => mret kUnknownFileChecksum
  | xb_GetFileChecksumFuncName => mret kUnknownFileChecksumFuncName
  | c => pure _ c
  end.
End External.

(** ** Merge operators *)

Inductive OpFailureScope := kDefaultScope | kTryMerge | kMustMerge | kOpFailureScopeMax.
(** What a merge is given, and what it makes: a value, or one of the operands as it is. *)
Record MergeOperationInput := mkMergeInput {
  merge_key : Slice; existing_value : option Slice; operand_list : list Slice; merge_logger : option ptr;
}.
Record MergeOperationOutput := mkMergeOutput {
  new_value : list byte; existing_operand : Slice; op_failure_scope : OpFailureScope;
}.
Definition MergeOperationOutput_of (_new_value : list byte) (_existing_operand : Slice) : MergeOperationOutput :=
  mkMergeOutput _new_value _existing_operand kDefaultScope.

Inductive merge_operator : Type → Type :=
  | mo_Name : merge_operator (list byte)
  | mo_FullMerge (key : Slice) (existing_value : option Slice) (operand_list : list (list byte))
      (new_value : list byte) (logger : option ptr) : merge_operator (bool * list byte)
  | mo_FullMergeV2 (merge_in : MergeOperationInput) (merge_out : MergeOperationOutput) :
      merge_operator (bool * MergeOperationOutput)
  | mo_PartialMerge (key left_operand right_operand : Slice) (new_value : list byte) (logger : option ptr) :
      merge_operator (bool * list byte)
  | mo_PartialMergeMulti (key : Slice) (operand_list : list Slice) (new_value : list byte) (logger : option ptr) :
      merge_operator (bool * list byte)
  | mo_AllowSingleOperand : merge_operator bool
  | mo_ShouldMerge (operands : list Slice) : merge_operator bool.

Definition merge_defaults {S} (compiled : object merge_operator S) (self : object merge_operator S) :
    object merge_operator S := λ A c,
  match c with
  | mo_FullMerge _ _ _ new_value _ => lift_outcome (assert_that false) ;; mret (false, new_value)
  | mo_PartialMerge _ _ _ new_value _ => mret (false, new_value)
  | mo_AllowSingleOperand => mret false
  | mo_ShouldMerge _ => mret false
  | c => compiled _ c
  end.
Definition MergeOperator {S} (compiled : object merge_operator S) (overrides : overriding merge_operator S) :
    object merge_operator S := virtual (merge_defaults compiled) overrides 1.
Lemma merge_settles {S} (compiled : object merge_operator S) : settles (merge_defaults compiled) 1.
Proof. settle (λ A (c : merge_operator A), match c with mo_AllowSingleOperand => 0 | _ => 0 end)%nat. Qed.

(** ** Prefixes and allocators *)

Inductive slice_transform : Type → Type :=
  | sx_Name : slice_transform (list byte)
  | sx_Transform (key : Slice) : slice_transform Slice
  | sx_InDomain (key : Slice) : slice_transform bool
  | sx_InRange (dst : Slice) : slice_transform bool
  | sx_FullLengthEnabled (len : Z) : slice_transform (bool * Z)
  | sx_SameResultWhenAppended (prefix : Slice) : slice_transform bool.
Definition SliceTransform {S} (pure : object slice_transform S) : object slice_transform S := λ A c,
  match c with
  | sx_InRange _ => (mret false : M S bool)
  | sx_FullLengthEnabled len => mret (false, len)
  | sx_SameResultWhenAppended _ => mret false
  | c => pure _ c
  end.

Inductive memory_allocator : Type → Type :=
  | ma_Allocate (size : Z) : memory_allocator (option ptr)
  | ma_Deallocate (p : option ptr) : memory_allocator unit
  | ma_UsableSize (p : option ptr) (allocation_size : Z) : memory_allocator Z
  | ma_GetId : memory_allocator (list byte).
(** [GenerateIndividualId] is compiled elsewhere. *)
Definition MemoryAllocator {S} (GenerateIndividualId : M S (list byte)) (pure : object memory_allocator S) :
    object memory_allocator S := λ A c,
  match c with
  | ma_UsableSize _ allocation_size => (mret allocation_size : M S Z)
  | ma_GetId => GenerateIndividualId
  | c => pure _ c
  end.
Record JemallocAllocatorOptions := mkJemalloc {
  limit_tcache_size : bool; tcache_size_lower_bound : Z; tcache_size_upper_bound : Z; num_arenas : Z;
}.
Definition new_JemallocAllocatorOptions : JemallocAllocatorOptions := mkJemalloc false 1024 (16 * 1024) 1.

(** ** Listeners *)

Inductive CompactionReason :=
  | cr_kUnknown | cr_kLevelL0FilesNum | cr_kLevelMaxLevelSize | cr_kUniversalSizeAmplification
  | cr_kUniversalSizeRatio | cr_kUniversalSortedRunNum | cr_kFIFOMaxSize | cr_kFIFOReduceNumFiles | cr_kFIFOTtl
  | cr_kManualCompaction | cr_kFilesMarkedForCompaction | cr_kBottommostFiles | cr_kTtl | cr_kFlush
  | cr_kExternalSstIngestion | cr_kPeriodicCompaction | cr_kChangeTemperature | cr_kForcedBlobGC
  | cr_kRoundRobinTtl | cr_kRefitLevel | cr_kNumOfReasons.
Inductive FlushReason :=
  | fr_kOthers | fr_kGetLiveFiles | fr_kShutDown | fr_kExternalFileIngestion | fr_kManualCompaction
  | fr_kWriteBufferManager | fr_kWriteBufferFull | fr_kTest | fr_kDeleteFiles | fr_kAutoCompaction
  | fr_kManualFlush | fr_kErrorRecovery | fr_kErrorRecoveryRetryFlush | fr_kWalFull | fr_kCatchUpAfterErrorRecovery.
Inductive BackgroundErrorReason :=
  | br_kFlush | br_kCompaction | br_kWriteCallback | br_kMemTable | br_kManifestWrite | br_kFlushNoWAL
  | br_kManifestWriteNoWAL.
Inductive FileOperationType :=
  | fo_kRead | fo_kWrite | fo_kTruncate | fo_kClose | fo_kFlush | fo_kSync | fo_kFsync | fo_kRangeSync
  | fo_kAppend | fo_kPositionedAppend | fo_kOpen | fo_kVerify.

Record FileCreationBriefInfo := mkCreationBrief {
  db_name : list byte; cf_name : list byte; file_path : list byte; job_id : Z;
}.
Definition new_FileCreationBriefInfo : FileCreationBriefInfo := mkCreationBrief [] [] [] 0.
Definition FileCreationBriefInfo_of (_db_name _cf_name _file_path : list byte) (_job_id : Z) : FileCreationBriefInfo :=
  mkCreationBrief _db_name _cf_name _file_path _job_id.
(** [BlobFileCreationReason] is declared in types.h. *)
Inductive BlobFileCreationReason := kBlobFlush | kBlobCompaction | kBlobRecovery.
Record BlobFileCreationBriefInfo := mkBlobBrief { blob_brief : FileCreationBriefInfo; blob_reason : BlobFileCreationReason }.
Definition BlobFileCreationBriefInfo_of (_db_name _cf_name _file_path : list byte) (_job_id : Z)
    (_reason : BlobFileCreationReason) : BlobFileCreationBriefInfo :=
  mkBlobBrief (FileCreationBriefInfo_of _db_name _cf_name _file_path _job_id) _reason.
Record BlobFileCreationInfo := mkBlobCreation {
  blob_creation : BlobFileCreationBriefInfo;
  total_blob_count : Z;
  total_blob_bytes : Z;
  creation_status : Status;
  file_checksum : list byte;
  file_checksum_func_name : list byte;
}.
Definition BlobFileCreationInfo_of (_db_name _cf_name _file_path : list byte) (_job_id : Z)
    (_reason : BlobFileCreationReason) (count bytes : Z) (_status : Status)
    (_file_checksum _file_checksum_func_name : list byte) : BlobFileCreationInfo :=
  mkBlobCreation (BlobFileCreationBriefInfo_of _db_name _cf_name _file_path _job_id _reason) count bytes _status
    _file_checksum _file_checksum_func_name.
Record FileDeletionInfo := mkDeletion {
  deletion_db_name : list byte; deletion_path : list byte; deletion_job_id : Z; deletion_status : Status;
}.
Definition new_FileDeletionInfo : FileDeletionInfo := mkDeletion [] [] 0 default_Status.
Definition FileDeletionInfo_of (_db_name _file_path : list byte) (_job_id : Z) (_status : Status) : FileDeletionInfo :=
  mkDeletion _db_name _file_path _job_id _status.

(** Times are numbers of nanoseconds; the place and the length are set later, if at all. *)
Record FileOperationInfo := mkOperation {
  operation_type : FileOperationType;
  operation_path : list byte;
  operation_temperature : Temperature;
  operation_offset : option Z;
  operation_length : option Z;
  duration : Z;
  start_ts : Z;
  operation_status : Status;
}.
Definition FileOperationInfo_of (_type : FileOperationType) (_path : list byte) (_start_ts : Z * Z) (_finish_ts : Z)
    (_status : Status) (_temperature : Temperature) : FileOperationInfo :=
  mkOperation _type _path _temperature None None (_finish_ts - _start_ts.2) _start_ts.1 _status.
Definition StartNow {S} (system_now steady_now : M S Z) : M S (Z * Z) :=
  a ← system_now; b ← steady_now; mret (a, b).
Definition FinishNow {S} (steady_now : M S Z) : M S Z := steady_now.

Record BlobFileInfo := mkBlobFile { blob_file_path : list byte; blob_file_number : Z }.
Definition BlobFileInfo_of (path : list byte) (number : Z) : BlobFileInfo := mkBlobFile path number.
Record BlobFileAdditionInfo := mkAddition { added : BlobFileInfo; added_count : Z; added_bytes : Z }.
Definition BlobFileAdditionInfo_of (path : list byte) (number count bytes : Z) : BlobFileAdditionInfo :=
  mkAddition (BlobFileInfo_of path number) count bytes.
Record BlobFileGarbageInfo := mkGarbage { garbage : BlobFileInfo; garbage_count : Z; garbage_bytes : Z }.
Definition BlobFileGarbageInfo_of (path : list byte) (number count bytes : Z) : BlobFileGarbageInfo :=
  mkGarbage (BlobFileInfo_of path number) count bytes.
Record IOErrorInfo := mkIOError {
  io_status : Status; operation : FileOperationType; io_file_path : list byte; io_length : Z; io_offset : Z;
}.
Definition IOErrorInfo_of (status : Status) (op : FileOperationType) (path : list byte) (length offset : Z) : IOErrorInfo :=
  mkIOError status op path length offset.

(** The notifications; the larger descriptions that are only handed on go by the names of their types.  What
    a listener may write comes back. *)
Section Listener.
Context {V : string → Type}.
Inductive listener : Type → Type :=
  | el_Name : listener (list byte)
  | el_OnFlushCompleted (db : option ptr) (info : V "FlushJobInfo") : listener unit
  | el_OnFlushBegin (db : option ptr) (info : V "FlushJobInfo") : listener unit
  | el_OnManualFlushScheduled (db : option ptr) (info : list (V "ManualFlushInfo")) : listener unit
  | el_OnTableFileDeleted (info : FileDeletionInfo) : listener unit
  | el_OnCompactionBegin (db : option ptr) (ci : V "CompactionJobInfo") : listener unit
  | el_OnCompactionCompleted (db : option ptr) (ci : V "CompactionJobInfo") : listener unit
  | el_OnSubcompactionBegin (si : V "SubcompactionJobInfo") : listener unit
  | el_OnSubcompactionCompleted (si : V "SubcompactionJobInfo") : listener unit
  | el_OnTableFileCreated (info : V "TableFileCreationInfo") : listener unit
  | el_OnTableFileCreationStarted (info : V "TableFileCreationBriefInfo") : listener unit
  | el_OnMemTableSealed (info : V "MemTableInfo") : listener unit
  | el_OnColumnFamilyHandleDeletionStarted (handle : option ptr) : listener unit
  | el_OnExternalFileIngested (db : option ptr) (info : V "ExternalFileIngestionInfo") : listener unit
  | el_OnBackgroundError (reason : BackgroundErrorReason) (bg_error : Status) : listener Status
  | el_OnStallConditionsChanged (info : V "WriteStallInfo") : listener unit
  | el_OnFileReadFinish (info : FileOperationInfo) : listener unit
  | el_OnFileWriteFinish (info : FileOperationInfo) : listener unit
  | el_OnFileFlushFinish (info : FileOperationInfo) : listener unit
  | el_OnFileSyncFinish (info : FileOperationInfo) : listener unit
  | el_OnFileRangeSyncFinish (info : FileOperationInfo) : listener unit
  | el_OnFileTruncateFinish (info : FileOperationInfo) : listener unit
  | el_OnFileCloseFinish (info : FileOperationInfo) : listener unit
  | el_ShouldBeNotifiedOnFileIO : listener bool
  | el_OnErrorRecoveryBegin (reason : BackgroundErrorReason) (bg_error : Status) (auto_recovery : bool) : listener bool
  | el_OnErrorRecoveryCompleted (old_bg_error : Status) : listener unit
  | el_OnErrorRecoveryEnd (info : Status * Status) : listener unit
  | el_OnBlobFileCreationStarted (info : BlobFileCreationBriefInfo) : listener unit
  | el_OnBlobFileCreated (info : BlobFileCreationInfo) : listener unit
  | el_OnBlobFileDeleted (info : FileDeletionInfo) : listener unit
  | el_OnIOError (info : IOErrorInfo) : listener unit.

(** What a listener answers that overrides nothing. *)
Definition listener_answer (A : Type) (c : listener A) : A :=
  match c with
  | el_Name => []
  | el_OnBackgroundError _ bg_error => bg_error
  | el_ShouldBeNotifiedOnFileIO => false
  | el_OnErrorRecoveryBegin _ _ auto_recovery => auto_recovery
  | _ => tt
  end.
Definition EventListener {S} (overrides : overriding listener S) : object listener S :=
  virtual (λ _ A c, mret (listener_answer A c)) overrides 1.
End Listener.
Arguments listener : clear implicits.

(** ** What they promise *)

(** The call of the older generation that stands for a newer one. *)
Definition as_pair {P} (A : Type) (c : collector P A) : collector P A :=
  match c with tc_AddUserKey key value _ _ _ => tc_Add key value | c => c end.
Definition as_record (A : Type) (c : wal_filter A) : wal_filter A :=
  match c with
  | wf_LogRecordFound _ _ batch new_batch batch_changed => wf_LogRecord batch new_batch batch_changed
  | c => c
  end.
Definition with_options {RO R B} (new_ReadOptions : RO) (A : Type) (c : table_factory RO R B A) : table_factory RO R B A :=
  match c with
  | tf_NewTableReader_default o f n r p => tf_NewTableReader new_ReadOptions o f n r p
  | c => c
  end.
Definition at_no_snapshot {C} (A : Type) (c : iterator C A) : iterator C A :=
  match c with it_Refresh => it_Refresh_at None | c => c end.

(** A class of an older generation is asked its own way, by every program: a collector that knows pairs only
    is given each pair that is added, in order, without its type and its number; a filter of the log is
    given each record without the number and the name of its file; a factory of tables is given new
    options for reading; and an iterator is refreshed without a snapshot. *)
Theorem older_classes_are_asked_their_own_way Status_msg {P C RO R B S1 S2 S3 S4} (pure1 : object (collector P) S1)
    (pure2 : object wal_filter S2) (pure3 : object (table_factory RO R B) S3) (compiled : object (iterator C) S4)
    (new_ReadOptions : RO) (kNoWideColumns : C) :
  (∀ X (p : client (collector P) X) (overrides : overriding (collector P) S1) s,
     (∀ k v t n size, overrides _ (tc_AddUserKey k v t n size) = None) →
     run (TablePropertiesCollector Status_msg pure1 overrides) p s =
     run (TablePropertiesCollector Status_msg pure1 overrides) (rename as_pair p) s) ∧
  (∀ X (p : client wal_filter X) (overrides : overriding wal_filter S2) s,
     (∀ n f b b' ch, overrides _ (wf_LogRecordFound n f b b' ch) = None) →
     run (WalFilter pure2 overrides) p s = run (WalFilter pure2 overrides) (rename as_record p) s) ∧
  (∀ X (p : client (table_factory RO R B) X) (overrides : overriding (table_factory RO R B) S3) s,
     (∀ o f n r pre, overrides _ (tf_NewTableReader_default o f n r pre) = None) →
     run (TableFactory pure3 new_ReadOptions overrides) p s =
     run (TableFactory pure3 new_ReadOptions overrides) (rename (with_options new_ReadOptions) p) s) ∧
  (∀ X (p : client (iterator C) X) (overrides : overriding (iterator C) S4) s, overrides _ it_Refresh = None →
     run (Iterator Status_msg kNoWideColumns compiled overrides) p s =
     run (Iterator Status_msg kNoWideColumns compiled overrides) (rename at_no_snapshot p) s).
Proof.
  split; [|split; [|split]]; intros X p overrides s H; apply run_rename; intros A c s'; destruct c; try done; cbn;
    rewrite H; cbn; by destruct (overrides _ _).
Qed.

(** A class that knows neither generation: a collector refuses every pair and stays as it is; a filter lets
    every record through unchanged; an iterator cannot be refreshed.  An index is built and read the old
    way, always with success, and what was there before is replaced. *)
Theorem classes_without_either Status_msg {P C S1 S2 S3 S4} (pure1 : object (collector P) S1)
    (pure2 : object wal_filter S2) (compiled : object (iterator C) S3) (kNoWideColumns : C)
    (pure4 : object index_factory S4) (ov1 : overriding (collector P) S1) (ov2 : overriding wal_filter S2)
    (ov3 : overriding (iterator C) S3) (ov4 : overriding index_factory S4) :
  (∀ k v t n size s, ov1 _ (tc_AddUserKey k v t n size) = None → ov1 _ (tc_Add k v) = None →
     TablePropertiesCollector Status_msg pure1 ov1 _ (tc_AddUserKey k v t n size) s = Done (deprecated Status_msg, s)) ∧
  (∀ n f b b' ch s, ov2 _ (wf_LogRecordFound n f b b' ch) = None → ov2 _ (wf_LogRecord b b' ch) = None →
     WalFilter pure2 ov2 _ (wf_LogRecordFound n f b b' ch) s = Done (kContinueProcessing, ch, s)) ∧
  (∀ s, ov3 _ it_Refresh = None → ov3 _ (it_Refresh_at None) = None →
     Iterator Status_msg kNoWideColumns compiled ov3 _ it_Refresh s =
     Done (NotSupported_msg Status_msg (Slice_of_string (str "Refresh() is not supported")) empty_slice, s)) ∧
  (∀ o old s, ov4 _ (if_NewBuilder_option o old) = None →
     UserDefinedIndexFactory pure4 ov4 _ (if_NewBuilder_option o old) s =
     match UserDefinedIndexFactory pure4 ov4 _ if_NewBuilder s with
     | Done (builder, s') => Done (RocksStatus.OK, builder, s')
     | Undef e => Undef e
     end) ∧
  (∀ o block old s, ov4 _ (if_NewReader_option o block old) = None →
     UserDefinedIndexFactory pure4 ov4 _ (if_NewReader_option o block old) s =
     match UserDefinedIndexFactory pure4 ov4 _ (if_NewReader block) s with
     | Done (reader, block', s') => Done (RocksStatus.OK, block', reader, s')
     | Undef e => Undef e
     end).
Proof.
  split; [|split; [|split; [|split]]].
  - intros k v t n size s H1 H2. cbn. rewrite H1. cbn. by rewrite H2.
  - intros n f b b' ch s H1 H2. cbn. rewrite H1. cbn. by rewrite H2.
  - intros s H1 H2. cbn. rewrite H1. cbn. by rewrite H2.
  - intros o old s H. cbn. rewrite H. cbn. unfold mbind, M_bind.
    destruct (ov4 _ if_NewBuilder) as [m|]; [by destruct (m s) as [[b s']|]|]. cbn. by destruct (pure4 _ _ s) as [[b s']|].
  - intros o block old s H. cbn. rewrite H. cbn. unfold mbind, M_bind.
    destruct (ov4 _ (if_NewReader block)) as [m|]; [by destruct (m s) as [[[b b'] s']|]|]. cbn.
    by destruct (pure4 _ _ s) as [[[b b'] s']|].
Qed.

(** A listener hears of what it overrides, and of nothing else: a program that notifies it is, to its state,
    the program whose other notifications are answered without it.  A listener that overrides nothing is
    never changed, and leaves every error and every decision as it was; in particular it is not told of
    the input and output of files. *)
Theorem listeners_hear_what_they_override {V S B} (overrides : overriding (listener V) S) (p : client (listener V) B) s :
  let unheard A (c : listener V A) := match overrides A c with Some _ => None | None => Some (listener_answer A c) end in
  let heard A (c : listener V A) := match overrides A c with Some m => m | None => undef NullDeref end in
  run (EventListener overrides) p s = run heard (answered unheard p) s ∧
  ((∀ A (c : listener V A), overrides A c = None) → ∃ b, run (EventListener overrides) p s = Done (b, s)) ∧
  (overrides _ el_ShouldBeNotifiedOnFileIO = None →
     EventListener overrides _ el_ShouldBeNotifiedOnFileIO s = Done (false, s)).
Proof.
  intros unheard heard. assert (run (EventListener overrides) p s = run heard (answered unheard p) s) as Hrun.
  { apply run_answered. intros A c s'. unfold unheard, heard, EventListener. cbn. by destruct (overrides A c). }
  split; [exact Hrun|]. split.
  - intros Hno. rewrite Hrun. clear Hrun. induction p as [b|A c k IH]; [by exists b|]. cbn [answered].
    unfold unheard at 1. rewrite Hno. apply IH.
  - intros H. unfold EventListener. cbn. by rewrite H.
Qed.
