(* ===== verification/Tools.v ===== *)
(** Small parts of the headers with code of their own: the flags of what is verified after a compaction
    (include/rocksdb/advanced_options.h), the result of a command of the tool (utilities/
    ldb_cmd_execute_result.h), and the figures on tables (utilities/table_properties_collectors.h), with
    numbers of type [double] as the Standard Library specifies them. *)
From Corelib Require Import Floats.SpecFloat.
From S2P Require Import Prelude.

Local Open Scope Z_scope.

(** ** [VerifyOutputFlags], an enumeration of 32 bits *)

Definition kVerifyNone : Z := 0x0.
Definition kVerifyBlockChecksum : Z := Z.shiftl 1 0.
Definition kVerifyIteration : Z := Z.shiftl 1 1.
Definition kEnableForLocalCompaction : Z := Z.shiftl 1 10.
Definition kEnableForRemoteCompaction : Z := Z.shiftl 1 11.
Definition kVerifyAll : Z := 0xFFFFFFFF.
Definition flags_or (lhs rhs : Z) : Z := Z.lor lhs rhs.
Definition flags_and (lhs rhs : Z) : Z := Z.land lhs rhs.
(** [operator|=] and [operator&=] give the new value of the left side. *)
Definition flags_or_assign (lhs rhs : Z) : Z := flags_or lhs rhs.
Definition flags_and_assign (lhs rhs : Z) : Z := flags_and lhs rhs.
Definition flags_not (flag : Z) : bool := flag =? kVerifyNone.

(** ** [LDBCommandExecuteResult] *)

Inductive State := EXEC_NOT_STARTED | EXEC_SUCCEED | EXEC_FAILED.
#[export] Instance State_eq_dec : EqDecision State.
Proof. solve_decision. Defined.
Record LDBCommandExecuteResult := mkResult { state_ : State; message_ : list byte }.
Definition new_LDBCommandExecuteResult : LDBCommandExecuteResult := mkResult EXEC_NOT_STARTED [].
Definition LDBCommandExecuteResult_of (state : State) (msg : list byte) : LDBCommandExecuteResult := mkResult state msg.
Definition ToString (r : LDBCommandExecuteResult) : list byte :=
  let ret :=
    match state_ r with
    | EXEC_SUCCEED => []
    | EXEC_FAILED => str "Failed: "
    | EXEC_NOT_STARTED => str "Not started: "
    end in
  if bool_decide (message_ r = []) then ret else ret ++ message_ r.
Definition Reset (r : LDBCommandExecuteResult) : LDBCommandExecuteResult := mkResult EXEC_NOT_STARTED [].
Definition IsSucceed (r : LDBCommandExecuteResult) : bool := bool_decide (state_ r = EXEC_SUCCEED).
Definition IsNotStarted (r : LDBCommandExecuteResult) : bool := bool_decide (state_ r = EXEC_NOT_STARTED).
Definition IsFailed (r : LDBCommandExecuteResult) : bool := bool_decide (state_ r = EXEC_FAILED).
Definition Succeed (msg : list byte) : LDBCommandExecuteResult := LDBCommandExecuteResult_of EXEC_SUCCEED msg.
Definition Failed (msg : list byte) : LDBCommandExecuteResult := LDBCommandExecuteResult_of EXEC_FAILED msg.

(** ** Figures on tables *)

(** A [double]: 53 bits of precision, exponents below 1024. *)
Abbreviation double := spec_float.
Definition double_of_u64 (n : Z) : double := binary_normalize 53 1024 n 0 false.
Definition divide (x y : double) : double := SFdiv 53 1024 x y.

(** [CompactOnDeletionCollectorFactory]: when a file has so many deletions that it is to be compacted. *)
Record CompactOnDeletionCollectorFactory := mkOnDeletion {
  sliding_window_size_ : Z; deletion_trigger_ : Z; deletion_ratio_ : double; min_file_size_ : Z;
}.
Definition SetWindowSize (n : Z) (f : CompactOnDeletionCollectorFactory) : CompactOnDeletionCollectorFactory :=
  mkOnDeletion n (deletion_trigger_ f) (deletion_ratio_ f) (min_file_size_ f).
Definition GetWindowSize (f : CompactOnDeletionCollectorFactory) : Z := sliding_window_size_ f.
Definition SetDeletionTrigger (n : Z) (f : CompactOnDeletionCollectorFactory) : CompactOnDeletionCollectorFactory :=
  mkOnDeletion (sliding_window_size_ f) n (deletion_ratio_ f) (min_file_size_ f).
Definition GetDeletionTrigger (f : CompactOnDeletionCollectorFactory) : Z := deletion_trigger_ f.
Definition SetDeletionRatio (r : double) (f : CompactOnDeletionCollectorFactory) : CompactOnDeletionCollectorFactory :=
  mkOnDeletion (sliding_window_size_ f) (deletion_trigger_ f) r (min_file_size_ f).
Definition GetDeletionRatio (f : CompactOnDeletionCollectorFactory) : double := deletion_ratio_ f.
Definition SetMinFileSize (n : Z) (f : CompactOnDeletionCollectorFactory) : CompactOnDeletionCollectorFactory :=
  mkOnDeletion (sliding_window_size_ f) (deletion_trigger_ f) (deletion_ratio_ f) n.
Definition GetMinFileSize (f : CompactOnDeletionCollectorFactory) : Z := min_file_size_ f.

(** When the data in a file was written. *)
Record DataCollectionUnixWriteTimeInfo := mkWriteTimes {
  min_write_time : Z;
  max_write_time : Z;
  average_write_time : Z;
  num_entries_infinitely_old : Z;
  num_entries_write_time_aggregated : Z;
  num_entries_write_time_untracked : Z;
}.
Definition new_DataCollectionUnixWriteTimeInfo : DataCollectionUnixWriteTimeInfo := mkWriteTimes 0 0 0 0 0 0.
Definition DataCollectionUnixWriteTimeInfo_of (_min _max _average _old _aggregated _untracked : Z) :
    DataCollectionUnixWriteTimeInfo := mkWriteTimes _min _max _average _old _aggregated _untracked.
Definition DataCollectionIsEmpty (i : DataCollectionUnixWriteTimeInfo) : bool :=
  (num_entries_infinitely_old i =? 0) && (num_entries_write_time_aggregated i =? 0) &&
  (num_entries_write_time_untracked i =? 0).
Definition TrackedDataRatio (i : DataCollectionUnixWriteTimeInfo) : double :=
  if DataCollectionIsEmpty i then double_of_u64 0
  else
    let tracked := u64 (num_entries_infinitely_old i + num_entries_write_time_aggregated i) in
    divide (double_of_u64 tracked) (double_of_u64 (u64 (tracked + num_entries_write_time_untracked i))).
Definition HasInfinitelyOldData (i : DataCollectionUnixWriteTimeInfo) : bool := 0 <? num_entries_infinitely_old i.

(** ** What they promise *)

(** Flags are sets of bits, within 32 bits: combining is the union, masking the intersection, and the flag
    for everything leaves all others as they are; negation asks whether nothing is in common. *)
Theorem verification_flags_are_sets (a b : Z) :
  0 <= a <= kVerifyAll → 0 <= b <= kVerifyAll →
  0 <= flags_or a b <= kVerifyAll ∧ 0 <= flags_and a b <= kVerifyAll ∧
  (∀ i, Z.testbit (flags_or_assign a b) i = Z.testbit a i || Z.testbit b i) ∧
  (∀ i, Z.testbit (flags_and_assign a b) i = Z.testbit a i && Z.testbit b i) ∧
  flags_and a kVerifyAll = a ∧ flags_or a kVerifyAll = kVerifyAll ∧
  (flags_not (flags_and a b) = true ↔ ∀ i, 0 <= i < 32 → Z.testbit a i && Z.testbit b i = false).
Proof.
  intros Ha Hb. assert (∀ x, 0 <= x <= kVerifyAll → Z.land x kVerifyAll = x) as Hall.
  { intros x Hx. change kVerifyAll with (Z.ones 32). rewrite Z.land_ones by lia.
    apply Z.mod_small. unfold kVerifyAll in Hx. lia. }
  assert (∀ x, Z.land x kVerifyAll = x → 0 <= x <= kVerifyAll) as Hback.
  { intros x Hx. rewrite <-Hx. change kVerifyAll with (Z.ones 32). rewrite Z.land_ones by lia.
    pose proof (Z.mod_pos_bound x (2 ^ 32)). change (Z.ones 32) with (2 ^ 32 - 1). lia. }
  unfold flags_or_assign, flags_and_assign, flags_or, flags_and.
  split; [apply Hback; by rewrite Z.land_lor_distr_l, !Hall|].
  split; [apply Hback; by rewrite <-Z.land_assoc, Hall|].
  split; [intros; apply Z.lor_spec|]. split; [intros; apply Z.land_spec|]. split; [by apply Hall|]. split.
  - apply Z.bits_inj'. intros i Hi. rewrite Z.lor_spec, <-(Hall a) by done. rewrite Z.land_spec.
    by destruct (Z.testbit a i), (Z.testbit kVerifyAll i).
  - unfold flags_not. rewrite Z.eqb_eq. split.
    + intros H i _. by rewrite <-Z.land_spec, H, Z.bits_0.
    + intros H. apply Z.bits_inj'. intros i Hi. rewrite Z.land_spec, Z.bits_0.
      destruct (Z.lt_ge_cases i 32); [by apply H|].
      rewrite <-(Hall a) by done. rewrite Z.land_spec. change kVerifyAll with (Z.ones 32).
      rewrite (Z.ones_spec_high 32 i) by lia. by rewrite andb_false_r.
Qed.

(** A result is exactly one of not started, succeeded and failed, and its text says which of the latter two
    with its message, as long as the message of a success does not itself begin as a failure; clearing
    it forgets both. *)
Theorem results_read_as_what_they_are (r : LDBCommandExecuteResult) (msg : list byte) :
  (length (filter (λ b : bool, b = true) [IsNotStarted r; IsSucceed r; IsFailed r]) = 1)%nat ∧
  ToString (Succeed msg) = msg ∧ ToString (Failed msg) = str "Failed: " ++ msg ∧
  IsNotStarted (Reset r) = true ∧ ToString (Reset r) = str "Not started: " ∧
  (∀ msg', (¬ ∃ m, msg = str "Failed: " ++ m) → ToString (Succeed msg) ≠ ToString (Failed msg')).
Proof.
  assert (∀ m, ToString (Succeed m) = m) as Hs.
  { intros m. unfold ToString, Succeed. cbn. by case_bool_decide. }
  assert (∀ m, ToString (Failed m) = str "Failed: " ++ m) as Hf.
  { intros m. unfold ToString, Failed. cbn. case_bool_decide as Hm; cbn in Hm; by rewrite ?Hm, ?app_nil_r. }
  split; [by destruct r as [[] m]|]. split; [apply Hs|]. split; [apply Hf|]. split; [done|]. split; [done|].
  intros msg' Hno. rewrite Hs, Hf. intros ->. apply Hno. by exists msg'.
Qed.

(** *** Ratios *)

Lemma digits_log2 p : Zpos (digits2_pos p) = Z.log2 (Zpos p) + 1.
Proof.
  induction p as [p IH|p IH|]; [| |done]; cbn [digits2_pos]; rewrite Pos2Z.inj_succ, IH.
  - change (Zpos p~1) with (2 * Zpos p + 1). rewrite Z.log2_succ_double by lia. lia.
  - change (Zpos p~0) with (2 * Zpos p). rewrite Z.log2_double by lia. lia.
Qed.
Lemma shr_1_half mrs : 0 <= shr_m mrs → shr_m (shr_1 mrs) = shr_m mrs / 2.
Proof. destruct mrs as [[|[p|p|]|p] r s]; cbn; intros H; try lia; rewrite <-?Z.div2_div; done. Qed.
Lemma shr_iter_pow n : ∀ mrs, 0 <= shr_m mrs → shr_m (SpecFloat.iter_pos shr_1 n mrs) = shr_m mrs / 2 ^ Zpos n.
Proof.
  assert (∀ m k, 0 <= m → 0 <= m / 2 ^ Zpos k) as Hpos by (intros; apply Z.div_pos; [done|]; lia).
  induction n as [n IH|n IH|]; intros mrs Hm; cbn [SpecFloat.iter_pos].
  - assert (0 <= shr_m (shr_1 mrs)) by (rewrite shr_1_half by done; by apply (Hpos _ 1%positive)).
    rewrite !IH by (rewrite ?IH by done; auto). rewrite shr_1_half by done.
    rewrite !Z.div_div by lia. f_equal. rewrite <-!Z.pow_add_r by lia.
    change 2 with (2 ^ 1) at 1. rewrite <-Z.pow_add_r by lia. f_equal. lia.
  - rewrite !IH by (rewrite ?IH by done; auto). rewrite Z.div_div by lia. f_equal. rewrite <-Z.pow_add_r by lia.
    f_equal. lia.
  - by rewrite shr_1_half.
Qed.

(** Cutting a mantissa down to 53 bits leaves it positive, with an exponent in range. *)
Lemma cut_positive m e l : 0 < m < 2 ^ 200 → -500 <= e <= 500 →
  0 < shr_m (shr_fexp 53 1024 m e l).1 <= m ∧ e <= (shr_fexp 53 1024 m e l).2 <= e + 200.
Proof.
  intros Hm He. destruct m as [|p|]; [lia| |lia]. unfold shr_fexp. cbn [Zdigits2]. rewrite digits_log2.
  assert (0 <= Z.log2 (Zpos p) < 200) as Hlog by (split; [apply Z.log2_nonneg|apply Z.log2_lt_pow2; lia]).
  set (n := fexp 53 1024 (Z.log2 (Zpos p) + 1 + e) - e).
  assert (n <= Z.log2 (Zpos p)) as Hn by (unfold n, fexp, emin; lia).
  assert (shr_m (shr_record_of_loc (Zpos p) l) = Zpos p) as Hr by (by destruct l as [|[]]).
  unfold shr. destruct n as [|k|k] eqn:Hk; cbn [fst snd]; rewrite ?Hr; [lia| |lia].
  rewrite shr_iter_pow by (rewrite Hr; lia). rewrite Hr. split; [split|lia].
  - apply Z.div_str_pos. split; [lia|]. etransitivity; [apply Z.pow_le_mono_r; [lia|exact Hn]|].
    by apply Z.log2_spec.
  - apply Z.div_le_upper_bound; [lia|]. assert (0 < 2 ^ Zpos k) by lia. nia.
Qed.
Lemma round_finite m e : 0 < m < 2 ^ 150 → -100 <= e <= 100 →
  ∃ m' e', binary_round_aux 53 1024 false m e loc_Exact = S754_finite false m' e'.
Proof.
  intros Hm He. unfold binary_round_aux. destruct (cut_positive m e loc_Exact) as [H1 H2]; [lia|lia|].
  destruct (shr_fexp 53 1024 m e loc_Exact) as [r1 e1]. cbn [fst snd] in H1, H2.
  set (m1 := round_nearest_even (shr_m r1) (loc_of_shr_record r1)).
  assert (0 < m1 <= m + 1) as Hm1.
  { unfold m1, round_nearest_even. destruct (loc_of_shr_record r1) as [|[]]; try lia. destruct (Z.even _); lia. }
  destruct (cut_positive m1 e1 loc_Exact) as [H3 H4]; [lia|lia|].
  destruct (shr_fexp 53 1024 m1 e1 loc_Exact) as [r2 e2]. cbn [fst snd] in H3, H4.
  destruct (shr_m r2) as [|p|p]; [lia| |lia]. exists p, e2. by rewrite (proj2 (Z.leb_le e2 (1024 - 53))) by lia.
Qed.
Lemma iter_double p d : Zpos (Pos.iter xO p d) = Zpos p * 2 ^ Zpos d.
Proof.
  induction d as [|d IH] using Pos.peano_ind; [cbn; lia|]. rewrite Pos.iter_succ.
  change (Zpos (Pos.iter xO p d)~0) with (2 * Zpos (Pos.iter xO p d)). rewrite IH, Pos2Z.inj_succ, Z.pow_succ_r by lia. lia.
Qed.

(** A positive number of 64 bits is a finite [double]. *)
Lemma u64_is_finite n : 0 < n < 2 ^ 64 → ∃ m e, double_of_u64 n = S754_finite false m e.
Proof.
  intros Hn. destruct n as [|p|]; [lia| |lia]. unfold double_of_u64, binary_normalize, binary_round.
  rewrite digits_log2, Z.add_0_r.
  assert (0 <= Z.log2 (Zpos p) < 64) as Hlog by (split; [apply Z.log2_nonneg|apply Z.log2_lt_pow2; lia]).
  unfold shl_align. rewrite Z.sub_0_r. set (n := fexp 53 1024 (Z.log2 (Zpos p) + 1)).
  assert (-52 <= n) as Hlow by (unfold n, fexp, emin; lia).
  destruct n as [|k|k]; [apply round_finite; lia..|]. apply round_finite; [|lia].
  rewrite iter_double. assert (2 ^ Zpos k <= 2 ^ 52) by (apply Z.pow_le_mono_r; lia). nia.
Qed.
Lemma divide_same m e : divide (S754_finite false m e) (S754_finite false m e) = S754_finite false (2 ^ 52) (-52).
Proof.
  unfold divide, SFdiv, SFdiv_core_binary. rewrite !Z.sub_diag.
  change (Z.min (fexp 53 1024 0) 0) with (-53). change (0 - -53) with 53. cbv iota beta zeta.
  rewrite Z.shiftl_mul_pow2 by lia.
  pose proof (Z.div_mul (2 ^ 53) (Zpos m) ltac:(lia)) as Hq. pose proof (Z_mod_mult (2 ^ 53) (Zpos m)) as Hr.
  rewrite (Z.mul_comm (Zpos m)). unfold Z.div in Hq. unfold Z.modulo in Hr.
  destruct (Z.div_eucl (2 ^ 53 * Zpos m) (Zpos m)) as [q r]. subst q r.
  assert (new_location (Zpos m) 0 = loc_Exact) as -> by (unfold new_location; by destruct (Z.even _)).
  vm_compute. reflexivity.
Qed.

Definition one : double := S754_finite false (2 ^ 52) (-52).

(** C30. The ratio of the data whose time of writing is tracked is 0 for an empty table, and for one that has
    untracked entries only; it is exactly 1, as a [double], for one without untracked entries, however
    many there are, although a number above 2 to the power of 53 is rounded first.  The counts are added
    modulo 2 to the power of 64: where they do not fit, a table that is not empty can have no ratio at
    all, or an infinite one. *)
Theorem tracked_ratio_of_one_file (i : DataCollectionUnixWriteTimeInfo) :
  let tracked := num_entries_infinitely_old i + num_entries_write_time_aggregated i in
  0 <= num_entries_infinitely_old i → 0 <= num_entries_write_time_aggregated i →
  0 <= num_entries_write_time_untracked i → tracked + num_entries_write_time_untracked i < 2 ^ 64 →
  (tracked = 0 → TrackedDataRatio i = S754_zero false) ∧
  (0 < tracked → num_entries_write_time_untracked i = 0 → TrackedDataRatio i = one) ∧
  (∃ j, DataCollectionIsEmpty j = false ∧ TrackedDataRatio j = S754_nan) ∧
  (∃ j, HasInfinitelyOldData j = true ∧ TrackedDataRatio j = S754_infinity false).
Proof.
  intros tracked Ho Ha Hu Hsum. unfold TrackedDataRatio, DataCollectionIsEmpty. fold tracked.
  assert (∀ n, 0 <= n < 2 ^ 64 → u64 n = n) as Hsmall by (intros; by apply Z.mod_small).
  split; [|split; [|split]].
  - intros H0. assert (num_entries_infinitely_old i = 0) as -> by lia.
    assert (num_entries_write_time_aggregated i = 0) as -> by lia. rewrite H0.
    destruct (Z.eqb_spec (num_entries_write_time_untracked i) 0) as [|Hne]; [done|]. cbn [Z.eqb andb].
    rewrite !Hsmall by (rewrite ?Hsmall by lia; lia). rewrite Z.add_0_l.
    destruct (u64_is_finite (num_entries_write_time_untracked i)) as (m & e & ->); [lia|done].
  - intros Hpos ->. assert ((num_entries_infinitely_old i =? 0) && (num_entries_write_time_aggregated i =? 0) = false) as ->.
    { apply andb_false_iff. rewrite !Z.eqb_neq. lia. }
    cbn [andb]. rewrite !Hsmall by (rewrite ?Hsmall by lia; lia). rewrite Z.add_0_r.
    destruct (u64_is_finite tracked) as (m & e & ->); [lia|apply divide_same].
  - exists (mkWriteTimes 0 0 0 (2 ^ 63) (2 ^ 63) 0). split; vm_compute; reflexivity.
  - exists (mkWriteTimes 0 0 0 1 0 (2 ^ 64 - 1)). split; vm_compute; reflexivity.
Qed.
