(* ===== verification/CachesDemo.v ===== *)
(** The theorems on caches, compressors' samples, comparators, limiters, clocks, statistics, memtables, backups,
    transactional databases, batches and figures at work, on the smallest objects that show them. *)
From S2P Require Import Prelude Slice RocksStatus RocksDB Dispatch Cache CacheSpec Compression CompressionSpec.
From S2P Require Import Statistics RateLimiter SystemClock Comparator MemTableRep BackupEngine Env Db EnvDemo TransactionDb Batches Tools.

Local Open Scope Z_scope.

(** ** Helpers of caches *)

(** The helper of data blocks without a secondary cache, and the one with. *)
Definition plain_helper : CacheItemHelper := mkHelper (Some 9%positive) None None None kDataBlock (Some 1%positive).
Definition full_helper : CacheItemHelper :=
  mkHelper (Some 9%positive) (Some 5%positive) (Some 6%positive) (Some 7%positive) kDataBlock (Some 1%positive).
Definition two_helpers : list construction := [mkConstruction 1 plain_helper; mkConstruction 2 full_helper].

Lemma helpers_are_well_formed_witness :
  construct_all two_helpers ∅ = Done (tt, <[2%positive := full_helper]> (<[1%positive := plain_helper]> ∅)) ∧
  helpers_ok (<[2%positive := full_helper]> (<[1%positive := plain_helper]> ∅)).
Proof.
  split; [vm_compute; reflexivity|].
  refine (proj1 (helpers_are_well_formed two_helpers ∅ _ _ _) _ _).
  - apply (bool_decide_unpack _). vm_compute. exact I.
  - apply (bool_decide_unpack _). vm_compute. exact I.
  - intros a h H. discriminate H.
  - vm_compute. reflexivity.
Defined.

(** ** A cache in a wrapper *)

(** A cache that holds the charge of everything it was given, and listens to what is said on release. *)
Definition tiny_cache : object cache Z := λ A c,
  match c with
  | c_Insert _ _ _ charge handle _ _ _ => modify (Z.add charge) ;; mret (RocksStatus.OK, handle)
  | c_GetUsage => gets id
  | c_Release _ _ => mret false
  | c_Release_useful _ useful _ => mret useful
  | c_ApplyToHandle other _ _ => modify (λ n, from_option (λ _, n + 1) n other)
  | _ => undef NullDeref
  end.
Definition not_compiled : object cache (gmap ptr (option ptr) * Z) := λ _ _, undef NullDeref.
Definition cache_client : client cache (Z * bool) :=
  Call (c_Insert empty_slice None None 41 None Cache.LOW empty_slice 0) (λ _,
  Call (c_ApplyToHandle (Some 3%positive) None None) (λ _,
  Call (c_Release_useful None true false) (λ r, Call c_GetUsage (λ n, Finish (n, r))))).

Lemma wrapped_caches_are_the_caches_witness :
  run (Cache not_compiled (CacheWrapper tiny_cache)) cache_client ({[3%positive := Some 8%positive]}, 0) =
    Done (42, false, ({[3%positive := Some 8%positive]}, 42)) ∧
  run tiny_cache cache_client 0 = Done (42, true, 42).
Proof.
  split; [|vm_compute; reflexivity].
  refine (eq_trans (proj1 (wrapped_caches_are_the_caches not_compiled tiny_cache cache_client
    {[3%positive := Some 8%positive]} 0 _)) _); [repeat split|vm_compute; reflexivity].
Defined.

(** ** Samples *)

Lemma samples_are_verified_modulo_witness : foldr Z.add 0 [1; 1] mod 2 ^ 64 = 2.
Proof.
  refine (proj1 (proj1 (samples_are_verified_modulo (mkSamples [x61; x62] [1; 1]) _)) _); [|reflexivity].
  vm_compute. reflexivity.
Defined.

(** ** Comparators *)

(** Slices in the order of their lengths. *)
Definition by_length (a b : Slice) : Z := size a - size b.
Definition length_overrides : overriding comparator unit := λ A c,
  match c with co_Compare a b => Some (mret (by_length a b)) | _ => None end.
Definition no_comparator_code : object comparator unit := λ _ _, undef NullDeref.
Definition of_length (n : Z) : Slice := mkSlice None n.

Lemma a_comparator_is_its_order_witness :
  Comparator no_comparator_code new_Comparator None length_overrides _
    (co_EqualWithoutTimestamp (of_length 3) (of_length 3)) tt = Done (true, tt).
Proof.
  destruct (a_comparator_is_its_order no_comparator_code new_Comparator None length_overrides by_length tt)
    as (He & Hew & _); [reflexivity..|].
  rewrite Hew, He. reflexivity.
Defined.

(** ** Rate limiters *)

(** A limiter of reads and writes that counts the bytes it lets through, and knows the oldest request. *)
Definition counting_limiter : overriding rate_limiter Z := λ A c,
  match c with rl_Request2 bytes _ => Some (modify (Z.add bytes)) | _ => None end.
Definition no_limiter_code : object rate_limiter Z := λ _ _, undef NullDeref.

Lemma requests_reach_the_limiter_witness :
  RateLimiter no_limiter_code kAllIo counting_limiter _ (rl_Request4 100 0 None kRead) 5 = Done (tt, 105).
Proof.
  refine (eq_trans (proj1 (requests_reach_the_limiter no_limiter_code kAllIo counting_limiter 100 0 None kRead 5 _ _)) _);
    reflexivity.
Defined.

(** ** Clocks *)

(** A clock that ticks when it is read. *)
Definition ticking : overriding clock Z := λ A c,
  match c with k_NowMicros => Some (modify (Z.add 1) ;; gets id) | _ => None end.
Definition no_clock_code {S} : object clock S := λ _ _, undef NullDeref.
Definition two_readings : client clock Z := Call k_NowMicros (λ a, Call k_NowNanos (λ b, Finish (a + b))).

Lemma nanoseconds_are_microseconds_witness : SystemClock no_clock_code ticking _ k_NowNanos 6 = Done (7000, 7).
Proof.
  refine (proj1 (nanoseconds_are_microseconds no_clock_code ticking 6 7 7 _ _ _) _); [reflexivity|reflexivity|lia|lia].
Defined.
Lemma wrapped_clocks_are_the_clocks_witness :
  run (SystemClock no_clock_code (SystemClockWrapper (SystemClock no_clock_code ticking))) two_readings (tt, 0) =
    Done (2001, (tt, 2)).
Proof.
  refine (eq_trans (wrapped_clocks_are_the_clocks no_clock_code (SystemClock no_clock_code ticking) two_readings 0 _) _);
    [repeat split|vm_compute; reflexivity].
Defined.

(** ** Statistics *)

(** A class of the old generation: it overrides [measureTime]. *)
Definition old_statistics : overriding (statistics unit) (StatsLevel * Z) := λ A c,
  match c with st_measureTime _ time => Some (modify (λ st, (st.1, st.2 + time))) | _ => None end.
Definition no_statistics_code : object (statistics unit) (StatsLevel * Z) := λ _ _, undef NullDeref.

Lemma times_are_recorded_by_either_name_witness :
  Statistics msg0 no_statistics_code old_statistics _ (st_reportTimeToHistogram 0 30) (new_Statistics 12) =
    Done (tt, (kExceptDetailedTimers, 42)).
Proof.
  refine (eq_trans (proj1 (times_are_recorded_by_either_name msg0 no_statistics_code old_statistics
    kExceptDetailedTimers 12 0 30 _)) _); reflexivity.
Defined.

(** ** Memtables *)

Definition no_memtable_code : object memtable_rep (list (option ptr)) := λ _ _, undef NullDeref.
Definition append_entry (h : option ptr) : M (list (option ptr)) unit := modify (λ l, l ++ [h]).
Lemma entries_are_inserted_once_witness :
  MemTableRep msg0 no_memtable_code (basic _ append_entry append_entry) _
    (mr_InsertKeyWithHintConcurrently (Some 3%positive) None) [None] = Done (true, [None; Some 3%positive]).
Proof.
  refine (eq_trans (entries_are_inserted_once msg0 no_memtable_code append_entry append_entry
    (Some 3%positive) _ _ true (λ _, true) [None] _) _); [constructor|reflexivity].
Defined.

(** ** Backups *)

Lemma naming_and_flags_round_trip_witness :
  ∃ naming, naming_or kUseDbSessionId kFlagIncludeFileSize = Done naming ∧ 0 <= naming < 2 ^ 32 ∧
    naming_and naming kMaskNoNamingFlags = Done kUseDbSessionId ∧
    naming_and naming kFlagIncludeFileSize = Done kFlagIncludeFileSize.
Proof.
  apply (proj1 (naming_and_flags_round_trip kUseDbSessionId kFlagIncludeFileSize));
    [reflexivity|split; vm_compute; congruence|split; vm_compute; congruence|].
  apply high_only_land. reflexivity.
Defined.

(** An engine that notes whether it was to flush, with the metadata. *)
Definition create_note (o : CreateBackupOptions) (db : option ptr) (m : list byte) (id : option Z) :
    M (list (bool * list byte)) (Status * option Z) :=
  modify (λ l, (flush_before_backup o, m) :: l) ;; mret (RocksStatus.OK, (λ _, 1) <$> id).
Definition noting_engine : overriding append_engine (list (bool * list byte)) := λ A c,
  match c with be_CreateNewBackupWithMetadata o db m id => Some (create_note o db m id) | _ => None end.
Definition no_engine_code : object append_engine (list (bool * list byte)) := λ _ _, undef NullDeref.
Lemma backups_are_created_one_way_witness :
  BackupEngineAppendOnlyBase no_engine_code noting_engine _ (be_CreateNewBackup_flush None true None) [] =
    Done (RocksStatus.OK, [(true, [])]).
Proof.
  refine (eq_trans (proj2 (proj2 (backups_are_created_one_way no_engine_code create_note noting_engine
    new_CreateBackupOptions None [] true None None [] _ _ _ _))) _); reflexivity.
Defined.

(** ** A transactional database *)

(** A class that answers writes itself: it lets none through. *)
Definition locking (A : Type) (c : db V0 unit A) : option (M (unit * list (option ptr * Slice)) A) :=
  match c with db_Put _ _ _ _ => Some (mret (Busy kNone)) | _ => None end.
Abbreviation db_transactional := (DB msg0 compiled0 no_iterator no_comparator (() : V0 "double") (() : V0 "ReadOptions")
  (Some 3%positive) (TransactionDB locking db_below)).
Lemma transactions_refuse_ranges_witness :
  db_transactional _ (db_DeleteRange_default (() : V0 "WriteOptions") empty_slice empty_slice) (tt, []) =
    Done (NotSupported kNone, (tt, [])).
Proof.
  refine (eq_trans (proj1 (proj2 (transactions_refuse_ranges msg0 db_below locking compiled0 no_iterator
    no_comparator (() : V0 "double") (() : V0 "ReadOptions") (Some 3%positive) (tt, [])
    (() : V0 "WriteOptions") None empty_slice empty_slice new_TransactionDBWriteOptimizations None _ _))) _);
    [done|done|vm_compute; reflexivity].
Defined.

(** ** Batches *)

Abbreviation batch0 := (batch unit unit).
(** A batch that notes the column family of each key that is put. *)
Definition noting_batch : overriding batch0 (WriteBatchMembers * list (option ptr)) := λ A c,
  match c with wb_Put_cf cf _ _ => Some (modify (λ st, (st.1, cf :: st.2)) ;; mret RocksStatus.OK) | _ => None end.
Definition no_batch_code {S} : object batch0 S := λ _ _, undef NullDeref.
Definition puts : client batch0 Status :=
  Call (wb_Put_cf (Some 4%positive) empty_slice empty_slice) (λ _,
  Call (wb_Put empty_slice empty_slice) (λ s, Finish s)).
Lemma unnamed_writes_are_writes_to_the_null_family_witness :
  run (WriteBatch no_batch_code None noting_batch) puts (mkWriteBatch [] 0, []) =
    Done (RocksStatus.OK, (mkWriteBatch [] 0, [None; Some 4%positive])).
Proof.
  refine (eq_trans (proj1 (unnamed_writes_are_writes_to_the_null_family no_batch_code None noting_batch puts
    (mkWriteBatch [] 0, []) _)) _); [intros A c; by destruct c|vm_compute; reflexivity].
Defined.

(** An index that counts what is put. *)
Definition counting_index : object batch0 Z := λ A c,
  match c with wb_Put_cf _ _ _ => modify (Z.add 1) ;; mret RocksStatus.OK | _ => undef NullDeref end.
Definition put_and_delete : client batch0 (Status * Status) :=
  Call (wb_Put_cf None empty_slice empty_slice) (λ s,
  Call (wb_DeleteRange empty_slice empty_slice) (λ s', Finish (s, s'))).
Lemma msg0_code c sc m m2 sev : code (msg0 c sc m m2 sev) = c.
Proof. reflexivity. Qed.
Lemma indexed_batches_refuse_without_a_trace_witness :
  run (WriteBatchWithIndex msg0 counting_index) put_and_delete 6 =
    run counting_index (answered (refused msg0) put_and_delete) 6.
Proof. exact (proj1 (indexed_batches_refuse_without_a_trace msg0 msg0_code counting_index put_and_delete 6)). Defined.

(** ** Figures *)

(** A number that no [double] is exactly: both sides are rounded alike. *)
Lemma tracked_ratio_of_one_file_witness :
  TrackedDataRatio (mkWriteTimes 0 0 0 (2 ^ 53) 1 0) = one.
Proof.
  refine (proj1 (proj2 (tracked_ratio_of_one_file (mkWriteTimes 0 0 0 (2 ^ 53) 1 0) _ _ _ _)) _ _);
    first [reflexivity | apply Z.leb_le; vm_compute; reflexivity | apply Z.ltb_lt; vm_compute; reflexivity].
Defined.
Lemma verification_flags_are_sets_witness :
  flags_not (flags_and (flags_or Tools.kVerifyBlockChecksum kEnableForLocalCompaction) kVerifyIteration) = true.
Proof.
  refine (proj2 (proj2 (proj2 (proj2 (proj2 (proj2 (proj2 (verification_flags_are_sets
    (flags_or Tools.kVerifyBlockChecksum kEnableForLocalCompaction) kVerifyIteration _ _))))))) _);
    [split; apply Z.leb_le; vm_compute; reflexivity..|].
  intros i Hi. assert (i = 0 ∨ i = 1 ∨ i = 10 ∨ (i ≠ 0 ∧ i ≠ 1 ∧ i ≠ 10)) as [->|[->|[->|(H0 & H1 & H10)]]] by lia;
    [reflexivity..|]. unfold flags_or, Tools.kVerifyBlockChecksum, kEnableForLocalCompaction, kVerifyIteration.
  rewrite Z.lor_spec, !Z.shiftl_1_l, !Z.pow2_bits_false by lia. reflexivity.
Defined.
